(* ===== verification/_CoqProject ===== *)
-Q . S2P
Prelude.v
BitList.v
Bits.v
StreamBuffer.v
VectorStreamBuffer.v
MemoryBlock.v
Unicode.v
Stream.v
BitStream.v
BitStreamSpec.v
ByteStream.v
ByteStreamSpec.v
Streamable.v
FactoryStreams.v
RpcTypes.v
ReadSafety.v
Srpc.v
Packet.v
Marshaller.v
SecurePacket.v
SecurePacketSpec.v
MarshallerSafety.v
SortedVector.v
MemoryPool.v
VariousAllocator.v
SmartPtr.v
BandwidthLimit.v
StateMachine.v
TcpSession.v
TcpSessionSpec.v
SessionHandle.v
SessionLayer.v
SessionArrival.v
RpcInterface.v
SeedExchange.v
SeedExchangeSpec.v
RsaCipher.v
Timers.v
Heartbeat.v
ServerSession.v
ServerSessionSpec.v
Monitors.v
DatabasePool.v
DatabaseRequest.v
ProxyScheduler.v
DatabaseProxyServer.v
Futures.v
TaskScheduler.v
SessionManager.v
SessionManagerSpec.v
ServerSpec.v
SessionConfigs.v
ServerConfig.v
Text.v
Rcon.v
ServerApp.v
SessionApp.v
DatabaseProxyApp.v
SessionAppSpec.v
Finalization.v
AdoVariant.v
AdoDatabase.v
SqlServer.v
ServerProxies.v
ClientBridge.v
Connecting.v
S2sAuthentication.v
StreamProperties.v
PacketProperties.v
MemoryProperties.v
SessionProperties.v
RpcProperties.v
ExchangeProperties.v
HeartbeatProperties.v
DatabaseProperties.v
TaskProperties.v
ManagerProperties.v
ServerToServerProperties.v
AppProperties.v
AdoProperties.v
