(* ===== verification/Prelude.v ===== *)
(** * SNE: a verification library of the core of a C++ network engine

    SNE is a network engine for game servers: messages are written to bit- or
    byte-packed streams over buffers, framed (and encrypted) into packets by a
    marshaller, and sent and received by sessions that an [io_context] drives.  On the
    sessions it builds managers, bridges between servers, a proxy of databases and the
    applications that start and finish a server.
    This development models them in shallow embedding and proves them correct.
    Paths are relative to [src/].

    ** How the program's parts are modelled

    - core/utility ([include/sne/core/utility/Bits.h], [Endian.h], [Hash.h],
      [src/core/utility/Unicode.cpp]): [Bits.v] (the integer types of the streams,
      [MaxNumber], the hash), [Unicode.v] ([toUtf8], [fromUtf8] for a 32-bit
      [wchar_t]); byte order is in [ByteStream.v].  [Text.v] has the comparison and the
      hash of strings without their case, [AuthlogicSha512Hash] of security/hash over
      the hash of CryptoPP, [formatString], [Exception] and the log's messages, with
      [vsnprintf] as each platform documents it.  [BitList.v] holds the bits and
      the little-endian bytes of a number, the reference the streams are proved
      against.
    - core/stream: [StreamBuffer.v] is the interface [StreamBuffer] (a class, with its
      laws as a second class), implemented by [VectorStreamBuffer.v] and by
      [MemoryBlock.v] ([MemoryBlock.h], [MemoryBlockStreamBuffer.h]).  [Stream.v] has
      the interfaces [OStream] and [IStream] and the laws of a pair of streams
      ([StreamPair]: what a writer puts, a reader gets).  [BitStream.v] and
      [ByteStream.v] model [OBitStream], [IBitStream], [OByteStream], [IByteStream];
      [BitStreamSpec.v] and [ByteStreamSpec.v] prove the laws for them over any buffer.
      [Streamable.v] models [SneStreamFactory], [operator&] and [serialize];
      [FactoryStreams.v] proves the laws for the streams the factory makes over message
      blocks, as the class [Transport] that a session needs.  [ReadSafety.v] proves what
      a read of arbitrary bytes does: an exception or a value of its type, never
      undefined behaviour (class [SafeIStream]).
    - srpc: [RpcTypes.v] ([RpcTypes.h], [RpcContainers.h]), over any pair of streams;
      [Srpc.v] ([RpcCommand], [RpcForwarder], the functors and events the macros
      generate, [RpcReceiver], [RpcNetwork]); [RpcInterface.v] (the macros that declare and
      implement an interface, the identities of methods, the maps of events).
    - sgp/protocol: [Packet.v] (headers, the class [PacketCoder] with its contract
      [PacketCoderSpec], [CsPacketCoder]), [SecurePacket.v] and [SecurePacketSpec.v]
      ([SecurePacketCoder], [BlockCipherImpl], [CipherKeyGenerator]); [SeedExchange.v] and
      [SeedExchangeSpec.v] (both ends of [PacketSeedExchanger], the packets between
      them, the invariant of their runs).  security/cipher: [RsaCipher.v] ([RsaCipher] over
      the engine of CryptoPP).
    - sgp/session: [Marshaller.v] ([SgpMarshaller] over any coder with the contract),
      [MarshallerSafety.v] (the same on arbitrary input).
    - base/memory: [SortedVector.v] ([std::lower_bound]), [MemoryPool.v] (the pool and the
      manager of message blocks), [VariousAllocator.v]; of core/utility [SmartPtr.v] ([SmartPtr],
      [SharedObject] and the threads that share objects, over a store of the pointers).
    - base/session: [BandwidthLimit.v]; [TcpSession.v] ([TcpSessionImpl] and its
      timers as a machine of [io_context] events) and [TcpSessionSpec.v];
      [SessionLayer.v] ([SessionImpl], [Session], [MessagingExtension], and of
      sgp/session [RpcingExtension] and the order of the extensions), [SessionArrival.v] (what
      the packets of one end do at the other); [SessionHandle.v] (the life of a [Session]'s
      implementation); [SessionConfigs.v] (configurations, the factories of ciphers, coders,
      extensions and sessions).
    - base/io_context, server/session, client/session: [Timers.v] ([AsioTimer] with its
      times, and a machine of an object with timers, the clock and the calls);
      [Heartbeat.v] ([HeartBeatReceiver], [Heartbeater]); [ServerSession.v]
      ([ServerSideSession], [ClientSideSession], [ClientSession]) and
      [ServerSessionSpec.v].
    - core/fsm: [StateMachine.v].
    - database: [Monitors.v] (threads that wait on a condition), [DatabasePool.v]
      ([DatabasePool], [DirectDatabaseManager] and the threads that share it),
      [DatabaseRequest.v] ([ModifyRequest], [Param] and the call of ADO they become),
      [ProxyScheduler.v] ([ProxyScheduler] and its threads), [DatabaseProxyServer.v]
      ([DatabaseProxyService], the sessions of the server and of its clients),
      [DatabaseProxyApp.v] ([DatabaseManagerFactory], [BaseDatabaseProxyServerApp]).
      database/ado: [AdoVariant.v] (the conversions of the values of a database),
      [AdoDatabase.v] (the connection, record sets, commands and parameters over ADO),
      [SqlServer.v] ([SqlServerProxyDatabase], which calls a stored procedure).
    - base/concurrent: [Futures.v] ([SyncFuture] and [AsyncFuture] with the threads that
      wait), [TaskScheduler.v] ([ScheduledTaskFuture], [TaskScheduler], and the choice of
      an [io_context] by [IoContextTask]).
    - base/session/manager, base/io_context, server/session: [SessionManager.v]
      ([CachedSessionManager] with its [SessionPool], [IoContextAcceptor],
      [IoContextConnector], [ServerSideSessionManager]) with [SessionManagerSpec.v].
    - server/s2s: [ServerProxies.v] ([ServerSideBridge], [ManagedServerSideProxy] and the map
      of [ServerSideProxyManager]) and [ClientBridge.v] ([ClientSideBridgeConnector] and
      [ClientSideBridge], which reconnect).  [Connecting.v] has what waits for a connection:
      [TcpSessionImpl::connect], [ClientSession::connectAndValidate] and the
      [ClientSideProxy], over any turns of their loops.  [S2sAuthentication.v] joins the
      bridges and proxies of two servers by the calls of their sessions.
    - server/common, server/config, base/utility, server/rcon, server/app:
      [ServerSpec.v] (addresses, [ServerSpec], [ServerInfo]); [ServerConfig.v] (the reader
      of configurations as a class, [ServerConfig], the filter of the log);
      [Rcon.v] (queries and commands); [ServerApp.v] ([ServerApp] over its virtual
      methods, the class [ServerAppHooks] with the laws [ServerAppSpec]);
      [SessionApp.v] and [SessionAppSpec.v] ([SessionServerApp], which keeps those laws);
      [Finalization.v] (how [finalize] ends, or waits).

    State is a Record with the members of the class.  A method is a function in the
    state monad [st] of this file, whose outcome is a value, an exception of the
    program, or [Undefined] behaviour, with what was written before it kept.
    Integers are [Z] with the width written out ([uint], [sint]); bytes are numbers.

    ** How they interact

    A remote call of a forwarder, or a typed message, is serialized by
    [SessionLayer.v] over the session's stream into a block of its provider; the
    marshaller turns the block into a packet with a [PacketCoder]; the session queues
    it and writes it.  Bytes received are put in the marshaller's block; [unmarshal]
    cuts and decodes packets and calls the session back, whose extensions read the
    message with the session's input stream and call the application: the callback of
    the message's type, or the method of the receiver that has the call's event.  Each
    interface is a class, and a client's theorems use the class only: the streams those
    of [StreamBufferSpec], the containers and the calls [StreamPair], the marshaller
    [PacketCoderSpec], the session [MarshallerSpec], the extensions [Transport] and
    [MemoryBlockProviderSpec], the forwarder [RpcSender].

    The acceptors of a manager open sessions of a pool, and count them until they report
    their end; a server application starts its tasks, its manager, its monitor and its
    acceptors in the order of [onInit] and [onStart], and undoes it part by part in
    [onFinish].  The database server derives from it: the messages of its sessions are
    scheduled as requests, which the threads of the scheduler call on a database taken from the
    pool.  An application derives from another by the class [ServerAppHooks], and
    keeps [ServerAppSpec] when that one does.

    ** What the theorems show

    - [StreamProperties.v]: messages and containers are read back as they were written,
      for both kinds of streams; bits are written and read exactly; UTF-8 round trips
      and cuts; the buffers refine a list used as a queue.
    - [PacketProperties.v]: end-to-end delivery of messages, plain and encrypted, for any
      split into reads; safety on arbitrary bytes; acceptance of encrypted packets;
      seeds; headers.
    - [MemoryProperties.v]: the pool under any interleaving of its callers; message
      blocks; the allocator under any client; objects of counted pointers are deleted
      once, when nothing refers to them, whatever the interleaving of the threads.
    - [SessionProperties.v]: the limit of bandwidth; the state machine; invariants of
      every reachable state of a session, the draining of its queue, disconnection.
    - [RpcProperties.v]: calls and typed messages from the application of one end to the
      application of the other; the dispatch of calls against its specification; what
      becomes of calls and messages that cannot be written, read or dispatched; the calls
      of an interface reach the methods of the implementation, and the names whose
      identities collide.
    - [ExchangeProperties.v]: the ends of the seed exchange stay in step under any
      interleaving, and finish, when messages are marshalled at once; what happens when
      they are posted.
    - [HeartbeatProperties.v]: heartbeats keep a session, silence and missing
      authentication end it, all with bounds on time; the timers that are disabled by
      being set again.
    - [DatabaseProperties.v]: requests are received as they were sent, and with valid
      types whatever arrives; databases are never shared and waiting threads are woken;
      each request is called once, and from the session to the database.
    - [AdoProperties.v]: integers are read as the numbers they are, or not; a call over
      ADO refines the call of a request; reconnection, counts, strings freed twice.
    - [TaskProperties.v]: tasks run when they are due, with bounds on their number; what
      cancelling and waiting do; the round robin of contexts that leaves its vector.
    - [ManagerProperties.v]: the active sessions are those that are connected or waited with,
      none twice; the connection whose session is given back twice.
    - [ServerToServerProperties.v]: the proxies registered are those of the authenticated
      servers; authentication from the bridge of a server to the proxy of the other and
      back; reconnection after a refusal; the attempts that never succeed.
    - [AppProperties.v]: the life of a server, of sessions or of databases, from its start
      to the end of [finalize]; what the monitor answers; when [finalize] waits for ever;
      specifications sent to another server.

    Each of these files also proves, on concrete runs or in general, where the code
    departs from what it means to do: a graceful disconnection that is lost, blocks
    that are never released, a message after the end of the session, a key schedule
    that ignores the key, timers that stop, and others.

    ** Fuel

    Loops with a counter or a list recurse on it.  The others have fuel: the loops over
    bits have as much as there are bits left ([push_loop], [pop_loop]), [fromUtf8] the
    number of octets, [process] the length of its input, [decimal_loop] the number
    itself, [unmarshal_loop] one more than the bytes received (a turn takes a packet of
    at least a header).  The theorems prove that results are reached, so that the fuel
    is never exhausted.

    ** Library code

    CryptoPP's engines and hashes, ADO and the types of COM, boost's [rand48] and
    [crc_32_type], [new] and the allocators are parameters with the laws they document; [boost::asio] is the set of operations and
    closures in progress, whose completions are events in any order of the kinds, each
    kind first in first out.

    ** Not modelled

    The parameters of ADO with floating-point types; crash handling (the handlers and dump
    functions of one operating system), profiling and system calls; the launcher; the
    parsers of boost for options and ini files; the options and the addresses of sockets;
    the conversions of [vsnprintf] and the attributes and sinks of boost's log. *)

From stdpp Require Export base tactics list numbers option strings gmap fin_maps.
From Stdlib Require Export ZArith Lia Znumtheory.

#[global] Open Scope Z_scope.

(** ** Outcomes of C++ code: a value, an exception, or undefined behaviour *)

(** [_com_error], with the texts that its methods give, null or not. *)
Record com_error := mkComError {
  ce_Error : Z;
  ce_ErrorMessage : option string;
  ce_Source : option string;
  ce_Description : option string;
}.
#[global] Instance com_error_eq_dec : EqDecision com_error.
Proof. solve_decision. Defined.

Inductive exn :=
| ComError (e : com_error)
| AdoException (what : string)
| StreamingException (what : string)
| UnknownRpcMethodException
| BadAlloc
| RuntimeError (what : string)                 (* [std::runtime_error], and what derives from it *)
| NotDefinedConfigError (section key : string)
| OutOfFuel
| Undefined (what : string).

#[global] Instance exn_eq_dec : EqDecision exn.
Proof. solve_decision. Defined.

Inductive result (A : Type) :=
| Ok (a : A)
| Throw (e : exn).
Arguments Ok {A} a.
Arguments Throw {A} e.

(** A method: it reads and writes an object of type [S]; what it wrote before
    an exception left it stays written. *)
Definition st (S A : Type) := S → result A * S.

#[global] Instance st_ret S : MRet (st S) := λ A a s, (Ok a, s).
#[global] Instance st_bind S : MBind (st S) := λ A B f m s,
  match m s with
  | (Ok a, s') => f a s'
  | (Throw e, s') => (Throw e, s')
  end.
#[global] Instance st_fmap S : FMap (st S) := λ A B f m s,
  match m s with
  | (Ok a, s') => (Ok (f a), s')
  | (Throw e, s') => (Throw e, s')
  end.

Definition throw {S A} (e : exn) : st S A := λ s, (Throw e, s).
Definition get_st {S} : st S S := λ s, (Ok s, s).
Definition gets {S A} (f : S → A) : st S A := λ s, (Ok (f s), s).
Definition modify {S} (f : S → S) : st S unit := λ s, (Ok tt, f s).

(** A method of a member object, run inside the object that holds it. *)
Definition zoom {S T A} (g : S → T) (p : T → S → S) (m : st T A) : st S A :=
  λ s, let '(r, t) := m (g s) in (r, p t s).

Section state_monad.
Context {S : Type}.

Lemma bind_ok {A B} (m : st S A) (f : A → st S B) s a s' :
  m s = (Ok a, s') → (m ≫= f) s = f a s'.
Proof. intros H. unfold mbind, st_bind. by rewrite H. Qed.

Lemma bind_throw {A B} (m : st S A) (f : A → st S B) s e s' :
  m s = (Throw e, s') → (m ≫= f) s = (Throw e, s').
Proof. intros H. unfold mbind, st_bind. by rewrite H. Qed.

Lemma bind_Ok_inv {A B} (m : st S A) (f : A → st S B) s b s'' :
  (m ≫= f) s = (Ok b, s'') → ∃ a s', m s = (Ok a, s') ∧ f a s' = (Ok b, s'').
Proof. unfold mbind, st_bind. destruct (m s) as [[a|e] s'] eqn:E; naive_solver. Qed.

Lemma mret_run {A} (a : A) (s : S) : (mret a : st S A) s = (Ok a, s).
Proof. done. Qed.

Lemma gets_run {A} (f : S → A) (s : S) : gets f s = (Ok (f s), s).
Proof. done. Qed.

Lemma modify_run (f : S → S) (s : S) : modify f s = (Ok tt, f s).
Proof. done. Qed.

Lemma zoom_run {T A} (g : S → T) (p : T → S → S) (m : st T A) s r t :
  m (g s) = (r, t) → zoom g p m s = (r, p t s).
Proof. intros H. unfold zoom. by rewrite H. Qed.
End state_monad.

(** Runs the first command of a sequence whose outcome is known. *)
Ltac st_step H := rewrite (bind_ok _ _ _ _ _ H).
Ltac st_inv H :=
  let a := fresh "a" in let s := fresh "s" in
  let H1 := fresh "Hrun" in
  apply bind_Ok_inv in H as (a & s & H1 & H).

(** ** Strings of C *)

(** A string assigned from a pointer to its characters: up to the first zero. *)
Fixpoint c_string (s : list Z) : list Z :=
  match s with
  | [] => []
  | c :: s => if c =? 0 then [] else c :: c_string s
  end.

Lemma c_string_app s rest : 0 ∉ s → c_string (s ++ 0 :: rest) = s.
Proof.
  induction s as [|c s IH]; [done|]. intros [Hc Hs]%not_elem_of_cons. cbn. destruct (Z.eqb_spec c 0) as [->|_]; [done|].
  by rewrite IH.
Qed.

(** ** Machine integers *)

(** The value an unsigned type of [w] bits keeps. *)
Definition uint (w z : Z) : Z := z mod 2 ^ w.
(** The value a two's complement type of [w] bits keeps. *)
Definition sint (w z : Z) : Z := (z + 2 ^ (w - 1)) mod 2 ^ w - 2 ^ (w - 1).

Definition is_uint (w z : Z) : Prop := 0 ≤ z < 2 ^ w.
Definition is_sint (w z : Z) : Prop := - 2 ^ (w - 1) ≤ z < 2 ^ (w - 1).
Abbreviation is_byte := (is_uint 8).

Lemma pow2_pos n : 0 ≤ n → 0 < 2 ^ n.
Proof. intros. by apply Z.pow_pos_nonneg. Qed.

Lemma pow2_split a b : 0 ≤ a → 0 ≤ b → 2 ^ (a + b) = 2 ^ a * 2 ^ b.
Proof. intros. by apply Z.pow_add_r. Qed.

Lemma pow2_pred w : 0 < w → 2 ^ w = 2 * 2 ^ (w - 1).
Proof. intros. replace w with (1 + (w - 1)) at 1 by lia. by rewrite pow2_split by lia. Qed.

Lemma uint_range w z : 0 ≤ w → is_uint w (uint w z).
Proof. intros. apply Z.mod_pos_bound. by apply pow2_pos. Qed.

Lemma uint_id w z : is_uint w z → uint w z = z.
Proof. apply Z.mod_small. Qed.

Lemma sint_range w z : 0 < w → is_sint w (sint w z).
Proof.
  intros. unfold is_sint, sint. pose proof (pow2_pred w H).
  pose proof (Z.mod_pos_bound (z + 2 ^ (w - 1)) (2 ^ w)). pose proof (pow2_pos (w - 1)). lia.
Qed.

Lemma sint_id w z : 0 < w → is_sint w z → sint w z = z.
Proof.
  intros Hw [??]. unfold sint. pose proof (pow2_pred w Hw). rewrite Z.mod_small; lia.
Qed.

(** Casting to signed undoes casting to unsigned, and conversely. *)
Lemma sint_uint w z : 0 < w → sint w (uint w z) = sint w z.
Proof. intros. unfold sint, uint. by rewrite Zplus_mod_idemp_l. Qed.

Lemma uint_sint w z : 0 < w → uint w (sint w z) = uint w z.
Proof.
  intros. unfold sint, uint. rewrite Zminus_mod_idemp_l. f_equal. lia.
Qed.

Lemma uint_mod_le a b z : 0 ≤ a ≤ b → uint a (uint b z) = uint a z.
Proof.
  intros. unfold uint. symmetry. apply Znumtheory.Zmod_div_mod; [apply pow2_pos; lia..|].
  exists (2 ^ (b - a)). rewrite <- pow2_split by lia. f_equal. lia.
Qed.

Lemma sint_uint_le a b z : 0 < a ≤ b → sint a (uint b z) = sint a z.
Proof. intros. rewrite <- (sint_uint a (uint b z)), uint_mod_le, sint_uint; lia || done. Qed.

Lemma is_uint_mono a b z : 0 ≤ a ≤ b → is_uint a z → is_uint b z.
Proof. unfold is_uint. intros. pose proof (Z.pow_le_mono_r 2 a b). lia. Qed.

Lemma is_byte_uint8 z : is_byte (uint 8 z).
Proof. by apply uint_range. Qed.

Create HintDb sne.
#[export] Hint Resolve is_byte_uint8 uint_range sint_range : sne.
