(* ===== verification/BitList.v ===== *)
(** * Bits and bytes as lists

    The vocabulary of the stream specifications: the [n] low bits of an
    integer, least significant first; the bits of a list of bytes; and the
    little-endian byte image of an integer.  No definition of this file models
    code by itself. *)

From S2P Require Import Prelude.

(** ** The low bits of an integer, least significant first *)

Fixpoint bits_of (n : nat) (z : Z) : list bool :=
  match n with
  | O => []
  | S n => Z.odd z :: bits_of n (Z.div2 z)
  end.

Fixpoint Z_of_bits (bs : list bool) : Z :=
  match bs with
  | [] => 0
  | b :: bs => Z.b2z b + 2 * Z_of_bits bs
  end.

Definition bits_of_bytes (l : list Z) : list bool := mjoin (bits_of 8 <$> l).

(** ** The little-endian bytes of an integer *)

Fixpoint le_split (n : nat) (z : Z) : list Z :=
  match n with
  | O => []
  | S n => uint 8 z :: le_split n (z / 256)
  end.

Fixpoint le_combine (l : list Z) : Z :=
  match l with
  | [] => 0
  | b :: l => b + 256 * le_combine l
  end.

Lemma length_bits_of n z : length (bits_of n z) = n.
Proof. revert z. induction n; intros; simpl; auto. Qed.

Lemma bits_of_lookup n z i :
  (i < n)%nat → bits_of n z !! i = Some (Z.testbit z (Z.of_nat i)).
Proof.
  revert z i. induction n as [|n IH]; intros z [|i] Hi; [lia..|done|].
  rewrite Nat2Z.inj_succ. simpl. rewrite IH by lia.
  by rewrite Z.div2_spec, Z.shiftr_spec by lia.
Qed.

Lemma bits_of_app n m z : bits_of (n + m) z = bits_of n z ++ bits_of m (z / 2 ^ Z.of_nat n).
Proof.
  revert z. induction n as [|n IH]; intros z; simpl.
  - by rewrite Z.div_1_r.
  - f_equal. rewrite IH. do 2 f_equal. rewrite Z.div2_div, Z.div_div by lia.
    f_equal. rewrite <- (Z.pow_1_r 2) at 1. rewrite <- Z.pow_add_r by lia. f_equal. lia.
Qed.

Lemma bits_of_ext n x y :
  (∀ i, 0 ≤ i < Z.of_nat n → Z.testbit x i = Z.testbit y i) → bits_of n x = bits_of n y.
Proof.
  intros H. apply list_eq. intros i. destruct (decide (i < n)%nat).
  - rewrite !bits_of_lookup by done. f_equal. apply H. lia.
  - rewrite !lookup_ge_None_2 by (rewrite length_bits_of; lia). done.
Qed.

Lemma bits_of_uint n w z : Z.of_nat n ≤ w → bits_of n (uint w z) = bits_of n z.
Proof. intros. apply bits_of_ext. intros. apply Z.mod_pow2_bits_low. lia. Qed.

Lemma bits_of_0 n : bits_of n 0 = replicate n false.
Proof. induction n as [|n IH]; simpl; [done|]. by rewrite <- IH. Qed.

(** An integer below [2^n] has only zeros from bit [n] on. *)
Lemma bits_of_small n m z :
  is_uint (Z.of_nat n) z → bits_of (n + m) z = bits_of n z ++ replicate m false.
Proof. intros [??]. rewrite bits_of_app, Z.div_small by lia. by rewrite bits_of_0. Qed.

Lemma Z_of_bits_app a b :
  Z_of_bits (a ++ b) = Z_of_bits a + 2 ^ Z.of_nat (length a) * Z_of_bits b.
Proof.
  induction a as [|x a IH]; simpl length; simpl app; [simpl; lia|].
  change (Z_of_bits (x :: a ++ b)) with (Z.b2z x + 2 * Z_of_bits (a ++ b)).
  rewrite IH, Nat2Z.inj_succ, Z.pow_succ_r by lia. simpl. lia.
Qed.

Lemma Z_of_bits_range bs : is_uint (Z.of_nat (length bs)) (Z_of_bits bs).
Proof.
  induction bs as [|b bs IH]; [by split|]. unfold is_uint in *. simpl length.
  rewrite Nat2Z.inj_succ, Z.pow_succ_r by lia. simpl. destruct b; simpl; lia.
Qed.

Lemma Z_of_bits_of n z : Z_of_bits (bits_of n z) = uint (Z.of_nat n) z.
Proof.
  revert z. induction n as [|n IH]; intros z.
  - simpl. unfold uint. by rewrite Z.mod_1_r.
  - simpl bits_of. simpl Z_of_bits. rewrite IH. unfold uint.
    rewrite Nat2Z.inj_succ, Z.pow_succ_r by lia.
    rewrite Z.rem_mul_r by lia. rewrite Z.div2_div, Zmod_odd. by destruct (Z.odd z).
Qed.

Lemma bits_of_Z_of_bits bs : bits_of (length bs) (Z_of_bits bs) = bs.
Proof.
  induction bs as [|b bs IH]; [done|]. cbn [length Z_of_bits bits_of]. f_equal.
  - rewrite Z.odd_add_mul_2. by destruct b.
  - rewrite Z.div2_div, Z.mul_comm, Z.div_add by lia.
    replace (Z.b2z b / 2) with 0 by (by destruct b). exact IH.
Qed.

Lemma Z_of_bits_inj a b : length a = length b → Z_of_bits a = Z_of_bits b → a = b.
Proof. intros Hl H. rewrite <- (bits_of_Z_of_bits a), Hl, H. apply bits_of_Z_of_bits. Qed.

Lemma Z_of_bits_zeros n : Z_of_bits (replicate n false) = 0.
Proof. induction n; simpl; lia. Qed.

(** ** Disjoint [or] is addition *)

Lemma lor_shiftl_disjoint a b s :
  is_uint s a → 0 ≤ s → Z.lor a (Z.shiftl b s) = a + b * 2 ^ s.
Proof.
  intros Ha Hs. rewrite <- Z.shiftl_mul_pow2 by done.
  assert (Hd : Z.land a (Z.shiftl b s) = 0).
  { apply Z.bits_inj'. intros i Hi. rewrite Z.land_spec, Z.bits_0.
    destruct (decide (i < s)).
    - rewrite Z.shiftl_spec_low by done. by rewrite andb_false_r.
    - rewrite <- (uint_id s a Ha). unfold uint. by rewrite Z.mod_pow2_bits_high by lia. }
  by rewrite Z.add_nocarry_lxor, Z.lxor_lor.
Qed.

Lemma uint_lor w a b : 0 ≤ w → uint w (Z.lor a b) = Z.lor (uint w a) (uint w b).
Proof. intros. unfold uint. rewrite <- !Z.land_ones by done. apply Z.land_lor_distr_l. Qed.

Lemma bits_of_lor n a b : bits_of n (Z.lor a b) = zip_with orb (bits_of n a) (bits_of n b).
Proof.
  apply list_eq. intros i. rewrite lookup_zip_with. destruct (decide (i < n)%nat).
  - rewrite !bits_of_lookup by done. simpl. by rewrite Z.lor_spec.
  - rewrite (lookup_ge_None_2 (bits_of n (Z.lor a b))) by (rewrite length_bits_of; lia).
    by rewrite (lookup_ge_None_2 (bits_of n a)) by (rewrite length_bits_of; lia).
Qed.

(** ** Bits of bytes *)

Lemma bits_of_bytes_cons b l : bits_of_bytes (b :: l) = bits_of 8 b ++ bits_of_bytes l.
Proof. done. Qed.

Lemma bits_of_bytes_app a b : bits_of_bytes (a ++ b) = bits_of_bytes a ++ bits_of_bytes b.
Proof. unfold bits_of_bytes. by rewrite fmap_app, join_app. Qed.

Lemma length_bits_of_bytes l : length (bits_of_bytes l) = (8 * length l)%nat.
Proof.
  induction l as [|b l IH]; [done|].
  rewrite bits_of_bytes_cons, length_app, length_bits_of, IH. simpl. lia.
Qed.

Lemma bits_of_bytes_inj a b :
  Forall is_byte a → Forall is_byte b → bits_of_bytes a = bits_of_bytes b → a = b.
Proof.
  intros Ha. revert b. induction Ha as [|x a Hx Ha IH]; intros b Hb H.
  - destruct b as [|y b]; [done|]. apply (f_equal length) in H.
    rewrite !length_bits_of_bytes in H. simpl in H. lia.
  - destruct Hb as [|y b Hy Hb].
    { apply (f_equal length) in H. rewrite !length_bits_of_bytes in H. simpl in H. lia. }
    rewrite !bits_of_bytes_cons in H.
    apply app_inj_1 in H as [H1 H2]; [|by rewrite !length_bits_of].
    f_equal; [|by apply IH]. apply (f_equal Z_of_bits) in H1.
    rewrite !Z_of_bits_of in H1. change (Z.of_nat 8) with 8 in H1. by rewrite !uint_id in H1.
Qed.

(** ** Little-endian images *)

Lemma length_le_split n z : length (le_split n z) = n.
Proof. revert z. induction n; intros; simpl; auto. Qed.

Lemma le_split_add n m z :
  le_split (n + m) z = le_split n z ++ le_split m (z / 2 ^ (8 * Z.of_nat n)).
Proof.
  revert z. induction n as [|n IH]; intros z; cbn [Nat.add le_split app]; [by rewrite Z.div_1_r|].
  f_equal. rewrite IH. do 2 f_equal.
  replace (8 * Z.of_nat (S n)) with (8 + 8 * Z.of_nat n) by lia.
  rewrite pow2_split by lia. change (2 ^ 8) with 256. rewrite Z.div_div; [done|lia|].
  apply pow2_pos. lia.
Qed.

Lemma le_split_bytes n z : Forall is_byte (le_split n z).
Proof. revert z. induction n; intros; simpl; constructor; auto with sne. Qed.

Lemma le_combine_split n z : le_combine (le_split n z) = uint (8 * Z.of_nat n) z.
Proof.
  revert z. induction n as [|n IH]; intros z; simpl le_split; simpl le_combine.
  - unfold uint. by rewrite Z.mod_1_r.
  - rewrite IH. unfold uint.
    replace (8 * Z.of_nat (S n)) with (8 + 8 * Z.of_nat n) by lia.
    rewrite pow2_split by lia. change (2 ^ 8) with 256.
    rewrite Z.rem_mul_r; [done|lia|]. apply pow2_pos; lia.
Qed.

Lemma le_split_combine l : Forall is_byte l → le_split (length l) (le_combine l) = l.
Proof.
  induction 1 as [|b l Hb Hl IH]; [done|]. simpl. f_equal.
  - unfold uint. rewrite Z.mul_comm, Z_mod_plus_full. by apply Z.mod_small.
  - rewrite Z.mul_comm, Z.div_add by lia. rewrite (Z.div_small b) by apply Hb. done.
Qed.

Lemma le_combine_range l :
  Forall is_byte l → is_uint (8 * Z.of_nat (length l)) (le_combine l).
Proof.
  intros H. rewrite <- (le_split_combine l H), le_combine_split, length_le_split.
  apply uint_range. lia.
Qed.

Lemma bits_of_le_split n z : bits_of_bytes (le_split n z) = bits_of (8 * n) z.
Proof.
  revert z. induction n as [|n IH]; intros z; [done|].
  simpl le_split. rewrite bits_of_bytes_cons, IH, bits_of_uint by done.
  replace (8 * S n)%nat with (8 + 8 * n)%nat by lia. by rewrite bits_of_app.
Qed.

#[export] Hint Resolve le_split_bytes : sne.
#[export] Hint Rewrite length_bits_of length_bits_of_bytes length_le_split : sne.

Lemma le_combine_app a b :
  le_combine (a ++ b) = le_combine a + 2 ^ (8 * Z.of_nat (length a)) * le_combine b.
Proof.
  induction a as [|x a IH]; [simpl; lia|].
  cbn [app le_combine length]. rewrite IH, Nat2Z.inj_succ.
  replace (8 * Z.succ (Z.of_nat (length a))) with (8 + 8 * Z.of_nat (length a)) by lia.
  rewrite pow2_split by lia. change (2 ^ 8) with 256. lia.
Qed.

Lemma le_combine_bits l : Forall is_byte l → le_combine l = Z_of_bits (bits_of_bytes l).
Proof.
  induction 1 as [|b l Hb _ IH]; [done|]. rewrite bits_of_bytes_cons, Z_of_bits_app.
  rewrite Z_of_bits_of, length_bits_of, uint_id by done. simpl le_combine. rewrite IH. lia.
Qed.

(** The bytes from the [n]th on are the number shifted down [n] bytes. *)
Lemma le_combine_drop n l : Forall is_byte l → (n ≤ length l)%nat →
  le_combine (drop n l) = le_combine l / 2 ^ (8 * Z.of_nat n).
Proof.
  intros Hl Hn. rewrite <- (take_drop n l) at 2. rewrite le_combine_app.
  rewrite length_take_le by done.
  pose proof (le_combine_range (take n l) (Forall_take _ _ _ Hl)) as [Ha Hb].
  rewrite length_take_le in Hb by done. pose proof (pow2_pos (8 * Z.of_nat n)).
  rewrite (Z.mul_comm (2 ^ _)), Z.div_add by lia. rewrite Z.div_small; lia.
Qed.

Lemma le_combine_take n l : Forall is_byte l → (n ≤ length l)%nat →
  le_combine (take n l) = uint (8 * Z.of_nat n) (le_combine l).
Proof.
  intros Hl Hn. rewrite <- (take_drop n l) at 2. rewrite le_combine_app.
  rewrite length_take_le by done.
  pose proof (le_combine_range (take n l) (Forall_take _ _ _ Hl)) as Hr.
  rewrite length_take_le in Hr by done. unfold uint.
  rewrite (Z.mul_comm (2 ^ _)), Z_mod_plus_full. symmetry. by apply Z.mod_small.
Qed.

(** Enough bits of a bit list: cutting it after [n] bits, or dropping them. *)
Lemma Z_of_bits_split a b : Z_of_bits a = uint (Z.of_nat (length a)) (Z_of_bits (a ++ b)) ∧
  Z_of_bits b = Z_of_bits (a ++ b) / 2 ^ Z.of_nat (length a).
Proof.
  rewrite Z_of_bits_app. pose proof (Z_of_bits_range a) as [Ha Hb].
  pose proof (pow2_pos (Z.of_nat (length a))). unfold uint. split.
  - rewrite (Z.mul_comm (2 ^ _)), Z_mod_plus_full. symmetry. by apply Z.mod_small.
  - rewrite (Z.mul_comm (2 ^ _)), Z.div_add by lia. rewrite Z.div_small; lia.
Qed.
