(* ===== verification/Bits.v ===== *)
(** * core/utility: bit counts and the string hash

    Models [src/include/sne/core/utility/Bits.h] and
    [src/include/sne/core/utility/Hash.h]: the sizes of the types a stream
    carries, the check of a bit count, the two computations of the largest
    number of a bit width, and the CRC-variant hash that names RPC methods. *)

From S2P Require Import Prelude BitList.

(** ** The fundamental types a stream reads and writes

    One constructor per overload of [IStream::read] and [OStream::write]. *)
Inductive prim := PU64 | PU32 | PU16 | PU8 | PS64 | PS32 | PS16 | PS8 | PBool | PFloat32.

#[global] Instance prim_eq_dec : EqDecision prim.
Proof. solve_decision. Defined.

(** [sizeof(T)], in bytes. *)
Definition sizeof (t : prim) : Z :=
  match t with
  | PU64 | PS64 => 8
  | PU32 | PS32 | PFloat32 => 4
  | PU16 | PS16 => 2
  | PU8 | PS8 | PBool => 1
  end.

Definition CHAR_BIT : Z := 8.

(** [Bits<T>::size]: [sizeof(T) * CHAR_BIT], except one bit for [bool]. *)
Definition bits_size (t : prim) : Z :=
  match t with
  | PBool => 1
  | _ => sizeof t * CHAR_BIT
  end.

(** [toBytes]: the bytes that hold [bitCount] bits. *)
Definition toBytes (bitCount : Z) : Z :=
  if bitCount <? 0 then 0 else (bitCount + (CHAR_BIT - 1)) / CHAR_BIT.

(** [isEnoughBits<T>], for a type of [size] bits. *)
Definition isEnoughBits (size bitCount : Z) : bool := (0 <? bitCount) && (bitCount <=? size).

(** [MaxNumber<bitCount>]: its enumerators [power] and [value]. *)
Fixpoint MaxNumber_power (bitCount : nat) : Z :=
  match bitCount with
  | O => 0
  | S O => 1
  | S n => 2 * MaxNumber_power n
  end.

Definition MaxNumber (bitCount : nat) : Z :=
  match bitCount with
  | O => 0
  | S O => 1
  | _ => 2 * MaxNumber_power bitCount - 1
  end.

(** [getMaxNumberOf]: the loop [maxNumber *= 2] on a 64-bit [size_t]. *)
Fixpoint getMaxNumberOf_loop (b : nat) (maxNumber : Z) : Z :=
  match b with
  | O => maxNumber
  | S b => getMaxNumberOf_loop b (uint 64 (maxNumber * 2))
  end.

Definition getMaxNumberOf (bitCount : nat) : Z := uint 64 (getMaxNumberOf_loop bitCount 1 - 1).

(** The values a variable of the type can hold; a [bool] is 0 or 1 and a
    [float32_t] is its 32-bit image. *)
Definition prim_ok (t : prim) (v : Z) : Prop :=
  match t with
  | PU64 | PU32 | PU16 | PU8 | PFloat32 | PBool => is_uint (bits_size t) v
  | PS64 | PS32 | PS16 | PS8 => is_sint (bits_size t) v
  end.

(** [static_cast] to the type from an integer or from its object representation. *)
Definition prim_of (t : prim) (z : Z) : Z :=
  match t with
  | PS64 | PS32 | PS16 | PS8 => sint (bits_size t) z
  | PBool => Z.b2z (negb (z =? 0))
  | _ => uint (bits_size t) z
  end.

(** ** The hash of an RPC method name ([core::hash], CRC variant)

    [str] is an array of [char], which is signed on the platforms the project
    builds for: [h ^= ki] converts it to [uint32_t] by sign extension. *)
Definition hash_step (h ki : Z) : Z :=
  let highorder := Z.land h 4160749568 (* 0xf8000000 *) in
  let h := uint 32 (Z.shiftl h 5) in
  let h := Z.lxor h (Z.shiftr highorder 27) in
  Z.lxor h (uint 32 (sint 8 ki)).

Definition hash (str : list Z) : Z := fold_left hash_step str 0.

(** ** Lemmas *)

Lemma prim_of_id t v : prim_ok t v → prim_of t v = v.
Proof.
  intros Hv. destruct t; cbn [prim_of]; try (by apply uint_id); try (by apply sint_id).
  change (is_uint 1 v) in Hv. unfold is_uint in Hv. change (2 ^ 1) with 2 in Hv.
  assert (v = 0 ∨ v = 1) as [-> | ->] by lia; done.
Qed.

Lemma prim_of_ok t z : prim_ok t (prim_of t z).
Proof.
  destruct t; cbn [prim_of]; try (by apply uint_range); try (by apply sint_range).
  change (is_uint 1 (Z.b2z (negb (z =? 0)))). by destruct (z =? 0).
Qed.

Lemma toBytes_nonneg n : 0 ≤ toBytes n.
Proof.
  unfold toBytes, CHAR_BIT. destruct (Z.ltb_spec n 0); [done|]. apply Z.div_pos; lia.
Qed.

(** [toBytes n] is the least number of bytes that holds [n] bits. *)
Lemma toBytes_spec n : 0 ≤ n → n ≤ 8 * toBytes n < n + 8.
Proof.
  intros. unfold toBytes, CHAR_BIT. destruct (Z.ltb_spec n 0); [lia|].
  pose proof (Z.div_mod (n + (8 - 1)) 8). pose proof (Z.mod_pos_bound (n + (8 - 1)) 8). lia.
Qed.

Lemma isEnoughBits_true size n : isEnoughBits size n = true ↔ 0 < n ≤ size.
Proof. unfold isEnoughBits. rewrite andb_true_iff, Z.ltb_lt, Z.leb_le. lia. Qed.

Lemma MaxNumber_power_eq n : MaxNumber_power (S n) = 2 ^ Z.of_nat n.
Proof.
  induction n as [|n IH]; [done|].
  change (MaxNumber_power (S (S n))) with (2 * MaxNumber_power (S n)).
  rewrite IH, Nat2Z.inj_succ, Z.pow_succ_r by lia. done.
Qed.

Lemma MaxNumber_eq n : MaxNumber n = 2 ^ Z.of_nat n - 1.
Proof.
  destruct n as [|[|n]]; [done..|].
  change (MaxNumber (S (S n))) with (2 * MaxNumber_power (S (S n)) - 1).
  rewrite MaxNumber_power_eq, !Nat2Z.inj_succ, !Z.pow_succ_r by lia. lia.
Qed.

Lemma getMaxNumberOf_loop_eq n m :
  getMaxNumberOf_loop n (uint 64 m) = uint 64 (m * 2 ^ Z.of_nat n).
Proof.
  revert m. induction n as [|n IH]; intros m.
  - simpl. by rewrite Z.mul_1_r.
  - cbn [getMaxNumberOf_loop]. rewrite Nat2Z.inj_succ, Z.pow_succ_r by lia.
    replace (uint 64 (uint 64 m * 2)) with (uint 64 (m * 2)).
    + rewrite IH. f_equal. lia.
    + unfold uint. by rewrite Zmult_mod_idemp_l.
Qed.

Lemma hash_step_range h ki : is_uint 32 h → is_uint 32 (hash_step h ki).
Proof.
  intros Hh. unfold hash_step.
  assert (Hx : ∀ a b, is_uint 32 a → is_uint 32 b → is_uint 32 (Z.lxor a b)).
  { intros a b Ha Hb. replace (Z.lxor a b) with (uint 32 (Z.lxor a b)); [by apply uint_range|].
    rewrite <- (uint_id 32 a Ha), <- (uint_id 32 b Hb). unfold uint.
    apply Z.bits_inj'. intros i Hi. rewrite Z.lxor_spec, !Z.testbit_mod_pow2 by lia.
    rewrite Z.lxor_spec, !Z.testbit_mod_pow2 by lia. by destruct (i <? 32). }
  apply Hx; [|by apply uint_range]. apply Hx; [by apply uint_range|].
  rewrite Z.shiftr_land. change (Z.shiftr 4160749568 27) with (Z.ones 5).
  rewrite Z.land_ones by lia. apply (is_uint_mono 5); [lia|]. by apply (uint_range 5).
Qed.
