(* ===== verification/StreamBuffer.v ===== *)
(** * core/stream: the [StreamBuffer] interface

    Models [src/include/sne/core/stream/StreamBuffer.h].  The class
    [StreamBuffer] lists the virtual methods the streams call; the class
    [StreamBufferSpec] states what its comments promise, a FIFO of bytes, over
    an abstraction function to the bytes that are stored.  The streams are
    verified against these two classes only, and every implementation
    ([VectorStreamBuffer.v], [MemoryBlock.v]) discharges them. *)

From S2P Require Import Prelude BitList.

(** The methods of [StreamBuffer].  A reference to the last item ([Item& back()])
    is modelled by its read and its assignment.  Sizes are natural numbers. *)
Class StreamBuffer (B : Type) := {
  sb_push : Z → st B unit;
  sb_pop : st B unit;
  sb_copyFrom : list Z → st B unit;
  sb_copyTo : nat → st B (list Z);
  sb_reset : st B unit;
  sb_front : st B Z;
  sb_back : st B Z;
  sb_set_back : Z → st B unit;
  sb_size : B → nat;
  sb_empty : B → bool;
}.

(** What an implementation promises.  [sb_room b n] says the buffer can take
    [n] more bytes without running out of memory. *)
Class StreamBufferSpec (B : Type) `{StreamBuffer B} := {
  sb_wf : B → Prop;
  sb_contents : B → list Z;
  sb_room : B → nat → Prop;
  sb_room_dec b n :: Decision (sb_room b n);
  sb_room_le b m n : (m ≤ n)%nat → sb_room b n → sb_room b m;
  sb_size_ok b : sb_wf b → sb_size b = length (sb_contents b);
  sb_empty_ok b : sb_wf b → sb_empty b = bool_decide (sb_contents b = []);
  sb_push_ok b x : sb_wf b → sb_room b 1 → ∃ b',
    sb_push x b = (Ok tt, b') ∧ sb_wf b' ∧ sb_contents b' = sb_contents b ++ [x] ∧
    (∀ n, sb_room b (S n) → sb_room b' n);
  sb_push_fails b x : sb_wf b → ¬ sb_room b 1 → ∃ e b',
    sb_push x b = (Throw (StreamingException e), b') ∧ sb_wf b' ∧
    sb_contents b' = sb_contents b;
  sb_copyFrom_ok b l : sb_wf b → sb_room b (length l) → ∃ b',
    sb_copyFrom l b = (Ok tt, b') ∧ sb_wf b' ∧ sb_contents b' = sb_contents b ++ l ∧
    (∀ n, sb_room b (length l + n) → sb_room b' n);
  sb_copyFrom_fails b l : sb_wf b → ¬ sb_room b (length l) → ∃ e b',
    sb_copyFrom l b = (Throw (StreamingException e), b') ∧ sb_wf b' ∧
    sb_contents b' = sb_contents b;
  sb_pop_ok b x l : sb_wf b → sb_contents b = x :: l → ∃ b',
    sb_pop b = (Ok tt, b') ∧ sb_wf b' ∧ sb_contents b' = l;
  sb_copyTo_ok b n : sb_wf b → (n ≤ length (sb_contents b))%nat → ∃ b',
    sb_copyTo n b = (Ok (take n (sb_contents b)), b') ∧ sb_wf b' ∧
    sb_contents b' = drop n (sb_contents b);
  sb_copyTo_short b n : sb_wf b → (length (sb_contents b) < n)%nat → ∃ e,
    sb_copyTo n b = (Throw (StreamingException e), b);
  sb_reset_ok b : sb_wf b → ∃ b',
    sb_reset b = (Ok tt, b') ∧ sb_wf b' ∧ sb_contents b' = [];
  sb_front_ok b x l : sb_wf b → sb_contents b = x :: l → sb_front b = (Ok x, b);
  sb_back_ok b x l : sb_wf b → sb_contents b = l ++ [x] → sb_back b = (Ok x, b);
  sb_set_back_ok b x y l : sb_wf b → sb_contents b = l ++ [x] → ∃ b',
    sb_set_back y b = (Ok tt, b') ∧ sb_wf b' ∧ sb_contents b' = l ++ [y] ∧
    (∀ n, sb_room b n → sb_room b' n);
}.

(** ** A buffer as a queue of bytes

    The operations of a client that looks at [empty] before it takes an item,
    and what they do to a plain list: a forward simulation for every buffer that
    keeps the contract. *)

Inductive buf_op :=
| Push (x : Z) | Pop | CopyFrom (l : list Z) | CopyTo (n : nat) | Reset | Front | Back | SetBack (x : Z).

Definition takes_item (op : buf_op) : bool :=
  match op with Pop | Front | Back | SetBack _ => true | _ => false end.

(** What an operation returns, as a list of bytes. *)
Definition run_op {B} `{StreamBuffer B} (op : buf_op) : st B (list Z) := λ b,
  if takes_item op && sb_empty b then (Ok [], b)
  else match op with
       | Push x => (sb_push x ;; mret []) b
       | Pop => (sb_pop ;; mret []) b
       | CopyFrom l => (sb_copyFrom l ;; mret []) b
       | CopyTo n => sb_copyTo n b
       | Reset => (sb_reset ;; mret []) b
       | Front => (x ← sb_front; mret [x]) b
       | Back => (x ← sb_back; mret [x]) b
       | SetBack x => (sb_set_back x ;; mret []) b
       end.

(** Each operation with its outcome; an exception does not end the run. *)
Fixpoint run_ops {B} `{StreamBuffer B} (ops : list buf_op) (b : B) : list (result (list Z)) * B :=
  match ops with
  | [] => ([], b)
  | op :: ops =>
      let '(r, b) := run_op op b in
      let '(rs, b) := run_ops ops b in (r :: rs, b)
  end.

(** A list used as the queue: only memory can run out. *)
Inductive list_op : buf_op → list Z → result (list Z) → list Z → Prop :=
| list_none op : takes_item op = true → list_op op [] (Ok []) []
| list_push x l : list_op (Push x) l (Ok []) (l ++ [x])
| list_push_full x l e : list_op (Push x) l (Throw (StreamingException e)) l
| list_pop x l : list_op Pop (x :: l) (Ok []) l
| list_copyFrom l' l : list_op (CopyFrom l') l (Ok []) (l ++ l')
| list_copyFrom_full l' l e : list_op (CopyFrom l') l (Throw (StreamingException e)) l
| list_copyTo n l : (n ≤ length l)%nat → list_op (CopyTo n) l (Ok (take n l)) (drop n l)
| list_copyTo_short n l e : (length l < n)%nat →
    list_op (CopyTo n) l (Throw (StreamingException e)) l
| list_reset l : list_op Reset l (Ok []) []
| list_front x l : list_op Front (x :: l) (Ok [x]) (x :: l)
| list_back x l : list_op Back (l ++ [x]) (Ok [x]) (l ++ [x])
| list_set_back x y l : list_op (SetBack y) (l ++ [x]) (Ok []) (l ++ [y]).

Inductive list_ops : list buf_op → list Z → list (result (list Z)) → list Z → Prop :=
| list_ops_nil l : list_ops [] l [] l
| list_ops_cons op ops l r l1 rs l2 :
    list_op op l r l1 → list_ops ops l1 rs l2 → list_ops (op :: ops) l (r :: rs) l2.

Section simulation.
Context {B : Type} `{StreamBufferSpec B}.

Lemma run_op_simulates op b : sb_wf b → ∃ r b',
  run_op op b = (r, b') ∧ sb_wf b' ∧ list_op op (sb_contents b) r (sb_contents b').
Proof.
  intros Hwf. unfold run_op. destruct (takes_item op && sb_empty b) eqn:Et.
  { apply andb_true_iff in Et as [Ht He]. rewrite sb_empty_ok in He by done.
    apply bool_decide_eq_true in He. exists (Ok []), b. rewrite He. split_and!; try done. by constructor. }
  assert (Hne : takes_item op = true → sb_contents b ≠ []).
  { intros Ht. rewrite Ht in Et. cbn in Et. rewrite sb_empty_ok in Et by done.
    by apply bool_decide_eq_false in Et. }
  destruct op as [x| |l|n| | | |y]; cbn [takes_item] in Hne.
  - destruct (decide (sb_room b 1)) as [Hr|Hr].
    + destruct (sb_push_ok b x Hwf Hr) as (b' & E & Hwf' & Hc & _).
      exists (Ok []), b'. st_step E. rewrite Hc. split_and!; try done. constructor.
    + destruct (sb_push_fails b x Hwf Hr) as (e & b' & E & Hwf' & Hc).
      eexists _, b'. rewrite (bind_throw _ _ _ _ _ E), Hc. split_and!; try done. constructor.
  - destruct (sb_contents b) as [|x l] eqn:Hc; [by destruct (Hne eq_refl)|].
    destruct (sb_pop_ok b x l Hwf Hc) as (b' & E & Hwf' & Hc').
    exists (Ok []), b'. st_step E. rewrite Hc'. split_and!; try done. constructor.
  - destruct (decide (sb_room b (length l))) as [Hr|Hr].
    + destruct (sb_copyFrom_ok b l Hwf Hr) as (b' & E & Hwf' & Hc & _).
      exists (Ok []), b'. st_step E. rewrite Hc. split_and!; try done. constructor.
    + destruct (sb_copyFrom_fails b l Hwf Hr) as (e & b' & E & Hwf' & Hc).
      eexists _, b'. rewrite (bind_throw _ _ _ _ _ E), Hc. split_and!; try done. constructor.
  - destruct (decide (n ≤ length (sb_contents b))%nat) as [Hn|Hn].
    + destruct (sb_copyTo_ok b n Hwf Hn) as (b' & E & Hwf' & Hc).
      eexists _, b'. rewrite E, Hc. split_and!; try done. by constructor.
    + destruct (sb_copyTo_short b n Hwf) as (e & E); [lia|].
      eexists _, b. rewrite E. split_and!; try done. constructor. lia.
  - destruct (sb_reset_ok b Hwf) as (b' & E & Hwf' & Hc).
    exists (Ok []), b'. st_step E. rewrite Hc. split_and!; try done. constructor.
  - destruct (sb_contents b) as [|x l] eqn:Hc; [by destruct (Hne eq_refl)|].
    exists (Ok [x]), b. st_step (sb_front_ok b x l Hwf Hc). rewrite Hc. split_and!; try done. constructor.
  - destruct (sb_contents b) as [|x l _] eqn:Hc using rev_ind; [by destruct (Hne eq_refl)|].
    exists (Ok [x]), b. st_step (sb_back_ok b x l Hwf Hc). rewrite Hc. split_and!; try done. constructor.
  - destruct (sb_contents b) as [|x l _] eqn:Hc using rev_ind; [by destruct (Hne eq_refl)|].
    destruct (sb_set_back_ok b x y l Hwf Hc) as (b' & E & Hwf' & Hc' & _).
    exists (Ok []), b'. st_step E. rewrite Hc'. split_and!; try done. constructor.
Qed.

Lemma run_ops_simulates ops b : sb_wf b →
  let '(rs, b') := run_ops ops b in sb_wf b' ∧ list_ops ops (sb_contents b) rs (sb_contents b').
Proof.
  revert b. induction ops as [|op ops IH]; intros b Hwf; cbn [run_ops]; [by split; [|constructor]|].
  destruct (run_op_simulates op b Hwf) as (r & b1 & E & Hwf1 & Hop). rewrite E.
  specialize (IH b1 Hwf1). destruct (run_ops ops b1) as [rs b2]. destruct IH as [Hwf2 Hops].
  split; [done|]. by econstructor.
Qed.
End simulation.
