(* ===== verification/VectorStreamBuffer.v ===== *)
(** * core/stream/detail: [VectorStreamBuffer]

    Models [src/include/sne/core/stream/detail/VectorStreamBuffer.h]: a buffer
    over a [std::vector] with a read and a write index.  The vector is its
    elements and its capacity; [reserve(n)] leaves a capacity of at least [n]
    (here exactly, as the common implementations do) and [resize(0)] keeps the
    capacity, which the comment in the source relies on. *)

From S2P Require Import Prelude BitList StreamBuffer.

Record VectorStreamBuffer := mkVSB {
  vsb_readIndex : nat;
  vsb_writeIndex : nat;
  vsb_buffer : list Z;
  vsb_capacity : nat;
}.

Definition vsb_new (defaultCapacity : nat) : VectorStreamBuffer := mkVSB 0 0 [] defaultCapacity.

(** [enum { defaultStreamCapacity = 512 }] *)
Definition defaultStreamCapacity : nat := 512.

Definition vsb_size (b : VectorStreamBuffer) : nat := vsb_writeIndex b - vsb_readIndex b.
Definition vsb_empty (b : VectorStreamBuffer) : bool :=
  bool_decide (vsb_writeIndex b = vsb_readIndex b).
Definition vsb_space (b : VectorStreamBuffer) : nat := vsb_capacity b - vsb_writeIndex b.

(** [reserve]: doubles the capacity once, then gives up. *)
Definition vsb_reserve (neededSize : nat) : st VectorStreamBuffer unit := λ b,
  if decide (vsb_space b < neededSize)%nat then
    let b := mkVSB (vsb_readIndex b) (vsb_writeIndex b) (vsb_buffer b)
                   (vsb_capacity b `max` (vsb_capacity b * 2)) in
    if decide (vsb_space b < neededSize)%nat
    then (Throw (StreamingException "out of memory"), b)
    else (Ok tt, b)
  else (Ok tt, b).

Definition vsb_append (l : list Z) (b : VectorStreamBuffer) : VectorStreamBuffer :=
  mkVSB (vsb_readIndex b) (vsb_writeIndex b + length l) (vsb_buffer b ++ l) (vsb_capacity b).

Definition vsb_push (item : Z) : st VectorStreamBuffer unit :=
  vsb_reserve 1;; modify (vsb_append [item]).

Definition vsb_reset : st VectorStreamBuffer unit :=
  modify (λ b, mkVSB 0 0 [] (vsb_capacity b)).

Definition vsb_advance (n : nat) (b : VectorStreamBuffer) : VectorStreamBuffer :=
  mkVSB (vsb_readIndex b + n) (vsb_writeIndex b) (vsb_buffer b) (vsb_capacity b).

Definition vsb_pop : st VectorStreamBuffer unit := λ b,
  if vsb_empty b then (Ok tt, b)
  else
    let b := vsb_advance 1 b in
    if vsb_empty b then vsb_reset b else (Ok tt, b).

Definition vsb_copyFrom (buffer : list Z) : st VectorStreamBuffer unit :=
  vsb_reserve (length buffer);; modify (vsb_append buffer).

Definition vsb_copyTo (bufferSize : nat) : st VectorStreamBuffer (list Z) := λ b,
  if decide (vsb_size b < bufferSize)%nat then
    (Throw (StreamingException "buffer is corrupted"), b)
  else
    let out := take bufferSize (drop (vsb_readIndex b) (vsb_buffer b)) in
    let b := vsb_advance bufferSize b in
    if vsb_empty b then (mret out : st _ _) (vsb_reset b).2 else (Ok out, b).

(** [buffer_[i]]: out of range, the behaviour is undefined. *)
Definition vsb_at (i : nat) : st VectorStreamBuffer Z := λ b,
  match vsb_buffer b !! i with
  | Some x => (Ok x, b)
  | None => (Throw (Undefined "vector index out of range"), b)
  end.

Definition vsb_front : st VectorStreamBuffer Z := λ b, vsb_at (vsb_readIndex b) b.

Definition vsb_back : st VectorStreamBuffer Z := λ b,
  match vsb_writeIndex b with
  | O => (Throw (Undefined "vector index out of range"), b)
  | S i => vsb_at i b
  end.

Definition vsb_set_back (x : Z) : st VectorStreamBuffer unit := λ b,
  match vsb_writeIndex b with
  | O => (Throw (Undefined "vector index out of range"), b)
  | S i =>
      if decide (i < length (vsb_buffer b))%nat
      then (Ok tt, mkVSB (vsb_readIndex b) (vsb_writeIndex b)
                         (<[i := x]> (vsb_buffer b)) (vsb_capacity b))
      else (Throw (Undefined "vector index out of range"), b)
  end.

#[global] Instance VectorStreamBuffer_buffer : StreamBuffer VectorStreamBuffer := {|
  sb_push := vsb_push;
  sb_pop := vsb_pop;
  sb_copyFrom := vsb_copyFrom;
  sb_copyTo := vsb_copyTo;
  sb_reset := vsb_reset;
  sb_front := vsb_front;
  sb_back := vsb_back;
  sb_set_back := vsb_set_back;
  sb_size := vsb_size;
  sb_empty := vsb_empty;
|}.

(** ** The representation invariant and the stored bytes *)

Record vsb_wf (b : VectorStreamBuffer) : Prop := {
  vsb_wf_size : length (vsb_buffer b) = vsb_writeIndex b;
  vsb_wf_read : (vsb_readIndex b ≤ vsb_writeIndex b)%nat;
  vsb_wf_capacity : (vsb_writeIndex b ≤ vsb_capacity b)%nat;
  (** a drained buffer is reset *)
  vsb_wf_drained : vsb_readIndex b = vsb_writeIndex b → vsb_writeIndex b = 0%nat;
}.

Definition vsb_contents (b : VectorStreamBuffer) : list Z :=
  drop (vsb_readIndex b) (vsb_buffer b).

Definition vsb_room (b : VectorStreamBuffer) (n : nat) : Prop :=
  (vsb_writeIndex b + n ≤ vsb_capacity b * 2)%nat.

#[global] Instance vsb_room_dec b n : Decision (vsb_room b n).
Proof. unfold vsb_room. apply _. Defined.

Lemma vsb_new_wf n : vsb_wf (vsb_new n).
Proof. split; simpl; lia. Qed.

Lemma vsb_size_contents b : vsb_wf b → vsb_size b = length (vsb_contents b).
Proof. intros [? ? ? ?]. unfold vsb_size, vsb_contents. rewrite length_drop. lia. Qed.

Lemma vsb_empty_contents b :
  vsb_wf b → vsb_empty b = bool_decide (vsb_contents b = []).
Proof.
  intros Hw. unfold vsb_empty. apply bool_decide_ext. rewrite <- length_zero_iff_nil.
  rewrite <- vsb_size_contents by done. unfold vsb_size. destruct Hw. lia.
Qed.

(** [reserve] succeeds exactly when doubling the capacity is enough. *)
Lemma vsb_reserve_spec b n :
  vsb_wf b → ∃ c, (vsb_capacity b ≤ c)%nat ∧
  let b' := mkVSB (vsb_readIndex b) (vsb_writeIndex b) (vsb_buffer b) c in
  vsb_wf b' ∧
  if decide (vsb_room b n)
  then vsb_reserve n b = (Ok tt, b') ∧ (vsb_writeIndex b + n ≤ c)%nat
  else vsb_reserve n b = (Throw (StreamingException "out of memory"), b').
Proof.
  intros [? ? ? ?]. unfold vsb_reserve, vsb_room, vsb_space.
  destruct (decide (vsb_capacity b - vsb_writeIndex b < n)%nat); cbn [vsb_capacity vsb_writeIndex].
  - exists (vsb_capacity b `max` (vsb_capacity b * 2))%nat.
    split; [lia|]. split; [split; simpl; lia|].
    case_decide; case_decide; try lia; auto with lia.
  - exists (vsb_capacity b). split; [lia|]. split; [by split|].
    case_decide; [|lia]. split; [by destruct b|lia].
Qed.

Lemma vsb_append_spec b l c :
  vsb_wf b → vsb_room b (length l) → (vsb_capacity b ≤ c)%nat →
  (vsb_writeIndex b + length l ≤ c)%nat →
  let b' := vsb_append l (mkVSB (vsb_readIndex b) (vsb_writeIndex b) (vsb_buffer b) c) in
  vsb_wf b' ∧ vsb_contents b' = vsb_contents b ++ l ∧
  (∀ n, vsb_room b (length l + n) → vsb_room b' n).
Proof.
  intros [? ? ? Hd] Hr Hc Hl. unfold vsb_contents, vsb_room. simpl. split; [|split].
  - split; simpl; rewrite ?length_app; lia.
  - apply drop_app_le. lia.
  - intros n. lia.
Qed.

Lemma vsb_copyFrom_spec b l : vsb_wf b → vsb_room b (length l) → ∃ b',
  vsb_copyFrom l b = (Ok tt, b') ∧ vsb_wf b' ∧ vsb_contents b' = vsb_contents b ++ l ∧
  (∀ n, vsb_room b (length l + n) → vsb_room b' n).
Proof.
  intros Hw Hr. destruct (vsb_reserve_spec b (length l) Hw) as (c & Hc & Hw' & H).
  rewrite decide_True in H by done. destruct H as [H Hl].
  eexists. split; [unfold vsb_copyFrom; st_step H; apply modify_run|].
  by apply vsb_append_spec.
Qed.

Lemma vsb_advance_spec b n :
  vsb_wf b → (n ≤ length (vsb_contents b))%nat →
  let b' := vsb_advance n b in
  let b'' := if vsb_empty b' then (vsb_reset b').2 else b' in
  vsb_wf b'' ∧ vsb_contents b'' = drop n (vsb_contents b).
Proof.
  intros Hw Hn. pose proof (vsb_size_contents b Hw) as Hs. unfold vsb_size in Hs.
  destruct Hw as [? ? ? ?]. unfold vsb_empty. simpl. case_bool_decide as He.
  - split; [split; simpl; lia|]. unfold vsb_contents at 1. simpl.
    symmetry. apply drop_ge. lia.
  - split; [split; simpl; lia|]. unfold vsb_contents. simpl. by rewrite drop_drop.
Qed.

#[global, program] Instance VectorStreamBuffer_spec : StreamBufferSpec VectorStreamBuffer := {|
  sb_wf := vsb_wf;
  sb_contents := vsb_contents;
  sb_room := vsb_room;
|}.
Next Obligation. unfold vsb_room. lia. Qed.
Next Obligation. apply vsb_size_contents. Qed.
Next Obligation. apply vsb_empty_contents. Qed.
Next Obligation. intros b x. apply (vsb_copyFrom_spec b [x]). Qed.
Next Obligation.
  intros b x Hw Hr. destruct (vsb_reserve_spec b 1 Hw) as (c & Hc & Hw' & H).
  rewrite decide_False in H by done. eexists _, _. split_and!; [|exact Hw'|done].
  simpl. unfold vsb_push. by rewrite (bind_throw _ _ _ _ _ H).
Qed.
Next Obligation. apply vsb_copyFrom_spec. Qed.
Next Obligation.
  intros b l Hw Hr. destruct (vsb_reserve_spec b (length l) Hw) as (c & Hc & Hw' & H).
  rewrite decide_False in H by done. eexists _, _. split_and!; [|exact Hw'|done].
  simpl. unfold vsb_copyFrom. by rewrite (bind_throw _ _ _ _ _ H).
Qed.
Next Obligation.
  intros b x l Hw Hc. destruct (vsb_advance_spec b 1 Hw) as [H1 H2]; [rewrite Hc; simpl; lia|].
  simpl. unfold vsb_pop. rewrite vsb_empty_contents, Hc by done. simpl.
  rewrite Hc in H2. simpl in H2. destruct (vsb_empty (vsb_advance 1 b)); eauto.
Qed.
Next Obligation.
  intros b n Hw Hn. destruct (vsb_advance_spec b n Hw Hn) as [H1 H2].
  simpl. unfold vsb_copyTo. rewrite decide_False by (rewrite vsb_size_contents by done; lia).
  destruct (vsb_empty (vsb_advance n b)); eauto.
Qed.
Next Obligation.
  intros b n Hw Hn. simpl. unfold vsb_copyTo.
  rewrite decide_True by (rewrite vsb_size_contents by done; lia). eauto.
Qed.
Next Obligation. intros b Hw. eexists. split; [done|]. split; [split; simpl; lia|done]. Qed.
Next Obligation.
  intros b x l Hw Hc. simpl. unfold vsb_front, vsb_at. unfold vsb_contents in Hc.
  pose proof (lookup_drop (vsb_buffer b) (vsb_readIndex b) 0) as Hl.
  rewrite Hc, Nat.add_0_r in Hl. simpl in Hl. by rewrite <- Hl.
Qed.
Next Obligation.
  intros b x l Hw Hc. pose proof (vsb_size_contents b Hw) as Hs. destruct Hw as [Hb ? ? ?].
  unfold vsb_size in Hs. rewrite Hc, length_app in Hs. simpl in Hs. simpl. unfold vsb_back, vsb_at.
  destruct (vsb_writeIndex b) as [|i] eqn:Hi; [lia|].
  pose proof (lookup_drop (vsb_buffer b) (vsb_readIndex b) (length l)) as Hl.
  unfold vsb_contents in Hc. rewrite Hc, list_lookup_middle in Hl by done.
  replace (vsb_readIndex b + length l)%nat with i in Hl by lia. by rewrite <- Hl.
Qed.
Next Obligation.
  intros b x y l Hw Hc. pose proof (vsb_size_contents b Hw) as Hs. destruct Hw as [Hb ? ? ?].
  unfold vsb_size in Hs. rewrite Hc, length_app in Hs. simpl in Hs. simpl. unfold vsb_set_back.
  destruct (vsb_writeIndex b) as [|i] eqn:Hi; [lia|]. rewrite decide_True by lia.
  eexists. split; [done|]. unfold vsb_contents in *. split; [|split]; simpl.
  - split; simpl; rewrite ?length_insert; lia.
  - rewrite drop_insert_ge by lia. rewrite Hc.
    rewrite insert_app_r_alt by lia.
    replace (i - vsb_readIndex b - length l)%nat with 0%nat by lia. done.
  - unfold vsb_room. simpl. lia.
Qed.
