(* ===== verification/MemoryBlock.v ===== *)
(** * base/memory and base/protocol: [MemoryBlock] and its stream buffer

    Models [src/include/sne/base/memory/MemoryBlock.h] (the block a message is
    built and received in) and [src/include/sne/base/protocol/
    MemoryBlockStreamBuffer.h] (the [StreamBuffer] over a block).  A block is
    its bytes, whose number is its capacity, and a read and a write position.
    Who gets a released block back ([releaser_]) is kept by the block manager
    in [MemoryPool.v]. *)

From S2P Require Import Prelude BitList StreamBuffer.

Record MemoryBlock := mkMB {
  mb_buffer : list Z;
  mb_rd : nat;
  mb_wr : nat;
}.

(** [enum { defaultInitialSize = 1024 }] *)
Definition defaultInitialSize : nat := 1024.

Definition mb_length (m : MemoryBlock) : nat := mb_wr m - mb_rd m.
Definition mb_capacity (m : MemoryBlock) : nat := length (mb_buffer m).
Definition mb_space (m : MemoryBlock) : nat := mb_capacity m - mb_wr m.

(** [size(n)]: [buffer_.resize(n)], new elements are zero. *)
Definition mb_set_size (n : nat) (m : MemoryBlock) : MemoryBlock :=
  mkMB (resize n 0 (mb_buffer m)) (mb_rd m) (mb_wr m).

Definition mb_new (initialSize : nat) : MemoryBlock := mb_set_size initialSize (mkMB [] 0 0).

Definition mb_reserve (neededSize : nat) (m : MemoryBlock) : MemoryBlock :=
  if decide (mb_space m < neededSize)%nat
  then mb_set_size (mb_capacity m + (neededSize - mb_space m)) m
  else m.

Definition mb_reset (m : MemoryBlock) : MemoryBlock := mkMB (mb_buffer m) 0 0.

Definition mb_crunch (m : MemoryBlock) : MemoryBlock :=
  let boundary := (mb_capacity m * 3 / 10)%nat in
  if decide (boundary ≤ mb_rd m)%nat then
    if decide (mb_wr m < mb_rd m)%nat then m
    else
      let len := mb_length m in
      mkMB (take len (drop (mb_rd m) (mb_buffer m)) ++ drop len (mb_buffer m)) 0 len
  else m.

(** [std::copy(l.begin(), l.end(), &buffer_[pos])]: outside the vector the
    behaviour is undefined. *)
Definition mb_write (pos : nat) (l : list Z) : st MemoryBlock unit := λ m,
  if decide (pos + length l ≤ mb_capacity m)%nat
  then (Ok tt, mkMB (take pos (mb_buffer m) ++ l ++ drop (pos + length l) (mb_buffer m))
                    (mb_rd m) (mb_wr m))
  else (Throw (Undefined "write past the block"), m).

(** The [n] bytes from [&buffer_[pos]] on. *)
Definition mb_read (pos n : nat) : st MemoryBlock (list Z) := λ m,
  if decide (pos + n ≤ mb_capacity m)%nat
  then (Ok (take n (drop pos (mb_buffer m))), m)
  else (Throw (Undefined "read past the block"), m).

(** [wr_ptr(n)], [rd_ptr(n)] and [rd_ptr(newPtr)]. *)
Definition mb_advance_wr (n : nat) (m : MemoryBlock) : MemoryBlock :=
  mkMB (mb_buffer m) (mb_rd m) (mb_wr m + n).
Definition mb_advance_rd (n : nat) (m : MemoryBlock) : MemoryBlock :=
  mkMB (mb_buffer m) (mb_rd m + n) (mb_wr m).
Definition mb_set_rd (pos : nat) (m : MemoryBlock) : MemoryBlock :=
  mkMB (mb_buffer m) pos (mb_wr m).

Definition mb_copyFrom (buf : list Z) : st MemoryBlock unit :=
  modify (mb_reserve (length buf));;
  wr ← gets mb_wr;
  mb_write wr buf;;
  modify (mb_advance_wr (length buf)).

Definition mb_copyTo (n : nat) : st MemoryBlock (list Z) :=
  rd ← gets mb_rd;
  out ← mb_read rd n;
  modify (mb_advance_rd n);;
  mret out.

(** ** [MemoryBlockStreamBuffer] *)

Definition msb_push (item : Z) : st MemoryBlock unit := mb_copyFrom [item].

Definition msb_drained (m : MemoryBlock) : MemoryBlock :=
  if decide (mb_length m = 0)%nat then mb_reset m else mb_crunch m.

Definition msb_pop : st MemoryBlock unit := λ m,
  if decide (mb_length m = 0)%nat then (Ok tt, m)
  else (Ok tt, msb_drained (mb_advance_rd 1 m)).

Definition msb_copyTo (blockSize : nat) : st MemoryBlock (list Z) := λ m,
  if decide (mb_length m < blockSize)%nat
  then (Throw (StreamingException "block is corrupted"), m)
  else (out ← mb_copyTo blockSize; modify msb_drained;; mret out) m.

Definition msb_front : st MemoryBlock Z := λ m,
  match mb_buffer m !! mb_rd m with
  | Some x => (Ok x, m)
  | None => (Throw (Undefined "read past the block"), m)
  end.

Definition msb_back : st MemoryBlock Z := λ m,
  match mb_wr m with
  | O => (Throw (Undefined "read before the block"), m)
  | S i => match mb_buffer m !! i with
           | Some x => (Ok x, m)
           | None => (Throw (Undefined "read past the block"), m)
           end
  end.

Definition msb_set_back (x : Z) : st MemoryBlock unit := λ m,
  match mb_wr m with
  | O => (Throw (Undefined "write before the block"), m)
  | S i => mb_write i [x] m
  end.

Definition msb_empty (m : MemoryBlock) : bool := bool_decide (mb_length m = 0%nat).

#[global] Instance MemoryBlock_buffer : StreamBuffer MemoryBlock := {|
  sb_push := msb_push;
  sb_pop := msb_pop;
  sb_copyFrom := mb_copyFrom;
  sb_copyTo := msb_copyTo;
  sb_reset := modify mb_reset;
  sb_front := msb_front;
  sb_back := msb_back;
  sb_set_back := msb_set_back;
  sb_size := mb_length;
  sb_empty := msb_empty;
|}.

(** ** Invariant and contents *)

Definition mb_wf (m : MemoryBlock) : Prop :=
  (mb_rd m ≤ mb_wr m)%nat ∧ (mb_wr m ≤ mb_capacity m)%nat.

Definition mb_contents (m : MemoryBlock) : list Z :=
  take (mb_length m) (drop (mb_rd m) (mb_buffer m)).

Lemma mb_contents_length m : mb_wf m → length (mb_contents m) = mb_length m.
Proof.
  intros [? ?]. unfold mb_contents, mb_length, mb_capacity in *.
  rewrite length_take, length_drop. lia.
Qed.

(** The bytes written so far, from the base of the block. *)
Definition mb_written (m : MemoryBlock) : list Z := take (mb_wr m) (mb_buffer m).

Lemma mb_contents_written m : mb_wf m → mb_contents m = drop (mb_rd m) (mb_written m).
Proof.
  intros [? ?]. unfold mb_contents, mb_written, mb_length.
  rewrite take_drop_commute. do 2 f_equal. lia.
Qed.

Lemma mb_reserve_spec n m : mb_wf m →
  let m' := mb_reserve n m in
  mb_wf m' ∧ mb_rd m' = mb_rd m ∧ mb_wr m' = mb_wr m ∧ (mb_wr m + n ≤ mb_capacity m')%nat ∧
  mb_written m' = mb_written m.
Proof.
  intros [Hr Hw]. unfold mb_reserve, mb_space. case_decide; [|split_and!; try done; lia].
  unfold mb_wf, mb_capacity, mb_written in *. simpl. rewrite length_resize.
  split_and!; try lia. rewrite resize_ge by lia. rewrite take_app_le by lia. done.
Qed.

Lemma mb_copyFrom_spec l m : mb_wf m → ∃ m',
  mb_copyFrom l m = (Ok tt, m') ∧ mb_wf m' ∧ mb_rd m' = mb_rd m ∧
  mb_wr m' = (mb_wr m + length l)%nat ∧ mb_written m' = mb_written m ++ l.
Proof.
  intros Hw. destruct (mb_reserve_spec (length l) m Hw) as (Hw' & Hrd & Hwr & Hc & Hwrt).
  destruct Hw as [Hr Hw]. eexists. split.
  { unfold mb_copyFrom. st_step (modify_run (mb_reserve (length l)) m).
    st_step (gets_run mb_wr (mb_reserve (length l) m)).
    unfold mbind, st_bind, mb_write. rewrite Hwr, decide_True by done. done. }
  unfold mb_wf, mb_written, mb_capacity in *. simpl. rewrite Hrd, Hwr in *.
  rewrite !length_app, length_take, length_drop. split_and!; try lia.
  rewrite app_assoc, take_app_length'; [by rewrite Hwrt|].
  rewrite length_app, length_take. lia.
Qed.

Lemma mb_crunch_spec m : mb_wf m →
  let m' := mb_crunch m in
  mb_wf m' ∧ mb_contents m' = mb_contents m ∧ mb_capacity m' = mb_capacity m ∧
  mb_length m' = mb_length m.
Proof.
  intros [Hr Hw]. unfold mb_crunch. case_decide; [|done].
  rewrite decide_False by lia. unfold mb_wf, mb_contents, mb_capacity, mb_length in *. simpl.
  assert (Hl : length (take (mb_wr m - mb_rd m) (drop (mb_rd m) (mb_buffer m))) =
               (mb_wr m - mb_rd m)%nat) by (rewrite length_take, length_drop; lia).
  rewrite length_app, length_drop, Hl. split_and!; try lia.
  rewrite drop_0, Nat.sub_0_r. by rewrite take_app_length' by done.
Qed.

Lemma mb_drained_spec m : mb_wf m →
  let m' := msb_drained m in
  mb_wf m' ∧ mb_contents m' = mb_contents m ∧ mb_capacity m' = mb_capacity m.
Proof.
  intros Hw. unfold msb_drained. case_decide as Hl.
  - split_and!; [by split; simpl; lia| |done]. unfold mb_contents. by rewrite Hl.
  - destruct (mb_crunch_spec m Hw) as (? & ? & ? & ?). done.
Qed.

Lemma mb_advance_rd_spec n m : mb_wf m → (n ≤ mb_length m)%nat →
  mb_wf (mb_advance_rd n m) ∧ mb_contents (mb_advance_rd n m) = drop n (mb_contents m).
Proof.
  intros [Hr Hw] Hn. unfold mb_wf, mb_contents, mb_capacity, mb_length in *. simpl.
  split; [lia|]. rewrite !take_drop_commute, drop_drop. do 2 f_equal. lia.
Qed.

Lemma mb_append_contents m m' l : mb_wf m → mb_wf m' → mb_rd m' = mb_rd m →
  mb_written m' = mb_written m ++ l → mb_contents m' = mb_contents m ++ l.
Proof.
  intros Hw Hw' Hr Hwr. rewrite !mb_contents_written by done. rewrite Hr, Hwr.
  apply drop_app_le. destruct Hw. unfold mb_written, mb_capacity in *. rewrite length_take. lia.
Qed.

Lemma mb_length_nil m : mb_wf m → mb_length m = 0%nat ↔ mb_contents m = [].
Proof. intros. rewrite <- mb_contents_length by done. apply length_zero_iff_nil. Qed.

(** The last byte written sits before the write position. *)
Lemma mb_last m l x : mb_wf m → mb_contents m = l ++ [x] → ∃ i,
  mb_wr m = S i ∧ mb_buffer m !! i = Some x ∧ i = (mb_rd m + length l)%nat.
Proof.
  intros Hw Hc. pose proof (mb_contents_length m Hw) as Hl.
  rewrite Hc, length_app in Hl. simpl in Hl. unfold mb_length in Hl.
  exists (mb_rd m + length l)%nat. split_and!; [lia| |done].
  rewrite <- lookup_drop. unfold mb_contents in Hc.
  rewrite <- (lookup_take_lt _ (mb_length m)) by (unfold mb_length; lia).
  rewrite Hc. by apply list_lookup_middle.
Qed.

#[global, program] Instance MemoryBlock_spec : StreamBufferSpec MemoryBlock := {|
  sb_wf := mb_wf;
  sb_contents := mb_contents;
  sb_room _ _ := True;
|}.
Next Obligation. done. Qed.
Next Obligation. intros. symmetry. by apply mb_contents_length. Qed.
Next Obligation.
  intros m Hw. unfold sb_empty; simpl. unfold msb_empty. apply bool_decide_ext.
  by apply mb_length_nil.
Qed.
Next Obligation.
  intros m x Hw _. destruct (mb_copyFrom_spec [x] m Hw) as (m' & ? & ? & ? & ? & ?).
  exists m'. split_and!; try done. by apply mb_append_contents.
Qed.
Next Obligation. done. Qed.
Next Obligation.
  intros m l Hw _. destruct (mb_copyFrom_spec l m Hw) as (m' & ? & ? & ? & ? & ?).
  exists m'. split_and!; try done. by apply mb_append_contents.
Qed.
Next Obligation. done. Qed.
Next Obligation.
  intros m x l Hw Hc. pose proof (mb_contents_length m Hw) as Hl. rewrite Hc in Hl. simpl in Hl.
  destruct (mb_advance_rd_spec 1 m Hw) as [Hw1 Hc1]; [lia|].
  destruct (mb_drained_spec _ Hw1) as (Hw2 & Hc2 & _).
  eexists. split; [unfold sb_pop; simpl; unfold msb_pop; by rewrite decide_False by lia|].
  split; [done|]. by rewrite Hc2, Hc1, Hc.
Qed.
Next Obligation.
  intros m n Hw Hn. rewrite mb_contents_length in Hn by done.
  destruct (mb_advance_rd_spec n m Hw Hn) as [Hw1 Hc1].
  destruct (mb_drained_spec _ Hw1) as (Hw2 & Hc2 & _).
  eexists. split; [|by split; [done|rewrite Hc2, Hc1]].
  unfold sb_copyTo; simpl. unfold msb_copyTo. rewrite decide_False by lia.
  unfold mb_copyTo, mb_read, mbind, st_bind, gets. destruct Hw as [? ?].
  unfold mb_length in *. rewrite decide_True by lia. simpl.
  unfold mb_contents, mb_length. rewrite take_take. by rewrite Nat.min_l by lia.
Qed.
Next Obligation.
  intros m n Hw Hn. rewrite mb_contents_length in Hn by done.
  unfold sb_copyTo; simpl. unfold msb_copyTo. rewrite decide_True by lia. eauto.
Qed.
Next Obligation. intros m Hw. eexists. split; [done|]. split; [split; simpl; lia|done]. Qed.
Next Obligation.
  intros m x l Hw Hc. unfold sb_front; simpl. unfold msb_front. unfold mb_contents in Hc.
  pose proof (lookup_drop (mb_buffer m) (mb_rd m) 0) as Hl. rewrite Nat.add_0_r in Hl.
  rewrite <- Hl. pose proof (f_equal (lookup 0%nat) Hc) as H0. simpl in H0.
  rewrite lookup_take in H0. case_decide; [by rewrite H0|done].
Qed.
Next Obligation.
  intros m x l Hw Hc. destruct (mb_last m l x Hw Hc) as (i & Hi & Hx & _).
  unfold sb_back; simpl. unfold msb_back. by rewrite Hi, Hx.
Qed.
Next Obligation.
  intros m x y l Hw Hc. destruct (mb_last m l x Hw Hc) as (i & Hi & Hx & Hil).
  pose proof (lookup_lt_Some _ _ _ Hx) as Hlt. destruct Hw as [Hr Hw].
  unfold sb_set_back; simpl. unfold msb_set_back, mb_write. rewrite Hi.
  unfold mb_capacity in *. rewrite decide_True by (simpl; lia). eexists. split; [done|].
  unfold mb_wf, mb_contents, mb_length, mb_capacity in *. simpl.
  rewrite Nat.add_1_r. rewrite <- insert_take_drop by done. rewrite length_insert.
  split_and!; try lia; try done. rewrite drop_insert_ge by lia.
  rewrite take_insert_lt by lia. rewrite Hi in Hc. rewrite Hc, insert_app_r_alt by lia.
  by replace (i - mb_rd m - length l)%nat with 0%nat by lia.
Qed.
