(* ===== verification/Unicode.v ===== *)
(** * core/utility: UTF-8

    Models the conversions of [src/src/core/utility/Unicode.cpp] for a 4-byte
    [wchar_t] (Linux, macOS), which is signed.  A [std::wstring] is the list of
    its code points, a [std::string] the list of its bytes as [uint8_t].
    [toUnicode] and [fromUnicode] only call the locale and are not modelled. *)

From S2P Require Import Prelude BitList.

Definition invalidLeadingOctet (octet : Z) : bool :=
  ((0x7f <? octet) && (octet <? 0xc0)) || (0xfd <? octet).

Definition invalidContinuingOctet (octet : Z) : bool := (octet <? 0x80) || (0xbf <? octet).

Definition getOctetCount (leadOctet : Z) : nat :=
  if leadOctet <=? 0x7f then 1
  else if (0xc0 <=? leadOctet) && (leadOctet <=? 0xdf) then 2
  else if (0xe0 <=? leadOctet) && (leadOctet <=? 0xef) then 3
  else if (0xf0 <=? leadOctet) && (leadOctet <=? 0xf7) then 4
  else if (0xf8 <=? leadOctet) && (leadOctet <=? 0xfb) then 5
  else 6.

Definition getContOctetCount (leadOctet : Z) : nat := getOctetCount leadOctet - 1.

(** [getContOctetOutCountImpl<4>] *)
Definition getContOctetOutCount (word : Z) : nat :=
  if word <? 0x80 then 0
  else if word <? 0x800 then 1
  else if word <? 0x10000 then 2
  else if word <? 0x200000 then 3
  else if word <? 0x4000000 then 4
  else 5.

Definition outModifierTable : list Z := [0x00; 0xc0; 0xe0; 0xf0; 0xf8; 0xfc].
Definition inModifierTable : list Z := [0xff; 0x1f; 0x0f; 0x07; 0x03; 0x01].
Definition minvalTable : list Z := [0; 0x80; 0x800; 0x10000; 0x110000; 0x4000000].

(** The loop over [contOctetIndex], [k] octets left. *)
Fixpoint cont_octets (k : nat) (shiftExponent wc : Z) : list Z :=
  match k with
  | O => []
  | S k =>
      let shiftExponent := shiftExponent - 6 in
      uint 8 (0x80 + Z.land (Z.shiftr wc shiftExponent) 0x3f) :: cont_octets k shiftExponent wc
  end.

Definition toUtf8_char (wc : Z) : list Z :=
  let contOctetCount := getContOctetOutCount wc in
  let shiftExponent := Z.of_nat contOctetCount * 6 in
  uint 8 (nth contOctetCount outModifierTable 0 + Z.shiftr wc shiftExponent)
    :: cont_octets contOctetCount shiftExponent wc.

Definition toUtf8 (ucs : list Z) : list Z := mjoin (toUtf8_char <$> ucs).

(** The inner loop: [wc <<= 6; wc |= contOctet & 0x3f]; [None] is the early return. *)
Fixpoint decode_cont (octets : list Z) (wc : Z) : option Z :=
  match octets with
  | [] => Some wc
  | contOctet :: octets =>
      if invalidContinuingOctet contOctet then None
      else decode_cont octets (Z.lor (sint 32 (Z.shiftl wc 6)) (Z.land contOctet 0x3f))
  end.

(** The outer loop; [fuel] bounds the octets left, and every turn consumes one. *)
Fixpoint fromUtf8_loop (fuel : nat) (utf8 : list Z) : list Z :=
  match fuel, utf8 with
  | S fuel, octet :: rest =>
      if invalidLeadingOctet octet then []
      else
        let contOctetCount := getContOctetCount octet in
        if decide (contOctetCount < length utf8)%nat then
          match decode_cont (take contOctetCount rest)
                  (Z.land octet (nth contOctetCount inModifierTable 0)) with
          | None => []
          | Some wc =>
              if wc <? nth contOctetCount minvalTable 0 then []
              else wc :: fromUtf8_loop fuel (drop contOctetCount rest)
          end
        else []
  | _, _ => []
  end.

Definition fromUtf8 (utf8 : list Z) : list Z := fromUtf8_loop (length utf8) utf8.

(** ** Round trip *)

(** A code point the 31-bit scheme of the source's table can carry. *)
Definition is_ucs (wc : Z) : Prop := is_uint 31 wc.

Lemma length_cont_octets k s wc : length (cont_octets k s wc) = k.
Proof. revert s. induction k; intros; simpl; auto. Qed.

Lemma cont_octets_bytes k s wc : Forall is_byte (cont_octets k s wc).
Proof. revert s. induction k; intros; constructor; auto with sne. Qed.

Lemma length_toUtf8_char wc : length (toUtf8_char wc) = S (getContOctetOutCount wc).
Proof. simpl. by rewrite length_cont_octets. Qed.

Lemma toUtf8_cons wc ucs : toUtf8 (wc :: ucs) = toUtf8_char wc ++ toUtf8 ucs.
Proof. done. Qed.

Lemma toUtf8_bytes ucs : Forall is_byte (toUtf8 ucs).
Proof.
  induction ucs as [|wc ucs IH]; [constructor|]. rewrite toUtf8_cons.
  apply Forall_app. split; [|done]. constructor; auto using cont_octets_bytes with sne.
Qed.

(** A continuation octet carries six bits and passes the reader's check. *)
Lemma cont_octet_ok x :
  let o := uint 8 (0x80 + Z.land x 0x3f) in
  invalidContinuingOctet o = false ∧ Z.land o 0x3f = x mod 64.
Proof.
  cbn zeta. change 0x3f with (Z.ones 6). rewrite !Z.land_ones by lia. change (2 ^ 6) with 64.
  pose proof (Z.mod_pos_bound x 64). unfold uint. change (2 ^ 8) with 256.
  rewrite (Z.mod_small (0x80 + x mod 64)) by lia. split.
  - unfold invalidContinuingOctet. lia.
  - replace (0x80 + x mod 64) with (x mod 64 + 2 * 64) by lia.
    rewrite Z_mod_plus_full. by apply Zmod_mod.
Qed.

Lemma decode_cont_octets k wc acc :
  0 ≤ acc → (acc + 1) * 2 ^ (6 * Z.of_nat k) ≤ 2 ^ 31 →
  decode_cont (cont_octets k (Z.of_nat k * 6) wc) acc =
  Some (acc * 2 ^ (6 * Z.of_nat k) + wc mod 2 ^ (6 * Z.of_nat k)).
Proof.
  revert acc. induction k as [|k IH]; intros acc H0 H1.
  - simpl. f_equal. rewrite Z.mod_1_r. lia.
  - rewrite Nat2Z.inj_succ in *. cbn [cont_octets decode_cont].
    replace (Z.succ (Z.of_nat k) * 6 - 6) with (Z.of_nat k * 6) by lia.
    destruct (cont_octet_ok (Z.shiftr wc (Z.of_nat k * 6))) as [-> ->].
    replace (6 * Z.succ (Z.of_nat k)) with (6 + 6 * Z.of_nat k) in * by lia.
    rewrite pow2_split in * by lia. change (2 ^ 6) with 64 in *.
    pose proof (pow2_pos (6 * Z.of_nat k)).
    pose proof (Z.mod_pos_bound (Z.shiftr wc (Z.of_nat k * 6)) 64).
    rewrite Z.shiftl_mul_pow2 by lia. change (2 ^ 6) with 64.
    assert (acc * 64 < 2 ^ 31) by nia.
    rewrite sint_id by (unfold is_sint; lia).
    rewrite Z.lor_comm. replace (acc * 64) with (Z.shiftl acc 6) by (by rewrite Z.shiftl_mul_pow2).
    rewrite lor_shiftl_disjoint by (unfold is_uint; lia). change (2 ^ 6) with 64.
    rewrite IH by nia. f_equal.
    rewrite Z.shiftr_div_pow2 by lia. replace (Z.of_nat k * 6) with (6 * Z.of_nat k) by lia.
    rewrite (Z.mul_comm 64). rewrite (Z.rem_mul_r wc) by lia. lia.
Qed.

(** The lead octet with [c] continuation octets and the payload [q]: the reader
    accepts it, finds the same [c] and the same payload. *)
Definition lead_ok (c : nat) (q : Z) : bool :=
  let o := uint 8 (nth c outModifierTable 0 + q) in
  negb (invalidLeadingOctet o) && (getContOctetCount o =? c)%nat &&
  (Z.land o (nth c inModifierTable 0) =? q).

(** The payload bits the lead octet has room for. *)
Definition lead_bits (c : nat) : Z := if decide (c = O) then 7 else 6 - Z.of_nat c.

Lemma lead_ok_true c q : (c ≤ 5)%nat → is_uint (lead_bits c) q → lead_ok c q = true.
Proof.
  intros Hc Hq.
  assert (H : forallb (λ c, forallb (lead_ok c) (seqZ 0 (2 ^ lead_bits c))) (seq 0 6) = true)
    by (vm_compute; reflexivity).
  rewrite forallb_forall in H. specialize (H c).
  rewrite forallb_forall in H. apply H.
  - apply in_seq. lia.
  - apply list_elem_of_In, elem_of_seqZ. destruct Hq. lia.
Qed.

Lemma out_count_ok wc : is_ucs wc → let c := getContOctetOutCount wc in
  (c ≤ 5)%nat ∧ nth c minvalTable 0 ≤ wc < 2 ^ lead_bits c * 2 ^ (6 * Z.of_nat c).
Proof.
  intros [H0 H1]. unfold getContOctetOutCount. change (2 ^ 31) with 0x80000000 in H1.
  repeat (match goal with |- context [wc <? ?n] => destruct (Z.ltb_spec wc n) end);
    cbn zeta; (split; [lia|]); cbn [nth minvalTable];
    match goal with |- _ ≤ _ < ?b => let e := eval vm_compute in b in change b with e end; lia.
Qed.

(** The lead octet of a character, and the accumulator the continuation octets
    complete to the code point. *)
Lemma toUtf8_char_eq wc : is_ucs wc → let c := getContOctetOutCount wc in
  ∃ o, toUtf8_char wc = o :: cont_octets c (Z.of_nat c * 6) wc ∧
    invalidLeadingOctet o = false ∧ getContOctetCount o = c ∧ nth c minvalTable 0 ≤ wc ∧
    decode_cont (cont_octets c (Z.of_nat c * 6) wc) (Z.land o (nth c inModifierTable 0)) = Some wc.
Proof.
  intros Hw c. pose proof (out_count_ok wc Hw) as [Hc [Hmin Hmax]]. fold c in Hc, Hmin, Hmax.
  pose proof (pow2_pos (6 * Z.of_nat c)). destruct Hw as [Hw0 Hw1].
  set (q := wc / 2 ^ (6 * Z.of_nat c)).
  assert (Hq : is_uint (lead_bits c) q)
    by (split; [apply Z.div_pos; lia|apply Z.div_lt_upper_bound; lia]).
  pose proof (lead_ok_true c q Hc Hq) as Hl. unfold lead_ok in Hl.
  apply andb_true_iff in Hl as [[Hl1 Hl2%Nat.eqb_eq]%andb_true_iff Hl3%Z.eqb_eq].
  apply negb_true_iff in Hl1.
  exists (uint 8 (nth c outModifierTable 0 + q)). split_and!; auto.
  - unfold toUtf8_char. fold c. rewrite Z.shiftr_div_pow2 by lia.
    by rewrite (Z.mul_comm (Z.of_nat c) 6).
  - rewrite Hl3. rewrite decode_cont_octets; [f_equal|by destruct Hq|].
    + subst q. pose proof (Z.div_mod wc (2 ^ (6 * Z.of_nat c))). lia.
    + assert (2 ^ lead_bits c * 2 ^ (6 * Z.of_nat c) ≤ 2 ^ 31)
        by (do 6 (destruct c as [|c]; [by vm_compute|]); lia).
      destruct Hq. nia.
Qed.

(** What [toUtf8_char] writes, [fromUtf8] reads back. *)
Lemma fromUtf8_loop_char fuel wc rest : is_ucs wc →
  fromUtf8_loop (S fuel) (toUtf8_char wc ++ rest) = wc :: fromUtf8_loop fuel rest.
Proof.
  intros Hw. destruct (toUtf8_char_eq wc Hw) as (o & -> & Hi & Hc & Hmin & Hd).
  set (c := getContOctetOutCount wc) in *. cbn [app fromUtf8_loop]. rewrite Hi, Hc.
  rewrite decide_True by (simpl; rewrite length_app, length_cont_octets; lia).
  rewrite take_app_length', drop_app_length' by (by rewrite length_cont_octets).
  rewrite Hd. destruct (Z.ltb_spec wc (nth c minvalTable 0)); [lia|done].
Qed.

(** Enough fuel: [length utf8] turns suffice, more change nothing. *)
Lemma fromUtf8_loop_fuel f g utf8 :
  (length utf8 ≤ f)%nat → (length utf8 ≤ g)%nat → fromUtf8_loop f utf8 = fromUtf8_loop g utf8.
Proof.
  revert g utf8. induction f as [|f IH]; intros g [|o utf8] Hf Hg; simpl in *; try lia;
    destruct g as [|g]; simpl in *; try done; try lia.
  destruct (invalidLeadingOctet o); [done|]. case_decide; [|done].
  destruct (decode_cont _ _); [|done]. case_match; [done|]. f_equal.
  apply IH; rewrite length_drop; lia.
Qed.

Lemma fromUtf8_char wc rest : is_ucs wc →
  fromUtf8 (toUtf8_char wc ++ rest) = wc :: fromUtf8 rest.
Proof.
  intros Hw. unfold fromUtf8. rewrite length_app, length_toUtf8_char. simpl plus.
  rewrite fromUtf8_loop_char by done. f_equal. apply fromUtf8_loop_fuel; lia.
Qed.

(** A character cut short is not read at all. *)
Lemma fromUtf8_char_short wc n : is_ucs wc → (n < length (toUtf8_char wc))%nat →
  fromUtf8 (take n (toUtf8_char wc)) = [].
Proof.
  intros Hw Hn. rewrite length_toUtf8_char in Hn.
  destruct (toUtf8_char_eq wc Hw) as (o & -> & Hi & Hc & _).
  destruct n as [|n]; [done|]. unfold fromUtf8. simpl. rewrite Hi, Hc.
  rewrite decide_False; [done|]. rewrite length_take, length_cont_octets. lia.
Qed.

Lemma fromUtf8_toUtf8 ucs : Forall is_ucs ucs → fromUtf8 (toUtf8 ucs) = ucs.
Proof.
  induction 1 as [|wc ucs Hw _ IH]; [done|].
  rewrite toUtf8_cons, fromUtf8_char by done. by rewrite IH.
Qed.

(** A UTF-8 string cut after [n] bytes decodes to the characters that are whole. *)
Lemma fromUtf8_take_toUtf8 n ucs : Forall is_ucs ucs →
  ∃ k, fromUtf8 (take n (toUtf8 ucs)) = take k ucs ∧
       (length (toUtf8 (take k ucs)) ≤ n)%nat ∧
       ((k < length ucs)%nat → (n < length (toUtf8 (take (S k) ucs)))%nat).
Proof.
  intros H. revert n. induction H as [|wc ucs Hw H IH]; intros n.
  { exists O. change (toUtf8 []) with (@nil Z). rewrite take_nil. split; [done|]. split; [apply Nat.le_0_l|intros Hk; inversion Hk]. }
  rewrite toUtf8_cons. destruct (decide (n < length (toUtf8_char wc))%nat) as [Hn|Hn].
  - exists O. rewrite take_app_le, fromUtf8_char_short by (lia || done). split_and!; [done|simpl; lia|].
    intros _. cbn [take]. rewrite toUtf8_cons, length_app. lia.
  - destruct (IH (n - length (toUtf8_char wc))%nat) as (k & Hk1 & Hk2 & Hk3). exists (S k).
    rewrite take_app_ge, fromUtf8_char, Hk1 by (lia || done). split_and!; [done| |].
    + cbn [take]. rewrite toUtf8_cons, length_app. lia.
    + intros Hk. cbn [length] in Hk. specialize (Hk3 ltac:(lia)).
      change (take (S (S k)) (wc :: ucs)) with (wc :: take (S k) ucs).
      rewrite toUtf8_cons, length_app. lia.
Qed.
