(* ===== verification/Stream.v ===== *)
(** * core/stream: the [OStream] and [IStream] interfaces

    Models [src/include/sne/core/stream/OStream.h], [IStream.h] and
    [Streamable.h].  The classes [OStream] and [IStream] list the virtual
    methods; [StreamPair] states what a matching pair of an output and an input
    stream promises: what one writes, the other reads back, in order, whatever
    follows.  Everything above the streams (RPC types, containers, messages,
    packets) is verified against [StreamPair], and [BitStream.v] and
    [ByteStream.v] discharge it. *)

From S2P Require Import Prelude BitList Bits Unicode.

(** ** The virtual methods *)

Class OStream (O : Type) := {
  os_write : prim → Z → Z → st O unit;
  os_writeEnum : Z → Z → st O unit;
  os_writeString : list Z → nat → Z → st O unit;
  os_writeWString : list Z → nat → Z → st O unit;
  os_writeBuffer : list Z → st O unit;
  os_align : st O unit;
  os_reset : bool → st O unit;
  os_getTotalBitCount : O → Z;
  os_getTotalSize : O → Z;
}.

(** [is_readEnum init bitCount]: [init] is what the caller's variable holds. *)
Class IStream (I : Type) := {
  is_read : prim → Z → st I Z;
  is_readEnum : Z → Z → st I Z;
  is_readString : nat → Z → st I (list Z);
  is_readWString : nat → Z → st I (list Z);
  is_readBuffer : nat → st I (list Z);
  is_align : st I unit;
  is_reset : bool → st I unit;
  is_getTotalBitCount : I → Z;
  is_getTotalSize : I → Z;
}.

Definition USHRT_MAX : nat := Z.to_nat 65535.
Definition UCHAR_MAX : nat := 255%nat.

(** The [operator<<] and [operator>>] of the fundamental, enum and string types:
    [StreamWriterImpl] and [StreamReaderImpl] give the default bit counts.  An
    enum is of [size] bits. *)
Definition put `{OStream Ost} (t : prim) (v : Z) : st Ost unit := os_write t v (bits_size t).
Definition get `{IStream Ist} (t : prim) : st Ist Z := is_read t (bits_size t).
Definition putEnum `{OStream Ost} (size v : Z) : st Ost unit := os_writeEnum (uint 64 v) size.
Definition getEnum `{IStream Ist} (init size : Z) : st Ist Z :=
  v ← is_readEnum init size; mret (uint size v).
Definition putString `{OStream Ost} (s : list Z) : st Ost unit := os_writeString s USHRT_MAX 16.
Definition getString `{IStream Ist} : st Ist (list Z) := is_readString USHRT_MAX 16.
Definition putWString `{OStream Ost} (s : list Z) : st Ost unit := os_writeWString s USHRT_MAX 16.
Definition getWString `{IStream Ist} : st Ist (list Z) := is_readWString USHRT_MAX 16.

(** ** What a stream can carry *)

(** [v] survives a trip in [n] bits.  31 bits, and 32 bits and more of a wider
    type, are left out: the reader's mask [(1 << n) - 1] is an [int]. *)
Definition prim_fits (t : prim) (v n : Z) : Prop :=
  prim_ok t v ∧
  match t with
  | PBool => n = 1
  | PFloat32 => n = 32
  | PU64 | PU32 | PU16 | PU8 => 0 < n ≤ bits_size t ∧ (n ≤ 30 ∨ n = bits_size t) ∧ is_uint n v
  | PS64 | PS32 | PS16 | PS8 => 0 < n ≤ bits_size t ∧ (n ≤ 30 ∨ n = bits_size t) ∧ is_sint n v
  end.

Definition enum_fits (v n : Z) : Prop :=
  0 < n ∧ (n ≤ 30 ∨ n = 64) ∧ is_uint n v.

(** A byte string, cut to [maxLength], with a length field of [n] bits. *)
Definition string_fits (s : list Z) (maxLength : nat) (n : Z) : Prop :=
  (n = 8 ∨ n = 16) ∧ Forall is_byte s ∧ Z.of_nat (length (take maxLength s)) < 2 ^ n.

(** A wide string: as UTF-8 its bytes fit too, and no [maxLength] cuts them. *)
Definition wstring_fits (utf8 : bool) (s : list Z) (maxLength : nat) (n : Z) : Prop :=
  (n = 8 ∨ n = 16) ∧ (maxLength ≤ USHRT_MAX)%nat ∧ Forall is_ucs s ∧
  Z.of_nat (length (take maxLength s)) < 2 ^ n ∧
  if utf8 then (length (toUtf8 (take maxLength s)) ≤ maxLength)%nat ∧
               Z.of_nat (length (toUtf8 (take maxLength s))) < 2 ^ n
  else 4 * Z.of_nat (length (take maxLength s)) < 2 ^ 16.

#[global] Instance is_uint_dec w z : Decision (is_uint w z).
Proof. unfold is_uint. apply _. Defined.
#[global] Instance is_sint_dec w z : Decision (is_sint w z).
Proof. unfold is_sint. apply _. Defined.
#[global] Instance prim_ok_dec t v : Decision (prim_ok t v).
Proof. destruct t; unfold prim_ok; apply _. Defined.
#[global] Instance prim_fits_dec t v n : Decision (prim_fits t v n).
Proof. destruct t; unfold prim_fits; apply _. Defined.
#[global] Instance enum_fits_dec v n : Decision (enum_fits v n).
Proof. unfold enum_fits. apply _. Defined.
#[global] Instance string_fits_dec s m n : Decision (string_fits s m n).
Proof. unfold string_fits. apply _. Defined.
#[global] Instance wstring_fits_dec utf8 s m n : Decision (wstring_fits utf8 s m n).
Proof. unfold wstring_fits. destruct utf8; apply _. Defined.

(** A length field. *)
Lemma count_fits t v n : t = PU32 ∨ t = PU16 → n = 8 ∨ n = 16 → is_uint n v → prim_fits t v n.
Proof.
  intros Ht Hn Hv. assert (is_uint (bits_size t) v)
    by (apply (is_uint_mono n); [destruct Ht as [-> | ->], Hn as [-> | ->]; vm_compute; split; congruence|done]).
  destruct Ht as [-> | ->], Hn as [-> | ->]; split; try done; (split; [done|]); split; try done; by left.
Qed.

(** ** Encodings

    An encoding says which elements (bits of a bit stream, bytes of a byte
    stream) are put after the [pos] elements already there. *)
Definition encoding (E : Type) := nat → list E.

Definition enc_app {E} (a b : encoding E) : encoding E :=
  λ pos, a pos ++ b (pos + length (a pos))%nat.
Definition enc_nil {E} : encoding E := λ _, [].
Infix "+++" := enc_app (right associativity, at level 60).

(** ** The contract of a pair of streams *)

Class StreamPair (O I E : Type) `{OStream O, IStream I} := {
  sp_utf8 : bool;
  sp_unit : nat;                                   (* elements of one byte *)
  os_repr : O → list E → Prop;                     (* what has been written *)
  is_repr : I → nat → list E → Prop;               (* how much was read, what is left *)
  os_room : O → nat → Prop;
  enc_prim : prim → Z → Z → list E;
  enc_enum : Z → Z → list E;
  enc_string : list Z → nat → Z → encoding E;
  enc_wstring : list Z → nat → Z → encoding E;
  enc_buffer : list Z → encoding E;
  enc_pad : encoding E;                            (* what [align] puts *)
  os_room_le o m n : (m ≤ n)%nat → os_room o n → os_room o m;

  os_write_ok t v n o es : prim_fits t v n →
    os_repr o es → os_room o (length (enc_prim t v n)) → ∃ o',
    os_write t v n o = (Ok tt, o') ∧ os_repr o' (es ++ enc_prim t v n) ∧
    (∀ k, os_room o (length (enc_prim t v n) + k) → os_room o' k);
  os_writeEnum_ok v n o es : enum_fits v n →
    os_repr o es → os_room o (length (enc_enum v n)) → ∃ o',
    os_writeEnum v n o = (Ok tt, o') ∧ os_repr o' (es ++ enc_enum v n) ∧
    (∀ k, os_room o (length (enc_enum v n) + k) → os_room o' k);
  os_writeString_ok s m n o es : string_fits s m n →
    os_repr o es → os_room o (length (enc_string s m n (length es))) → ∃ o',
    os_writeString s m n o = (Ok tt, o') ∧ os_repr o' (es ++ enc_string s m n (length es)) ∧
    (∀ k, os_room o (length (enc_string s m n (length es)) + k) → os_room o' k);
  os_writeWString_ok s m n o es : wstring_fits sp_utf8 s m n →
    os_repr o es → os_room o (length (enc_wstring s m n (length es))) → ∃ o',
    os_writeWString s m n o = (Ok tt, o') ∧ os_repr o' (es ++ enc_wstring s m n (length es)) ∧
    (∀ k, os_room o (length (enc_wstring s m n (length es)) + k) → os_room o' k);
  os_writeBuffer_ok l o es : Forall is_byte l →
    os_repr o es → os_room o (length (enc_buffer l (length es))) → ∃ o',
    os_writeBuffer l o = (Ok tt, o') ∧ os_repr o' (es ++ enc_buffer l (length es)) ∧
    (∀ k, os_room o (length (enc_buffer l (length es)) + k) → os_room o' k);
  os_align_ok o es : os_repr o es → os_room o (length (enc_pad (length es))) → ∃ o',
    os_align o = (Ok tt, o') ∧ os_repr o' (es ++ enc_pad (length es)) ∧
    (∀ k, os_room o (length (enc_pad (length es)) + k) → os_room o' k);

  is_read_ok t v n i pos rest : prim_fits t v n →
    is_repr i pos (enc_prim t v n ++ rest) → ∃ i',
    is_read t n i = (Ok v, i') ∧ is_repr i' (pos + length (enc_prim t v n)) rest;
  is_readEnum_ok v n init i pos rest : enum_fits v n → is_uint 64 init →
    is_repr i pos (enc_enum v n ++ rest) → ∃ r i',
    is_readEnum init n i = (Ok r, i') ∧ uint n r = v ∧
    is_repr i' (pos + length (enc_enum v n)) rest;
  is_readString_ok s m n i pos rest : string_fits s m n →
    (take m s ≠ [] ∨ (pos mod sp_unit = 0)%nat) →
    is_repr i pos (enc_string s m n pos ++ rest) → ∃ i',
    is_readString m n i = (Ok (take m s), i') ∧
    is_repr i' (pos + length (enc_string s m n pos)) rest;
  is_readWString_ok s m n i pos rest : wstring_fits sp_utf8 s m n →
    (take m s ≠ [] ∨ (pos mod sp_unit = 0)%nat) →
    is_repr i pos (enc_wstring s m n pos ++ rest) → ∃ i',
    is_readWString m n i = (Ok (take m s), i') ∧
    is_repr i' (pos + length (enc_wstring s m n pos)) rest;
  is_readBuffer_ok l i pos rest : Forall is_byte l →
    is_repr i pos (enc_buffer l pos ++ rest) → ∃ i',
    is_readBuffer (length l) i = (Ok l, i') ∧
    is_repr i' (pos + length (enc_buffer l pos)) rest;
  is_align_ok i pos rest : is_repr i pos (enc_pad pos ++ rest) → ∃ i',
    is_align i = (Ok tt, i') ∧ is_repr i' (pos + length (enc_pad pos)) rest;

  enc_prim_aligned t v n pos : n mod 8 = 0 → 0 ≤ n → (pos mod sp_unit = 0)%nat →
    ((pos + length (enc_prim t v n)) mod sp_unit = 0)%nat;
  enc_string_aligned s m n pos : ((pos + length (enc_string s m n pos)) mod sp_unit = 0)%nat;
  enc_wstring_aligned s m n pos : ((pos + length (enc_wstring s m n pos)) mod sp_unit = 0)%nat;
  enc_buffer_aligned l pos : ((pos + length (enc_buffer l pos)) mod sp_unit = 0)%nat;
  enc_pad_aligned pos : ((pos + length (enc_pad pos)) mod sp_unit = 0)%nat;

  enc_string_mod s m n p q : (p mod sp_unit = q mod sp_unit)%nat → enc_string s m n p = enc_string s m n q;
  enc_wstring_mod s m n p q : (p mod sp_unit = q mod sp_unit)%nat → enc_wstring s m n p = enc_wstring s m n q;
  enc_pad_mod p q : (p mod sp_unit = q mod sp_unit)%nat → enc_pad p = enc_pad q;
  enc_pad_nil p : (p mod sp_unit = 0)%nat → enc_pad p = [];
}.
Arguments sp_utf8 O I E {_ _ _}.
Arguments sp_unit O I E {_ _ _}.
Arguments enc_prim O I E {_ _ _} _ _ _.
Arguments enc_enum O I E {_ _ _} _ _.
Arguments enc_string O I E {_ _ _} _ _ _ _.
Arguments enc_wstring O I E {_ _ _} _ _ _ _.
Arguments enc_buffer O I E {_ _ _} _ _.
Arguments enc_pad O I E {_ _ _} _.

(** ** Writers and readers of an encoding *)

Section codec.
Context {O I E : Type} `{HSP : StreamPair O I E}.

(** [m] writes the encoding [e] wherever the stream stands. *)
Definition writes (m : st O unit) (e : encoding E) : Prop :=
  ∀ o es, os_repr o es → os_room o (length (e (length es))) → ∃ o',
    m o = (Ok tt, o') ∧ os_repr o' (es ++ e (length es)) ∧
    (∀ k, os_room o (length (e (length es)) + k) → os_room o' k).

(** [m] reads it back as [a], from the positions [P], whatever follows. *)
Definition reads {A} (P : nat → Prop) (m : st I A) (e : encoding E) (a : A) : Prop :=
  ∀ i pos rest, P pos → is_repr i pos (e pos ++ rest) → ∃ i',
    m i = (Ok a, i') ∧ is_repr i' (pos + length (e pos)) rest.

(** At a byte boundary: every position of a byte stream. *)
Definition aligned (pos : nat) : Prop := (pos mod sp_unit O I E = 0)%nat.

(** An encoding looks at the place within the byte only. *)
Definition local (e : encoding E) : Prop :=
  ∀ p q, (p mod sp_unit O I E = q mod sp_unit O I E)%nat → e p = e q.

Lemma local_const l : local (λ _, l).
Proof. done. Qed.

Lemma local_nil : local enc_nil.
Proof. done. Qed.

Lemma mod_add_eq p q n u : (p mod u = q mod u → (p + n) mod u = (q + n) mod u)%nat.
Proof.
  intros Hpq. destruct (decide (u = 0%nat)) as [->|Hu]; [cbn in *; congruence|].
  by rewrite <- (Nat.Div0.add_mod_idemp_l p), <- (Nat.Div0.add_mod_idemp_l q), Hpq.
Qed.

Lemma local_app a b : local a → local b → local (a +++ b).
Proof.
  intros Ha Hb p q Hpq. unfold enc_app. rewrite (Ha p q Hpq). f_equal. apply Hb. by apply mod_add_eq.
Qed.

Lemma aligned_mod p : aligned p → (p mod sp_unit O I E = 0 mod sp_unit O I E)%nat.
Proof. unfold aligned. intros ->. by rewrite Nat.Div0.mod_0_l. Qed.

Lemma aligned_mod_iff p q : (p mod sp_unit O I E = q mod sp_unit O I E)%nat → aligned p ↔ aligned q.
Proof. unfold aligned. by intros ->. Qed.

Lemma writes_ret : writes (mret tt) enc_nil.
Proof.
  intros o es Ho _. exists o. unfold enc_nil. rewrite app_nil_r. split_and!; [done|done|].
  by intros k.
Qed.

Lemma writes_seq m1 m2 e1 e2 :
  writes m1 e1 → writes m2 e2 → writes (m1 ;; m2) (e1 +++ e2).
Proof.
  intros H1' H2' o es Ho Hr. unfold enc_app in *. rewrite length_app in Hr.
  destruct (H1' o es Ho) as (o1 & E1 & Ho1 & Hr1); [by eapply os_room_le, Hr; lia|].
  destruct (H2' o1 _ Ho1) as (o2 & E2 & Ho2 & Hr2); [rewrite length_app; by apply Hr1|].
  rewrite length_app in Ho2, Hr2.
  exists o2. st_step E1. rewrite E2, app_assoc. split_and!; [done|done|].
  intros k Hk. apply Hr2, Hr1. rewrite length_app in Hk. by rewrite Nat.add_assoc.
Qed.

Lemma reads_ret {A} P (a : A) : reads P (mret a) enc_nil a.
Proof. intros i pos rest _ Hi. exists i. by rewrite Nat.add_0_r. Qed.

Lemma reads_bind {A B} P Q (m : st I A) (f : A → st I B) e1 e2 a b :
  reads P m e1 a → reads Q (f a) e2 b →
  (∀ pos, P pos → Q (pos + length (e1 pos))%nat) →
  reads P (m ≫= f) (e1 +++ e2) b.
Proof.
  intros H1' H2' HPQ i pos rest HP Hi. unfold enc_app in *. rewrite <- app_assoc in Hi.
  destruct (H1' i pos _ HP Hi) as (i1 & E1 & Hi1).
  destruct (H2' i1 _ _ (HPQ _ HP) Hi1) as (i2 & E2 & Hi2).
  exists i2. st_step E1. by rewrite E2, length_app, Nat.add_assoc.
Qed.

Lemma reads_weaken {A} (P Q : nat → Prop) (m : st I A) e a :
  (∀ pos, P pos → Q pos) → reads Q m e a → reads P m e a.
Proof. intros HPQ Hm i pos rest HP. apply Hm; auto. Qed.

Lemma reads_fmap {A B} P (g : A → B) (m : st I A) e a :
  reads P m e a → reads P (g <$> m) e (g a).
Proof.
  intros Hm i pos rest HP Hi. destruct (Hm i pos rest HP Hi) as (i' & E1 & Hi').
  exists i'. unfold fmap, st_fmap. by rewrite E1.
Qed.

Lemma writes_prim t v n : prim_fits t v n → writes (os_write t v n) (λ _, enc_prim O I E t v n).
Proof. intros Hf o es. by apply os_write_ok. Qed.

Lemma reads_prim P t v n : prim_fits t v n → reads P (is_read t n) (λ _, enc_prim O I E t v n) v.
Proof. intros Hf i pos rest _. by apply is_read_ok. Qed.

Lemma prim_ok_fits t v : prim_ok t v → prim_fits t v (bits_size t).
Proof. intros Hv. split; [done|]. destruct t; try done; (split; [done|]; split; [by right|done]). Qed.

Lemma writes_put t v : prim_ok t v → writes (put t v) (λ _, enc_prim O I E t v (bits_size t)).
Proof. intros. by apply writes_prim, prim_ok_fits. Qed.

Lemma reads_get P t v : prim_ok t v → reads P (get t) (λ _, enc_prim O I E t v (bits_size t)) v.
Proof. intros. by apply reads_prim, prim_ok_fits. Qed.

Lemma writes_string s m n : string_fits s m n →
  writes (os_writeString s m n) (enc_string O I E s m n).
Proof. intros Hf o es. by apply os_writeString_ok. Qed.

Lemma reads_string s m n : string_fits s m n →
  reads (λ pos, take m s ≠ [] ∨ (pos mod sp_unit O I E = 0)%nat)
    (is_readString m n) (enc_string O I E s m n) (take m s).
Proof. intros Hf i pos rest. by apply is_readString_ok. Qed.

Lemma writes_wstring s m n : wstring_fits (sp_utf8 O I E) s m n →
  writes (os_writeWString s m n) (enc_wstring O I E s m n).
Proof. intros Hf o es. by apply os_writeWString_ok. Qed.

Lemma reads_wstring s m n : wstring_fits (sp_utf8 O I E) s m n →
  reads (λ pos, take m s ≠ [] ∨ (pos mod sp_unit O I E = 0)%nat)
    (is_readWString m n) (enc_wstring O I E s m n) (take m s).
Proof. intros Hf i pos rest. by apply is_readWString_ok. Qed.

Lemma writes_buffer l : Forall is_byte l → writes (os_writeBuffer l) (enc_buffer O I E l).
Proof. intros Hf o es. by apply os_writeBuffer_ok. Qed.

Lemma reads_buffer P l : Forall is_byte l →
  reads P (is_readBuffer (length l)) (enc_buffer O I E l) l.
Proof. intros Hf i pos rest _. by apply is_readBuffer_ok. Qed.

Lemma writes_align : writes os_align (enc_pad O I E).
Proof. intros o es. by apply os_align_ok. Qed.

Lemma reads_align P : reads P is_align (enc_pad O I E) tt.
Proof. intros i pos rest _. by apply is_align_ok. Qed.

Lemma writes_enum v n : enum_fits v n → writes (putEnum n v) (λ _, enc_enum O I E v n).
Proof.
  intros Hf o es. unfold putEnum. rewrite uint_id; [by apply os_writeEnum_ok|].
  destruct Hf as (Hn & Hn' & Hv). apply (is_uint_mono n); [lia|done].
Qed.

Lemma reads_enum P v n init : enum_fits v n → is_uint 64 init →
  reads P (getEnum init n) (λ _, enc_enum O I E v n) v.
Proof.
  intros Hf Hi0 i pos rest _ Hi.
  destruct (is_readEnum_ok v n init i pos rest Hf Hi0 Hi) as (r & i' & E1 & Hr & Hi').
  exists i'. unfold getEnum. st_step E1. by rewrite mret_run, Hr.
Qed.
End codec.
