(* ===== verification/BitStream.v ===== *)
(** * core/stream: the bit streams

    Models [OBitStream] ([src/include/sne/core/stream/detail/OBitStream.h],
    [src/src/core/stream/detail/OBitStream.cpp]) and [IBitStream] (idem), over
    any [StreamBuffer].  The abstract state of a writer is the list of bits
    written so far, of a reader the list of bits left; [BitStream_pair] shows
    that the two form a [StreamPair].  A stream owns a reference to its buffer;
    the model keeps the buffer inside the stream object. *)

From S2P Require Import Prelude BitList Bits StreamBuffer Unicode Stream.

Record OBitStream (B : Type) := {
  ob_streamBuffer : B;
  ob_shouldUseUtf8ForString : bool;
  ob_holdingBitCount : Z;
  ob_totalBitCount : Z;
}.
Arguments Build_OBitStream {B} _ _ _ _.
Arguments ob_streamBuffer {B} _.
Arguments ob_shouldUseUtf8ForString {B} _.
Arguments ob_holdingBitCount {B} _.
Arguments ob_totalBitCount {B} _.

Record IBitStream (B : Type) := {
  ib_streamBuffer : B;
  ib_shouldUseUtf8ForString : bool;
  ib_bitReadCount : Z;
}.
Arguments Build_IBitStream {B} _ _ _.
Arguments ib_streamBuffer {B} _.
Arguments ib_shouldUseUtf8ForString {B} _.
Arguments ib_bitReadCount {B} _.

(** The constructors. *)
Definition newOBitStream {B} (b : B) (utf8 : bool) : OBitStream B := Build_OBitStream b utf8 0 0.
Definition newIBitStream {B} (b : B) (utf8 : bool) : IBitStream B := Build_IBitStream b utf8 0.

Section bitstream.
Context {B : Type} `{StreamBuffer B}.

(** ** Access to the members *)

Definition ob_buf {A} (m : st B A) : st (OBitStream B) A :=
  zoom ob_streamBuffer (λ b o, Build_OBitStream b (ob_shouldUseUtf8ForString o)
    (ob_holdingBitCount o) (ob_totalBitCount o)) m.
Definition ob_set_holding (h : Z) : st (OBitStream B) unit :=
  modify (λ o, Build_OBitStream (ob_streamBuffer o) (ob_shouldUseUtf8ForString o)
    h (ob_totalBitCount o)).
Definition ob_add_total (n : Z) : st (OBitStream B) unit :=
  modify (λ o, Build_OBitStream (ob_streamBuffer o) (ob_shouldUseUtf8ForString o)
    (ob_holdingBitCount o) (ob_totalBitCount o + n)).
Definition ib_buf {A} (m : st B A) : st (IBitStream B) A :=
  zoom ib_streamBuffer (λ b i, Build_IBitStream b (ib_shouldUseUtf8ForString i)
    (ib_bitReadCount i)) m.
Definition ib_set_bitReadCount (r : Z) : st (IBitStream B) unit :=
  modify (λ i, Build_IBitStream (ib_streamBuffer i) (ib_shouldUseUtf8ForString i) r).

(** ** OBitStream: bits *)

Definition resetUnusedBits (W value bitCount : Z) : Z :=
  if bitCount <? W then Z.land value (uint W (Z.shiftl 1 bitCount - 1)) else value.

(** The [do ... while (leftBitCount > 0)] loop; a turn takes 8 bits, so
    [Z.to_nat leftBitCount] turns are enough. *)
Fixpoint push_loop (fuel : nat) (theValue leftBitCount : Z) : st B unit :=
  match fuel with
  | O => throw OutOfFuel
  | S fuel =>
      sb_push (uint 8 theValue) ;;
      let theValue := Z.shiftr theValue CHAR_BIT in
      let leftBitCount := leftBitCount - CHAR_BIT in
      if 0 <? leftBitCount then push_loop fuel theValue leftBitCount else mret tt
  end.

(** The first byte: into the last byte of the buffer, or a new one. *)
Definition write_first (W theValue holdingBitCount : Z) : st B unit :=
  if 0 <? holdingBitCount then
    empty ← gets sb_empty;
    if (empty : bool) then throw (StreamingException "buffer is empty")
    else
      back ← sb_back;
      sb_set_back (Z.lor back (uint 8 (uint W (Z.shiftl theValue holdingBitCount))))
  else sb_push (uint 8 theValue).

(** [writeBitsImpl<DataType>], [DataType] unsigned of [W] bits. *)
Definition writeBitsImpl (W value bitCount : Z) : st (OBitStream B) unit :=
  if negb (isEnoughBits W bitCount) then throw (StreamingException "invalid bitCount")
  else
    holdingBitCount ← gets ob_holdingBitCount;
    let theValue := resetUnusedBits W value bitCount in
    ob_buf (write_first W theValue holdingBitCount) ;;
    let bitShiftCount := CHAR_BIT - holdingBitCount in
    (if bitShiftCount <? bitCount then
       let leftBitCount := bitCount - bitShiftCount in
       ob_buf (push_loop (Z.to_nat leftBitCount) (Z.shiftr theValue bitShiftCount) leftBitCount)
     else mret tt) ;;
    ob_set_holding (Z.land (holdingBitCount + bitCount) (CHAR_BIT - 1)) ;;
    ob_add_total bitCount.

Definition ob_align : st (OBitStream B) unit :=
  holdingBitCount ← gets ob_holdingBitCount;
  if 0 <? holdingBitCount then writeBitsImpl 32 0 (CHAR_BIT - holdingBitCount) else mret tt.

Definition ob_reset (resetBuffer : bool) : st (OBitStream B) unit :=
  (if resetBuffer then ob_buf sb_reset else mret tt) ;;
  modify (λ o, Build_OBitStream (ob_streamBuffer o) (ob_shouldUseUtf8ForString o)
    (ob_holdingBitCount o) 0).

(** The [write] overloads: 64-bit types go through [writeBits(uint64_t)], the
    others are promoted to [uint32_t], signed ones by sign extension. *)
Definition ob_write (t : prim) (value bitCount : Z) : st (OBitStream B) unit :=
  match t with
  | PU64 | PS64 => writeBitsImpl 64 (uint 64 value) bitCount
  | PFloat32 => writeBitsImpl 32 value (bits_size PFloat32)
  | _ => writeBitsImpl 32 (uint 32 value) bitCount
  end.

Definition ob_writeEnum (value bitCount : Z) : st (OBitStream B) unit := ob_write PU64 value bitCount.

(** [write(const void* buffer, uint16_t length)], [buffer] being [length] bytes. *)
Definition ob_writeBuffer (buffer : list Z) : st (OBitStream B) unit :=
  ob_align ;; ob_buf (sb_copyFrom buffer) ;; ob_add_total (Z.of_nat (length buffer) * CHAR_BIT).

(** [static_cast<uint16_t>(length)] as a count of list elements. *)
Definition u16 (n : nat) : nat := Z.to_nat (uint 16 (Z.of_nat n)).

Definition ob_writeString (value : list Z) (maxLength : nat) (sizeBitCount : Z)
  : st (OBitStream B) unit :=
  let strLen := Nat.min (length value) maxLength in
  ob_write PU32 (uint 32 (Z.of_nat strLen)) sizeBitCount ;;
  ob_writeBuffer (take (u16 strLen) value).

(** [std::wstring::resize] to a smaller size is [take]; a [wchar_t] is four
    little-endian bytes. *)
Definition wchars_bytes (value : list Z) : list Z := mjoin (le_split 4 <$> value).

Definition ob_writeWString (value : list Z) (maxLength : nat) (sizeBitCount : Z)
  : st (OBitStream B) unit :=
  utf8 ← gets ob_shouldUseUtf8ForString;
  if (utf8 : bool) then
    let bytes := toUtf8 (take maxLength value) in
    let strLen := Nat.min (length bytes) maxLength in
    ob_write PU32 (uint 32 (Z.of_nat strLen)) sizeBitCount ;;
    ob_writeBuffer (take (u16 strLen) bytes)
  else
    let strLen := Nat.min (length value) maxLength in
    ob_write PU32 (uint 32 (Z.of_nat strLen)) sizeBitCount ;;
    ob_writeBuffer (take (u16 (strLen * 4)) (wchars_bytes value)).

(** ** IBitStream: bits *)

(** The mask of [readBitsImpl]: [(1 << bitCount) - 1] is computed in [int], so
    it has no defined value from 31 bits on. *)
Definition int_mask (W bitCount : Z) : option Z :=
  if bitCount <? W then
    if bitCount <? 31 then Some (Z.shiftl 1 bitCount - 1) else None
  else Some (uint W (-1)).

Fixpoint pop_loop (fuel : nat) (W result shiftCount leftBitCount : Z) : st B Z :=
  if 0 <? leftBitCount then
    match fuel with
    | O => throw OutOfFuel
    | S fuel =>
        sb_pop ;;
        front ← sb_front;
        pop_loop fuel W (Z.lor result (uint W (Z.shiftl front shiftCount)))
          (shiftCount + CHAR_BIT) (leftBitCount - CHAR_BIT)
    end
  else mret result.

Definition readBitsImpl (W bitCount : Z) : st (IBitStream B) Z :=
  if negb (isEnoughBits W bitCount) then throw (StreamingException "invalid bitCount")
  else
    bitReadCount ← gets ib_bitReadCount;
    let shiftCount := CHAR_BIT - bitReadCount in
    let leftBitCount := bitCount - shiftCount in
    streamBufferSize ← gets (λ i, sb_size (ib_streamBuffer i));
    if Z.of_nat streamBufferSize <? toBytes leftBitCount + 1 then
      throw (StreamingException "buffer is not enough")
    else
      front ← ib_buf sb_front;
      result ← ib_buf (pop_loop (Z.to_nat leftBitCount) W (Z.shiftr front bitReadCount)
                         shiftCount leftBitCount);
      let bitReadCount := Z.land (bitReadCount + bitCount) (CHAR_BIT - 1) in
      ib_set_bitReadCount bitReadCount ;;
      (if bitReadCount =? 0 then ib_buf sb_pop else mret tt) ;;
      match int_mask W bitCount with
      | Some mask => mret (Z.land result mask)
      | None => throw (Undefined "1 << bitCount")
      end.

Definition ib_align : st (IBitStream B) unit :=
  bitReadCount ← gets ib_bitReadCount;
  (if 0 <? bitReadCount then ib_buf sb_pop else mret tt) ;;
  ib_set_bitReadCount 0.

Definition ib_reset (resetBuffer : bool) : st (IBitStream B) unit :=
  (if resetBuffer then ib_buf sb_reset else mret tt) ;; ib_set_bitReadCount 0.

(** Sign extension from [bitCount] bits of a [W]-bit pattern, the step shared by
    [readSignedNumeric] and [read(int64_t&)]. *)
Definition sign_extend (W numeric mask bitCount : Z) : Z :=
  let sign := Z.shiftr (Z.land numeric mask) (bitCount - 1) in
  if sign =? 0 then numeric else Z.lor numeric (uint W (Z.lnot mask)).

Definition readNumeric (t : prim) (bitCount : Z) : st (IBitStream B) Z :=
  numeric ← readBitsImpl 32 bitCount; mret (uint (bits_size t) numeric).

Definition readSigned (W size bitCount : Z) : st (IBitStream B) Z :=
  numeric ← readBitsImpl W bitCount;
  if bitCount <? size then
    match int_mask size bitCount with
    | Some mask => mret (sint size (sign_extend W numeric mask bitCount))
    | None => throw (Undefined "1 << bitCount")
    end
  else mret (sint size numeric).

Definition ib_read (t : prim) (bitCount : Z) : st (IBitStream B) Z :=
  match t with
  | PU64 => readBitsImpl 64 bitCount
  | PU32 | PU16 | PU8 | PFloat32 => readNumeric t bitCount
  | PS64 => readSigned 64 64 bitCount
  | PS32 | PS16 | PS8 => readSigned 32 (bits_size t) bitCount
  | PBool => numeric ← readNumeric PU32 bitCount; mret (Z.b2z (negb (numeric =? 0)))
  end.

(** The caller's variable is overwritten whole: its old value [init] is not used. *)
Definition ib_readEnum (init bitCount : Z) : st (IBitStream B) Z := readBitsImpl 64 bitCount.

Definition ib_readBuffer (len : nat) : st (IBitStream B) (list Z) :=
  ib_align ;; ib_buf (sb_copyTo len).

(** [value.resize(strLen)] fills with zeros, of which the read replaces the
    first [uint16_t(strLen)]. *)
Definition ib_readString (maxLength : nat) (sizeBits : Z) : st (IBitStream B) (list Z) :=
  strLen ← ib_read PU32 sizeBits;
  if 0 <? strLen then
    let n := Z.to_nat strLen in
    l ← ib_readBuffer (u16 n);
    mret (take maxLength (l ++ replicate (n - u16 n) 0))
  else mret [].

(** The [wchar_t]s stored in memory as the bytes [l]. *)
Fixpoint wchars_of_bytes (n : nat) (l : list Z) : list Z :=
  match n with
  | O => []
  | S n => sint 32 (le_combine (take 4 l)) :: wchars_of_bytes n (drop 4 l)
  end.

Definition ib_readWString (maxLength : nat) (sizeBits : Z) : st (IBitStream B) (list Z) :=
  strLen ← ib_read PU32 sizeBits;
  if 0 <? strLen then
    let n := Z.to_nat strLen in
    utf8 ← gets ib_shouldUseUtf8ForString;
    value ← (if (utf8 : bool) then
               l ← ib_readBuffer (u16 n);
               mret (fromUtf8 (l ++ replicate (n - u16 n) 0))
             else
               l ← ib_readBuffer (u16 (n * 4));
               mret (wchars_of_bytes n (l ++ replicate (n * 4 - u16 (n * 4)) 0)));
    mret (take maxLength value)
  else mret [].

#[global] Instance OBitStream_stream : OStream (OBitStream B) := {
  os_write := ob_write;
  os_writeEnum := ob_writeEnum;
  os_writeString := ob_writeString;
  os_writeWString := ob_writeWString;
  os_writeBuffer := ob_writeBuffer;
  os_align := ob_align;
  os_reset := ob_reset;
  os_getTotalBitCount := ob_totalBitCount;
  os_getTotalSize := λ o, Z.of_nat (sb_size (ob_streamBuffer o));
}.

#[global] Instance IBitStream_stream : IStream (IBitStream B) := {
  is_read := ib_read;
  is_readEnum := ib_readEnum;
  is_readString := ib_readString;
  is_readWString := ib_readWString;
  is_readBuffer := ib_readBuffer;
  is_align := ib_align;
  is_reset := ib_reset;
  is_getTotalBitCount := λ i, Z.of_nat (sb_size (ib_streamBuffer i)) * CHAR_BIT;
  is_getTotalSize := λ i, toBytes (Z.of_nat (sb_size (ib_streamBuffer i)) * CHAR_BIT);
}.
End bitstream.
