(* ===== verification/BitStreamSpec.v ===== *)
(** * core/stream: the bit streams refine bit lists

    Proves that the bit streams of [BitStream.v], over any buffer that keeps
    the [StreamBufferSpec] contract, implement the [StreamPair] interface. *)

From S2P Require Import Prelude BitList Bits StreamBuffer Unicode Stream BitStream.
From Stdlib Require Import ZifyNat.

#[local] Ltac Zify.zify_post_hook ::= Z.to_euclidean_division_equations.

(** ** Arithmetic of bytes and bits *)

(** The bytes that hold [n] bits, and those [n] bits add after [len] bits. *)
Definition byte_count (n : nat) : nat := ((n + 7) / 8)%nat.
Definition new_bytes (len n : nat) : nat := (byte_count (len + n) - byte_count len)%nat.

Lemma new_bytes_add len a b :
  new_bytes len (a + b) = (new_bytes len a + new_bytes (len + a) b)%nat.
Proof. unfold new_bytes, byte_count. lia. Qed.

Lemma new_bytes_mod len n : new_bytes (len mod 8) n = new_bytes len n.
Proof. unfold new_bytes, byte_count. lia. Qed.

Lemma resetUnusedBits_eq W v n : 0 < n ≤ W → is_uint W v → resetUnusedBits W v n = uint n v.
Proof.
  intros Hn Hv. unfold resetUnusedBits. destruct (Z.ltb_spec n W).
  - rewrite Z.shiftl_1_l. pose proof (Z.pow_le_mono_r 2 n W). pose proof (pow2_pos n).
    rewrite (uint_id W) by (unfold is_uint; lia).
    replace (2 ^ n - 1) with (Z.ones n) by (rewrite Z.ones_equiv; lia).
    by rewrite Z.land_ones by lia.
  - replace n with W by lia. by rewrite uint_id.
Qed.

Section writer.
Context {B : Type} `{HB : StreamBufferSpec B} (utf8 : bool).

(** ** The buffer and the bits written *)

Record buf_repr (b : B) (bs : list bool) : Prop := {
  br_wf : sb_wf b;
  br_bytes : Forall is_byte (sb_contents b);
  br_length : length (sb_contents b) = byte_count (length bs);
  br_value : le_combine (sb_contents b) = Z_of_bits bs;
}.

Definition ob_repr (o : OBitStream B) (bs : list bool) : Prop :=
  buf_repr (ob_streamBuffer o) bs ∧ ob_shouldUseUtf8ForString o = utf8 ∧
  ob_holdingBitCount o = Z.of_nat (length bs mod 8).

(** Room for [n] more bits. *)
Definition ob_room (o : OBitStream B) (n : nat) : Prop :=
  sb_room (ob_streamBuffer o) (new_bytes (Z.to_nat (ob_holdingBitCount o)) n).

Lemma ob_room_le o m n : (m ≤ n)%nat → ob_room o n → ob_room o m.
Proof.
  intros Hmn. apply sb_room_le. unfold new_bytes, byte_count.
  set (h := Z.to_nat _). pose proof (Nat.Div0.div_le_mono (h + m + 7) (h + n + 7) 8). lia.
Qed.

(** The byte being filled: [D] whole bytes, then [x] holding [h] bits. *)
Lemma buf_repr_split b bs : buf_repr b bs → let h := (length bs mod 8)%nat in
  ∃ D x, sb_contents b = D ++ (if decide (h = O) then [] else [x]) ∧
    (8 * length D + h)%nat = length bs ∧ Forall is_byte D ∧ is_byte x ∧
    is_uint (Z.of_nat h) x ∧
    le_combine D + 2 ^ (8 * Z.of_nat (length D)) * x = Z_of_bits bs.
Proof.
  intros [Hwf Hby Hlen Hval] h. unfold byte_count in Hlen. subst h.
  pose proof (Nat.div_mod (length bs) 8 ltac:(lia)) as E.
  set (h := (length bs mod 8)%nat) in *.
  assert (Hh : (h < 8)%nat) by (apply Nat.mod_upper_bound; lia).
  case_decide as Hz.
  - exists (sb_contents b), 0. rewrite app_nil_r. split_and!; try done.
    + rewrite Hlen. lia.
    + split; [done|apply pow2_pos; lia].
    + lia.
  - destruct (exists_last (l := sb_contents b)) as (D & x & HD).
    { intros E0. rewrite E0 in Hlen. cbn [length] in Hlen. clearbody h. lia. }
    rewrite HD in Hby, Hlen, Hval. apply Forall_app in Hby as [HbD Hbx].
    apply Forall_cons in Hbx as [Hbx _]. rewrite length_app in Hlen. cbn [length] in Hlen. clearbody h.
    assert (HlD : (8 * length D + h)%nat = length bs) by lia.
    rewrite le_combine_app in Hval. cbn [le_combine] in Hval. rewrite Z.mul_0_r, Z.add_0_r in Hval.
    exists D, x. split_and!; try done. pose proof (Z_of_bits_range bs) as Hr.
    pose proof (le_combine_range D HbD) as HrD. pose proof Hbx as [Hx0 _].
    split; [done|].
    destruct Hr as [_ Hr]. destruct HrD as [HrD _].
    replace (Z.of_nat (length bs)) with (8 * Z.of_nat (length D) + Z.of_nat h) in Hr by lia.
    rewrite pow2_split in Hr by lia. pose proof (pow2_pos (8 * Z.of_nat (length D))). nia.
Qed.

(** ** The two parts of [writeBitsImpl] *)

Lemma toBytes_pred n : 0 < n → toBytes n = 1 + toBytes (n - 8).
Proof.
  intros Hn. pose proof (toBytes_spec n ltac:(lia)). destruct (Z.ltb_spec (n - 8) 0) as [Hlt|Hge].
  - replace (toBytes (n - 8)) with 0; [lia|]. unfold toBytes. by rewrite (proj2 (Z.ltb_lt _ _)).
  - pose proof (toBytes_spec (n - 8) Hge). lia.
Qed.

Lemma push_loop_ok fuel v left b :
  0 < left → left ≤ Z.of_nat fuel → sb_wf b →
  let m := Z.to_nat (toBytes left) in sb_room b m → ∃ b',
  push_loop fuel v left b = (Ok tt, b') ∧ sb_wf b' ∧
  sb_contents b' = sb_contents b ++ le_split m v ∧
  (∀ k, sb_room b (m + k) → sb_room b' k).
Proof.
  revert v left b. induction fuel as [|fuel IH]; intros v left b Hl Hf Hwf m Hr; [lia|].
  pose proof (toBytes_spec left ltac:(lia)) as Ht.
  pose proof (toBytes_pred left Hl) as Hp. pose proof (toBytes_nonneg (left - 8)).
  assert (Hm : m = S (Z.to_nat (toBytes (left - 8)))) by lia.
  destruct (sb_push_ok b (uint 8 v) Hwf) as (b1 & E1 & Hwf1 & Hc1 & Hr1).
  { apply (sb_room_le _ _ m); [lia|done]. }
  cbn [push_loop]. st_step E1. change CHAR_BIT with 8.
  rewrite Hm. cbn [le_split]. rewrite Z.shiftr_div_pow2 by lia. change (2 ^ 8) with 256.
  destruct (Z.ltb_spec 0 (left - 8)) as [Hlt|Hge].
  - destruct (IH (v / 256) (left - 8) b1) as (b2 & E2 & Hwf2 & Hc2 & Hr2);
      [lia|lia|done| |].
    { apply Hr1. by rewrite <- Hm. }
    exists b2. rewrite E2, Hc2, Hc1, <- app_assoc. split_and!; [done|done|done|].
    intros k Hk. by apply Hr2, Hr1.
  - exists b1. replace (toBytes (left - 8)) with 0 in *.
    + simpl. split_and!; [done|done|done|]. intros k Hk. by apply Hr1.
    + unfold toBytes. destruct (Z.ltb_spec (left - 8) 0); [done|].
      replace left with 8 by lia. done.
Qed.

Lemma write_first_ok W v b D x h :
  8 ≤ W → sb_wf b → (h < 8)%nat → 0 ≤ v →
  sb_contents b = D ++ (if decide (h = O) then [] else [x]) →
  is_byte x → is_uint (Z.of_nat h) x →
  let m := if decide (h = O) then 1%nat else 0%nat in
  sb_room b m → ∃ b',
  write_first W v (Z.of_nat h) b = (Ok tt, b') ∧ sb_wf b' ∧
  sb_contents b' = D ++ [uint 8 (x + v * 2 ^ Z.of_nat h)] ∧
  (∀ k, sb_room b (m + k) → sb_room b' k).
Proof.
  intros HW Hwf Hh Hv Hc Hx Hxh m Hr. unfold write_first. case_decide as Hz; subst m.
  - subst h. destruct (sb_push_ok b (uint 8 v) Hwf Hr) as (b' & E & Hwf' & Hc' & Hr').
    exists b'. simpl. rewrite E, Hc', Hc, app_nil_r.
    assert (x = 0) as -> by (destruct Hxh; lia). rewrite Z.mul_1_r. split_and!; auto.
  - destruct (Z.ltb_spec 0 (Z.of_nat h)); [|lia].
    rewrite (bind_ok _ _ b _ b (gets_run sb_empty b)).
    rewrite sb_empty_ok by done. rewrite bool_decide_false.
    2:{ rewrite Hc. by destruct D. }
    st_step (sb_back_ok b x D Hwf Hc).
    destruct (sb_set_back_ok b x (Z.lor x (uint 8 (uint W (Z.shiftl v (Z.of_nat h))))) D Hwf Hc)
      as (b' & E & Hwf' & Hc' & Hr'). exists b'. rewrite E, Hc'.
    split_and!; [done|done| |by intros k; apply Hr']. do 2 f_equal.
    rewrite uint_mod_le by lia. rewrite <- (uint_id 8 x Hx) at 1. rewrite <- uint_lor by lia.
    by rewrite lor_shiftl_disjoint by (done || lia).
Qed.

(** The number left in the last byte and the number written, joined. *)
Lemma first_rest_bytes x v h n :
  (h < 8)%nat → 0 < n → is_uint (Z.of_nat h) x → is_uint n v →
  let V := x + v * 2 ^ Z.of_nat h in
  let m := if 8 - Z.of_nat h <? n then Z.to_nat (toBytes (n - (8 - Z.of_nat h))) else O in
  uint 8 V :: le_split m (Z.shiftr v (8 - Z.of_nat h)) = le_split (S m) V ∧
  le_combine (le_split (S m) V) = V ∧ S m = byte_count (h + Z.to_nat n).
Proof.
  intros Hh Hn Hx Hv V m. set (hz := Z.of_nat h) in *.
  assert (Hm : S m = byte_count (h + Z.to_nat n)).
  { subst m. unfold byte_count. destruct (Z.ltb_spec (8 - hz) n).
    - pose proof (toBytes_spec (n - (8 - hz)) ltac:(lia)). lia.
    - lia. }
  pose proof (pow2_pos hz) as Hp. split; [|split; [|done]].
  - cbn [le_split]. f_equal. f_equal. rewrite Z.shiftr_div_pow2 by lia.
    replace 256 with (2 ^ hz * 2 ^ (8 - hz)) by (rewrite <- pow2_split by lia; change 256 with (2 ^ 8); f_equal; lia).
    rewrite <- Z.div_div by (try apply pow2_pos; lia). f_equal. unfold V.
    rewrite Z.div_add by lia. destruct Hx. rewrite Z.div_small; lia.
  - rewrite le_combine_split. apply uint_id. rewrite Hm. destruct Hx, Hv. split; [unfold V; nia|].
    apply Z.lt_le_trans with (2 ^ (hz + n)).
    + rewrite pow2_split by lia. unfold V. nia.
    + apply Z.pow_le_mono_r; unfold byte_count; lia.
Qed.

Lemma land_7 z : Z.land z (CHAR_BIT - 1) = z mod 8.
Proof. change (CHAR_BIT - 1) with (Z.ones 3). by rewrite Z.land_ones. Qed.

Lemma writeBits_parts W w n b bs :
  8 ≤ W → 0 < n → is_uint n w → buf_repr b bs →
  let h := (length bs mod 8)%nat in
  sb_room b (new_bytes h (Z.to_nat n)) → ∃ b1 b2,
  write_first W w (Z.of_nat h) b = (Ok tt, b1) ∧
  (if 8 - Z.of_nat h <? n then
     push_loop (Z.to_nat (n - (8 - Z.of_nat h))) (Z.shiftr w (8 - Z.of_nat h))
       (n - (8 - Z.of_nat h))
   else mret tt) b1 = (Ok tt, b2) ∧
  buf_repr b2 (bs ++ bits_of (Z.to_nat n) w) ∧
  (∀ k, sb_room b (new_bytes h (Z.to_nat n) + k) → sb_room b2 k).
Proof.
  intros HW Hn Hw Hb h Hr.
  destruct (buf_repr_split _ _ Hb) as (D & x & Hc & HD & HbD & Hbx & Hx & Hval). fold h in HD, Hx, Hc.
  assert (Hh8 : (h < 8)%nat) by (apply Nat.mod_upper_bound; lia).
  destruct (first_rest_bytes x w h n Hh8 ltac:(lia) Hx Hw) as (Es & Ec & Em).
  set (V := x + w * 2 ^ Z.of_nat h) in *.
  set (m := if (8 - Z.of_nat h <? n)%Z then _ else _) in *.
  set (f := if decide (h = O) then 1%nat else O).
  assert (Hnew : new_bytes h (Z.to_nat n) = (f + m)%nat).
  { unfold new_bytes, f. rewrite <- Em. clear -Hh8.
    case_decide as Hz; unfold byte_count; [by rewrite Hz|].
    replace ((h + 7) / 8)%nat with 1%nat by (clearbody m; lia). lia. }
  rewrite Hnew in *.
  destruct (write_first_ok W w b D x h HW (br_wf _ _ Hb) Hh8 (proj1 Hw) Hc Hbx Hx)
    as (b1 & E1 & Hwf1 & Hc1 & Hr1); [eapply sb_room_le, Hr; lia|].
  fold V f in Hc1, Hr1.
  assert (∃ b2, (if 8 - Z.of_nat h <? n then
     push_loop (Z.to_nat (n - (8 - Z.of_nat h))) (Z.shiftr w (8 - Z.of_nat h))
       (n - (8 - Z.of_nat h))
   else mret tt) b1 = (Ok tt, b2) ∧ sb_wf b2 ∧
   sb_contents b2 = sb_contents b1 ++ le_split m (Z.shiftr w (8 - Z.of_nat h)) ∧
   (∀ k, sb_room b1 (m + k) → sb_room b2 k)) as (b2 & E2 & Hwf2 & Hc2 & Hr2).
  { subst m. destruct (Z.ltb_spec (8 - Z.of_nat h) n).
    - apply push_loop_ok; [lia|lia|done|]. by apply Hr1.
    - exists b1. simpl. by rewrite app_nil_r. }
  exists b1, b2. split_and!; [done|done| |].
  2:{ intros k Hk. apply Hr2, Hr1. by rewrite Nat.add_assoc. }
  assert (Hc' : sb_contents b2 = D ++ le_split (S m) V) by (by rewrite Hc2, Hc1, <- app_assoc, <- Es).
  split; [done| | |]; rewrite Hc'.
  - apply Forall_app. split; [done|apply le_split_bytes].
  - rewrite !length_app, length_le_split, length_bits_of, Em, <- HD. clear. unfold byte_count. lia.
  - rewrite le_combine_app, Ec, Z_of_bits_app, Z_of_bits_of, <- Hval, <- HD.
    rewrite Z2Nat.id, (uint_id n w) by (done || lia). unfold V.
    replace (Z.of_nat (8 * length D + h)) with (8 * Z.of_nat (length D) + Z.of_nat h) by lia.
    rewrite pow2_split by lia. ring.
Qed.

Lemma ob_buf_run {A} (m : st B A) o r b : m (ob_streamBuffer o) = (r, b) →
  ob_buf m o = (r, Build_OBitStream b (ob_shouldUseUtf8ForString o)
    (ob_holdingBitCount o) (ob_totalBitCount o)).
Proof. intros E. unfold ob_buf, zoom. by rewrite E. Qed.

Lemma ob_repr_room o bs n : ob_repr o bs →
  ob_room o n ↔ sb_room (ob_streamBuffer o) (new_bytes (length bs) n).
Proof.
  intros (_ & _ & Hh). unfold ob_room. by rewrite Hh, Nat2Z.id, new_bytes_mod.
Qed.

Lemma writeBits_ok W v n o bs :
  8 ≤ W → 0 < n ≤ W → is_uint W v → ob_repr o bs → ob_room o (Z.to_nat n) → ∃ o',
  writeBitsImpl W v n o = (Ok tt, o') ∧ ob_repr o' (bs ++ bits_of (Z.to_nat n) v) ∧
  ob_totalBitCount o' = ob_totalBitCount o + n ∧
  (∀ k, ob_room o (Z.to_nat n + k) → ob_room o' k).
Proof.
  intros HW Hn Hv Ho Hr. pose proof Ho as (Hb & Hu & Hh). unfold writeBitsImpl.
  rewrite (proj2 (isEnoughBits_true W n) Hn). cbn [negb].
  rewrite (ob_repr_room _ _ _ Ho), <- new_bytes_mod in Hr.
  rewrite resetUnusedBits_eq by done.
  destruct (writeBits_parts W (uint n v) n (ob_streamBuffer o) bs)
    as (b1 & b2 & E1 & E2 & Hb2 & Hr2); [done|lia|apply uint_range; lia|done|done|].
  rewrite bits_of_uint in Hb2 by lia.
  rewrite (bind_ok _ _ o _ o (gets_run _ o)). rewrite Hh. change CHAR_BIT with 8.
  st_step (ob_buf_run _ o _ _ E1). rewrite Hh.
  set (h := (length bs mod 8)%nat) in *.
  set (o' := Build_OBitStream b2 (ob_shouldUseUtf8ForString o)
    (Z.land (Z.of_nat h + n) (8 - 1)) (ob_totalBitCount o + n)).
  assert (Ho' : ob_repr o' (bs ++ bits_of (Z.to_nat n) v)).
  { split; [exact Hb2|]. split; [exact Hu|]. cbn [ob_holdingBitCount o'].
    change (8 - 1) with (CHAR_BIT - 1). rewrite land_7, length_app, length_bits_of. subst h. lia. }
  exists o'. split_and!; [|done|done|].
  - erewrite bind_ok; [|destruct (8 - Z.of_nat h <? n);
      [apply ob_buf_run; exact E2|injection E2 as E2; rewrite E2; reflexivity]].
    reflexivity.
  - intros k Hk. rewrite (ob_repr_room _ _ _ Ho), new_bytes_add, <- (new_bytes_mod (length bs)) in Hk.
    rewrite (ob_repr_room _ _ _ Ho'), length_app, length_bits_of. by apply Hr2.
Qed.

(** ** The operations of the interface *)

(** The zero bits [align] adds after [pos] bits. *)
Definition pad_bits (pos : nat) : nat := ((8 - pos mod 8) mod 8)%nat.
Definition enc_align : encoding bool := λ pos, replicate (pad_bits pos) false.

Lemma ob_align_ok o bs : ob_repr o bs → ob_room o (length (enc_align (length bs))) → ∃ o',
  ob_align o = (Ok tt, o') ∧ ob_repr o' (bs ++ enc_align (length bs)) ∧
  (∀ k, ob_room o (length (enc_align (length bs)) + k) → ob_room o' k).
Proof.
  intros Ho Hr. pose proof Ho as (_ & _ & Hh). unfold ob_align, enc_align, pad_bits in *.
  rewrite length_replicate in *. rewrite (bind_ok _ _ o _ o (gets_run _ o)). rewrite Hh.
  destruct (Z.ltb_spec 0 (Z.of_nat (length bs mod 8))).
  - destruct (writeBits_ok 32 0 (CHAR_BIT - Z.of_nat (length bs mod 8)) o bs)
      as (o' & E & Ho' & _ & Hr'); [done|unfold CHAR_BIT; lia|done|done| |].
    { eapply ob_room_le, Hr. unfold CHAR_BIT. lia. }
    exists o'. rewrite E. rewrite bits_of_0 in Ho'.
    replace (Z.to_nat (CHAR_BIT - Z.of_nat (length bs mod 8)))
      with ((8 - length bs mod 8) mod 8)%nat in * by (unfold CHAR_BIT; lia).
    done.
  - replace ((8 - length bs mod 8) mod 8)%nat with O by lia. exists o. rewrite app_nil_r.
    split_and!; [done|done|by intros k].
Qed.

Lemma ob_copyFrom_ok o bs l : ob_repr o bs → (length bs mod 8 = 0)%nat → Forall is_byte l →
  ob_room o (8 * length l) → ∃ o',
  ob_buf (sb_copyFrom l) o = (Ok tt, o') ∧ ob_repr o' (bs ++ bits_of_bytes l) ∧
  (∀ k, ob_room o (8 * length l + k) → ob_room o' k).
Proof.
  intros Ho Hal Hl Hr. pose proof Ho as ([Hwf Hby Hlen Hval] & Hu & Hh).
  rewrite (ob_repr_room _ _ _ Ho) in Hr.
  replace (new_bytes (length bs) (8 * length l)) with (length l) in Hr
    by (unfold new_bytes, byte_count; lia).
  destruct (sb_copyFrom_ok _ l Hwf Hr) as (b' & E & Hwf' & Hc' & Hr').
  eexists. rewrite (ob_buf_run _ o _ _ E).
  assert (Ho' : ob_repr (Build_OBitStream b' (ob_shouldUseUtf8ForString o)
    (ob_holdingBitCount o) (ob_totalBitCount o)) (bs ++ bits_of_bytes l)).
  { split; [split|split]; cbn [ob_streamBuffer ob_shouldUseUtf8ForString ob_holdingBitCount]; [done| | | |done|].
    - rewrite Hc'. by apply Forall_app.
    - rewrite Hc', !length_app, length_bits_of_bytes, Hlen. unfold byte_count. lia.
    - rewrite Hc', le_combine_app, Z_of_bits_app, Hval, (le_combine_bits l) by done.
      do 3 f_equal. rewrite Hlen. unfold byte_count. lia.
    - rewrite Hh, length_app, length_bits_of_bytes. lia. }
  split; [reflexivity|]. split; [exact Ho'|]. intros k Hk.
  rewrite (ob_repr_room _ _ _ Ho') in *. rewrite (ob_repr_room _ _ _ Ho), new_bytes_add in Hk.
  rewrite length_app, length_bits_of_bytes. apply Hr'.
  by replace (new_bytes (length bs) (8 * length l)) with (length l) in Hk
    by (unfold new_bytes, byte_count; lia).
Qed.

(** ** Encodings of the [write] overloads *)

Definition bit_prim (t : prim) (v n : Z) : list bool := bits_of (Z.to_nat n) v.
Definition bit_buffer (l : list Z) : encoding bool := enc_align +++ λ _, bits_of_bytes l.
(** A length field of [n] bits, then the aligned bytes. *)
Definition bit_counted (len : nat) (n : Z) (l : list Z) : encoding bool :=
  (λ _, bits_of (Z.to_nat n) (Z.of_nat len)) +++ bit_buffer l.
Definition bit_string (s : list Z) (m : nat) (n : Z) : encoding bool :=
  bit_counted (length (take m s)) n (take m s).
Definition bit_wstring (s : list Z) (m : nat) (n : Z) : encoding bool :=
  if utf8 then bit_string (toUtf8 (take m s)) m n
  else bit_counted (length (take m s)) n (wchars_bytes (take m s)).

Lemma prim_fits_size t v n : prim_fits t v n → 0 < n ≤ bits_size t.
Proof. intros [_ Hn]. destruct t; unfold bits_size, sizeof, CHAR_BIT in *; lia. Qed.

Lemma ob_write_ok t v n o bs : prim_fits t v n → ob_repr o bs →
  ob_room o (length (bit_prim t v n)) → ∃ o',
  ob_write t v n o = (Ok tt, o') ∧ ob_repr o' (bs ++ bit_prim t v n) ∧
  (∀ k, ob_room o (length (bit_prim t v n) + k) → ob_room o' k).
Proof.
  intros Hf Ho. pose proof (prim_fits_size t v n Hf) as Hn. unfold bit_prim.
  rewrite length_bits_of. intros Hr.
  assert (HW : ∀ W, 8 ≤ W → n ≤ W → ∃ o',
    writeBitsImpl W (uint W v) n o = (Ok tt, o') ∧ ob_repr o' (bs ++ bits_of (Z.to_nat n) v) ∧
    (∀ k, ob_room o (Z.to_nat n + k) → ob_room o' k)).
  { intros W HW HnW. destruct (writeBits_ok W (uint W v) n o bs) as (o' & E & Ho' & _ & Hr');
      [lia|lia|apply uint_range; lia|done|done|].
    rewrite bits_of_uint in Ho' by lia. by exists o'. }
  destruct t; unfold bits_size, sizeof, CHAR_BIT in Hn; try (apply HW; lia).
  destruct Hf as [Hv ->]. unfold ob_write. change (prim_ok PFloat32 v) with (is_uint 32 v) in Hv.
  change (bits_size PFloat32) with 32.
  replace (writeBitsImpl 32 v 32) with (writeBitsImpl 32 (uint 32 v) 32) by (by rewrite uint_id).
  by apply (HW 32).
Qed.

Lemma ob_writeBuffer_ok l o bs : Forall is_byte l → ob_repr o bs →
  ob_room o (length (bit_buffer l (length bs))) → ∃ o',
  ob_writeBuffer l o = (Ok tt, o') ∧ ob_repr o' (bs ++ bit_buffer l (length bs)) ∧
  (∀ k, ob_room o (length (bit_buffer l (length bs)) + k) → ob_room o' k).
Proof.
  intros Hl Ho Hr. unfold bit_buffer, enc_app in *.
  rewrite length_app, length_bits_of_bytes in *.
  destruct (ob_align_ok o bs Ho) as (o1 & E1 & Ho1 & Hr1); [eapply ob_room_le, Hr; lia|].
  destruct (ob_copyFrom_ok o1 _ l Ho1) as (o2 & E2 & Ho2 & Hr2); [|done|by apply Hr1|].
  { unfold enc_align, pad_bits. rewrite length_app, length_replicate. lia. }
  unfold ob_writeBuffer. st_step E1. st_step E2. eexists. split; [reflexivity|].
  rewrite app_assoc. split; [exact Ho2|]. intros k Hk. apply Hr2, Hr1. by rewrite Nat.add_assoc.
Qed.

Lemma u16_small n : (Z.of_nat n < 2 ^ 16) → u16 n = n.
Proof. intros. unfold u16. rewrite uint_id; unfold is_uint; lia. Qed.

Lemma ob_counted_ok len n l o bs : (n = 8 ∨ n = 16) → Z.of_nat len < 2 ^ n →
  Forall is_byte l → ob_repr o bs →
  ob_room o (length (bit_counted len n l (length bs))) → ∃ o',
  (ob_write PU32 (uint 32 (Z.of_nat len)) n ;; ob_writeBuffer l) o = (Ok tt, o') ∧
  ob_repr o' (bs ++ bit_counted len n l (length bs)) ∧
  (∀ k, ob_room o (length (bit_counted len n l (length bs)) + k) → ob_room o' k).
Proof.
  intros Hn Hlen Hl Ho Hr. unfold bit_counted, enc_app in *. rewrite length_app in *.
  assert (Hlen' : is_uint n (Z.of_nat len)) by (unfold is_uint; lia).
  rewrite (uint_id 32) by (apply (is_uint_mono n); [lia|done]).
  destruct (ob_write_ok PU32 (Z.of_nat len) n o bs) as (o1 & E1 & Ho1 & Hr1).
  { apply count_fits; auto. }
  { done. } { eapply ob_room_le, Hr. unfold bit_prim. lia. }
  unfold bit_prim in *.
  destruct (ob_writeBuffer_ok l o1 _ Hl Ho1) as (o2 & E2 & Ho2 & Hr2).
  { rewrite length_app. by apply Hr1. }
  st_step E1. rewrite E2. rewrite length_app in Ho2, Hr2. rewrite app_assoc.
  exists o2. split_and!; [done|done|]. intros k Hk. apply Hr2, Hr1. by rewrite Nat.add_assoc.
Qed.

Lemma take_min_eq {A} m (s : list A) : take (Nat.min (length s) m) s = take m s.
Proof. destruct (decide (m ≤ length s)%nat); [by rewrite Nat.min_r|].
  rewrite Nat.min_l, !take_ge by lia. done. Qed.

Lemma length_take_min {A} m (s : list A) : length (take m s) = Nat.min (length s) m.
Proof. rewrite length_take. lia. Qed.

Lemma string_fits_u16 s m n : string_fits s m n → take (u16 (Nat.min (length s) m)) s = take m s.
Proof.
  intros (Hn & _ & Hl). rewrite u16_small, take_min_eq; [done|].
  rewrite length_take_min in Hl. destruct Hn as [-> | ->]; lia.
Qed.

Lemma ob_writeString_ok s m n o bs : string_fits s m n → ob_repr o bs →
  ob_room o (length (bit_string s m n (length bs))) → ∃ o',
  ob_writeString s m n o = (Ok tt, o') ∧ ob_repr o' (bs ++ bit_string s m n (length bs)) ∧
  (∀ k, ob_room o (length (bit_string s m n (length bs)) + k) → ob_room o' k).
Proof.
  intros Hf Ho Hr. pose proof Hf as (Hn & Hs & Hl). unfold ob_writeString.
  rewrite (string_fits_u16 s m n Hf), <- length_take_min.
  by apply ob_counted_ok; try apply Forall_take.
Qed.

Lemma wchars_bytes_cons c s : wchars_bytes (c :: s) = le_split 4 c ++ wchars_bytes s.
Proof. done. Qed.

Lemma length_wchars_bytes s : length (wchars_bytes s) = (4 * length s)%nat.
Proof.
  induction s as [|c s IH]; [done|].
  rewrite wchars_bytes_cons, length_app, length_le_split, IH. cbn [length]. lia.
Qed.

Lemma wchars_bytes_take m s : wchars_bytes (take m s) = take (4 * m) (wchars_bytes s).
Proof.
  revert s. induction m as [|m IH]; intros [|c s]; [done|done|by rewrite take_nil|].
  cbn [take]. rewrite !wchars_bytes_cons, IH. rewrite take_app_ge by (rewrite length_le_split; lia).
  rewrite length_le_split. do 2 f_equal. lia.
Qed.

Lemma wchars_bytes_bytes s : Forall is_byte (wchars_bytes s).
Proof.
  induction s; [constructor|]. rewrite wchars_bytes_cons.
  apply Forall_app. split; [apply le_split_bytes|done].
Qed.

Lemma ob_writeWString_ok s m n o bs : wstring_fits utf8 s m n → ob_repr o bs →
  ob_room o (length (bit_wstring s m n (length bs))) → ∃ o',
  ob_writeWString s m n o = (Ok tt, o') ∧ ob_repr o' (bs ++ bit_wstring s m n (length bs)) ∧
  (∀ k, ob_room o (length (bit_wstring s m n (length bs)) + k) → ob_room o' k).
Proof.
  intros (Hn & Hm & Hs & Hl & Hf) Ho Hr. unfold ob_writeWString, bit_wstring in *.
  rewrite (bind_ok _ _ o _ o (gets_run _ o)). pose proof Ho as (_ & -> & _). destruct utf8.
  - apply ob_writeString_ok; [|done|done]. destruct Hf as [Hf1 Hf2].
    split_and!; [done|apply toUtf8_bytes|]. by rewrite take_ge.
  - rewrite length_take_min in Hl, Hf. rewrite u16_small by lia.
    replace (take (Nat.min (length s) m * 4) (wchars_bytes s)) with (wchars_bytes (take m s)).
    + rewrite <- length_take_min in *. apply ob_counted_ok; auto using wchars_bytes_bytes.
    + rewrite Nat.mul_comm, <- wchars_bytes_take. by rewrite take_min_eq.
Qed.
End writer.

(** ** The reader *)

Section reader.
Context {B : Type} `{HB : StreamBufferSpec B} (utf8 : bool).

Record ib_repr (i : IBitStream B) (pos : nat) (bs : list bool) : Prop := {
  ir_wf : sb_wf (ib_streamBuffer i);
  ir_bytes : Forall is_byte (sb_contents (ib_streamBuffer i));
  ir_utf8 : ib_shouldUseUtf8ForString i = utf8;
  ir_count : ib_bitReadCount i = Z.of_nat (pos mod 8);
  ir_length : (8 * length (sb_contents (ib_streamBuffer i)) = pos mod 8 + length bs)%nat;
  ir_value : le_combine (sb_contents (ib_streamBuffer i)) / 2 ^ Z.of_nat (pos mod 8) = Z_of_bits bs;
}.

Lemma pop_loop_ok fuel W Y s left b c l :
  0 ≤ W → 0 ≤ s → is_uint s Y → left ≤ Z.of_nat fuel → sb_wf b →
  sb_contents b = c :: l → Forall is_byte l →
  let k := Z.to_nat (toBytes left) in (k ≤ length l)%nat → ∃ b',
  pop_loop fuel W (uint W Y) s left b = (Ok (uint W (Y + le_combine (take k l) * 2 ^ s)), b') ∧
  sb_wf b' ∧ sb_contents b' = drop k (c :: l).
Proof.
  revert Y s left b c l. induction fuel as [|fuel IH];
    intros Y s left b c l HW Hs HY Hf Hwf Hc Hl k Hk; cbn [pop_loop].
  { rewrite (proj2 (Z.ltb_ge 0 left)) by lia. exists b.
    replace k with O by (subst k; unfold toBytes; destruct (Z.ltb_spec left 0);
      [done|by replace left with 0 by lia]).
    simpl. by rewrite Z.add_0_r. }
  destruct (Z.ltb_spec 0 left) as [Hlt|Hge].
  2:{ exists b. replace k with O by (subst k; unfold toBytes; destruct (Z.ltb_spec left 0);
        [done|by replace left with 0 by lia]).
      simpl. by rewrite Z.add_0_r. }
  pose proof (toBytes_pred left Hlt) as Ht. pose proof (toBytes_nonneg (left - 8)).
  assert (Hk' : k = S (Z.to_nat (toBytes (left - 8)))) by lia.
  destruct l as [|d l]; [simpl in Hk; lia|]. apply Forall_cons in Hl as [Hd Hl].
  destruct (sb_pop_ok b c (d :: l) Hwf Hc) as (b1 & E1 & Hwf1 & Hc1).
  st_step E1. st_step (sb_front_ok b1 d l Hwf1 Hc1). change CHAR_BIT with 8.
  rewrite <- uint_lor by done. rewrite lor_shiftl_disjoint by done.
  destruct (IH (Y + d * 2 ^ s) (s + 8) (left - 8) b1 d l) as (b2 & E2 & Hwf2 & Hc2);
    try done; [lia| |lia|simpl in Hk; lia|].
  { destruct HY, Hd. split; [nia|]. rewrite pow2_split by lia. nia. }
  exists b2. rewrite E2, Hk'. split_and!; [|done|done]. do 3 f_equal.
  rewrite pow2_split by lia. cbn [take le_combine]. change (2 ^ 8) with 256. ring.
Qed.

Lemma ib_buf_run {A} (m : st B A) b u n r b' : m b = (r, b') →
  ib_buf m (Build_IBitStream b u n) = (r, Build_IBitStream b' u n).
Proof. intros E. unfold ib_buf, zoom. cbn. by rewrite E. Qed.

Lemma int_mask_land W n mask z : 0 < n ≤ W → int_mask W n = Some mask → Z.land z mask = uint n z.
Proof.
  intros Hn. unfold int_mask. destruct (Z.ltb_spec n W).
  - destruct (n <? 31); intros [= <-]. rewrite Z.shiftl_1_l.
    replace (2 ^ n - 1) with (Z.ones n) by (rewrite Z.ones_equiv; lia). by rewrite Z.land_ones by lia.
  - intros [= <-]. replace n with W by lia. unfold uint.
    rewrite <- Z.land_ones by lia. rewrite Z.land_assoc, (Z.land_comm z), <- Z.land_assoc.
    by rewrite Z.land_m1_l, Z.land_ones by lia.
Qed.

Lemma int_mask_some W n : n ≤ 30 ∨ n = W → ∃ mask, int_mask W n = Some mask.
Proof.
  intros Hn. unfold int_mask. destruct (Z.ltb_spec n W); [|by eexists].
  rewrite (proj2 (Z.ltb_lt n 31)) by lia. by eexists.
Qed.

(** The bits of a group of bytes, from bit [r] on. *)
Lemma uint_take_div n r k C : Forall is_byte C → (k ≤ length C)%nat →
  0 ≤ r → 0 ≤ n → r + n ≤ 8 * Z.of_nat k →
  uint n (le_combine (take k C) / 2 ^ r) = uint n (le_combine C / 2 ^ r).
Proof.
  intros HC Hk Hr Hn Hrn. rewrite <- (take_drop k C) at 2. rewrite le_combine_app.
  rewrite length_take_le by done. set (x := le_combine _). set (y := le_combine _).
  replace (8 * Z.of_nat k) with (r + (n + (8 * Z.of_nat k - r - n))) by lia.
  rewrite !pow2_split by lia.
  replace (x + 2 ^ r * (2 ^ n * 2 ^ (8 * Z.of_nat k - r - n)) * y)
    with (x + (2 ^ (8 * Z.of_nat k - r - n) * y * 2 ^ n) * 2 ^ r) by ring.
  rewrite Z.div_add by (pose proof (pow2_pos r); lia). unfold uint. by rewrite Z_mod_plus_full.
Qed.

(** The bytes a read of [n] bits from bit [r] pops: those of the loop, and one
    more when it ends at a byte's end. *)
Lemma read_pops r n : (r < 8)%nat → 0 < n →
  let k := Z.to_nat (toBytes (n - (8 - Z.of_nat r))) in
  Z.of_nat r + n ≤ 8 * Z.of_nat (S k) ∧
  (k + (if ((Z.of_nat r + n) mod 8 =? 0)%Z then 1 else 0))%nat = Z.to_nat ((Z.of_nat r + n) / 8) ∧
  8 * toBytes (n - (8 - Z.of_nat r)) < Z.of_nat r + n.
Proof.
  intros Hr Hn k. subst k. set (left := n - (8 - Z.of_nat r)).
  pose proof (toBytes_nonneg left). destruct (Z.leb_spec 0 left) as [Hp|Hp].
  - pose proof (toBytes_spec _ Hp). subst left.
    destruct (Z.eqb_spec ((Z.of_nat r + n) mod 8) 0); lia.
  - replace (toBytes left) with 0 by (unfold toBytes; by rewrite (proj2 (Z.ltb_lt _ _))).
    subst left. destruct (Z.eqb_spec ((Z.of_nat r + n) mod 8) 0); lia.
Qed.

(** The value the loop of [readBitsImpl] ends with, cut to [n] bits. *)
Lemma read_value W n r k c l : 8 ≤ W → 0 < n ≤ W → (r < 8)%nat →
  Z.of_nat r + n ≤ 8 * Z.of_nat (S k) → Forall is_byte (c :: l) → (k ≤ length l)%nat →
  uint n (uint W (Z.shiftr c (Z.of_nat r) + le_combine (take k l) * 2 ^ (8 - Z.of_nat r))) =
  uint n (le_combine (c :: l) / 2 ^ Z.of_nat r).
Proof.
  intros HW Hn Hr Hk Hb Hl. rewrite uint_mod_le by lia.
  rewrite <- (uint_take_div n (Z.of_nat r) (S k)) by (done || simpl; lia).
  cbn [take le_combine]. f_equal. rewrite Z.shiftr_div_pow2 by lia.
  replace 256 with (2 ^ (8 - Z.of_nat r) * 2 ^ Z.of_nat r)
    by (rewrite <- pow2_split by lia; change 256 with (2 ^ 8); f_equal; lia).
  rewrite (Z.mul_comm _ (le_combine _)), Z.mul_assoc, Z.div_add; [done|].
  pose proof (pow2_pos (Z.of_nat r)). lia.
Qed.

Lemma first_bits c r : (r < 8)%nat → is_byte c →
  is_uint (8 - Z.of_nat r) (Z.shiftr c (Z.of_nat r)) ∧ is_byte (Z.shiftr c (Z.of_nat r)).
Proof.
  intros Hr [Hc0 Hc1]. rewrite Z.shiftr_div_pow2 by lia. pose proof (pow2_pos (Z.of_nat r)).
  assert (Hq : is_uint (8 - Z.of_nat r) (c / 2 ^ Z.of_nat r)).
  { split; [apply Z.div_pos; lia|]. apply Z.div_lt_upper_bound; [lia|].
    rewrite <- pow2_split by lia. by replace (Z.of_nat r + (8 - Z.of_nat r)) with 8 by lia. }
  split; [done|]. apply (is_uint_mono (8 - Z.of_nat r)); [lia|done].
Qed.

(** The bytes of a bit position: [q] whole bytes are gone. *)
Lemma ib_repr_drop b u pos vb rest l :
  sb_wf b → u = utf8 → Forall is_byte l →
  (8 * length l = pos mod 8 + length (vb ++ rest))%nat →
  le_combine l / 2 ^ Z.of_nat (pos mod 8) = Z_of_bits (vb ++ rest) →
  sb_contents b = drop ((pos mod 8 + length vb) / 8) l →
  ib_repr (Build_IBitStream b u (Z.of_nat ((pos + length vb) mod 8))) (pos + length vb) rest.
Proof.
  intros Hwf Hu Hl Hlen Hval Hc. rewrite length_app in Hlen.
  set (r := (pos mod 8)%nat) in *. set (q := ((r + length vb) / 8)%nat) in *.
  assert (Hr' : ((pos + length vb) mod 8 = (r + length vb) - 8 * q)%nat) by (subst r q; lia).
  assert (Hq : (q ≤ length l)%nat) by (clearbody r; subst q; lia).
  assert (Hrq : (8 * q ≤ r + length vb)%nat) by (clearbody r; subst q; lia).
  split; cbn [ib_streamBuffer ib_shouldUseUtf8ForString ib_bitReadCount]; rewrite ?Hc, ?Hr'; auto.
  - by apply Forall_drop.
  - rewrite length_drop. clearbody r q. lia.
  - rewrite le_combine_drop by done. destruct (Z_of_bits_split vb rest) as [_ ->].
    rewrite <- Hval, !Z.div_div by first [apply Z.pow_nonzero; lia|apply pow2_pos; lia].
    rewrite <- !pow2_split by lia. do 2 f_equal. clearbody r q. lia.
Qed.

Lemma pop_last_ok b u n k l (last : bool) :
  sb_wf b → sb_contents b = drop k l → (k < length l)%nat → ∃ b',
  (if last then ib_buf sb_pop else mret tt) (Build_IBitStream b u n) =
    (Ok tt, Build_IBitStream b' u n) ∧
  sb_wf b' ∧ sb_contents b' = drop (k + (if last then 1 else 0)) l.
Proof.
  intros Hwf Hc Hk. destruct last.
  - destruct (lookup_lt_is_Some_2 l k Hk) as [x Hx]. rewrite (drop_S l x k Hx) in Hc.
    destruct (sb_pop_ok b _ _ Hwf Hc) as (b' & E & Hwf' & Hc'). exists b'.
    rewrite (ib_buf_run _ _ _ _ _ _ E), Nat.add_1_r. by rewrite Hc'.
  - exists b. by rewrite Nat.add_0_r.
Qed.

Lemma pos_mod pos k : Z.of_nat ((pos + k) mod 8) = (Z.of_nat (pos mod 8) + Z.of_nat k) mod 8.
Proof. rewrite !Nat2Z.inj_mod, Nat2Z.inj_add. change (Z.of_nat 8) with 8. by rewrite Zplus_mod_idemp_l. Qed.

Lemma readBits_ok W n i pos vb rest :
  8 ≤ W → 0 < n ≤ W → n ≤ 30 ∨ n = W → Z.of_nat (length vb) = n →
  ib_repr i pos (vb ++ rest) → ∃ i',
  readBitsImpl W n i = (Ok (Z_of_bits vb), i') ∧ ib_repr i' (pos + length vb) rest.
Proof.
  intros HW Hn Hmask Hvb [Hwf Hby Hu Hcount Hlen Hval]. destruct i as [b u rc].
  cbn [ib_streamBuffer ib_shouldUseUtf8ForString ib_bitReadCount] in *.
  unfold readBitsImpl. rewrite (proj2 (isEnoughBits_true W n) Hn). cbn [negb].
  rewrite (bind_ok _ _ _ _ _ (gets_run _ _)). cbn [ib_bitReadCount]. change CHAR_BIT with 8.
  rewrite (bind_ok _ _ _ _ _ (gets_run _ _)). cbn [ib_streamBuffer].
  rewrite sb_size_ok by done.
  set (r := (pos mod 8)%nat) in *.
  assert (Hr : (r < 8)%nat) by (apply Nat.mod_upper_bound; lia). rewrite Hcount.
  destruct (read_pops r n Hr ltac:(lia)) as (Hk2 & Hk3 & Hk1).
  set (left := n - (8 - Z.of_nat r)) in *. set (k := Z.to_nat (toBytes left)) in *.
  pose proof (toBytes_nonneg left) as Hnn. pose proof Hlen as Hlen'. rewrite length_app in Hlen'.
  rewrite (proj2 (Z.ltb_ge _ _)) by (clearbody r; lia).
  destruct (sb_contents b) as [|c l] eqn:HC; [cbn [length] in Hlen'; clearbody r; lia|].
  cbn [length] in Hlen'. assert (Hkl : (k ≤ length l)%nat) by (clearbody r; lia).
  pose proof Hby as [Hc Hl]%Forall_cons.
  st_step (ib_buf_run _ b u (Z.of_nat r) _ _ (sb_front_ok _ c l Hwf HC)).
  destruct (first_bits c r Hr Hc) as [Hf1 Hf2].
  destruct (pop_loop_ok (Z.to_nat left) W (Z.shiftr c (Z.of_nat r)) (8 - Z.of_nat r) left
    b c l) as (b1 & E1 & Hwf1 & Hc1); try done; [lia|lia|lia|].
  fold k in E1, Hc1. rewrite (uint_id W (Z.shiftr c _)) in E1 by (apply (is_uint_mono 8); lia || done).
  st_step (ib_buf_run _ _ u (Z.of_nat r) _ _ E1).
  st_step (modify_run (λ i, Build_IBitStream (ib_streamBuffer i) (ib_shouldUseUtf8ForString i)
    (Z.land (Z.of_nat r + n) (CHAR_BIT - 1))) (Build_IBitStream b1 u (Z.of_nat r))).
  cbn [ib_streamBuffer ib_shouldUseUtf8ForString].
  change (8 - 1) with (CHAR_BIT - 1). rewrite land_7.
  destruct (pop_last_ok b1 u (Z.land (Z.of_nat r + n) (CHAR_BIT - 1)) k (c :: l)
    ((Z.of_nat r + n) mod 8 =? 0)) as (b2 & E2 & Hwf2 & Hc2); [done|done|simpl; lia|].
  rewrite land_7 in E2. st_step E2. destruct (int_mask_some W n Hmask) as [mask Hmk]. rewrite Hmk.
  rewrite Hk3 in Hc2. rewrite mret_run, (int_mask_land W n mask _ Hn Hmk).
  rewrite read_value by done. change (le_combine (c :: l) / _) with (le_combine (c :: l) / 2 ^ Z.of_nat r).
  rewrite Hval. destruct (Z_of_bits_split vb rest) as [Hvb' _]. rewrite Hvb in Hvb'.
  rewrite <- Hvb'. eexists. split; [reflexivity|].
  replace ((Z.of_nat r + n) mod 8) with (Z.of_nat ((pos + length vb) mod 8))
    by (rewrite pos_mod; subst r; do 2 f_equal; lia).
  apply (ib_repr_drop b2 u pos vb rest (c :: l)); try done.
  rewrite Hc2. f_equal. fold r. clearbody r. lia.
Qed.

(** ** The [read] overloads *)

Lemma sign_extend_ok W size n v mask : 0 < n < size → size ≤ W → is_sint n v →
  int_mask size n = Some mask → sint size (sign_extend W (uint n v) mask n) = v.
Proof.
  intros Hn HW [Hv0 Hv1] Hmk. unfold sign_extend.
  rewrite (int_mask_land size n mask) by (done || lia). rewrite uint_mod_le by lia.
  assert (mask = 2 ^ n - 1) as ->.
  { unfold int_mask in Hmk. rewrite (proj2 (Z.ltb_lt n size)) in Hmk by lia.
    destruct (n <? 31); [|done]. injection Hmk as <-. by rewrite Z.shiftl_1_l. }
  pose proof (pow2_pos (n - 1)). pose proof (pow2_pred n ltac:(lia)) as Hp.
  assert (Hsz : 2 ^ (n - 1) ≤ 2 ^ (size - 1)) by (apply Z.pow_le_mono_r; lia).
  assert (Hs : is_sint size v) by (unfold is_sint; lia).
  rewrite Z.shiftr_div_pow2 by lia. destruct (Z.leb_spec 0 v) as [Hpos|Hneg].
  - rewrite (uint_id n v) by (unfold is_uint; lia). rewrite Z.div_small by lia.
    by apply sint_id; [lia|].
  - assert (Hu : uint n v = v + 2 ^ n).
    { unfold uint. symmetry. apply (Z.mod_unique v _ (-1)); lia. }
    rewrite Hu. rewrite (proj2 (Z.eqb_neq _ _)).
    2:{ intros E0. pose proof (Z.div_mod (v + 2 ^ n) (2 ^ (n - 1))).
        pose proof (Z.mod_pos_bound (v + 2 ^ n) (2 ^ (n - 1))). lia. }
    assert (HW2 : 2 ^ W = 2 ^ n * 2 ^ (W - n)) by (rewrite <- pow2_split by lia; f_equal; lia).
    assert (Hl : uint W (Z.lnot (2 ^ n - 1)) = Z.shiftl (2 ^ (W - n) - 1) n).
    { rewrite Z.shiftl_mul_pow2 by lia. unfold uint, Z.lnot. symmetry.
      apply (Z.mod_unique _ _ (-1)); [|lia]. pose proof (Z.pow_le_mono_r 2 n W). lia. }
    rewrite Hl, lor_shiftl_disjoint by (unfold is_uint; lia).
    rewrite <- (sint_id size v) at 2 by (done || lia). unfold sint. do 1 f_equal.
    replace (v + 2 ^ n + (2 ^ (W - n) - 1) * 2 ^ n + 2 ^ (size - 1))
      with (v + 2 ^ (size - 1) + 2 ^ (W - size) * 2 ^ size).
    + apply Z_mod_plus_full.
    + rewrite <- pow2_split by lia. replace (W - size + size) with W by lia. lia.
Qed.

Lemma readBits_prim W n v i pos rest :
  8 ≤ W → 0 < n ≤ W → n ≤ 30 ∨ n = W →
  ib_repr i pos (bits_of (Z.to_nat n) v ++ rest) → ∃ i',
  readBitsImpl W n i = (Ok (uint n v), i') ∧ ib_repr i' (pos + Z.to_nat n) rest.
Proof.
  intros HW Hn Hm Hi.
  destruct (readBits_ok W n i pos (bits_of (Z.to_nat n) v) rest) as (i' & E & Hi');
    [done|done|done|rewrite length_bits_of; lia|done|].
  rewrite Z_of_bits_of, Z2Nat.id in E by lia. rewrite length_bits_of in Hi'. by exists i'.
Qed.

Lemma readSigned_ok W size n v i pos rest :
  8 ≤ W → 0 < n ≤ size → size ≤ W → n ≤ 30 ∨ n = size → n ≤ 30 ∨ n = W → is_sint n v →
  ib_repr i pos (bits_of (Z.to_nat n) v ++ rest) → ∃ i',
  readSigned W size n i = (Ok v, i') ∧ ib_repr i' (pos + Z.to_nat n) rest.
Proof.
  intros HW Hn Hsz Hm1 Hm2 Hv Hi. unfold readSigned.
  destruct (readBits_prim W n v i pos rest) as (i' & E & Hi'); [done|lia|done|done|].
  exists i'. split; [|done]. st_step E. destruct (Z.ltb_spec n size).
  - destruct (int_mask_some size n) as [mask Hmk]; [lia|]. rewrite Hmk, mret_run.
    rewrite (sign_extend_ok W size n v mask); done || lia.
  - replace size with n by lia. rewrite mret_run, sint_uint, sint_id; done || lia.
Qed.

Lemma ib_read_ok t v n i pos rest : prim_fits t v n →
  ib_repr i pos (bit_prim t v n ++ rest) → ∃ i',
  ib_read t n i = (Ok v, i') ∧ ib_repr i' (pos + length (bit_prim t v n)) rest.
Proof.
  intros Hf Hi. unfold bit_prim in *. rewrite length_bits_of.
  pose proof (prim_fits_size t v n Hf) as Hn. destruct Hf as [Hv Hf].
  assert (Hnum : t ≠ PU64 → n ≤ 30 ∨ n = 32 → n ≤ 32 → is_uint n v → is_uint (bits_size t) v →
    ∃ i', readNumeric t n i = (Ok v, i') ∧ ib_repr i' (pos + Z.to_nat n) rest).
  { intros _ Hm Hn32 Hvn Hvt. unfold readNumeric.
    destruct (readBits_prim 32 n v i pos rest) as (i' & E & Hi'); [done|lia|done|done|].
    exists i'. st_step E. by rewrite mret_run, (uint_id n), uint_id. }
  destruct t; unfold bits_size, sizeof, CHAR_BIT in Hn; cbn [ib_read];
    try (destruct Hf as (Hn0 & Hm & Hvn); unfold bits_size, sizeof, CHAR_BIT in Hm);
    try (apply Hnum; done || lia);
    try (apply readSigned_ok; unfold bits_size, sizeof, CHAR_BIT; done || lia).
  - destruct (readBits_prim 64 n v i pos rest) as (i' & E & Hi'); [done|lia|lia|done|].
    exists i'. by rewrite E, uint_id.
  - subst n. change (is_uint 1 v) in Hv. destruct (readBits_prim 32 1 v i pos rest)
      as (i' & E & Hi'); [done|lia|lia|done|]. exists i'. split; [|done].
    unfold readNumeric. erewrite bind_ok by (st_step E; reflexivity).
    rewrite (uint_id 1 v) by done. unfold is_uint in Hv. change (2 ^ 1) with 2 in Hv.
    assert (v = 0 ∨ v = 1) as [-> | ->] by lia; done.
  - subst n. apply Hnum; done || lia.
Qed.

Lemma ib_readEnum_ok v n init i pos rest : enum_fits v n →
  ib_repr i pos (bit_prim PU64 v n ++ rest) → ∃ r i',
  ib_readEnum init n i = (Ok r, i') ∧ uint n r = v ∧
  ib_repr i' (pos + length (bit_prim PU64 v n)) rest.
Proof.
  intros (Hn & Hm & Hv) Hi. unfold bit_prim in *. rewrite length_bits_of.
  destruct (readBits_prim 64 n v i pos rest) as (i' & E & Hi'); [done|lia|done|done|].
  exists (uint n v), i'. split_and!; [done| |done]. by rewrite !(uint_id n v).
Qed.

(** Dropping the rest of a byte. *)
Lemma ib_align_ok i pos vb rest : length vb = pad_bits pos →
  ib_repr i pos (vb ++ rest) → ∃ i',
  ib_align i = (Ok tt, i') ∧ ib_repr i' (pos + length vb) rest.
Proof.
  intros Hvb [Hwf Hby Hu Hcount Hlen Hval]. destruct i as [b u rc].
  cbn [ib_streamBuffer ib_shouldUseUtf8ForString ib_bitReadCount] in *.
  unfold ib_align. rewrite (bind_ok _ _ _ _ _ (gets_run _ _)). cbn [ib_bitReadCount].
  pose proof Hlen as Hlen'. rewrite length_app in Hlen'. unfold pad_bits in Hvb.
  assert (Hpop : ∃ b', (if 0 <? rc then ib_buf sb_pop else mret tt) (Build_IBitStream b u rc) =
    (Ok tt, Build_IBitStream b' u rc) ∧ sb_wf b' ∧
    sb_contents b' = drop ((pos mod 8 + length vb) / 8) (sb_contents b)).
  { destruct (Z.ltb_spec 0 rc) as [Hr|Hr].
    - destruct (pop_last_ok b u rc 0 (sb_contents b) true) as (b' & E & Hwf' & Hc'); [done|done|lia|].
      exists b'. split_and!; [done|done|]. rewrite Hc'. f_equal. lia.
    - exists b. split_and!; [done|done|]. by replace ((pos mod 8 + length vb) / 8)%nat with O by lia. }
  destruct Hpop as (b' & E & Hwf' & Hc'). st_step E.
  eexists. split; [reflexivity|]. cbn [ib_streamBuffer ib_shouldUseUtf8ForString].
  replace 0 with (Z.of_nat ((pos + length vb) mod 8)) by lia.
  by apply (ib_repr_drop _ _ _ _ _ (sb_contents b)).
Qed.

Lemma ib_copyTo_ok i pos l rest : (pos mod 8 = 0)%nat → Forall is_byte l →
  ib_repr i pos (bits_of_bytes l ++ rest) → ∃ i',
  ib_buf (sb_copyTo (length l)) i = (Ok l, i') ∧ ib_repr i' (pos + length (bits_of_bytes l)) rest.
Proof.
  intros Hal Hl [Hwf Hby Hu Hcount Hlen Hval]. destruct i as [b u rc].
  cbn [ib_streamBuffer ib_shouldUseUtf8ForString ib_bitReadCount] in *.
  pose proof Hlen as Hlen'. rewrite length_app, length_bits_of_bytes in Hlen'.
  destruct (sb_copyTo_ok b (length l) Hwf ltac:(lia)) as (b' & E & Hwf' & Hc').
  assert (Ht : take (length l) (sb_contents b) = l).
  { rewrite <- (le_split_combine (take (length l) (sb_contents b))) by (by apply Forall_take).
    rewrite length_take_le by lia. rewrite le_combine_take by (done || lia).
    rewrite Hal, Z.pow_0_r, Z.div_1_r in Hval. rewrite Hval.
    destruct (Z_of_bits_split (bits_of_bytes l) rest) as [Hs _].
    rewrite length_bits_of_bytes in Hs.
    replace (Z.of_nat (8 * length l)) with (8 * Z.of_nat (length l)) in Hs by lia.
    rewrite <- Hs, <- le_combine_bits by done. by apply le_split_combine. }
  rewrite Ht in E. eexists. rewrite (ib_buf_run _ _ _ _ _ _ E). split; [done|].
  replace rc with (Z.of_nat ((pos + length (bits_of_bytes l)) mod 8))
    by (rewrite Hcount, length_bits_of_bytes; lia).
  apply (ib_repr_drop _ _ _ _ _ (sb_contents b)); try done.
  rewrite Hc', Hal, length_bits_of_bytes. f_equal. lia.
Qed.

Lemma ib_readBuffer_ok l i pos rest : Forall is_byte l →
  ib_repr i pos (bit_buffer l pos ++ rest) → ∃ i',
  ib_readBuffer (length l) i = (Ok l, i') ∧ ib_repr i' (pos + length (bit_buffer l pos)) rest.
Proof.
  intros Hl Hi. unfold bit_buffer, enc_app in *. rewrite <- app_assoc in Hi.
  destruct (ib_align_ok i pos (enc_align pos) _ (length_replicate _ _) Hi) as (i1 & E1 & Hi1).
  destruct (ib_copyTo_ok i1 (pos + length (enc_align pos)) l rest) with (3 := Hi1) as (i2 & E2 & Hi2); [|done|].
  { unfold enc_align, pad_bits. rewrite length_replicate. lia. }
  exists i2. unfold ib_readBuffer. st_step E1. by rewrite E2, length_app, Nat.add_assoc.
Qed.

(** An empty counted string ends after its length field only where the stream
    is aligned already. *)
Lemma bit_counted_nil pos n : (n = 8 ∨ n = 16) → (pos mod 8 = 0)%nat →
  bit_counted 0 n [] pos = bits_of (Z.to_nat n) 0.
Proof.
  intros Hn Hpos. unfold bit_counted, bit_buffer, enc_app, enc_align, pad_bits.
  rewrite length_bits_of. replace ((pos + Z.to_nat n) mod 8)%nat with O by lia.
  cbn [replicate app bits_of_bytes]. change (replicate ((8 - 0) mod 8) false) with (@nil bool).
  by rewrite !app_nil_r.
Qed.

Lemma ib_readCount_ok len n i pos l rest : (n = 8 ∨ n = 16) → Z.of_nat len < 2 ^ n →
  ib_repr i pos (bit_counted len n l pos ++ rest) → ∃ i',
  ib_read PU32 n i = (Ok (Z.of_nat len), i') ∧
  ib_repr i' (pos + Z.to_nat n) (bit_buffer l (pos + Z.to_nat n)%nat ++ rest).
Proof.
  intros Hn Hlen Hi. unfold bit_counted, enc_app in Hi. rewrite <- app_assoc, length_bits_of in Hi.
  destruct (ib_read_ok PU32 (Z.of_nat len) n i pos (bit_buffer l (pos + Z.to_nat n)%nat ++ rest)) with (2 := Hi) as (i' & E & Hi').
  { apply count_fits; auto. unfold is_uint. lia. }
  unfold bit_prim in Hi'. rewrite length_bits_of in Hi'. by exists i'.
Qed.

Lemma length_bit_counted len n l pos :
  length (bit_counted len n l pos) = (Z.to_nat n + length (bit_buffer l (pos + Z.to_nat n)))%nat.
Proof. unfold bit_counted, enc_app at 1. by rewrite length_app, length_bits_of. Qed.

(** Reading a counted string whose bytes are all there. *)
Lemma ib_readString_ok s m n i pos rest : string_fits s m n →
  take m s ≠ [] ∨ (pos mod 8 = 0)%nat →
  ib_repr i pos (bit_string s m n pos ++ rest) → ∃ i',
  ib_readString m n i = (Ok (take m s), i') ∧ ib_repr i' (pos + length (bit_string s m n pos)) rest.
Proof.
  intros (Hn & Hs & Hl) Hne Hi. unfold bit_string in *.
  destruct (ib_readCount_ok _ _ _ _ _ _ Hn Hl Hi) as (i1 & E1 & Hi1).
  unfold ib_readString. st_step E1. destruct (Z.ltb_spec 0 (Z.of_nat (length (take m s)))) as [H0|H0].
  - destruct (ib_readBuffer_ok _ _ _ _ (Forall_take _ m _ Hs) Hi1) as (i2 & E2 & Hi2).
    rewrite Nat2Z.id, u16_small by (destruct Hn as [-> | ->]; lia). st_step E2.
    exists i2. rewrite Nat.sub_diag, app_nil_r, take_take, Nat.min_id, mret_run.
    rewrite length_bit_counted, Nat.add_assoc. done.
  - destruct (take m s) eqn:Ht; [|simpl in H0; lia]. destruct Hne as [|Hne]; [done|].
    exists i1. split; [done|]. cbn [length] in *.
    rewrite bit_counted_nil, length_bits_of by done.
    unfold bit_buffer, enc_app, enc_align, pad_bits in Hi1.
    replace ((pos + Z.to_nat n) mod 8)%nat with O in Hi1 by lia. exact Hi1.
Qed.

Lemma wchars_of_bytes_bytes s : Forall is_ucs s →
  wchars_of_bytes (length s) (wchars_bytes s) = s.
Proof.
  induction 1 as [|c s Hc _ IH]; [done|]. cbn [length wchars_of_bytes].
  rewrite wchars_bytes_cons.
  rewrite take_app_length', drop_app_length', IH by (by rewrite length_le_split).
  rewrite le_combine_split. change (8 * Z.of_nat 4) with 32. rewrite sint_uint by lia.
  rewrite sint_id; [done|lia|]. destruct Hc. unfold is_sint. change (32 - 1) with 31. lia.
Qed.

Lemma ib_counted_nil n i pos rest : (n = 8 ∨ n = 16) → (pos mod 8 = 0)%nat →
  ib_repr i (pos + Z.to_nat n) (bit_buffer [] (pos + Z.to_nat n)%nat ++ rest) →
  ib_repr i (pos + length (bit_counted 0 n [] pos)) rest.
Proof.
  intros Hn Hpos. rewrite bit_counted_nil, length_bits_of by done.
  unfold bit_buffer, enc_app, enc_align, pad_bits.
  by replace ((pos + Z.to_nat n) mod 8)%nat with O by lia.
Qed.

Lemma take_fits {A} m (s : list A) : take m (take m s) = take m s.
Proof. by rewrite take_take, Nat.min_id. Qed.

Lemma ib_readWString_ok s m n i pos rest : wstring_fits utf8 s m n →
  take m s ≠ [] ∨ (pos mod 8 = 0)%nat →
  ib_repr i pos (bit_wstring utf8 s m n pos ++ rest) → ∃ i',
  ib_readWString m n i = (Ok (take m s), i') ∧
  ib_repr i' (pos + length (bit_wstring utf8 s m n pos)) rest.
Proof.
  intros (Hn & Hm & Hs & Hl & Hf) Hne Hi. apply (Forall_take _ m) in Hs.
  set (w := take m s) in *. assert (Hw : take m w = w) by apply take_fits.
  assert (Hc : ∃ len l, bit_wstring utf8 s m n = bit_counted len n l ∧ Z.of_nat len < 2 ^ n ∧
    Forall is_byte l ∧ (len = O ↔ w = []) ∧ (len = O → l = []) ∧
    if utf8 then len = length l ∧ l = toUtf8 w
    else len = length w ∧ l = wchars_bytes w ∧ Z.of_nat (length l) < 2 ^ 16).
  { unfold bit_wstring, bit_string. fold w. destruct utf8.
    - destruct Hf as [Hf1 Hf2]. exists (length (toUtf8 w)), (toUtf8 w).
      rewrite (take_ge (toUtf8 w)) by done. split_and!; auto using toUtf8_bytes.
      + split; [|by intros ->]. destruct w as [|c w']; [done|].
        rewrite toUtf8_cons, length_app, length_toUtf8_char. lia.
      + by intros ->%nil_length_inv.
    - exists (length w), (wchars_bytes w). rewrite length_wchars_bytes.
      split_and!; auto using wchars_bytes_bytes; [|by intros ->%nil_length_inv|lia].
      split; [by intros ->%nil_length_inv|by intros ->]. }
  destruct Hc as (len & l & Henc & Hlen & Hb & Hz & Hz' & Hcase). rewrite Henc in *.
  destruct (ib_readCount_ok _ _ _ _ _ _ Hn Hlen Hi) as (i1 & E1 & Hi1).
  unfold ib_readWString. st_step E1. destruct (Z.ltb_spec 0 (Z.of_nat len)) as [H0|H0].
  - destruct (ib_readBuffer_ok _ _ _ _ Hb Hi1) as (i2 & E2 & Hi2).
    rewrite (bind_ok _ _ i1 _ i1 (gets_run _ i1)), (ir_utf8 _ _ _ Hi1), Nat2Z.id.
    exists i2. rewrite length_bit_counted, Nat.add_assoc. split; [|done]. destruct utf8.
    + destruct Hcase as [-> ->]. rewrite u16_small by (destruct Hn as [-> | ->]; lia).
      rewrite Nat.sub_diag. erewrite bind_ok by (st_step E2; reflexivity).
      rewrite app_nil_r, fromUtf8_toUtf8 by done. by rewrite mret_run, Hw.
    + destruct Hcase as (-> & -> & Hlt). rewrite length_wchars_bytes in *.
      rewrite (Nat.mul_comm (length w)), u16_small by lia. rewrite Nat.sub_diag.
      erewrite bind_ok by (st_step E2; reflexivity).
      rewrite app_nil_r, wchars_of_bytes_bytes by done. by rewrite mret_run, Hw.
  - assert (len = O) as -> by lia. rewrite (Hz' eq_refl) in *.
    assert (w = []) as Hw0 by (by apply Hz). rewrite Hw0 in *. destruct Hne as [|Hne]; [done|].
    exists i1. split; [done|]. by apply ib_counted_nil.
Qed.
End reader.

Lemma bit_buffer_aligned l pos : ((pos + length (bit_buffer l pos)) mod 8 = 0)%nat.
Proof.
  unfold bit_buffer, enc_app, enc_align, pad_bits.
  rewrite length_app, length_replicate, length_bits_of_bytes. lia.
Qed.

Lemma bit_counted_aligned len n l pos : ((pos + length (bit_counted len n l pos)) mod 8 = 0)%nat.
Proof.
  rewrite length_bit_counted, Nat.add_assoc. apply bit_buffer_aligned.
Qed.

(** ** The pair *)

Lemma bit_counted_mod len n l p q : (p mod 8 = q mod 8)%nat → bit_counted len n l p = bit_counted len n l q.
Proof.
  intros Hpq. unfold bit_counted, bit_buffer, enc_app, enc_align, pad_bits.
  by rewrite (mod_add_eq p q _ 8 Hpq).
Qed.

#[global] Instance BitStream_pair {B} `{HB : StreamBufferSpec B} (utf8 : bool) :
  StreamPair (OBitStream B) (IBitStream B) bool.
Proof.
  refine {|
    sp_utf8 := utf8;
    sp_unit := 8;
    os_repr := ob_repr utf8;
    is_repr := ib_repr utf8;
    os_room := ob_room;
    enc_prim := bit_prim;
    enc_enum := bit_prim PU64;
    enc_string := bit_string;
    enc_wstring := bit_wstring utf8;
    enc_buffer := bit_buffer;
    enc_pad := enc_align;
  |}.
  - apply ob_room_le.
  - apply ob_write_ok.
  - intros v n o es (Hn & Hm & Hv) Ho. unfold bit_prim. rewrite length_bits_of. intros Hr.
    assert (Hv64 : is_uint 64 v) by (apply (is_uint_mono n); [lia|done]).
    destruct (writeBits_ok utf8 64 v n o es) as (o' & E & Ho' & _ & Hr'); [lia|lia|done..|].
    exists o'. split; [|done]. change (os_writeEnum v n) with (writeBitsImpl (B := B) 64 (uint 64 v) n).
    by rewrite (uint_id 64).
  - apply ob_writeString_ok.
  - apply ob_writeWString_ok.
  - apply ob_writeBuffer_ok.
  - apply ob_align_ok.
  - apply ib_read_ok.
  - intros v n init i pos rest Hf _. by apply ib_readEnum_ok.
  - apply ib_readString_ok.
  - apply ib_readWString_ok.
  - apply ib_readBuffer_ok.
  - intros i pos rest. apply ib_align_ok. apply length_replicate.
  - intros t v n pos Hn H0 Hpos. unfold bit_prim. rewrite length_bits_of. lia.
  - intros s m n pos. apply bit_counted_aligned.
  - intros s m n pos. unfold bit_wstring, bit_string. destruct utf8; apply bit_counted_aligned.
  - intros l pos. apply bit_buffer_aligned.
  - intros pos. unfold enc_align, pad_bits. rewrite length_replicate. lia.
  - intros s m n p q. by apply bit_counted_mod.
  - intros s m n p q. unfold bit_wstring, bit_string. destruct utf8; by apply bit_counted_mod.
  - intros p q Hpq. unfold enc_align, pad_bits. by rewrite Hpq.
  - intros p Hp. unfold enc_align, pad_bits. by rewrite Hp.
Defined.

Section transport.
Context {B : Type} `{HB : StreamBufferSpec B} (utf8 : bool).

(** A new writer over an empty buffer. *)
Lemma newOBitStream_repr b : sb_wf b → sb_contents b = [] → ob_repr utf8 (newOBitStream b utf8) [].
Proof.
  intros Hwf Hc. split; [|done].
  split; cbn [newOBitStream ob_streamBuffer]; rewrite ?Hc; done || constructor.
Qed.

(** The bytes a writer leaves, as a reader over them sees them: the bits
    written, and zeros to the end of the last byte. *)
Lemma ob_repr_ib_repr o bs b' : ob_repr utf8 o bs →
  sb_wf b' → sb_contents b' = sb_contents (ob_streamBuffer o) →
  ib_repr utf8 (newIBitStream b' utf8) 0 (bs ++ enc_align (length bs)).
Proof.
  intros ([Hwf Hby Hlen Hval] & Hu & Hh) Hwf' Hc. unfold enc_align, pad_bits.
  split; cbn [newIBitStream ib_streamBuffer ib_shouldUseUtf8ForString ib_bitReadCount];
    rewrite ?Hc; try done.
  - rewrite Hlen, length_app, length_replicate. unfold byte_count. lia.
  - rewrite Z.div_1_r, Hval, Z_of_bits_app, Z_of_bits_zeros. lia.
Qed.
End transport.
