(* ===== verification/ByteStreamSpec.v ===== *)
(** * core/stream: the byte streams refine byte lists

    Proves that what [OByteStream] puts on the wire does not depend on the
    host's byte order (numbers only: an enum is copied raw), and that on a
    little-endian host the byte streams implement [StreamPair]. *)

From S2P Require Import Prelude BitList Bits StreamBuffer Unicode Stream BitStream BitStreamSpec.
From S2P Require Import ByteStream.

#[global] Instance LE_OByteStream {B} `{StreamBuffer B} : OStream (OByteStream B) :=
  OByteStream_stream false.
#[global] Instance LE_IByteStream {B} `{StreamBuffer B} : IStream (IByteStream B) :=
  IByteStream_stream false.

Section writer.
Context {B : Type} `{HB : StreamBufferSpec B} (utf8 : bool).

Definition by_repr (o : ByteStream B) (bytes : list Z) : Prop :=
  sb_wf (by_streamBuffer o) ∧ by_shouldUseUtf8ForString o = utf8 ∧
  sb_contents (by_streamBuffer o) = bytes.
Definition iby_repr (i : ByteStream B) (pos : nat) (bytes : list Z) : Prop := by_repr i bytes.
Definition by_room (o : ByteStream B) (n : nat) : Prop := sb_room (by_streamBuffer o) n.

(** ** Encodings *)

Definition byte_prim (t : prim) (v n : Z) : list Z := le_split (prim_bytes t) v.
Definition byte_enum (v n : Z) : list Z := take (Z.to_nat (toBytes n)) (le_split 8 v).
Definition byte_counted (len : nat) (n : Z) (l : list Z) : list Z :=
  le_split (Z.to_nat (n / 8)) (Z.of_nat len) ++ l.
Definition byte_string (s : list Z) (m : nat) (n : Z) : list Z :=
  byte_counted (length (take m s)) n (take m s).
Definition byte_wstring (s : list Z) (m : nat) (n : Z) : list Z :=
  let w := take m s in
  if utf8 then byte_counted (length (toUtf8 w)) n (toUtf8 w)
  else byte_counted (length w) n (wchars_bytes w).

(** The bytes of a number on the wire are little-endian on every host. *)
Lemma writeNumeric_wire (be : bool) size v :
  writeNumeric (B := B) be size v = writeBytes (le_split size v).
Proof.
  unfold writeNumeric, toRpcByteOrder, memory, RpcByteOrderImpl. destruct be; [|done].
  by rewrite rev_involutive.
Qed.

(** The contract of every writer below. *)
Definition by_writes (m : st (OByteStream B) unit) (l : list Z) : Prop :=
  ∀ o es, by_repr o es → by_room o (length l) → ∃ o',
    m o = (Ok tt, o') ∧ by_repr o' (es ++ l) ∧ (∀ k, by_room o (length l + k) → by_room o' k).

Lemma by_writes_seq m1 m2 l1 l2 : by_writes m1 l1 → by_writes m2 l2 →
  by_writes (m1 ;; m2) (l1 ++ l2).
Proof.
  intros H1 H2 o es Ho Hr. rewrite length_app in *.
  destruct (H1 o es Ho) as (o1 & E1 & Ho1 & Hr1); [by eapply sb_room_le, Hr; lia|].
  destruct (H2 o1 _ Ho1) as (o2 & E2 & Ho2 & Hr2); [by apply Hr1|].
  exists o2. st_step E1. rewrite app_assoc. split_and!; [done|done|].
  intros k Hk. apply Hr2, Hr1. by rewrite Nat.add_assoc.
Qed.

Lemma writeBytes_ok l : by_writes (writeBytes l) l.
Proof.
  intros o es (Hwf & Hu & Hc) Hr. destruct (sb_copyFrom_ok _ l Hwf Hr) as (b' & E & Hwf' & Hc' & Hr').
  eexists. unfold writeBytes, by_buf, zoom. rewrite E. split; [reflexivity|].
  split; [|done]. split_and!; [done|done|]. cbn. by rewrite Hc', Hc.
Qed.

Lemma writeByte_ok v : by_writes (writeByte v) [uint 8 v].
Proof.
  intros o es (Hwf & Hu & Hc) Hr. destruct (sb_push_ok _ (uint 8 v) Hwf Hr) as (b' & E & Hwf' & Hc' & Hr').
  eexists. unfold writeByte, by_buf, zoom. rewrite E. split; [reflexivity|].
  split; [|done]. split_and!; [done|done|]. cbn. by rewrite Hc', Hc.
Qed.

Lemma writeNumeric_ok be size v : by_writes (writeNumeric be size v) (le_split size v).
Proof. rewrite writeNumeric_wire. apply writeBytes_ok. Qed.

Lemma oby_write_ok be t v n : by_writes (oby_write be t v n) (byte_prim t v n).
Proof. destruct t; (apply writeNumeric_ok || apply writeByte_ok). Qed.

Lemma quot_toBytes n : 0 ≤ n → (n + (CHAR_BIT - 1)) `quot` CHAR_BIT = toBytes n.
Proof.
  intros Hn. unfold toBytes. rewrite (proj2 (Z.ltb_ge n 0)) by done.
  apply Z.quot_div_nonneg; unfold CHAR_BIT; lia.
Qed.

Lemma oby_writeEnum_ok v n : 0 ≤ n → by_writes (oby_writeEnum false v n) (byte_enum v n).
Proof. intros Hn. unfold oby_writeEnum, byte_enum. rewrite quot_toBytes by done. apply writeBytes_ok. Qed.

Lemma writeStringLength_ok be len n : (n = 8 ∨ n = 16) → Z.of_nat len < 2 ^ n →
  by_writes (writeStringLength be len n) (le_split (Z.to_nat (n / 8)) (Z.of_nat len)).
Proof.
  intros Hn Hlen. unfold writeStringLength. destruct Hn as [-> | ->].
  - rewrite uint_id by (unfold is_uint; lia). apply writeNumeric_ok.
  - apply writeNumeric_ok.
Qed.

Lemma oby_counted_ok be len n l m : (n = 8 ∨ n = 16) → Z.of_nat len < 2 ^ n → by_writes m l →
  by_writes (writeStringLength be len n ;; m) (byte_counted len n l).
Proof. intros. apply by_writes_seq; [by apply writeStringLength_ok|done]. Qed.

Lemma oby_writeString_ok be s m n : string_fits s m n →
  by_writes (oby_writeString be s m n) (byte_string s m n).
Proof.
  intros Hf. pose proof Hf as (Hn & Hs & Hl). unfold oby_writeString.
  rewrite (string_fits_u16 s m n Hf), <- length_take_min.
  rewrite u16_small by (destruct Hn as [-> | ->]; lia).
  apply oby_counted_ok; auto using writeBytes_ok.
Qed.

Lemma write_wchars_ok be s : by_writes (write_wchars be s) (wchars_bytes s).
Proof.
  induction s as [|c s IH].
  - intros o es Ho _. exists o. cbn. rewrite app_nil_r. split_and!; [done|done|by intros k].
  - rewrite wchars_bytes_cons. apply by_writes_seq; [apply writeNumeric_ok|done].
Qed.

Lemma oby_writeWString_ok be s m n : wstring_fits utf8 s m n →
  by_writes (oby_writeWString be s m n) (byte_wstring s m n).
Proof.
  intros (Hn & Hm & Hs & Hl & Hf) o es Ho. unfold oby_writeWString, byte_wstring.
  rewrite (bind_ok _ _ o _ o (gets_run _ o)). pose proof Ho as (_ & -> & _).
  revert o es Ho. change (by_writes (if utf8 then
      writeStringLength be (u16 (length (toUtf8 (take m s)))) n ;; writeBytes (toUtf8 (take m s))
    else writeStringLength be (u16 (Nat.min (length s) m)) n ;;
      write_wchars be (take (u16 (Nat.min (length s) m)) s))
    (if utf8 then byte_counted (length (toUtf8 (take m s))) n (toUtf8 (take m s))
     else byte_counted (length (take m s)) n (wchars_bytes (take m s)))).
  assert (Hn16 : 2 ^ n ≤ 2 ^ 16) by (destruct Hn as [-> | ->]; lia). destruct utf8.
  - destruct Hf as [Hf1 Hf2]. rewrite u16_small by lia. apply oby_counted_ok; auto using writeBytes_ok.
  - rewrite <- length_take_min, u16_small by lia. rewrite length_take_min, take_min_eq.
    rewrite <- length_take_min. apply oby_counted_ok; auto using write_wchars_ok.
Qed.
End writer.

Section reader.
Context {B : Type} `{HB : StreamBufferSpec B} (utf8 : bool).

(** The contract of the readers. *)
Definition by_reads {A} (m : st (IByteStream B) A) (l : list Z) (a : A) : Prop :=
  ∀ i rest, by_repr utf8 i (l ++ rest) → ∃ i', m i = (Ok a, i') ∧ by_repr utf8 i' rest.

Lemma by_reads_bind {A C} (m : st (IByteStream B) A) (f : A → st (IByteStream B) C) l1 l2 a c :
  by_reads m l1 a → by_reads (f a) l2 c → by_reads (m ≫= f) (l1 ++ l2) c.
Proof.
  intros H1 H2 i rest Hi. rewrite <- app_assoc in Hi.
  destruct (H1 i _ Hi) as (i1 & E1 & Hi1). destruct (H2 i1 _ Hi1) as (i2 & E2 & Hi2).
  exists i2. by st_step E1.
Qed.

Lemma by_reads_ret {A} (a : A) : by_reads (mret a) [] a.
Proof. intros i rest Hi. by exists i. Qed.

Lemma by_reads_map {A C} (m : st (IByteStream B) A) (f : A → C) l a :
  by_reads m l a → by_reads (x ← m; mret (f x)) l (f a).
Proof. intros Hm. rewrite <- (app_nil_r l). eapply by_reads_bind; [done|apply by_reads_ret]. Qed.

Lemma by_buf_run {A} (m : st B A) i r b : m (by_streamBuffer i) = (r, b) →
  by_buf m i = (r, Build_ByteStream b (by_shouldUseUtf8ForString i)).
Proof. intros E. unfold by_buf, zoom. by rewrite E. Qed.

Lemma readBytes_ok l : by_reads (readBytes (length l)) l l.
Proof.
  intros i rest (Hwf & Hu & Hc). unfold readBytes. case_decide as Hl.
  - destruct (sb_copyTo_ok (by_streamBuffer i) (length l)) as (b' & E & Hwf' & Hc'); [done| |].
    { rewrite Hc, length_app. lia. }
    rewrite Hc, take_app_length in E. rewrite Hc, drop_app_length in Hc'.
    eexists. unfold by_buf, zoom. rewrite E. by split.
  - destruct l; [|simpl in Hl; lia]. by exists i.
Qed.

Lemma readByte_ok x : by_reads readByte [x] x.
Proof.
  intros i rest (Hwf & Hu & Hc). unfold readByte. rewrite (bind_ok _ _ i _ i (gets_run _ i)).
  rewrite sb_empty_ok, Hc by done. rewrite bool_decide_false by done.
  destruct (sb_pop_ok _ x rest Hwf Hc) as (b' & E & Hwf' & Hc').
  eexists. st_step (by_buf_run _ i _ _ (sb_front_ok _ x rest Hwf Hc)).
  st_step (by_buf_run sb_pop (Build_ByteStream _ (by_shouldUseUtf8ForString i)) _ _ E). by split.
Qed.

Lemma readNumeric_ok be size v :
  by_reads (readNumeric be size) (le_split size v) (uint (8 * Z.of_nat size) v).
Proof.
  assert (E : le_combine (if be : bool then rev (toRpcByteOrder be (le_split size v))
    else toRpcByteOrder be (le_split size v)) = uint (8 * Z.of_nat size) v).
  { unfold toRpcByteOrder, RpcByteOrderImpl. destruct be; rewrite ?rev_involutive; apply le_combine_split. }
  unfold readNumeric. rewrite <- E. rewrite <- (length_le_split size v) at 1.
  apply (by_reads_map (readBytes (length (le_split size v)))
    (λ bytes, le_combine (if be then rev (toRpcByteOrder be bytes) else toRpcByteOrder be bytes))).
  apply readBytes_ok.
Qed.

Lemma prim_of_image t v : prim_ok t v → prim_of t (uint (8 * Z.of_nat (prim_bytes t)) v) = v.
Proof.
  intros Hv. assert (Hb : 8 * Z.of_nat (prim_bytes t) = sizeof t * 8) by (destruct t; done).
  rewrite Hb. destruct t; cbn [prim_of];
    try (rewrite sint_uint_le by (vm_compute; intuition congruence); by apply sint_id);
    try (rewrite uint_mod_le by (vm_compute; intuition congruence); by apply uint_id).
  change (is_uint 1 v) in Hv. unfold is_uint in Hv. change (2 ^ 1) with 2 in Hv.
  assert (v = 0 ∨ v = 1) as [-> | ->] by lia; done.
Qed.

Lemma iby_read_ok be t v n : prim_ok t v → by_reads (iby_read be t n) (byte_prim t v n) v.
Proof.
  intros Hv. rewrite <- (prim_of_image t v Hv) at 2.
  destruct t; unfold iby_read, byte_prim;
    (apply (by_reads_map (readNumeric _ _) (prim_of _)), readNumeric_ok) ||
    (apply (by_reads_map readByte (prim_of _)), readByte_ok).
Qed.

(** The low [n] bits of the caller's variable are those written, whatever it held. *)
Lemma iby_readEnum_ok v n init i rest : enum_fits v n →
  by_repr utf8 i (byte_enum v n ++ rest) → ∃ r i',
  iby_readEnum false init n i = (Ok r, i') ∧ uint n r = v ∧ by_repr utf8 i' rest.
Proof.
  intros (Hn & Hm & Hv) Hi. unfold iby_readEnum. rewrite quot_toBytes by lia.
  pose proof (toBytes_spec n ltac:(lia)) as Ht. unfold byte_enum in *.
  set (k := Z.to_nat (toBytes n)) in *. rewrite decide_False by lia.
  assert (Hlen : length (take k (le_split 8 v)) = k).
  { rewrite length_take, length_le_split. lia. }
  destruct (readBytes_ok (take k (le_split 8 v)) i rest Hi) as (i' & E & Hi').
  rewrite Hlen in E. st_step E. rewrite mret_run. eexists _, i'. split; [reflexivity|].
  split; [|done]. rewrite le_combine_app, Hlen.
  rewrite le_combine_take by (apply le_split_bytes || (rewrite length_le_split; lia)).
  rewrite le_combine_split. change (8 * Z.of_nat 8) with 64.
  set (y := le_combine (drop _ _)). rewrite uint_mod_le by lia.
  replace (2 ^ (8 * Z.of_nat k) * y) with ((2 ^ (8 * Z.of_nat k - n) * y) * 2 ^ n).
  - unfold uint at 1. rewrite Z_mod_plus_full. fold (uint n (uint (8 * Z.of_nat k) v)).
    rewrite uint_mod_le by lia. by apply uint_id.
  - rewrite (Z.mul_comm (2 ^ _ * y)), Z.mul_assoc, <- pow2_split by lia. do 2 f_equal. lia.
Qed.

Lemma readStringSize_ok be len n : (n = 8 ∨ n = 16) → Z.of_nat len < 2 ^ n →
  by_reads (readStringSize be n) (le_split (Z.to_nat (n / 8)) (Z.of_nat len)) (Z.of_nat len).
Proof.
  intros Hn Hlen. unfold readStringSize. destruct Hn as [-> | ->]; cbn [Z.eqb Pos.eqb].
  - rewrite <- (uint_id 8 (Z.of_nat len)) at 2 by (unfold is_uint; lia). apply readByte_ok.
  - rewrite <- (uint_id 16 (Z.of_nat len)) at 2 by (unfold is_uint; lia).
    apply (by_reads_map (readNumeric be 2) id). apply readNumeric_ok.
Qed.

(** A counted string: the length, then [m] if there is something to read. *)
Lemma iby_counted_ok {A} be len n l (a : A) (m : nat → st (IByteStream B) A) (z : A) :
  (n = 8 ∨ n = 16) → Z.of_nat len < 2 ^ n →
  ((0 < len)%nat → by_reads (m len) l a) → (len = O → l = [] ∧ a = z) →
  by_reads (x ← readStringSize be n; if 0 <? x then m (Z.to_nat x) else mret z)
    (byte_counted len n l) a.
Proof.
  intros Hn Hlen Hm Hz. eapply by_reads_bind; [by apply readStringSize_ok|].
  destruct (Z.ltb_spec 0 (Z.of_nat len)).
  - rewrite Nat2Z.id. apply Hm. lia.
  - destruct Hz as [-> ->]; [lia|]. apply by_reads_ret.
Qed.

Lemma iby_readString_ok be s m n : string_fits s m n →
  by_reads (iby_readString be m n) (byte_string s m n) (take m s).
Proof.
  intros (Hn & Hs & Hl). apply (iby_counted_ok be _ n _ _
    (λ k, value ← readBytes k; mret (take m value)) []); [done|done| |].
  - intros _. rewrite <- (take_fits m s) at 3.
    apply (by_reads_map (readBytes _) (take m)), readBytes_ok.
  - by intros ->%nil_length_inv.
Qed.

Lemma read_wchars_ok be s : Forall is_ucs s →
  by_reads (read_wchars be (length s)) (wchars_bytes s) s.
Proof.
  induction 1 as [|c s Hc _ IH]; [apply by_reads_ret|]. rewrite wchars_bytes_cons.
  cbn [length read_wchars]. eapply by_reads_bind; [apply readNumeric_ok|].
  assert (E : sint 32 (uint (8 * Z.of_nat 4) c) = c).
  { change (8 * Z.of_nat 4) with 32. rewrite sint_uint, sint_id; [done|lia| |lia].
    destruct Hc. unfold is_sint. change (32 - 1) with 31. lia. }
  rewrite E. by apply (by_reads_map (read_wchars be (length s)) (cons c)).
Qed.

Lemma iby_readWString_ok be s m n : wstring_fits utf8 s m n →
  by_reads (iby_readWString be m n) (byte_wstring utf8 s m n) (take m s).
Proof.
  intros (Hn & Hm & Hs & Hl & Hf). apply (Forall_take _ m) in Hs.
  set (w := take m s) in *. assert (Hw : take m w = w) by apply take_fits.
  assert (Hgo : ∀ len l, (len = O → l = [] ∧ w = []) → Z.of_nat len < 2 ^ n →
    by_reads (if utf8 then bytes ← readBytes len; mret (fromUtf8 bytes)
              else read_wchars be len) l w →
    by_reads (iby_readWString be m n) (byte_counted len n l) w).
  { intros len l Hz Hlen Hr. apply (iby_counted_ok be _ n _ _
      (λ k, utf8 ← gets by_shouldUseUtf8ForString;
        value ← (if (utf8 : bool) then bytes ← readBytes k; mret (fromUtf8 bytes)
                 else read_wchars be k);
        mret (take m value)) []); [done|done| |done].
    intros _ i rest Hi. rewrite (bind_ok _ _ i _ i (gets_run _ i)). pose proof Hi as (_ & -> & _).
    destruct (Hr i rest Hi) as (i' & E & Hi'). exists i'.
    split; [|done]. st_step E. by rewrite mret_run, Hw. }
  unfold byte_wstring. fold w. revert Hf Hgo. destruct utf8; intros Hf Hgo; apply Hgo.
  - intros E0%nil_length_inv. split; [done|]. destruct w as [|c w']; [done|].
    rewrite toUtf8_cons in E0. apply app_eq_nil in E0 as [E0 _].
    apply (f_equal length) in E0. by rewrite length_toUtf8_char in E0.
  - apply Hf.
  - rewrite <- (fromUtf8_toUtf8 w) at 3 by done.
    apply (by_reads_map (readBytes _) fromUtf8), readBytes_ok.
  - by intros ->%nil_length_inv.
  - done.
  - by apply read_wchars_ok.
Qed.
End reader.

(** ** The pair, on a little-endian host *)

#[global] Instance ByteStream_pair {B} `{HB : StreamBufferSpec B} (utf8 : bool) :
  StreamPair (OByteStream B) (IByteStream B) Z.
Proof.
  refine {|
    sp_utf8 := utf8;
    sp_unit := 1;
    os_repr := by_repr utf8;
    is_repr := λ i _, by_repr utf8 i;
    os_room := by_room;
    enc_prim := byte_prim;
    enc_enum := byte_enum;
    enc_string := λ s m n _, byte_string s m n;
    enc_wstring := λ s m n _, byte_wstring utf8 s m n;
    enc_buffer := λ l _, l;
    enc_pad := enc_nil;
  |}.
  - intros o m n. apply sb_room_le.
  - intros t v n o es _. apply oby_write_ok.
  - intros v n o es Hf. apply oby_writeEnum_ok. destruct Hf. lia.
  - intros s m n o es Hf. by apply oby_writeString_ok.
  - intros s m n o es Hf. by apply oby_writeWString_ok.
  - intros l o es _. apply writeBytes_ok.
  - intros o es Ho _. exists o. unfold enc_nil. rewrite app_nil_r. split_and!; [done|done|]. by intros k.
  - intros t v n i pos rest [Hv _]. by apply iby_read_ok.
  - intros v n init i pos rest Hf _. by apply iby_readEnum_ok.
  - intros s m n i pos rest Hf _. by apply iby_readString_ok.
  - intros s m n i pos rest Hf _. by apply iby_readWString_ok.
  - intros l i pos rest _. apply readBytes_ok.
  - intros i pos rest Hi. by exists i.
  - done.
  - done.
  - done.
  - done.
  - done.
  - done.
  - done.
  - done.
  - done.
Defined.
