(* ===== verification/Streamable.v ===== *)
(** * core/stream: [Stream], [Streamable] and the factory

    Models [src/include/sne/core/stream/Stream.h] and [Streamable.h] ([operator&]:
    one [serialize] serves both directions), [SneStreamFactory]
    ([src/src/core/stream/detail/SneStreamFactory.cpp]: bit or byte streams,
    UTF-8 or not) and the messages of
    [src/include/sne/sgp/protocol/cs/CsMessage.h].  A message is the list of the
    values its [serialize] passes to [operator&], and the round-trip theorem holds
    for every such list, whichever streams the factory makes. *)

From S2P Require Import Prelude BitList Bits Unicode StreamBuffer Stream BitStream BitStreamSpec.
From S2P Require Import ByteStream ByteStreamSpec.

(** ** The streams a factory makes *)

Record SneStreamFactory := mkFactory {
  shouldUseUtf8ForString_ : bool;
  useBitPacking_ : bool;
}.

(** A [unique_ptr<OStream>], a [unique_ptr<IStream>]: the class is found out at run time. *)
Inductive AnyOStream (B : Type) := OBit (o : OBitStream B) | OByte (o : OByteStream B).
Arguments OBit {B} o.
Arguments OByte {B} o.
Inductive AnyIStream (B : Type) := IBit (i : IBitStream B) | IByte (i : IByteStream B).
Arguments IBit {B} i.
Arguments IByte {B} i.

Definition createOStream {B} (f : SneStreamFactory) (b : B) : AnyOStream B :=
  if useBitPacking_ f then OBit (newOBitStream b (shouldUseUtf8ForString_ f))
  else OByte (Build_ByteStream b (shouldUseUtf8ForString_ f)).
Definition createIStream {B} (f : SneStreamFactory) (b : B) : AnyIStream B :=
  if useBitPacking_ f then IBit (newIBitStream b (shouldUseUtf8ForString_ f))
  else IByte (Build_ByteStream b (shouldUseUtf8ForString_ f)).

Section dispatch.
Context {B : Type} `{StreamBuffer B}.

(** The buffer a stream refers to. *)
Definition ostream_buffer (s : AnyOStream B) : B :=
  match s with OBit o => ob_streamBuffer o | OByte o => by_streamBuffer o end.
Definition istream_buffer (s : AnyIStream B) : B :=
  match s with IBit i => ib_streamBuffer i | IByte i => by_streamBuffer i end.

(** A virtual call. *)
Definition ovirtual {A} (m1 : st (OBitStream B) A) (m2 : st (OByteStream B) A)
  : st (AnyOStream B) A := λ s,
  match s with
  | OBit o => let '(r, o') := m1 o in (r, OBit o')
  | OByte o => let '(r, o') := m2 o in (r, OByte o')
  end.
Definition ivirtual {A} (m1 : st (IBitStream B) A) (m2 : st (IByteStream B) A)
  : st (AnyIStream B) A := λ s,
  match s with
  | IBit i => let '(r, i') := m1 i in (r, IBit i')
  | IByte i => let '(r, i') := m2 i in (r, IByte i')
  end.

#[global] Instance AnyOStream_stream : OStream (AnyOStream B) := {
  os_write t v n := ovirtual (os_write t v n) (os_write t v n);
  os_writeEnum v n := ovirtual (os_writeEnum v n) (os_writeEnum v n);
  os_writeString s m n := ovirtual (os_writeString s m n) (os_writeString s m n);
  os_writeWString s m n := ovirtual (os_writeWString s m n) (os_writeWString s m n);
  os_writeBuffer l := ovirtual (os_writeBuffer l) (os_writeBuffer l);
  os_align := ovirtual os_align os_align;
  os_reset b := ovirtual (os_reset b) (os_reset b);
  os_getTotalBitCount s :=
    match s with OBit o => os_getTotalBitCount o | OByte o => os_getTotalBitCount o end;
  os_getTotalSize s :=
    match s with OBit o => os_getTotalSize o | OByte o => os_getTotalSize o end;
}.

#[global] Instance AnyIStream_stream : IStream (AnyIStream B) := {
  is_read t n := ivirtual (is_read t n) (is_read t n);
  is_readEnum init n := ivirtual (is_readEnum init n) (is_readEnum init n);
  is_readString m n := ivirtual (is_readString m n) (is_readString m n);
  is_readWString m n := ivirtual (is_readWString m n) (is_readWString m n);
  is_readBuffer len := ivirtual (is_readBuffer len) (is_readBuffer len);
  is_align := ivirtual is_align is_align;
  is_reset b := ivirtual (is_reset b) (is_reset b);
  is_getTotalBitCount s :=
    match s with IBit i => is_getTotalBitCount i | IByte i => is_getTotalBitCount i end;
  is_getTotalSize s :=
    match s with IBit i => is_getTotalSize i | IByte i => is_getTotalSize i end;
}.
End dispatch.

(** ** [Stream] and [operator&] *)

(** A variable of a fundamental type, an enum of [size] bits, a string. *)
Inductive value :=
| VNum (t : prim) (v : Z)
| VEnum (size v : Z)
| VString (s : list Z)
| VWString (s : list Z).

#[global] Instance value_eq_dec : EqDecision value.
Proof. solve_decision. Defined.

Inductive Stream (Ost Ist : Type) := OutStream (o : Ost) | InStream (i : Ist).
Arguments OutStream {Ost Ist} o.
Arguments InStream {Ost Ist} i.

Section streamable.
Context {Ost Ist : Type} `{OStream Ost, IStream Ist}.

Definition isInput (s : Stream Ost Ist) : bool :=
  match s with InStream _ => true | OutStream _ => false end.
Definition isOutput (s : Stream Ost Ist) : bool := negb (isInput s).

(** [operator<<] and [operator>>] on a variable. *)
Definition out_value (x : value) : st Ost unit :=
  match x with
  | VNum t v => put t v
  | VEnum size v => putEnum size v
  | VString s => putString s
  | VWString s => putWString s
  end.
Definition in_value (x : value) : st Ist value :=
  match x with
  | VNum t _ => VNum t <$> get t
  | VEnum size v => VEnum size <$> getEnum (uint 64 v) size
  | VString _ => VString <$> getString
  | VWString _ => VWString <$> getWString
  end.

(** [stream & x]: [x] afterwards. *)
Definition amp (x : value) : st (Stream Ost Ist) value := λ s,
  match s with
  | InStream i => let '(r, i') := in_value x i in (r, InStream i')
  | OutStream o =>
      match out_value x o with
      | (Ok _, o') => (Ok x, OutStream o')
      | (Throw e, o') => (Throw e, OutStream o')
      end
  end.

(** [stream & x1 & x2 & ...] *)
Fixpoint serialize (xs : list value) : st (Stream Ost Ist) (list value) :=
  match xs with
  | [] => mret []
  | x :: xs => x' ← amp x; xs' ← serialize xs; mret (x' :: xs')
  end.
End streamable.

(** ** The messages *)

Inductive CsSystemMessage :=
| HeartbeatMessage
| ExchangeSeedMessage (publicKey_ seedForEncrypt_ seedForDecrypt_ : list Z)
| ExchangePublicKeyMessage (publicKey_ : list Z)
| ConfirmSeedMessage.

(** The members [serialize] passes to the stream. *)
Definition message_fields (m : CsSystemMessage) : list value :=
  match m with
  | HeartbeatMessage | ConfirmSeedMessage => []
  | ExchangeSeedMessage k e d => [VString k; VString e; VString d]
  | ExchangePublicKeyMessage k => [VString k]
  end.

Definition isEmpty (m : CsSystemMessage) : bool :=
  match m with
  | ExchangeSeedMessage k e d => bool_decide (k = []) && bool_decide (e = []) && bool_decide (d = [])
  | _ => false
  end.

(** ** What can be carried *)

(** The reader's variable has the type of the writer's. *)
Definition same_type (x y : value) : Prop :=
  match x, y with
  | VNum t _, VNum t' _ => t = t'
  | VEnum n _, VEnum n' _ => n = n'
  | VString _, VString _ | VWString _, VWString _ => True
  | _, _ => False
  end.

Section roundtrip.
Context {Ost Ist E : Type} `{HSP : StreamPair Ost Ist E}.

Definition value_fits (x : value) : Prop :=
  match x with
  | VNum t v => prim_ok t v
  | VEnum n v => enum_fits v n
  | VString s => string_fits s USHRT_MAX 16 ∧ (length s ≤ USHRT_MAX)%nat
  | VWString s => wstring_fits (sp_utf8 Ost Ist E) s USHRT_MAX 16 ∧ (length s ≤ USHRT_MAX)%nat
  end.

Definition enc_value (x : value) : encoding E :=
  match x with
  | VNum t v => λ _, enc_prim Ost Ist E t v (bits_size t)
  | VEnum n v => λ _, enc_enum Ost Ist E v n
  | VString s => enc_string Ost Ist E s USHRT_MAX 16
  | VWString s => enc_wstring Ost Ist E s USHRT_MAX 16
  end.

Fixpoint enc_values (xs : list value) : encoding E :=
  match xs with
  | [] => enc_nil
  | x :: xs => enc_value x +++ enc_values xs
  end.

(** An empty string is met at a byte boundary only. *)
Definition value_at (pos : nat) (x : value) : Prop :=
  match x with
  | VString s | VWString s => s ≠ [] ∨ aligned (O := Ost) (I := Ist) (E := E) pos
  | _ => True
  end.
Fixpoint values_at (pos : nat) (xs : list value) : Prop :=
  match xs with
  | [] => True
  | x :: xs => value_at pos x ∧ values_at (pos + length (enc_value x pos)) xs
  end.

#[global] Instance value_fits_dec x : Decision (value_fits x).
Proof. destruct x; unfold value_fits; apply _. Defined.
#[global] Instance value_at_dec pos x : Decision (value_at pos x).
Proof. destruct x; unfold value_at, aligned; apply _. Defined.
#[global] Instance values_at_dec pos xs : Decision (values_at pos xs).
Proof. revert pos. induction xs as [|x xs IH]; intros pos; cbn [values_at]; apply _. Defined.

Lemma out_value_writes x : value_fits x → writes (out_value x) (enc_value x).
Proof.
  destruct x as [t v|n v|s|s]; cbn [value_fits out_value enc_value].
  - apply writes_put.
  - apply writes_enum.
  - intros [Hf _]. by apply writes_string.
  - intros [Hf _]. by apply writes_wstring.
Qed.

Lemma in_value_reads x y : value_fits x → same_type y x →
  reads (λ pos, value_at pos x) (in_value y) (enc_value x) x.
Proof.
  destruct x as [t v|n v|s|s], y as [t' v'|n' v'|s'|s']; cbn [same_type]; intros Hf Ht; try done; subst.
  - by apply reads_fmap, reads_get.
  - apply reads_fmap, reads_enum; [done|]. by apply uint_range.
  - destruct Hf as [Hf Hl]. apply reads_fmap.
    pose proof (reads_string s USHRT_MAX 16 Hf) as Hr. by rewrite take_ge in Hr by done.
  - destruct Hf as [Hf Hl]. apply reads_fmap.
    pose proof (reads_wstring s USHRT_MAX 16 Hf) as Hr. by rewrite take_ge in Hr by done.
Qed.

Lemma serialize_out xs o es : Forall value_fits xs →
  os_repr o es → os_room o (length (enc_values xs (length es))) → ∃ o',
  serialize (Ist := Ist) xs (OutStream o) = (Ok xs, OutStream o') ∧
  os_repr o' (es ++ enc_values xs (length es)) ∧
  (∀ k, os_room o (length (enc_values xs (length es)) + k) → os_room o' k).
Proof.
  intros Hf. revert o es. induction Hf as [|x xs Hx _ IH]; intros o es Ho Hr; cbn [enc_values serialize].
  - exists o. unfold enc_nil. rewrite app_nil_r. by split_and!; [| |intros k].
  - cbn [enc_values] in Hr. unfold enc_app in *. rewrite length_app in Hr.
    destruct (out_value_writes x Hx o es Ho) as (o1 & E1 & Ho1 & Hr1); [by eapply os_room_le, Hr; lia|].
    destruct (IH o1 _ Ho1) as (o2 & E2 & Ho2 & Hr2); [rewrite length_app; by apply Hr1|].
    rewrite length_app in Ho2, Hr2. exists o2.
    assert (Ea : amp (Ist := Ist) x (OutStream o) = (Ok x, OutStream o1))
      by (unfold amp; by rewrite E1).
    st_step Ea. st_step E2. rewrite app_assoc. split_and!; [done|done|].
    intros k Hk. apply Hr2, Hr1. rewrite length_app in Hk. by rewrite Nat.add_assoc.
Qed.

Lemma serialize_in xs ys i pos rest : Forall value_fits xs → Forall2 same_type ys xs →
  values_at pos xs → is_repr i pos (enc_values xs pos ++ rest) → ∃ i',
  serialize (Ost := Ost) ys (InStream i) = (Ok xs, InStream i') ∧
  is_repr i' (pos + length (enc_values xs pos)) rest.
Proof.
  intros Hf. revert ys i pos. induction Hf as [|x xs Hx _ IH]; intros ys i pos Ht Hp Hi.
  - apply Forall2_nil_inv_r in Ht as ->. exists i. by rewrite Nat.add_0_r.
  - apply Forall2_cons_inv_r in Ht as (y & ys' & Hy & Hys & ->). destruct Hp as [Hp1 Hp2].
    cbn [enc_values] in Hi |- *. unfold enc_app in *. rewrite <- app_assoc in Hi.
    destruct (in_value_reads x y Hx Hy i pos _ Hp1 Hi) as (i1 & E1 & Hi1).
    destruct (IH ys' i1 _ Hys Hp2 Hi1) as (i2 & E2 & Hi2). exists i2. cbn [serialize].
    assert (Ea : amp (Ost := Ost) y (InStream i) = (Ok x, InStream i1)) by (unfold amp; by rewrite E1).
    st_step Ea. st_step E2. by rewrite length_app, Nat.add_assoc.
Qed.
End roundtrip.

(** ** A virtual call is the call of the object's class *)

Section virtual.
Context {B : Type} `{StreamBuffer B}.

Definition lift_obit (s : Stream (OBitStream B) (IBitStream B)) : Stream (AnyOStream B) (AnyIStream B) :=
  match s with OutStream o => OutStream (OBit o) | InStream i => InStream (IBit i) end.
Definition lift_obyte (s : Stream (OByteStream B) (IByteStream B)) : Stream (AnyOStream B) (AnyIStream B) :=
  match s with OutStream o => OutStream (OByte o) | InStream i => InStream (IByte i) end.

(** Runs the inner call of a virtual call and compares the outcomes. *)
#[local] Ltac virtual_call :=
  unfold amp, lift_obit, lift_obyte, out_value, in_value, put, get, putEnum, getEnum, putString, getString,
    putWString, getWString, fmap, st_fmap, mbind, st_bind;
  cbn [os_write os_writeEnum os_writeString os_writeWString is_read is_readEnum is_readString
    is_readWString AnyOStream_stream AnyIStream_stream ovirtual ivirtual];
  match goal with
  | |- context [?m ?s] =>
      match type of (m s) with
      | (result _ * _)%type => destruct (m s) as [[?|?] ?] eqn:?
      end
  end.

Lemma amp_bit x s : amp x (lift_obit s) = let '(r, s') := amp x s in (r, lift_obit s').
Proof. destruct s as [o|i]; destruct x as [t v|n v|l|l]; by virtual_call. Qed.

Lemma amp_byte x s : amp x (lift_obyte s) = let '(r, s') := amp x s in (r, lift_obyte s').
Proof. destruct s as [o|i]; destruct x as [t v|n v|l|l]; by virtual_call. Qed.

Lemma serialize_bit xs s :
  serialize xs (lift_obit s) = let '(r, s') := serialize xs s in (r, lift_obit s').
Proof.
  revert s. induction xs as [|x xs IH]; intros s; [done|]. cbn [serialize].
  unfold mbind, st_bind. rewrite amp_bit. destruct (amp x s) as [[y|e] s1]; [|done].
  rewrite IH. by destruct (serialize xs s1) as [[ys|e] s2].
Qed.

Lemma serialize_byte xs s :
  serialize xs (lift_obyte s) = let '(r, s') := serialize xs s in (r, lift_obyte s').
Proof.
  revert s. induction xs as [|x xs IH]; intros s; [done|]. cbn [serialize].
  unfold mbind, st_bind. rewrite amp_byte. destruct (amp x s) as [[y|e] s1]; [|done].
  rewrite IH. by destruct (serialize xs s1) as [[ys|e] s2].
Qed.

Lemma serialize_bit_ok xs s r s' : serialize xs s = (r, s') → serialize xs (lift_obit s) = (r, lift_obit s').
Proof. intros E1. by rewrite serialize_bit, E1. Qed.

Lemma serialize_byte_ok xs s r s' : serialize xs s = (r, s') → serialize xs (lift_obyte s) = (r, lift_obyte s').
Proof. intros E1. by rewrite serialize_byte, E1. Qed.
End virtual.

(** ** Over the streams of a factory *)

Section factory.
Context {B : Type} `{HB : StreamBufferSpec B}.

(** The bytes of a message: the byte encodings, or the bits packed into bytes. *)
Definition message_fits (f : SneStreamFactory) (xs : list value) : Prop :=
  if useBitPacking_ f then
    Forall (value_fits (HSP := BitStream_pair (B := B) (shouldUseUtf8ForString_ f))) xs ∧
    values_at (HSP := BitStream_pair (B := B) (shouldUseUtf8ForString_ f)) 0%nat xs
  else Forall (value_fits (HSP := ByteStream_pair (B := B) (shouldUseUtf8ForString_ f))) xs.

#[global] Instance message_fits_dec f xs : Decision (message_fits f xs).
Proof. unfold message_fits. destruct (useBitPacking_ f); apply _. Defined.

Definition message_length (f : SneStreamFactory) (xs : list value) : nat :=
  if useBitPacking_ f then
    byte_count (length (enc_values (HSP := BitStream_pair (B := B) (shouldUseUtf8ForString_ f)) xs 0%nat))
  else length (enc_values (HSP := ByteStream_pair (B := B) (shouldUseUtf8ForString_ f)) xs 0%nat).

Lemma values_at_byte utf8 pos xs : values_at (HSP := ByteStream_pair (B := B) utf8) pos xs.
Proof.
  revert pos. induction xs as [|x xs IH]; intros pos; [done|]. split; [|by apply IH].
  destruct x; [done|done|right; exact (Nat.mod_1_r pos)..].
Qed.

Lemma serialize_message_out f xs b : message_fits f xs → sb_wf b → sb_contents b = [] →
  sb_room b (message_length f xs) → ∃ s,
  serialize (Ist := AnyIStream B) xs (OutStream (createOStream f b)) = (Ok xs, OutStream s) ∧
  sb_wf (ostream_buffer s) ∧ length (sb_contents (ostream_buffer s)) = message_length f xs ∧
  ∀ b' ys, sb_wf b' → sb_contents b' = sb_contents (ostream_buffer s) → Forall2 same_type ys xs →
    ∃ s', serialize (Ost := AnyOStream B) ys (InStream (createIStream f b')) = (Ok xs, InStream s').
Proof.
  destruct f as [utf8 []]; unfold message_fits, message_length, createOStream, createIStream;
    cbn [useBitPacking_ shouldUseUtf8ForString_]; intros Hf Hwf Hc Hr.
  - destruct Hf as [Hf Hp]. pose proof (newOBitStream_repr utf8 b Hwf Hc) as Ho.
    destruct (serialize_out (HSP := BitStream_pair utf8) xs (newOBitStream b utf8) [] Hf Ho)
      as (o' & E1 & Ho' & _).
    { cbn [os_room BitStream_pair]. apply (ob_repr_room utf8 _ [] _ Ho). unfold new_bytes. cbn [length Nat.add]. by rewrite Nat.sub_0_r. }
    exists (OBit o').
    split_and!; [exact (serialize_bit_ok _ _ _ _ E1)|..].
    + by destruct Ho' as [[? _ _ _] _].
    + destruct Ho' as [[_ _ Hl _] _]. exact Hl.
    + intros b' ys Hwf' Hc' Ht.
      pose proof (ob_repr_ib_repr utf8 o' _ b' Ho' Hwf' Hc') as Hi. cbn [app length] in Hi.
      destruct (serialize_in (HSP := BitStream_pair utf8) xs ys _ 0%nat _ Hf Ht Hp Hi) as (i' & E2 & _).
      exists (IBit i'). exact (serialize_bit_ok _ _ _ _ E2).
  - assert (Ho : os_repr (StreamPair := ByteStream_pair utf8) (Build_ByteStream b utf8) []) by done.
    destruct (serialize_out (HSP := ByteStream_pair utf8) xs (Build_ByteStream b utf8) [] Hf Ho Hr)
      as (o' & E1 & (Hwf1 & Hu & Hc1) & _).
    exists (OByte o').
    split_and!; [exact (serialize_byte_ok _ _ _ _ E1)|done| |].
    + exact (f_equal length Hc1).
    + intros b' ys Hwf' Hc' Ht.
      assert (Hi : is_repr (StreamPair := ByteStream_pair utf8) (Build_ByteStream b' utf8) 0%nat
        (enc_values (HSP := ByteStream_pair (B := B) utf8) xs 0%nat ++ [])).
      { split_and!; [done|done|]. rewrite app_nil_r. exact (eq_trans Hc' Hc1). }
      destruct (serialize_in (HSP := ByteStream_pair utf8) xs ys _ 0%nat [] Hf Ht
        (values_at_byte utf8 0%nat xs) Hi) as (i' & E2 & _).
      exists (IByte i'). exact (serialize_byte_ok _ _ _ _ E2).
Qed.
End factory.
