(* ===== verification/FactoryStreams.v ===== *)
(** * core/stream: the streams a factory makes keep the contract

    A stream behind the interface ([AnyOStream], [AnyIStream]) keeps the contract
    of its class: [BitPair] and [BytePair].  [Transport] says, for either class,
    how a stream that is opened on a block that holds bytes already starts, and
    what bytes a finished message is: what a session needs of its streams. *)

From S2P Require Import Prelude BitList Bits Unicode StreamBuffer Stream BitStream BitStreamSpec.
From S2P Require Import ByteStream ByteStreamSpec MemoryBlock Streamable.

(** ** Writing leaves the read position of a block where it is *)

Definition keeps {S A} (g : S → nat) (m : st S A) : Prop := ∀ s, g (m s).2 = g s.

Section keeps.
Context {S : Type} (g : S → nat).

Lemma keeps_ret {A} (a : A) : keeps g (mret a).
Proof. done. Qed.
Lemma keeps_throw {A} e : keeps g (throw (A := A) e).
Proof. done. Qed.
Lemma keeps_gets {A} (f : S → A) : keeps g (gets f).
Proof. done. Qed.
Lemma keeps_modify f : (∀ s, g (f s) = g s) → keeps g (modify f).
Proof. intros Hf s. apply Hf. Qed.
Lemma keeps_bind {A B} (m : st S A) (f : A → st S B) :
  keeps g m → (∀ a, keeps g (f a)) → keeps g (m ≫= f).
Proof.
  intros Hm Hf s. unfold mbind, st_bind. specialize (Hm s).
  destruct (m s) as [[a|e] s']; [|done]. cbn in *. by rewrite Hf.
Qed.
Lemma keeps_zoom {T A} (h : T → nat) (get : S → T) put (m : st T A) :
  (∀ s, h (get s) = g s) → (∀ t s, g (put t s) = h t) → keeps h m → keeps g (zoom get put m).
Proof.
  intros Hg Hp Hm s. unfold zoom. specialize (Hm (get s)). destruct (m (get s)) as [r t].
  cbn in *. by rewrite Hp, Hm.
Qed.
End keeps.

Create HintDb keeps.
#[local] Hint Resolve keeps_ret keeps_throw keeps_gets : keeps.
#[local] Ltac keeps :=
  repeat first
    [ solve [auto with keeps] | apply keeps_modify; reflexivity
    | apply keeps_bind; [|intros ?]
    | apply (keeps_zoom _ mb_rd); [reflexivity|reflexivity|]
    | case_match ].

Lemma keeps_mb_write pos l : keeps mb_rd (mb_write pos l).
Proof. intros m. unfold mb_write. by case_decide. Qed.
Lemma keeps_mb_copyFrom l : keeps mb_rd (mb_copyFrom l).
Proof.
  unfold mb_copyFrom. apply keeps_bind; [|intros _].
  - apply keeps_modify. intros m. unfold mb_reserve. by case_decide.
  - apply keeps_bind; [apply keeps_gets|intros wr]. apply keeps_bind; [apply keeps_mb_write|intros _].
    by apply keeps_modify.
Qed.
#[local] Hint Resolve keeps_mb_write keeps_mb_copyFrom : keeps.
Lemma keeps_push x : keeps mb_rd (sb_push (B := MemoryBlock) x).
Proof. apply keeps_mb_copyFrom. Qed.
Lemma keeps_copyFrom l : keeps mb_rd (sb_copyFrom (B := MemoryBlock) l).
Proof. apply keeps_mb_copyFrom. Qed.
Lemma keeps_back : keeps mb_rd (sb_back (B := MemoryBlock)).
Proof. intros m. cbn. unfold msb_back. repeat case_match; simplify_eq; done. Qed.
Lemma keeps_set_back x : keeps mb_rd (sb_set_back (B := MemoryBlock) x).
Proof. intros m. cbn. unfold msb_set_back. destruct (mb_wr m); [done|apply keeps_mb_write]. Qed.
#[local] Hint Resolve keeps_push keeps_copyFrom keeps_back keeps_set_back : keeps.

Definition obit_rd (o : OBitStream MemoryBlock) : nat := mb_rd (ob_streamBuffer o).
Definition obyte_rd (o : OByteStream MemoryBlock) : nat := mb_rd (by_streamBuffer o).

Lemma keeps_push_loop fuel v n : keeps mb_rd (push_loop (B := MemoryBlock) fuel v n).
Proof. revert v n. induction fuel as [|fuel IH]; intros v n; cbn [push_loop]; keeps. Qed.
Lemma keeps_write_first W v h : keeps mb_rd (write_first (B := MemoryBlock) W v h).
Proof. unfold write_first. keeps. Qed.
#[local] Hint Resolve keeps_push_loop keeps_write_first : keeps.
Lemma keeps_writeBitsImpl W v n : keeps obit_rd (writeBitsImpl W v n).
Proof. unfold writeBitsImpl, ob_buf, ob_set_holding, ob_add_total. keeps. Qed.
#[local] Hint Resolve keeps_writeBitsImpl : keeps.
Lemma keeps_ob_align : keeps obit_rd ob_align.
Proof. unfold ob_align. keeps. Qed.
Lemma keeps_ob_write t v n : keeps obit_rd (ob_write t v n).
Proof. unfold ob_write. keeps. Qed.
#[local] Hint Resolve keeps_ob_align keeps_ob_write : keeps.
Lemma keeps_ob_writeBuffer l : keeps obit_rd (ob_writeBuffer l).
Proof. unfold ob_writeBuffer, ob_buf, ob_add_total. keeps. Qed.
#[local] Hint Resolve keeps_ob_writeBuffer : keeps.
Lemma keeps_ob_writeString s m n : keeps obit_rd (ob_writeString s m n).
Proof. unfold ob_writeString. keeps. Qed.
Lemma keeps_ob_writeWString s m n : keeps obit_rd (ob_writeWString s m n).
Proof. unfold ob_writeWString. keeps. Qed.
#[local] Hint Resolve keeps_ob_writeString keeps_ob_writeWString : keeps.

Lemma keeps_writeBytes l : keeps obyte_rd (writeBytes l).
Proof. unfold writeBytes, by_buf. keeps. Qed.
Lemma keeps_writeByte x : keeps obyte_rd (writeByte x).
Proof. unfold writeByte, by_buf. keeps. Qed.
#[local] Hint Resolve keeps_writeBytes keeps_writeByte : keeps.
Lemma keeps_writeNumeric be size v : keeps obyte_rd (writeNumeric be size v).
Proof. unfold writeNumeric. keeps. Qed.
#[local] Hint Resolve keeps_writeNumeric : keeps.
Lemma keeps_oby_write be t v n : keeps obyte_rd (oby_write be t v n).
Proof. unfold oby_write. keeps. Qed.
Lemma keeps_oby_writeEnum be v n : keeps obyte_rd (oby_writeEnum be v n).
Proof. unfold oby_writeEnum. keeps. Qed.
Lemma keeps_write_wchars be l : keeps obyte_rd (write_wchars be l).
Proof. induction l as [|c l IH]; cbn [write_wchars]; keeps. Qed.
#[local] Hint Resolve keeps_oby_write keeps_oby_writeEnum keeps_write_wchars : keeps.
Lemma keeps_oby_writeString be s m n : keeps obyte_rd (oby_writeString be s m n).
Proof. unfold oby_writeString, writeStringLength. keeps. Qed.
Lemma keeps_oby_writeWString be s m n : keeps obyte_rd (oby_writeWString be s m n).
Proof. unfold oby_writeWString, writeStringLength. keeps. Qed.
#[local] Hint Resolve keeps_oby_writeString keeps_oby_writeWString : keeps.

(** ** The contract behind the interface

    A block being written has its read position at its base. *)

Section any.
#[local] Abbreviation B := MemoryBlock.

Definition obit_repr (R : OBitStream B → list bool → Prop) (s : AnyOStream B) (es : list bool) : Prop :=
  match s with OBit o => R o es ∧ obit_rd o = O | OByte _ => False end.
Definition obyte_repr (R : OByteStream B → list Z → Prop) (s : AnyOStream B) (es : list Z) : Prop :=
  match s with OByte o => R o es ∧ obyte_rd o = O | OBit _ => False end.
Definition ibit_repr (R : IBitStream B → nat → list bool → Prop) (s : AnyIStream B) (pos : nat)
  (es : list bool) : Prop :=
  match s with IBit i => R i pos es | IByte _ => False end.
Definition ibyte_repr (R : IByteStream B → nat → list Z → Prop) (s : AnyIStream B) (pos : nat)
  (es : list Z) : Prop :=
  match s with IByte i => R i pos es | IBit _ => False end.

Lemma keeps_run {S A} (g : S → nat) (m : st S A) s r s' : keeps g m → m s = (r, s') → g s' = g s.
Proof. intros Hm E. specialize (Hm s). by rewrite E in Hm. Qed.

(** A virtual call keeps what the call of the class does. *)
#[local] Ltac virtual_eq E1 :=
  cbn [os_write os_writeEnum os_writeString os_writeWString os_writeBuffer os_align is_read is_readEnum
    is_readString is_readWString is_readBuffer is_align AnyOStream_stream AnyIStream_stream
    ovirtual ivirtual]; rewrite E1; reflexivity.
#[local] Ltac out_run con lemma keep Ho :=
  destruct Ho as [Ho Hrd]; edestruct lemma as (o' & E1 & Ho' & Hr'); [eassumption..|];
  exists (con o'); split_and!; [virtual_eq E1| |exact Hr'];
  split; [exact Ho'|rewrite <- Hrd; refine (keeps_run _ _ _ _ _ _ E1); apply keep].
#[local] Ltac out_call con lemma keep :=
  intros; match goal with s : AnyOStream B |- _ => destruct s as [o|o]; try done end;
  match goal with
  | Ho : obit_repr _ _ _ |- _ => out_run con lemma keep Ho
  | Ho : obyte_repr _ _ _ |- _ => out_run con lemma keep Ho
  end.
#[local] Ltac in_call con lemma :=
  intros; match goal with s : AnyIStream B |- _ => destruct s as [i|i]; try done end;
  edestruct lemma as (i' & E1 & Hi'); [eassumption..|];
  exists (con i'); split; [virtual_eq E1|exact Hi'].

Section bit.
Context (utf8 : bool).
#[local] Existing Instance BitStream_pair.
#[local] Abbreviation P := (BitStream_pair (B := B) utf8).

Definition any_room (s : AnyOStream B) (n : nat) : Prop :=
  match s with OBit o => os_room (StreamPair := P) o n | OByte _ => True end.

Definition BitPair : StreamPair (AnyOStream B) (AnyIStream B) bool.
Proof.
  refine {|
    sp_utf8 := utf8;
    sp_unit := 8;
    os_repr := obit_repr (os_repr (StreamPair := P));
    is_repr := ibit_repr (is_repr (StreamPair := P));
    os_room := any_room;
    enc_prim := enc_prim _ _ _ (StreamPair := P);
    enc_enum := enc_enum _ _ _ (StreamPair := P);
    enc_string := enc_string _ _ _ (StreamPair := P);
    enc_wstring := enc_wstring _ _ _ (StreamPair := P);
    enc_buffer := enc_buffer _ _ _ (StreamPair := P);
    enc_pad := enc_pad _ _ _ (StreamPair := P);
  |}.
  - intros [o|o] m n Hmn; [by apply (os_room_le (StreamPair := P))|done].
  - out_call (@OBit B) (os_write_ok (StreamPair := P)) keeps_ob_write.
  - out_call (@OBit B) (os_writeEnum_ok (StreamPair := P)) keeps_ob_write.
  - out_call (@OBit B) (os_writeString_ok (StreamPair := P)) keeps_ob_writeString.
  - out_call (@OBit B) (os_writeWString_ok (StreamPair := P)) keeps_ob_writeWString.
  - out_call (@OBit B) (os_writeBuffer_ok (StreamPair := P)) keeps_ob_writeBuffer.
  - out_call (@OBit B) (os_align_ok (StreamPair := P)) keeps_ob_align.
  - in_call (@IBit B) (is_read_ok (StreamPair := P)).
  - intros v n init [i|i] pos rest Hf Hin Hi; [|done].
    destruct (is_readEnum_ok (StreamPair := P) v n init i pos rest Hf Hin Hi) as (r & i' & E1 & Er & Hi').
    exists r, (IBit i'). split_and!; [virtual_eq E1|done|done].
  - in_call (@IBit B) (is_readString_ok (StreamPair := P)).
  - in_call (@IBit B) (is_readWString_ok (StreamPair := P)).
  - in_call (@IBit B) (is_readBuffer_ok (StreamPair := P)).
  - in_call (@IBit B) (is_align_ok (StreamPair := P)).
  - apply (enc_prim_aligned (StreamPair := P)).
  - apply (enc_string_aligned (StreamPair := P)).
  - apply (enc_wstring_aligned (StreamPair := P)).
  - apply (enc_buffer_aligned (StreamPair := P)).
  - apply (enc_pad_aligned (StreamPair := P)).
  - apply (enc_string_mod (StreamPair := P)).
  - apply (enc_wstring_mod (StreamPair := P)).
  - apply (enc_pad_mod (StreamPair := P)).
  - apply (enc_pad_nil (StreamPair := P)).
Defined.
End bit.
Section byte.
Context (utf8 : bool).
#[local] Existing Instance ByteStream_pair.
#[local] Abbreviation P := (ByteStream_pair (B := B) utf8).

Definition any_byte_room (s : AnyOStream B) (n : nat) : Prop :=
  match s with OByte o => os_room (StreamPair := P) o n | OBit _ => True end.

Definition BytePair : StreamPair (AnyOStream B) (AnyIStream B) Z.
Proof.
  refine {|
    sp_utf8 := utf8;
    sp_unit := 1;
    os_repr := obyte_repr (os_repr (StreamPair := P));
    is_repr := ibyte_repr (is_repr (StreamPair := P));
    os_room := any_byte_room;
    enc_prim := enc_prim _ _ _ (StreamPair := P);
    enc_enum := enc_enum _ _ _ (StreamPair := P);
    enc_string := enc_string _ _ _ (StreamPair := P);
    enc_wstring := enc_wstring _ _ _ (StreamPair := P);
    enc_buffer := enc_buffer _ _ _ (StreamPair := P);
    enc_pad := enc_pad _ _ _ (StreamPair := P);
  |}.
  - intros [o|o] m n Hmn; [done|by apply (os_room_le (StreamPair := P))].
  - out_call (@OByte B) (os_write_ok (StreamPair := P)) keeps_oby_write.
  - out_call (@OByte B) (os_writeEnum_ok (StreamPair := P)) keeps_oby_writeEnum.
  - out_call (@OByte B) (os_writeString_ok (StreamPair := P)) keeps_oby_writeString.
  - out_call (@OByte B) (os_writeWString_ok (StreamPair := P)) keeps_oby_writeWString.
  - out_call (@OByte B) (os_writeBuffer_ok (StreamPair := P)) keeps_writeBytes.
  - out_call (@OByte B) (os_align_ok (StreamPair := P)) @keeps_ret.
  - in_call (@IByte B) (is_read_ok (StreamPair := P)).
  - intros v n init [i|i] pos rest Hf Hin Hi; [done|].
    destruct (is_readEnum_ok (StreamPair := P) v n init i pos rest Hf Hin Hi) as (r & i' & E1 & Er & Hi').
    exists r, (IByte i'). split_and!; [virtual_eq E1|done|done].
  - in_call (@IByte B) (is_readString_ok (StreamPair := P)).
  - in_call (@IByte B) (is_readWString_ok (StreamPair := P)).
  - in_call (@IByte B) (is_readBuffer_ok (StreamPair := P)).
  - in_call (@IByte B) (is_align_ok (StreamPair := P)).
  - apply (enc_prim_aligned (StreamPair := P)).
  - apply (enc_string_aligned (StreamPair := P)).
  - apply (enc_wstring_aligned (StreamPair := P)).
  - apply (enc_buffer_aligned (StreamPair := P)).
  - apply (enc_pad_aligned (StreamPair := P)).
  - apply (enc_string_mod (StreamPair := P)).
  - apply (enc_wstring_mod (StreamPair := P)).
  - apply (enc_pad_mod (StreamPair := P)).
  - apply (enc_pad_nil (StreamPair := P)).
Defined.
End byte.
End any.

(** ** A stream of a factory, between two messages *)

Definition ostream_ready (f : SneStreamFactory) (o : AnyOStream MemoryBlock) : Prop :=
  match o with
  | OBit o => useBitPacking_ f = true ∧ ob_shouldUseUtf8ForString o = shouldUseUtf8ForString_ f ∧
      ob_holdingBitCount o = 0
  | OByte o => useBitPacking_ f = false ∧ by_shouldUseUtf8ForString o = shouldUseUtf8ForString_ f
  end.
Definition istream_ready (f : SneStreamFactory) (i : AnyIStream MemoryBlock) : Prop :=
  match i with
  | IBit i => useBitPacking_ f = true ∧ ib_shouldUseUtf8ForString i = shouldUseUtf8ForString_ f
  | IByte i => useBitPacking_ f = false ∧ by_shouldUseUtf8ForString i = shouldUseUtf8ForString_ f
  end.

(** ** What a session needs of its streams

    [tr_of l]: the elements the bytes [l] are; [tr_ok l]: what a stream makes. *)
Class Transport (f : SneStreamFactory) (E : Type)
    `{HSP : @StreamPair (AnyOStream MemoryBlock) (AnyIStream MemoryBlock) E _ _} := {
  tr_of : list Z → list E;
  tr_ok : list Z → Prop;
  tr_open b : mb_wf b → mb_rd b = O → Forall is_byte (mb_contents b) → os_repr (createOStream f b) (tr_of (mb_contents b));
  tr_room b n : os_room (createOStream f b) n;
  tr_whole l : aligned (O := AnyOStream MemoryBlock) (I := AnyIStream MemoryBlock) (E := E) (length (tr_of l));
  tr_close o l es : os_repr o (tr_of l ++ es) → Forall is_byte l →
    aligned (O := AnyOStream MemoryBlock) (I := AnyIStream MemoryBlock) (E := E) (length es) →
    ostream_ready f o ∧ mb_wf (ostream_buffer o) ∧ mb_rd (ostream_buffer o) = O ∧ ∃ body, mb_contents (ostream_buffer o) = l ++ body ∧
      tr_ok body ∧ tr_of body = es;
  tr_read b body : mb_wf b → mb_contents b = body → tr_ok body →
    is_repr (createIStream f b) 0 (tr_of body);
  tr_ready i pos es : is_repr i pos es → istream_ready f i ∧ mb_wf (istream_buffer i);
  tr_pad body n : tr_ok body → tr_ok (body ++ replicate n 0);
  tr_app l l' : tr_of (l ++ l') = tr_of l ++ tr_of l';
  tr_unit : sp_unit (AnyOStream MemoryBlock) (AnyIStream MemoryBlock) E ≠ O;
  tr_length l : length (tr_of l) = (length l * sp_unit (AnyOStream MemoryBlock) (AnyIStream MemoryBlock) E)%nat;
  tr_string s pos : (length s ≤ USHRT_MAX)%nat →
    aligned (O := AnyOStream MemoryBlock) (I := AnyIStream MemoryBlock) (E := E) pos →
    length (enc_string (AnyOStream MemoryBlock) (AnyIStream MemoryBlock) E s USHRT_MAX 16 pos) =
      ((2 + length s) * sp_unit (AnyOStream MemoryBlock) (AnyIStream MemoryBlock) E)%nat;
}.

(** Bytes from their bits. *)
Lemma bytes_of_bits l bs : Forall is_byte l → length l = byte_count (length bs) →
  le_combine l = Z_of_bits bs → (length bs mod 8 = 0)%nat → bits_of_bytes l = bs.
Proof.
  intros Hb Hl Hv Hm. rewrite le_combine_bits in Hv by done.
  apply Z_of_bits_inj; [|done]. rewrite length_bits_of_bytes, Hl. unfold byte_count. lia.
Qed.

Lemma bits_of_bytes_tail l l' es : Forall is_byte l' → Forall is_byte l →
  bits_of_bytes l' = bits_of_bytes l ++ es → ∃ body, l' = l ++ body ∧ bits_of_bytes body = es.
Proof.
  intros Hl' Hl He. pose proof (f_equal length He) as Hlen.
  rewrite length_app, !length_bits_of_bytes in Hlen.
  assert (Ht : take (length l) l' = l).
  { apply bits_of_bytes_inj; [by apply Forall_take|done|].
    assert (Hs : bits_of_bytes (take (length l) l') ++ bits_of_bytes (drop (length l) l') =
      bits_of_bytes l ++ es) by (by rewrite <- bits_of_bytes_app, take_drop).
    apply app_inj_1 in Hs as [? _]; [done|]. rewrite !length_bits_of_bytes, length_take. lia. }
  exists (drop (length l) l'). split; [by rewrite <- Ht at 1; rewrite take_drop|].
  rewrite <- (take_drop (length l) l'), bits_of_bytes_app, Ht in He. by apply app_inv_head in He.
Qed.

#[global, program] Instance bit_transport utf8 :
  Transport (mkFactory utf8 true) bool (HSP := BitPair utf8) := {|
  tr_of := bits_of_bytes;
  tr_ok := Forall is_byte;
|}.
Next Obligation.
  intros utf8 b Hwf Hrd Hb. split; [|done]. split; [|split; [done|]].
  - split; [done|done| |by apply le_combine_bits]. rewrite length_bits_of_bytes. unfold byte_count.
    change (sb_contents _) with (mb_contents b). lia.
  - rewrite length_bits_of_bytes, Nat.mul_comm, Nat.Div0.mod_mul. done.
Qed.
Next Obligation. done. Qed.
Next Obligation.
  intros utf8 l. unfold aligned. rewrite length_bits_of_bytes. cbn [sp_unit BitPair].
  by rewrite Nat.mul_comm, Nat.Div0.mod_mul.
Qed.
Next Obligation.
  intros utf8 [o|o] l es; [|done]. intros [([Hwf Hby Hlen Hval] & Hu & Hh) Hrd] Hl Ha.
  unfold aligned in Ha. cbn [sp_unit BitPair] in Ha.
  assert (Hbits : bits_of_bytes (sb_contents (ob_streamBuffer o)) = bits_of_bytes l ++ es).
  { apply bytes_of_bits; [done|done|done|]. rewrite length_app, length_bits_of_bytes.
    rewrite (Nat.mul_comm 8), Nat.add_comm, Nat.Div0.mod_add. done. }
  assert (Hmod : (length (bits_of_bytes l ++ es) mod 8 = 0)%nat)
    by (rewrite length_app, length_bits_of_bytes; lia).
  destruct (bits_of_bytes_tail _ _ _ Hby Hl Hbits) as (body & E1 & E2).
  rewrite Hmod in Hh. split; [done|]. split; [done|]. split; [done|]. exists body. split; [done|]. split; [|done]. rewrite E1 in Hby. by apply Forall_app in Hby as [_ ?].
Qed.
Next Obligation.
  intros utf8 b body Hwf <- Hb. split; cbn [newIBitStream ib_streamBuffer ib_shouldUseUtf8ForString
    ib_bitReadCount createIStream]; try done.
  - rewrite length_bits_of_bytes. change (sb_contents b) with (mb_contents b). by rewrite Nat.Div0.mod_0_l.
  - cbn. rewrite Z.div_1_r. by apply le_combine_bits.
Qed.
Next Obligation. intros utf8 [i|i] pos es; [|done]. intros []. by split. Qed.
Next Obligation. intros utf8 body n Hb. apply Forall_app. split; [done|]. by apply Forall_replicate. Qed.
Next Obligation. intros utf8 l l'. apply bits_of_bytes_app. Qed.
Next Obligation. done. Qed.
Next Obligation. intros utf8 l. rewrite length_bits_of_bytes. cbn [sp_unit BitPair]. lia. Qed.
Next Obligation.
  intros utf8 s pos Hs Ha. unfold aligned in Ha. cbn [sp_unit BitPair] in *.
  change (length (bit_string s USHRT_MAX 16 pos) = ((2 + length s) * 8)%nat).
  unfold bit_string, bit_counted, bit_buffer, enc_app, enc_align. rewrite take_ge by done.
  rewrite !length_app, length_replicate, length_bits_of_bytes, length_bits_of. unfold pad_bits.
  change (Z.to_nat 16) with 16%nat.
  replace ((pos + 16) mod 8)%nat with O; [cbn; lia|]. change 16%nat with (2 * 8)%nat. by rewrite Nat.Div0.mod_add.
Qed.

#[global, program] Instance byte_transport utf8 :
  Transport (mkFactory utf8 false) Z (HSP := BytePair utf8) := {|
  tr_of l := l;
  tr_ok _ := True;
|}.
Next Obligation. intros utf8 b Hwf Hrd Hb. by split. Qed.
Next Obligation. done. Qed.
Next Obligation. intros utf8 l. apply Nat.mod_1_r. Qed.
Next Obligation.
  intros utf8 [o|o] l es; [done|]. intros [(Hwf & Hu & Hc) Hrd] Hl Ha. split; [done|]. split; [done|]. split; [done|]. by exists es.
Qed.
Next Obligation. intros utf8 b body Hwf Hc _. by split_and!. Qed.
Next Obligation. intros utf8 [i|i] pos es; [done|]. intros (? & ? & ?). by split. Qed.
Next Obligation. done. Qed.
Next Obligation. done. Qed.
Next Obligation. done. Qed.
Next Obligation. intros utf8 l. cbn [sp_unit BytePair]. lia. Qed.
Next Obligation.
  intros utf8 s pos Hs _. change (length (byte_string s USHRT_MAX 16) = ((2 + length s) * 1)%nat).
  unfold byte_string, byte_counted. rewrite take_ge by done. rewrite length_app, length_le_split.
  change (Z.to_nat (16 / 8)) with 2%nat. lia.
Qed.
