(* ===== verification/RpcTypes.v ===== *)
(** * srpc: the RPC types

    Models the [serialize] methods of [src/include/sne/srpc/RpcTypes.h] (numbers
    and strings) and [src/include/sne/srpc/RpcContainers.h] (sequences, sets,
    maps and arrays), over any pair of streams.  A codec is a writer and a
    reader of a type; the theorems say that what the writer puts, the reader
    gets back, for every element codec that has the property. *)

From S2P Require Import Prelude BitList Bits Unicode Stream.

(** ** The serialize methods *)

Section operations.
Context {Ost Ist : Type} `{OStream Ost, IStream Ist}.

(** [RpcNumericType<NativeType, bits, StreamingType>]. *)
Definition RpcNumericType_write (streaming : prim) (bits value : Z) : st Ost unit :=
  os_write streaming (prim_of streaming value) bits.
Definition RpcNumericType_read (native streaming : prim) (bits : Z) : st Ist Z :=
  v ← is_read streaming bits; mret (prim_of native v).

(** [RpcStringType<std::string, maxLength, sizeBits>] and its wide sibling. *)
Definition RpcStringType_write (maxLength : nat) (sizeBits : Z) (s : list Z) : st Ost unit :=
  os_writeString s maxLength sizeBits.
Definition RpcStringType_read (maxLength : nat) (sizeBits : Z) : st Ist (list Z) :=
  is_readString maxLength sizeBits.
Definition RpcWStringType_write (maxLength : nat) (sizeBits : Z) (s : list Z) : st Ost unit :=
  os_writeWString s maxLength sizeBits.
Definition RpcWStringType_read (maxLength : nat) (sizeBits : Z) : st Ist (list Z) :=
  is_readWString maxLength sizeBits.

(** The default [sizeBits] of [RpcStringType]; [SNE_DEFAULT_STRING_SIZE_BITS] is 16 as
    well ([common/Macros.h]). *)
Definition SNE_DEFAULT_STRING_SIZE_BITS : Z := CHAR_BIT * 2.
Definition SNE_DEFAULT_CONTAILER_SIZE_BITS : nat := Z.to_nat (CHAR_BIT * 2).
Definition default_sizeBits (maxLength : nat) : Z :=
  if decide (UCHAR_MAX < maxLength)%nat then bits_size PU16 else SNE_DEFAULT_STRING_SIZE_BITS.

Section elements.
Context {A : Type} (put_elt : A → st Ost unit) (get_elt : st Ist A).

(** The loop [for (s = 0; pos != end && s < maxNumber; ++pos, ++s)]. *)
Fixpoint write_elements (maxNumber : nat) (l : list A) : st Ost unit :=
  match maxNumber, l with
  | S maxNumber, x :: l => put_elt x ;; write_elements maxNumber l
  | _, _ => mret tt
  end.

(** [for (i = 0; i < size; ++i) { rt; istream >> rt; insert(rt); }] *)
Fixpoint read_elements {C} (insert : A → C → C) (size : nat) (c : C) : st Ist C :=
  match size with
  | O => mret c
  | S size => rt ← get_elt; read_elements insert size (insert rt c)
  end.

Definition push_back (x : A) (l : list A) : list A := l ++ [x].

(** The writers of [RpcContainer], [RBaseSet] and [RBaseMap] are the same but
    for the type [count] of the length field.  [l] is in iteration order. *)
Definition container_write (count : prim) (sizeBits : nat) (l : list A) : st Ost unit :=
  if MaxNumber sizeBits <? Z.of_nat (length l) then
    throw (StreamingException "container size is too big")
  else
    os_write count (prim_of count (Z.of_nat (length l))) (Z.of_nat sizeBits) ;;
    write_elements (Z.to_nat (MaxNumber sizeBits)) l.

Definition container_read {C} (count : prim) (sizeBits : nat) (insert : A → C → C) (empty : C)
  : st Ist C :=
  size ← is_read count (Z.of_nat sizeBits);
  if MaxNumber sizeBits <? size then
    throw (StreamingException "container size is too big")
  else read_elements insert (Z.to_nat size) empty.

(** [RpcContainer]: [RVector] and [RList]. *)
Definition RpcContainer_write := container_write PU16.
Definition RpcContainer_read (sizeBits : nat) : st Ist (list A) :=
  container_read PU16 sizeBits push_back [].

(** [RBaseSet], over any container with its [insert]. *)
Definition RBaseSet_write := container_write PU16.
Definition RBaseSet_read {C} (sizeBits : nat) (insert : A → C → C) (empty : C) : st Ist C :=
  container_read PU16 sizeBits insert empty.

(** [RArray<T, N>]. *)
Fixpoint RArray_write (l : list A) : st Ost unit :=
  match l with
  | [] => mret tt
  | x :: l => put_elt x ;; RArray_write l
  end.
Fixpoint RArray_read (N : nat) : st Ist (list A) :=
  match N with
  | O => mret []
  | S N => x ← get_elt; l ← RArray_read N; mret (x :: l)
  end.
End elements.

(** [RBaseMap]: a pair is its key, then its value; the length is 32 bits wide
    before it is cut to [sizeBits]. *)
Section pairs.
Context {K V : Type} (put_key : K → st Ost unit) (get_key : st Ist K).
Context (put_value : V → st Ost unit) (get_value : st Ist V).

Definition put_pair (p : K * V) : st Ost unit := put_key p.1 ;; put_value p.2.
Definition get_pair : st Ist (K * V) := k ← get_key; v ← get_value; mret (k, v).

Definition RBaseMap_write := container_write put_pair PU32.
Definition RBaseMap_read {C} (sizeBits : nat) (insert : K * V → C → C) (empty : C) : st Ist C :=
  container_read get_pair PU32 sizeBits insert empty.
End pairs.
End operations.

(** ** [std::set], [std::multiset], [std::map]: a list in the order of [lt]

    [insert] at the place of the order; [set] and [map] keep the element that is
    there, the multi variants insert after the equal ones. *)
Section ordered.
Context {A K : Type} (key : A → K) (lt : K → K → bool).

Fixpoint ord_insert (x : A) (l : list A) : list A :=
  match l with
  | [] => [x]
  | y :: l' =>
      if lt (key x) (key y) then x :: l
      else if lt (key y) (key x) then y :: ord_insert x l'
      else l
  end.

Fixpoint multi_insert (x : A) (l : list A) : list A :=
  match l with
  | [] => [x]
  | y :: l' => if lt (key x) (key y) then x :: l else y :: multi_insert x l'
  end.

Inductive ordered : list A → Prop :=
| ordered_nil : ordered []
| ordered_cons x l : Forall (λ y, lt (key x) (key y) = true) l → ordered l → ordered (x :: l).

Inductive multi_ordered : list A → Prop :=
| multi_ordered_nil : multi_ordered []
| multi_ordered_cons x l :
    Forall (λ y, lt (key y) (key x) = false) l → multi_ordered l → multi_ordered (x :: l).
End ordered.

(** ** Round trips *)

Section roundtrip.
Context {O I E : Type} `{HSP : StreamPair O I E}.

Lemma RpcNumericType_writes streaming bits v : prim_ok streaming v → prim_fits streaming v bits →
  writes (RpcNumericType_write streaming bits v) (λ _, enc_prim O I E streaming v bits).
Proof. intros Hv Hf. unfold RpcNumericType_write. rewrite prim_of_id by done. by apply writes_prim. Qed.

Lemma RpcNumericType_reads P native streaming bits v :
  prim_ok native v → prim_fits streaming v bits →
  reads P (RpcNumericType_read native streaming bits) (λ _, enc_prim O I E streaming v bits) v.
Proof.
  intros Hv Hf i pos rest HP Hi. destruct (reads_prim P _ _ _ Hf i pos rest HP Hi) as (i' & E1 & Hi').
  exists i'. unfold RpcNumericType_read. st_step E1. by rewrite mret_run, prim_of_id.
Qed.

(** A codec: [enc x] is what [put] writes for [x], and [get] reads [x] back from
    it at every position that satisfies [P x]; [P] holds after [enc x] of every
    [x] when the codec can be repeated. *)
Record codec {A} (put : A → st O unit) (get : st I A) (fits : A → Prop)
    (P : nat → Prop) (enc : A → encoding E) : Prop := {
  codec_writes x : fits x → writes (put x) (enc x);
  codec_reads x : fits x → reads P get (enc x) x;
  codec_pos x pos : fits x → P pos → P (pos + length (enc x pos))%nat;
}.

(** Numbers are read at every position. *)
Lemma prim_codec t n : codec (λ v, os_write t v n) (is_read t n) (λ v, prim_fits t v n)
  (λ _, True) (λ v _, enc_prim O I E t v n).
Proof. split; [intros v; apply writes_prim|intros v; apply reads_prim|done]. Qed.

(** Strings, from a byte boundary to a byte boundary. *)
Lemma string_codec m n : codec (λ s, os_writeString s m n) (is_readString m n)
  (λ s, string_fits s m n ∧ (length s ≤ m)%nat) (aligned (O := O) (I := I) (E := E))
  (λ s, enc_string O I E s m n).
Proof.
  split.
  - intros s [Hf _]. by apply writes_string.
  - intros s [Hf Hm] i pos rest HP Hi.
    destruct (reads_string s m n Hf i pos rest) as (i' & E1 & Hi'); [by right|done|].
    exists i'. by rewrite take_ge in E1.
  - intros s pos _ _. apply enc_string_aligned.
Qed.

Lemma wstring_codec m n : codec (λ s, os_writeWString s m n) (is_readWString m n)
  (λ s, wstring_fits (sp_utf8 O I E) s m n ∧ (length s ≤ m)%nat)
  (aligned (O := O) (I := I) (E := E)) (λ s, enc_wstring O I E s m n).
Proof.
  split.
  - intros s [Hf _]. by apply writes_wstring.
  - intros s [Hf Hm] i pos rest HP Hi.
    destruct (reads_wstring s m n Hf i pos rest) as (i' & E1 & Hi'); [by right|done|].
    exists i'. by rewrite take_ge in E1.
  - intros s pos _ _. apply enc_wstring_aligned.
Qed.

(** Numbers of whole bytes keep a byte boundary. *)
Lemma aligned_prim_codec t n : n mod 8 = 0 → 0 ≤ n →
  codec (λ v, os_write t v n) (is_read t n) (λ v, prim_fits t v n)
    (aligned (O := O) (I := I) (E := E)) (λ v _, enc_prim O I E t v n).
Proof.
  intros Hn H0'. split; [intros v; apply writes_prim|intros v; apply reads_prim|].
  intros v pos _. by apply enc_prim_aligned.
Qed.

(** A pair, its parts in order. *)
Lemma pair_codec {K V} (putk : K → st O unit) getk fitsk enck
    (putv : V → st O unit) getv fitsv encv P :
  codec putk getk fitsk P enck → codec putv getv fitsv P encv →
  codec (put_pair putk putv) (get_pair getk getv)
    (λ p, fitsk p.1 ∧ fitsv p.2) P (λ p, enck p.1 +++ encv p.2).
Proof.
  intros Hk Hv. split.
  - intros [k v] [Hfk Hfv]. apply writes_seq; [by apply Hk|by apply Hv].
  - intros [k v] [Hfk Hfv]. eapply reads_bind; [by apply Hk| |intros pos; by apply Hk].
    intros i pos rest HP Hi. destruct (codec_reads _ _ _ _ _ Hv v Hfv i pos rest HP Hi) as (i' & E1 & Hi').
    exists i'. by st_step E1.
  - intros [k v] pos [Hfk Hfv] HP. unfold enc_app. rewrite length_app, Nat.add_assoc.
    apply Hv; [done|]. by apply Hk.
Qed.

Section container.
Context {A : Type} {put : A → st O unit} {get : st I A} {fits : A → Prop}.
Context {P : nat → Prop} {enc : A → encoding E} (HA : codec put get fits P enc).

Fixpoint enc_elements (l : list A) : encoding E :=
  match l with
  | [] => enc_nil
  | x :: l => enc x +++ enc_elements l
  end.

Definition enc_container (count : prim) (sizeBits : nat) (l : list A) : encoding E :=
  (λ _, enc_prim O I E count (Z.of_nat (length l)) (Z.of_nat sizeBits)) +++ enc_elements l.

Lemma write_elements_writes m l : Forall fits l → (length l ≤ m)%nat →
  writes (write_elements put m l) (enc_elements l).
Proof.
  intros Hl. revert m. induction Hl as [|x l Hx _ IH]; intros m Hm.
  - destruct m; apply writes_ret.
  - destruct m as [|m]; [simpl in Hm; lia|]. simpl. apply writes_seq; [by apply HA|].
    apply IH. simpl in Hm. lia.
Qed.

(** The elements are inserted one after the other. *)
Lemma read_elements_reads {C} (insert : A → C → C) l c : Forall fits l →
  reads P (read_elements get insert (length l) c) (enc_elements l)
    (fold_left (λ c x, insert x c) l c).
Proof.
  intros Hl. revert c. induction Hl as [|x l Hx _ IH]; intros c; simpl; [apply reads_ret|].
  eapply reads_bind; [by apply HA|apply IH|]. intros pos. by apply HA.
Qed.

Lemma enc_elements_pos l pos : Forall fits l → P pos → P (pos + length (enc_elements l pos))%nat.
Proof.
  intros Hl. revert pos. induction Hl as [|x l Hx _ IH]; intros pos HP; simpl.
  - by rewrite Nat.add_0_r.
  - unfold enc_app. rewrite length_app, Nat.add_assoc. apply IH. by apply HA.
Qed.

(** The length field of a container of [sizeBits] bits. *)
Definition count_ok (count : prim) (sizeBits : nat) : Prop :=
  (count = PU16 ∨ count = PU32) ∧ (sizeBits = 8 ∨ sizeBits = 16)%nat.

Lemma count_ok_fits count sizeBits n : count_ok count sizeBits →
  Z.of_nat n ≤ MaxNumber sizeBits → prim_fits count (Z.of_nat n) (Z.of_nat sizeBits).
Proof.
  intros [Hc Hs] Hn. rewrite MaxNumber_eq in Hn. apply count_fits; [tauto|lia|]. unfold is_uint. lia.
Qed.

Lemma container_writes count sizeBits l : count_ok count sizeBits → Forall fits l →
  Z.of_nat (length l) ≤ MaxNumber sizeBits →
  writes (container_write put count sizeBits l) (enc_container count sizeBits l).
Proof.
  intros Hc Hl Hn. unfold container_write. rewrite (proj2 (Z.ltb_ge _ _)) by done.
  pose proof (count_ok_fits count sizeBits (length l) Hc Hn) as Hf.
  apply writes_seq.
  - rewrite prim_of_id by apply Hf. by apply writes_prim.
  - apply write_elements_writes; [done|lia].
Qed.

(** Reading a container inserts its elements in the order they were written. *)
Lemma container_reads {C} count sizeBits (insert : A → C → C) empty l :
  count_ok count sizeBits → Forall fits l → Z.of_nat (length l) ≤ MaxNumber sizeBits →
  reads (λ pos, P (pos + length (enc_prim O I E count (Z.of_nat (length l)) (Z.of_nat sizeBits)))%nat)
    (container_read get count sizeBits insert empty) (enc_container count sizeBits l)
    (fold_left (λ c x, insert x c) l empty).
Proof.
  intros Hc Hl Hn. pose proof (count_ok_fits count sizeBits (length l) Hc Hn) as Hf.
  unfold container_read. eapply reads_bind.
  - by apply reads_prim.
  - rewrite (proj2 (Z.ltb_ge _ _)) by done. rewrite Nat2Z.id. by apply read_elements_reads.
  - done.
Qed.

(** More elements than the length field can count are refused, nothing written. *)
Lemma container_too_big count sizeBits l o :
  MaxNumber sizeBits < Z.of_nat (length l) →
  container_write put count sizeBits l o =
    (Throw (StreamingException "container size is too big"), o).
Proof. intros Hn. unfold container_write. by rewrite (proj2 (Z.ltb_lt _ _)). Qed.

Lemma fold_push_back (l c : list A) : fold_left (λ c x, push_back x c) l c = c ++ l.
Proof.
  revert c. induction l as [|x l IH]; intros c; simpl; [by rewrite app_nil_r|].
  rewrite IH. unfold push_back. by rewrite <- app_assoc.
Qed.

Lemma RArray_writes l : Forall fits l → writes (RArray_write put l) (enc_elements l).
Proof.
  induction 1 as [|x l Hx _ IH]; simpl; [apply writes_ret|]. apply writes_seq; [by apply HA|done].
Qed.

Lemma RArray_reads l : Forall fits l →
  reads P (RArray_read get (length l)) (enc_elements l) l.
Proof.
  induction 1 as [|x l Hx _ IH]; simpl; [apply reads_ret|].
  eapply reads_bind; [by apply HA| |intros pos; by apply HA].
  intros i pos rest HP Hi. destruct (IH i pos rest HP Hi) as (i' & E1 & Hi').
  exists i'. by st_step E1.
Qed.
End container.
End roundtrip.

(** ** The ordered containers are rebuilt *)

Section ordered_lemmas.
Context {A K : Type} (key : A → K) (lt : K → K → bool).
Hypothesis lt_asym : ∀ x y, lt x y = true → lt y x = false.

Lemma ord_insert_last x l : Forall (λ y, lt (key y) (key x) = true) l →
  ord_insert key lt x l = l ++ [x].
Proof.
  induction 1 as [|y l Hy _ IH]; simpl; [done|]. rewrite (lt_asym _ _ Hy), Hy. by rewrite IH.
Qed.

Lemma multi_insert_last x l : Forall (λ y, lt (key x) (key y) = false) l →
  multi_insert key lt x l = l ++ [x].
Proof. induction 1 as [|y l Hy _ IH]; simpl; [done|]. by rewrite Hy, IH. Qed.

Lemma ordered_app_inv c x l : ordered key lt (c ++ x :: l) →
  Forall (λ y, lt (key y) (key x) = true) c.
Proof.
  induction c as [|y c IH]; intros Ho; [constructor|]. inversion Ho as [|? ? Hy Ho']; subst.
  constructor; [|by apply IH]. apply Forall_app in Hy as [_ Hy]. by apply Forall_cons in Hy as [Hy _].
Qed.

Lemma multi_ordered_app_inv c x l : multi_ordered key lt (c ++ x :: l) →
  Forall (λ y, lt (key x) (key y) = false) c.
Proof.
  induction c as [|y c IH]; intros Ho; [constructor|]. inversion Ho as [|? ? Hy Ho']; subst.
  constructor; [|by apply IH]. apply Forall_app in Hy as [_ Hy]. by apply Forall_cons in Hy as [Hy _].
Qed.

Lemma fold_ord_insert l c : ordered key lt (c ++ l) →
  fold_left (λ c x, ord_insert key lt x c) l c = c ++ l.
Proof.
  revert c. induction l as [|x l IH]; intros c Ho; simpl; [by rewrite app_nil_r|].
  rewrite ord_insert_last by by eapply ordered_app_inv.
  rewrite IH, <- app_assoc; [done|]. by rewrite <- app_assoc.
Qed.

Lemma fold_multi_insert l c : multi_ordered key lt (c ++ l) →
  fold_left (λ c x, multi_insert key lt x c) l c = c ++ l.
Proof.
  revert c. induction l as [|x l IH]; intros c Ho; simpl; [by rewrite app_nil_r|].
  rewrite multi_insert_last by by eapply multi_ordered_app_inv.
  rewrite IH, <- app_assoc; [done|]. by rewrite <- app_assoc.
Qed.
End ordered_lemmas.

(** ** Structures: their fields one after the other, from byte boundaries *)

Section fields.
Context {O I E : Type} `{HSP : StreamPair O I E}.
#[local] Abbreviation at_byte := (aligned (O := O) (I := I) (E := E)).

Lemma container_codec {A} {putx : A → st O unit} {getx fitsx encx} count sizeBits :
  codec putx getx fitsx at_byte encx → count_ok count sizeBits →
  codec (container_write putx count sizeBits) (container_read getx count sizeBits push_back [])
    (λ l, Forall fitsx l ∧ Z.of_nat (length l) ≤ MaxNumber sizeBits) at_byte
    (enc_container (enc := encx) count sizeBits).
Proof.
  intros HA Hc.
  assert (Hlen : ∀ (l : list A) pos, at_byte pos → at_byte (pos + length (enc_prim O I E count (Z.of_nat (length l)) (Z.of_nat sizeBits)))).
  { intros l pos. apply enc_prim_aligned; destruct Hc as [_ [-> | ->]]; done || lia. }
  split.
  - intros l [Hl Hn]. by apply (container_writes HA).
  - intros l [Hl Hn]. pose proof (container_reads HA count sizeBits push_back [] l Hc Hl Hn) as H'.
    rewrite fold_push_back in H'. eapply reads_weaken; [|exact H']. intros pos. apply Hlen.
  - intros l pos [Hl _] Hp. unfold enc_container, enc_app. rewrite length_app, Nat.add_assoc.
    apply (enc_elements_pos HA); [done|by apply Hlen].
Qed.

Lemma put_codec t : bits_size t mod 8 = 0 → codec (put t) (get t) (prim_ok t) at_byte (λ v _, enc_prim O I E t v (bits_size t)).
Proof.
  intros Ht. split; [intros v; apply writes_put|intros v; apply reads_get|].
  intros v pos _. apply enc_prim_aligned; [done|]. by destruct t.
Qed.

(** A field is written, then the rest. *)
Lemma writes_field {A} {putx : A → st O unit} {getx fitsx encx} (Hc : codec putx getx fitsx at_byte encx) x m e :
  fitsx x → writes m e → writes (putx x ;; m) (encx x +++ e).
Proof. intros Hx. apply writes_seq. by apply Hc. Qed.
Lemma reads_field {A B} {putx : A → st O unit} {getx fitsx encx} (Hc : codec putx getx fitsx at_byte encx) x
    (f : A → st I B) e b :
  fitsx x → reads at_byte (f x) e b → reads at_byte (getx ≫= f) (encx x +++ e) b.
Proof.
  intros Hx Hf. eapply (reads_bind _ at_byte); [by apply Hc|exact Hf|]. intros pos. by apply Hc.
Qed.
Lemma reads_last {A B} {putx : A → st O unit} {getx fitsx encx} (Hc : codec putx getx fitsx at_byte encx) x (f : A → B) :
  fitsx x → reads at_byte (y ← getx; mret (f y)) (encx x) (f x).
Proof.
  intros Hx i pos rest HP Hi. destruct (codec_reads _ _ _ _ _ Hc x Hx i pos rest HP Hi) as (i' & E1 & Hi'). exists i'. by st_step E1.
Qed.
End fields.
