(* ===== verification/ReadSafety.v ===== *)
(** * core/stream: reading bytes that anyone may have sent

    The round trips say what a reader does with what a writer put.  Here the bytes are
    arbitrary, and a read is [safe]: it returns a value of its type or throws a
    [StreamingException], never runs into undefined behaviour, and leaves the stream
    usable.  [SafeIStream] states this of the primitive reads; both classes of streams
    are instances, and so is what a factory makes.  What is built from the primitives,
    [operator&] and the containers, is safe over any of them. *)

From S2P Require Import Prelude BitList Bits Unicode StreamBuffer Stream BitStream BitStreamSpec.
From S2P Require Import ByteStream ByteStreamSpec Streamable RpcTypes.

(** ** Safe reads *)

Definition streaming_error {A} (P : A → Prop) (r : result A) : Prop :=
  match r with Ok a => P a | Throw e => ∃ what, e = StreamingException what end.

Definition safe {I A} (wf : I → Prop) (m : st I A) (P : A → Prop) : Prop :=
  ∀ i, wf i → ∃ r i', m i = (r, i') ∧ wf i' ∧ streaming_error P r.

Section safe.
Context {I : Type} (wf : I → Prop).

Lemma safe_ret {A} (a : A) (P : A → Prop) : P a → safe wf (mret a) P.
Proof. intros Ha i Hi. by exists (Ok a), i. Qed.
Lemma safe_throw {A} what (P : A → Prop) : safe wf (throw (StreamingException what)) P.
Proof. intros i Hi. exists (Throw (StreamingException what)), i. split_and!; [done|done|]. by exists what. Qed.
Lemma safe_gets {A} (f : I → A) (P : A → Prop) : (∀ i, wf i → P (f i)) → safe wf (gets f) P.
Proof. intros Hf i Hi. exists (Ok (f i)), i. split_and!; [done|done|by apply Hf]. Qed.
Lemma safe_bind {A C} (m : st I A) (f : A → st I C) P Q :
  safe wf m P → (∀ a, P a → safe wf (f a) Q) → safe wf (m ≫= f) Q.
Proof.
  intros Hm Hf i Hi. destruct (Hm i Hi) as (r & i1 & E & Hi1 & Hr). destruct r as [a|e].
  - destruct (Hf a Hr i1 Hi1) as (r & i2 & E2 & Hi2 & Hr2). exists r, i2. by st_step E.
  - exists (Throw e), i1. by rewrite (bind_throw _ _ _ _ _ E).
Qed.
Lemma safe_fmap {A C} (f : A → C) (m : st I A) (P : C → Prop) : safe wf m (λ a, P (f a)) → safe wf (f <$> m) P.
Proof.
  intros Hm i Hi. destruct (Hm i Hi) as (r & i' & E & Hi' & Hr). unfold fmap, st_fmap.
  rewrite E. by destruct r; do 2 eexists.
Qed.
Lemma safe_weaken {A} (m : st I A) (P Q : A → Prop) : safe wf m P → (∀ a, P a → Q a) → safe wf m Q.
Proof.
  intros Hm Hpq i Hi. destruct (Hm i Hi) as (r & i' & E & Hi' & Hr). exists r, i'. split_and!; [done|done|].
  destruct r; [by apply Hpq|done].
Qed.
End safe.

(** The type a read of bits is done in. *)
Definition read_width (t : prim) : Z := match t with PU64 | PS64 => 64 | _ => 32 end.
(** The number of bits for which the mask of a read is defined. *)
Definition mask_defined (W n : Z) : Prop := n ≤ 30 ∨ W ≤ n.
#[global] Instance mask_defined_dec W n : Decision (mask_defined W n).
Proof. unfold mask_defined. apply _. Defined.

Definition text_of (maxLength : nat) (s : list Z) : Prop := (length s ≤ maxLength)%nat ∧ Forall is_byte s.

(** What a stream promises about the bytes it is given. *)
Class SafeIStream (I : Type) `{IStream I} := {
  is_wf : I → Prop;
  safe_read t n : mask_defined (read_width t) n → safe is_wf (is_read t n) (prim_ok t);
  safe_readEnum init n : mask_defined 64 n → 0 < n ≤ 64 → safe is_wf (is_readEnum init n) (is_uint 64);
  safe_readString m n : n = 8 ∨ n = 16 → safe is_wf (is_readString m n) (text_of m);
  safe_readWString m n : n = 8 ∨ n = 16 → safe is_wf (is_readWString m n) (λ s, length s ≤ m)%nat;
}.

(** ** Bit streams *)

Section bits.
Context {B : Type} `{HB : StreamBufferSpec B}.

Definition bit_wf (i : IBitStream B) : Prop := ∃ pos bs, ib_repr (ib_shouldUseUtf8ForString i) i pos bs.

Lemma bit_wf_intro utf8 i pos bs : ib_repr utf8 i pos bs → bit_wf i.
Proof. intros Hi. exists pos, bs. by rewrite (ir_utf8 _ _ _ _ Hi). Qed.

(** A stream on any bytes. *)
Lemma bit_wf_new b utf8 : sb_wf b → Forall is_byte (sb_contents b) → bit_wf (newIBitStream b utf8).
Proof.
  intros Hwf Hb. exists 0%nat, (bits_of_bytes (sb_contents b)). split; try done.
  - cbn. by rewrite length_bits_of_bytes.
  - cbn. by rewrite Z.div_1_r, le_combine_bits.
Qed.

Lemma readBits_safe W n : 8 ≤ W → mask_defined W n → safe bit_wf (readBitsImpl W n) (is_uint W).
Proof.
  intros HW Hm i (pos & bs & Hi). set (utf8 := ib_shouldUseUtf8ForString i) in *.
  destruct (isEnoughBits W n) eqn:En.
  2: { exists (Throw (StreamingException "invalid bitCount")), i. unfold readBitsImpl. rewrite En. split_and!; [done|by eapply bit_wf_intro|by eexists]. }
  apply isEnoughBits_true in En. destruct (decide (Z.to_nat n ≤ length bs)%nat) as [Hl|Hl].
  - rewrite <- (take_drop (Z.to_nat n) bs) in Hi.
    assert (Hv : length (take (Z.to_nat n) bs) = Z.to_nat n) by (by rewrite length_take_le).
    destruct (readBits_ok utf8 W n i pos (take (Z.to_nat n) bs) (drop (Z.to_nat n) bs)) as (i' & E & Hi'); try done.
    { unfold mask_defined in Hm. lia. } { rewrite Hv. lia. }
    exists (Ok (Z_of_bits (take (Z.to_nat n) bs))), i'. split_and!; [done|by eapply bit_wf_intro|]. cbn.
    apply (is_uint_mono n); [lia|]. pose proof (Z_of_bits_range (take (Z.to_nat n) bs)) as Hr.
    by rewrite Hv, Z2Nat.id in Hr by lia.
  - exists (Throw (StreamingException "buffer is not enough")), i. split_and!; [|by eapply bit_wf_intro|by eexists].
    destruct Hi as [Hwf Hby _ Hc Hlen _]. unfold readBitsImpl. rewrite (proj2 (isEnoughBits_true W n) En). cbn [negb].
    rewrite (bind_ok _ _ _ _ _ (gets_run _ _)), (bind_ok _ _ _ _ _ (gets_run _ _)), sb_size_ok, Hc by done.
    change CHAR_BIT with 8. rewrite (proj2 (Z.ltb_lt _ _)); [done|]. unfold toBytes. change CHAR_BIT with 8.
    assert (Hr : (pos mod 8 < 8)%nat) by (apply Nat.mod_upper_bound; lia).
    destruct (Z.ltb_spec (n - (8 - Z.of_nat (pos mod 8))) 0); [lia|].
    set (q := (n - (8 - Z.of_nat (pos mod 8)) + (8 - 1)) / 8).
    assert (n - (8 - Z.of_nat (pos mod 8)) < 8 * q + 1) by (subst q; lia). lia.
Qed.

(** Between two bytes. *)
Definition at_byte (i : IBitStream B) : Prop :=
  ib_bitReadCount i = 0 ∧ sb_wf (ib_streamBuffer i) ∧ Forall is_byte (sb_contents (ib_streamBuffer i)).

Lemma at_byte_wf i : at_byte i → bit_wf i.
Proof. destruct i as [b u r]. intros (Hr & Hwf & Hb). cbn in Hr. subst r. by apply bit_wf_new. Qed.

Lemma align_safe i : bit_wf i → ∃ i', ib_align i = (Ok tt, i') ∧ at_byte i'.
Proof.
  intros (pos & bs & Hi). set (utf8 := ib_shouldUseUtf8ForString i) in *.
  assert (Hl : (pad_bits pos ≤ length bs)%nat) by (destruct Hi as [_ _ _ _ Hlen _]; unfold pad_bits; lia).
  rewrite <- (take_drop (pad_bits pos) bs) in Hi.
  destruct (ib_align_ok utf8 i pos _ _ ltac:(by rewrite length_take_le) Hi) as (i' & E & Hi').
  exists i'. split; [done|]. destruct Hi' as [Hwf Hb _ Hc _ _]. split_and!; [|done|done].
  rewrite Hc, length_take_le by done. unfold pad_bits. lia.
Qed.

Lemma readBuffer_safe len : safe bit_wf (ib_readBuffer len) (λ l, length l = len ∧ Forall is_byte l).
Proof.
  intros i Hi. destruct (align_safe i Hi) as (i1 & E1 & Hi1). pose proof Hi1 as (Hr & Hwf & Hb). unfold ib_readBuffer. st_step E1.
  destruct i1 as [b u r]. cbn [ib_streamBuffer ib_bitReadCount] in *. destruct (decide (len ≤ length (sb_contents b))%nat) as [Hl|Hl].
  - destruct (sb_copyTo_ok b len Hwf Hl) as (b' & E & Hwf' & Hc'). do 2 eexists. rewrite (ib_buf_run _ b u r _ _ E).
    split_and!; [done| |split; [by rewrite length_take_le|by apply Forall_take]].
    apply at_byte_wf. split_and!; [done|done|]. cbn. rewrite Hc'. by apply Forall_drop.
  - destruct (sb_copyTo_short b len Hwf ltac:(lia)) as (what & E). do 2 eexists. rewrite (ib_buf_run _ b u r _ _ E).
    split_and!; [done|by apply at_byte_wf|by eexists].
Qed.

Lemma readNumeric_safe t n : t ∈ [PU32; PU16; PU8; PFloat32] → mask_defined 32 n → safe bit_wf (BitStream.readNumeric t n) (prim_ok t).
Proof.
  intros Ht Hn. unfold BitStream.readNumeric. eapply safe_bind; [by apply readBits_safe|]. intros v _. apply safe_ret.
  set_unfold in Ht. destruct Ht as [->|[->|[->|[->|[]]]]]; by apply uint_range.
Qed.
Lemma readSigned_safe W t n : 8 ≤ W → mask_defined W n → 0 < bits_size t ≤ W → (bits_size t ≤ 30 ∨ bits_size t = W) →
  safe bit_wf (readSigned W (bits_size t) n) (is_sint (bits_size t)).
Proof.
  intros HW Hn Hs Hm. unfold readSigned. eapply safe_bind; [by apply readBits_safe|]. intros v _.
  destruct (Z.ltb_spec n (bits_size t)); [|apply safe_ret, sint_range; lia].
  destruct (int_mask_some (bits_size t) n) as [mask ->]; [unfold mask_defined in Hn; lia|]. apply safe_ret, sint_range; lia.
Qed.

Lemma ib_read_safe t n : mask_defined (read_width t) n → safe bit_wf (ib_read t n) (prim_ok t).
Proof.
  intros Hn. destruct t; cbn [ib_read read_width] in *; try (apply readNumeric_safe; [set_solver|done]).
  - by apply (readBits_safe 64).
  - apply (readSigned_safe 64 PS64); first [done|by right|unfold bits_size, sizeof, CHAR_BIT; lia].
  - apply (readSigned_safe 32 PS32); first [done|by right|unfold bits_size, sizeof, CHAR_BIT; lia].
  - apply (readSigned_safe 32 PS16); first [done|by left|unfold bits_size, sizeof, CHAR_BIT; lia].
  - apply (readSigned_safe 32 PS8); first [done|by left|unfold bits_size, sizeof, CHAR_BIT; lia].
  - eapply safe_bind; [by apply readNumeric_safe; [set_solver|]|]. intros v _. apply safe_ret. by destruct (_ =? _).
Qed.

Lemma readLength_safe n : n = 8 ∨ n = 16 → safe bit_wf (ib_read PU32 n) (is_uint 32).
Proof. intros Hn. apply (ib_read_safe PU32). unfold mask_defined. lia. Qed.

Lemma ib_readString_safe m n : n = 8 ∨ n = 16 → safe bit_wf (ib_readString m n) (text_of m).
Proof.
  intros Hn. unfold ib_readString. eapply safe_bind; [by apply readLength_safe|]. intros len _.
  destruct (0 <? len); [|apply safe_ret; split; [cbn; lia|done]]. eapply safe_bind; [apply readBuffer_safe|].
  intros l [Hl Hb]. apply safe_ret. split; [rewrite length_take; lia|]. apply Forall_take, Forall_app. split; [done|].
  by apply Forall_replicate.
Qed.
Lemma ib_readWString_safe m n : n = 8 ∨ n = 16 → safe bit_wf (ib_readWString m n) (λ s, length s ≤ m)%nat.
Proof.
  intros Hn. unfold ib_readWString. eapply safe_bind; [by apply readLength_safe|]. intros len _.
  destruct (0 <? len); [|apply safe_ret; cbn; lia]. apply (safe_bind _ _ _ (λ _, True)); [by apply safe_gets|]. intros utf8 _.
  apply (safe_bind _ _ _ (λ _, True)).
  - destruct utf8; (eapply safe_bind; [apply readBuffer_safe|]); intros; by apply safe_ret.
  - intros s _. apply safe_ret. rewrite length_take. lia.
Qed.

#[export] Instance IBitStream_safe : SafeIStream (IBitStream B) := {|
  is_wf := bit_wf;
  safe_read := ib_read_safe;
  safe_readEnum _ n Hm _ := readBits_safe 64 n ltac:(done) Hm;
  safe_readString := ib_readString_safe;
  safe_readWString := ib_readWString_safe;
|}.
End bits.

(** ** Byte streams *)

Section bytes.
Context {B : Type} `{HB : StreamBufferSpec B} (be : bool).

Definition byte_wf (i : IByteStream B) : Prop := sb_wf (by_streamBuffer i) ∧ Forall is_byte (sb_contents (by_streamBuffer i)).

Lemma readBytes_safe n : safe byte_wf (readBytes n) (λ l, length l = n ∧ Forall is_byte l).
Proof.
  intros i [Hwf Hb]. unfold readBytes. case_decide as Hn.
  - destruct (decide (n ≤ length (sb_contents (by_streamBuffer i)))%nat) as [Hl|Hl].
    + destruct (sb_copyTo_ok _ n Hwf Hl) as (b' & E & Hwf' & Hc'). do 2 eexists. rewrite (by_buf_run _ _ _ _ E).
      split_and!; [done| |split; [by rewrite length_take_le|by apply Forall_take]].
      split; [done|]. cbn. rewrite Hc'. by apply Forall_drop.
    + destruct (sb_copyTo_short _ n Hwf ltac:(lia)) as (what & E). do 2 eexists. rewrite (by_buf_run _ _ _ _ E).
      split_and!; [done|by split|by eexists].
  - exists (Ok []), i. split_and!; [done|by split|]. cbn. split; [lia|done].
Qed.
Lemma readByte_safe : safe byte_wf readByte is_byte.
Proof.
  intros i [Hwf Hb]. unfold readByte. rewrite (bind_ok _ _ i _ i (gets_run _ i)), sb_empty_ok by done.
  destruct (sb_contents (by_streamBuffer i)) as [|x l] eqn:Hc.
  - rewrite bool_decide_true by done. do 2 eexists. split_and!; [done| |by eexists]. split; [done|]. by rewrite Hc.
  - rewrite bool_decide_false by done. apply Forall_cons in Hb as [Hx Hl].
    destruct (sb_pop_ok _ x l Hwf Hc) as (b' & E & Hwf' & Hc').
    st_step (by_buf_run _ i _ _ (sb_front_ok _ x l Hwf Hc)).
    st_step (by_buf_run sb_pop (Build_ByteStream _ (by_shouldUseUtf8ForString i)) _ _ E).
    exists (Ok x). eexists. split_and!; [done| |done]. split; [done|]. cbn. by rewrite Hc'.
Qed.
Lemma number_safe size : safe byte_wf (ByteStream.readNumeric be size) (λ _, True).
Proof. unfold ByteStream.readNumeric. eapply safe_bind; [apply readBytes_safe|]. intros l _. by apply safe_ret. Qed.

Lemma prim_of_typed t z : prim_ok t (prim_of t z).
Proof.
  destruct t; cbn [prim_of prim_ok]; try (by apply uint_range); try (by apply sint_range). by destruct (z =? 0).
Qed.
Lemma iby_read_safe t n : safe byte_wf (iby_read be t n) (prim_ok t).
Proof.
  destruct t; cbn [iby_read];
    first [eapply safe_bind; [apply number_safe|]|eapply safe_bind; [apply readByte_safe|]]; intros v _; apply safe_ret, prim_of_typed.
Qed.

Lemma iby_readEnum_safe init n : 0 < n ≤ 64 → safe byte_wf (iby_readEnum be init n) (is_uint 64).
Proof.
  intros Hn. unfold iby_readEnum. rewrite quot_toBytes by lia.
  assert (Hk : (Z.to_nat (toBytes n) ≤ 8)%nat).
  { unfold toBytes. change CHAR_BIT with 8. destruct (Z.ltb_spec n 0); lia. }
  rewrite decide_False by lia. eapply safe_bind; [apply readBytes_safe|]. intros l [Hl Hb]. apply safe_ret.
  set (mem := l ++ _). assert (length mem = 8%nat ∧ Forall is_byte mem) as [Hm1 Hm2].
  { unfold mem, memory. split.
    - rewrite length_app, length_drop, Hl. destruct be; rewrite ?length_rev, length_le_split; lia.
    - apply Forall_app. split; [done|]. apply Forall_drop. destruct be; [apply Forall_rev|]; apply le_split_bytes. }
  destruct be; [pose proof (le_combine_range (rev mem)) as Hr; rewrite length_rev in Hr|pose proof (le_combine_range mem) as Hr];
    rewrite Hm1 in Hr; apply Hr; [by apply Forall_rev|done].
Qed.

Lemma readStringSize_safe n : safe byte_wf (readStringSize be n) (λ _, True).
Proof.
  unfold readStringSize. destruct (n =? 8); [by eapply safe_weaken; [apply readByte_safe|]|].
  eapply safe_bind; [apply number_safe|]. intros v _. by apply safe_ret.
Qed.
Lemma iby_readString_safe m n : n = 8 ∨ n = 16 → safe byte_wf (iby_readString be m n) (text_of m).
Proof.
  intros _. unfold iby_readString. eapply safe_bind; [apply readStringSize_safe|]. intros size _.
  destruct (0 <? size); [|apply safe_ret; split; [cbn; lia|done]]. eapply safe_bind; [apply readBytes_safe|].
  intros l [Hl Hb]. apply safe_ret. split; [rewrite length_take; lia|by apply Forall_take].
Qed.
Lemma read_wchars_safe n : safe byte_wf (read_wchars be n) (λ _, True).
Proof.
  induction n as [|n IH]; [by apply safe_ret|]. cbn [read_wchars]. eapply safe_bind; [apply number_safe|]. intros c _.
  eapply safe_bind; [apply IH|]. intros l _. by apply safe_ret.
Qed.
Lemma iby_readWString_safe m n : n = 8 ∨ n = 16 → safe byte_wf (iby_readWString be m n) (λ s, length s ≤ m)%nat.
Proof.
  intros _. unfold iby_readWString. eapply safe_bind; [apply readStringSize_safe|]. intros size _.
  destruct (0 <? size); [|apply safe_ret; cbn; lia]. apply (safe_bind _ _ _ (λ _, True)); [by apply safe_gets|]. intros utf8 _.
  apply (safe_bind _ _ _ (λ _, True)).
  - destruct utf8; [|apply read_wchars_safe]. eapply safe_bind; [apply readBytes_safe|]. intros. by apply safe_ret.
  - intros s _. apply safe_ret. rewrite length_take. lia.
Qed.
End bytes.

#[export] Instance IByteStream_safe {B} `{StreamBufferSpec B} : SafeIStream (IByteStream B) := {|
  is_wf := byte_wf;
  safe_read t n _ := iby_read_safe false t n;
  safe_readEnum init n _ Hn := iby_readEnum_safe false init n Hn;
  safe_readString := iby_readString_safe false;
  safe_readWString := iby_readWString_safe false;
|}.

(** ** What a factory makes *)

Section any.
Context {B : Type} `{HB : StreamBufferSpec B}.

Definition any_wf (s : AnyIStream B) : Prop := match s with IBit i => is_wf i | IByte i => is_wf i end.

Lemma virtual_safe {A} (m1 : st (IBitStream B) A) (m2 : st (IByteStream B) A) P : safe is_wf m1 P → safe is_wf m2 P →
  safe any_wf (ivirtual m1 m2) P.
Proof.
  intros H1 H2 [i|i] Hi; cbn [ivirtual].
  - destruct (H1 i Hi) as (r & i' & -> & Hi' & Hr). by exists r, (IBit i').
  - destruct (H2 i Hi) as (r & i' & -> & Hi' & Hr). by exists r, (IByte i').
Qed.

#[export] Instance AnyIStream_safe : SafeIStream (AnyIStream B) := {|
  is_wf := any_wf;
  safe_read t n Hn := virtual_safe _ _ _ (safe_read t n Hn) (safe_read t n Hn);
  safe_readEnum init n Hm Hn := virtual_safe _ _ _ (safe_readEnum init n Hm Hn) (safe_readEnum init n Hm Hn);
  safe_readString m n Hn := virtual_safe _ _ _ (safe_readString m n Hn) (safe_readString m n Hn);
  safe_readWString m n Hn := virtual_safe _ _ _ (safe_readWString m n Hn) (safe_readWString m n Hn);
|}.

Lemma createIStream_wf f (b : B) : sb_wf b → Forall is_byte (sb_contents b) → is_wf (createIStream f b).
Proof. intros Hwf Hb. unfold createIStream. destruct (useBitPacking_ f); [by apply bit_wf_new|by split]. Qed.
End any.

(** ** [operator&] and the containers *)

(** A value of its type. *)
Definition typed (x : value) : Prop :=
  match x with
  | VNum t v => prim_ok t v
  | VEnum n v => is_uint n v
  | VString s => text_of USHRT_MAX s
  | VWString s => (length s ≤ USHRT_MAX)%nat
  end.
(** An enum whose size the bit reader can mask. *)
Definition readable (x : value) : Prop := match x with VEnum n _ => mask_defined 64 n ∧ 0 < n ≤ 64 | _ => True end.
#[global] Instance readable_dec x : Decision (readable x).
Proof. destruct x; unfold readable; apply _. Defined.

Section built.
Context {Ist : Type} `{HS : SafeIStream Ist}.

Lemma get_safe t : safe is_wf (get t) (prim_ok t).
Proof. apply safe_read. unfold mask_defined. destruct t; vm_compute; first [by left|by right]. Qed.

Lemma in_value_safe x : readable x → safe is_wf (in_value x) (λ y, same_type y x ∧ typed y).
Proof.
  destruct x as [t v|n v|s|s]; cbn [in_value readable]; intros Hx; apply safe_fmap.
  - eapply safe_weaken; [apply get_safe|]. by intros v' Hv.
  - destruct Hx as [Hm Hn]. unfold getEnum. eapply safe_bind; [by apply safe_readEnum|]. intros r _.
    apply safe_ret. split; [done|]. apply uint_range. lia.
  - eapply safe_weaken; [apply safe_readString; by right|]. by intros s' Hs.
  - eapply safe_weaken; [apply safe_readWString; by right|]. by intros s' Hs.
Qed.

(** A [Stream] for input. *)
Definition input_wf {Ost} (s : Stream Ost Ist) : Prop := match s with InStream i => is_wf i | OutStream _ => False end.

Lemma amp_safe {Ost} `{OStream Ost} x : readable x → safe (input_wf (Ost := Ost)) (amp x) (λ y, same_type y x ∧ typed y).
Proof.
  intros Hx [o|i] Hi; [done|]. destruct (in_value_safe x Hx i Hi) as (r & i' & E & Hi' & Hr).
  exists r, (InStream i'). unfold amp. by rewrite E.
Qed.
Lemma serialize_safe {Ost} `{OStream Ost} xs : Forall readable xs →
  safe (input_wf (Ost := Ost)) (serialize xs) (λ ys, Forall2 same_type ys xs ∧ Forall typed ys).
Proof.
  induction 1 as [|x xs Hx _ IH]; [by apply safe_ret|]. cbn [serialize]. eapply safe_bind; [by apply amp_safe|].
  intros y [Hy1 Hy2]. eapply safe_bind; [apply IH|]. intros ys [Hs1 Hs2]. apply safe_ret. split; by constructor.
Qed.

Lemma read_elements_safe {A C} (get_elt : st Ist A) insert (P : A → Prop) (Q : nat → C → Prop) n k c :
  safe is_wf get_elt P → (∀ k x c, P x → Q k c → Q (S k) (insert x c)) → Q k c →
  safe is_wf (read_elements get_elt insert n c) (Q (k + n)%nat).
Proof.
  intros Hg Hi. revert k c. induction n as [|n IH]; intros k c Hc; cbn [read_elements].
  - apply safe_ret. by rewrite Nat.add_0_r.
  - eapply safe_bind; [exact Hg|]. intros x Hx. rewrite Nat.add_succ_r. apply (IH (S k)). by apply Hi.
Qed.
Lemma RpcContainer_safe {A} (get_elt : st Ist A) (P : A → Prop) sizeBits : (sizeBits = 8 ∨ sizeBits = 16)%nat →
  safe is_wf get_elt P →
  safe is_wf (RpcContainer_read get_elt sizeBits) (λ l, Forall P l ∧ Z.of_nat (length l) ≤ MaxNumber sizeBits).
Proof.
  intros Hs Hg. unfold RpcContainer_read, container_read. eapply safe_bind.
  { apply (safe_read PU16). unfold mask_defined. lia. }
  intros size Hsize. destruct (Z.ltb_spec (MaxNumber sizeBits) size); [apply safe_throw|].
  eapply safe_weaken.
  - apply (read_elements_safe get_elt push_back P (λ k l, Forall P l ∧ length l = k) _ 0 []); [done| |done].
    intros k x l Hx [Hl Hk]. unfold push_back. split; [by apply Forall_app; split; [|constructor]|rewrite length_app; cbn; lia].
  - intros l [Hl Hk]. split; [done|]. assert (0 ≤ size) by (cbn in Hsize; unfold is_uint in Hsize; lia). lia.
Qed.
End built.
