(* ===== verification/Srpc.v ===== *)
(** * srpc: the dispatch of remote calls

    Models [src/srpc] ([RpcCommand.cpp], [RpcForwarder.cpp], [RpcNetwork.cpp],
    [RpcReceiver.cpp]) and the functors and events they use
    ([src/include/sne/srpc/detail/]: [ForwardingFunctors.h],
    [ReceivingFunctors.h], [RpcEvent.h], [RpcId.h], [RpcReceiverDetail.h],
    [RpcForwarderDetail.h]), over any pair of streams.  The types of the
    parameters of a method are codes ([rpc_type]) with the values they stand for,
    so that a list of parameters is a heterogeneous tuple as in the templates.
    The body of a method is a parameter. *)

From S2P Require Import Prelude BitList Bits Unicode Stream RpcTypes.

(** ** The parameters of a method *)

(** The RPC types: [RpcNumericType], [RpcStringType] (bytes and wide), the sequence
    containers, the maps and sets with a numeric key, [RArray], and the struct
    whose [serialize] passes its members in order. *)
Inductive rpc_type :=
| TNum (native streaming : prim) (bits : Z)
| TString (maxLength : nat) (sizeBits : Z)
| TWString (maxLength : nat) (sizeBits : Z)
| TSeq (t : rpc_type) (sizeBits : nat)
| TArray (t : rpc_type) (N : nat)
| TMap (native streaming : prim) (bits : Z) (t : rpc_type) (sizeBits : nat)
| TUnit
| TPair (t u : rpc_type).

(** A map is the list of its entries in the order of its keys. *)
Fixpoint denote (t : rpc_type) : Type :=
  match t with
  | TNum _ _ _ => Z
  | TString _ _ | TWString _ _ => list Z
  | TSeq t _ | TArray t _ => list (denote t)
  | TMap _ _ _ t _ => list (Z * denote t)
  | TUnit => unit
  | TPair t u => denote t * denote u
  end.

(** The parameters of a method, as the functors hold them ([p1_], [p2_], ...). *)
Fixpoint denotes (ts : list rpc_type) : Type :=
  match ts with
  | [] => unit
  | t :: ts => denote t * denotes ts
  end.

Section functors.
Context {Ost Ist : Type} `{OStream Ost, IStream Ist}.

(** [ostream << p] and [istream >> p] of an RPC type. *)
Fixpoint rpc_write (t : rpc_type) : denote t → st Ost unit :=
  match t with
  | TNum _ streaming bits => RpcNumericType_write streaming bits
  | TString m n => RpcStringType_write m n
  | TWString m n => RpcWStringType_write m n
  | TSeq t n => RpcContainer_write (rpc_write t) n
  | TArray t _ => RArray_write (rpc_write t)
  | TMap _ streaming bits t n =>
      RBaseMap_write (RpcNumericType_write streaming bits) (rpc_write t) n
  | TUnit => λ _, mret tt
  | TPair t u => λ p, rpc_write t p.1 ;; rpc_write u p.2
  end.

Fixpoint rpc_read (t : rpc_type) : st Ist (denote t) :=
  match t with
  | TNum native streaming bits => RpcNumericType_read native streaming bits
  | TString m n => RpcStringType_read m n
  | TWString m n => RpcWStringType_read m n
  | TSeq t n => RpcContainer_read (rpc_read t) n
  | TArray t N => RArray_read (rpc_read t) N
  | TMap native streaming bits t n =>
      RBaseMap_read (RpcNumericType_read native streaming bits) (rpc_read t) n
        (ord_insert fst Z.ltb) []
  | TUnit => mret tt
  | TPair t u => x ← rpc_read t; y ← rpc_read u; mret (x, y)
  end.

(** [ForwardingFunctorT::marshal], of every number of parameters. *)
Fixpoint functor_marshal (ts : list rpc_type) : denotes ts → st Ost unit :=
  match ts with
  | [] => λ _, mret tt
  | t :: ts => λ ps, rpc_write t ps.1 ;; functor_marshal ts ps.2
  end.

(** [ReceivingFunctorT::unmarshal]: the parameters [call] passes on. *)
Fixpoint functor_unmarshal (ts : list rpc_type) : st Ist (denotes ts) :=
  match ts with
  | [] => mret tt
  | t :: ts => p ← rpc_read t; ps ← functor_unmarshal ts; mret (p, ps)
  end.
End functors.

(** [getRpcId_<method>]: the hash of "interface_method_paramCount". *)
Definition underscore : Z := 95.
Definition RRpcId (interface method paramCount : list Z) : Z :=
  hash (interface ++ [underscore] ++ method ++ [underscore] ++ paramCount).

(** ** [RpcCommand] *)

Record RpcCommand := mkCommand {
  cmd_rpcId : Z;
  cmd_params : list rpc_type;
  cmd_marshaler : denotes cmd_params;
}.

Inductive RpcPacketType := ptUnknown | ptReliable | ptUnreliable.
Definition isReliable (t : RpcPacketType) : bool :=
  match t with ptReliable => true | _ => false end.
Definition isUnreliable (t : RpcPacketType) : bool :=
  match t with ptUnreliable => true | _ => false end.

Definition command_marshal `{OStream Ost} (c : RpcCommand) : st Ost unit :=
  os_write PU32 (cmd_rpcId c) 32 ;;
  functor_marshal (cmd_params c) (cmd_marshaler c) ;;
  os_align.

(** ** [RpcForwarder] *)

(** What an [RpcNetwork] does with a command. *)
Class RpcSender (N : Type) := {
  net_send : RpcCommand → RpcPacketType → Z → st N unit;
}.

(** [rpcNetwork_], and the calls of [onForwarding] made so far. *)
Record RpcForwarder := mkForwarder { fw_network : bool; fw_forwarded : list Z }.

Section forwarder.
Context {N : Type} `{RpcSender N}.

Definition setForwarderNetwork (f : RpcForwarder) : RpcForwarder := mkForwarder true (fw_forwarded f).
Definition resetForwarderNetwork (f : RpcForwarder) : RpcForwarder := mkForwarder false (fw_forwarded f).

Definition forward (command : RpcCommand) (packetType : RpcPacketType) (rpcHint : Z)
  : st (RpcForwarder * N) unit :=
  modify (λ s, (mkForwarder (fw_network s.1) (fw_forwarded s.1 ++ [cmd_rpcId command]), s.2)) ;;
  net ← gets (λ s, fw_network s.1);
  if (net : bool) then zoom snd (λ n s, (s.1, n)) (net_send command packetType rpcHint)
  else mret tt.

(** The body a [FORWARD_SRPC_METHOD] macro gives to a method. *)
Definition forward_method (rpcId : Z) (ts : list rpc_type) (ps : denotes ts)
  (packetType : RpcPacketType) (rpcHint : Z) : st (RpcForwarder * N) unit :=
  forward (mkCommand rpcId ts ps) packetType rpcHint.
End forwarder.

(** ** [RpcReceiver] and [RpcNetwork] *)

(** An event: its id and the types of its functor. *)
Record RpcEvent := mkEvent { ev_rpcId : Z; ev_params : list rpc_type }.

Abbreviation RpcEvents := (gmap Z RpcEvent).

(** [emplace] keeps the event that is there (a debug build asserts there is none). *)
Definition eventmap_insert (rpcId : Z) (ev : RpcEvent) (m : RpcEvents) : RpcEvents :=
  match m !! rpcId with Some _ => m | None => <[rpcId := ev]> m end.

Record RpcReceiver := mkReceiver {
  rr_network : bool;                       (* [rpcNetwork_] is set *)
  rr_eventMap : RpcEvents;
  rr_defaults : RpcEvents;                 (* [getDefaultEventMap] *)
}.

Definition newReceiver (defaults : RpcEvents) : RpcReceiver := mkReceiver false ∅ defaults.
Definition event_register (rpcId : Z) (ev : RpcEvent) (r : RpcReceiver) : RpcReceiver :=
  mkReceiver (rr_network r) (rr_eventMap r) (eventmap_insert rpcId ev (rr_defaults r)).

Definition lookupEvent (rpcId : Z) (r : RpcReceiver) : option RpcEvent := rr_eventMap r !! rpcId.
Definition shouldCloneRpcEvents (r : RpcReceiver) : bool := bool_decide (rr_eventMap r = ∅).
Definition cloneRpcEvents (r : RpcReceiver) : RpcReceiver :=
  mkReceiver (rr_network r)
    (foldl (λ m kv, eventmap_insert kv.1 kv.2 m) (rr_eventMap r) (map_to_list (rr_defaults r)))
    (rr_defaults r).

(** What the receivers did: the hook [onReceiving], a method called with the
    parameters of its types. *)
Inductive rpc_call :=
| OnReceiving (r : nat) (rpcId : Z)
| CallMethod (r : nat) (rpcId : Z) (rpcHint : Z) (ts : list rpc_type) (ps : denotes ts).

(** The receivers by their address, the vector [receivers_] of the network, the
    calls made and the application around them. *)
Record RpcWorld (A : Type) := mkRpcWorld {
  receivers : gmap nat RpcReceiver;
  receivers_ : list nat;
  rpc_calls : list rpc_call;
  rpc_app : A;
}.
Arguments mkRpcWorld {A} _ _ _ _.
Arguments receivers {A} _.
Arguments receivers_ {A} _.
Arguments rpc_calls {A} _.
Arguments rpc_app {A} _.

Section network.
Context {Ist A : Type} `{IStream Ist}.
(** The body of a method of a receiver. *)
Context (method : nat → Z → Z → ∀ ts, denotes ts → st A unit).

#[local] Abbreviation world := (RpcWorld A).
#[local] Abbreviation rpc := (st (Ist * world)).

Definition on_receiver (r : nat) (f : RpcReceiver → RpcReceiver) (w : world) : world :=
  mkRpcWorld (alter f r (receivers w)) (receivers_ w) (rpc_calls w) (rpc_app w).
Definition on_receivers (f : list nat → list nat) (w : world) : world :=
  mkRpcWorld (receivers w) (f (receivers_ w)) (rpc_calls w) (rpc_app w).
Definition log_rpc (c : rpc_call) (w : world) : world :=
  mkRpcWorld (receivers w) (receivers_ w) (rpc_calls w ++ [c]) (rpc_app w).
Definition set_rpc_app (a : A) (w : world) : world :=
  mkRpcWorld (receivers w) (receivers_ w) (rpc_calls w) a.

Definition registerRpcReceiver (r : nat) (w : world) : world :=
  on_receivers (λ l, l ++ [r]) w.

(** [erase] at the place [std::find] tells. *)
Fixpoint erase_first (r : nat) (l : list nat) : list nat :=
  match l with
  | [] => []
  | x :: l => if decide (x = r) then l else x :: erase_first r l
  end.
Definition unregisterRpcReceiver (r : nat) (w : world) : world :=
  on_receivers (erase_first r) w.

Definition set_rr_network (b : bool) (r : RpcReceiver) : RpcReceiver :=
  mkReceiver b (rr_eventMap r) (rr_defaults r).

(** [setRpcNetwork], of this network, and [resetRpcNetwork]. *)
Definition setRpcNetwork (r : nat) (w : world) : world :=
  registerRpcReceiver r (on_receiver r (set_rr_network true) w).
Definition resetRpcNetwork (r : nat) (w : world) : world :=
  if from_option rr_network false (receivers w !! r) then
    on_receiver r (set_rr_network false) (unregisterRpcReceiver r w)
  else w.

Definition on_istream {B} (m : st Ist B) : rpc B := zoom fst (λ i s, (i, s.2)) m.
Definition on_rpc (f : world → world) : rpc unit := modify (λ s, (s.1, f s.2)).

(** [RpcEvent::dispatch] *)
Definition event_dispatch (r : nat) (ev : RpcEvent) (rpcHint : Z) : rpc unit :=
  ps ← on_istream (functor_unmarshal (ev_params ev));
  on_rpc (log_rpc (CallMethod r (ev_rpcId ev) rpcHint (ev_params ev) ps)) ;;
  zoom (λ s, rpc_app s.2) (λ a s, (s.1, set_rpc_app a s.2))
    (method r (ev_rpcId ev) rpcHint (ev_params ev) ps).

Definition handleEvent (r : nat) (ev : RpcEvent) (rpcHint : Z) : rpc bool :=
  on_rpc (log_rpc (OnReceiving r (ev_rpcId ev))) ;;
  event_dispatch r ev rpcHint ;;
  on_istream is_align ;;
  mret true.

(** [RpcReceiver::handle]; a pointer to no receiver is not followed. *)
Definition handle (r : nat) (rpcId : Z) (rpcHint : Z) : rpc bool :=
  x ← gets (λ s, receivers s.2 !! r);
  match x with
  | None => throw (Undefined "a receiver that was deleted")
  | Some x =>
      (if shouldCloneRpcEvents x then on_rpc (on_receiver r cloneRpcEvents) else mret tt) ;;
      ev ← gets (λ s, receivers s.2 !! r ≫= lookupEvent rpcId);
      match ev with
      | None => mret false
      | Some ev => handleEvent r ev rpcHint
      end
  end.

(** [RpcNetwork::handleMessage] *)
Fixpoint handle_receivers (l : list nat) (rpcId : Z) (rpcHint : Z) : rpc bool :=
  match l with
  | [] => mret false
  | r :: l =>
      ok ← handle r rpcId rpcHint;
      if (ok : bool) then mret true else handle_receivers l rpcId rpcHint
  end.
Definition handleMessage (rpcId : Z) (rpcHint : Z) : rpc bool :=
  l ← gets (λ s, receivers_ s.2); handle_receivers l rpcId rpcHint.

Definition onReceive (rpcHint : Z) : rpc unit :=
  rpcId ← on_istream (is_read PU32 32);
  ok ← handleMessage rpcId rpcHint;
  if (ok : bool) then mret tt else throw UnknownRpcMethodException.
End network.

(** ** Parameters are read back *)

Section roundtrip.
Context {O I E : Type} `{HSP : StreamPair O I E}.

Fixpoint rpc_fits (t : rpc_type) : denote t → Prop :=
  match t with
  | TNum native streaming bits => λ v, prim_ok native v ∧ prim_fits streaming v bits
  | TString m n => λ s, string_fits s m n ∧ (length s ≤ m)%nat
  | TWString m n => λ s, wstring_fits (sp_utf8 O I E) s m n ∧ (length s ≤ m)%nat
  | TSeq t n => λ l, count_ok PU16 n ∧ Z.of_nat (length l) ≤ MaxNumber n ∧ Forall (rpc_fits t) l
  | TArray t N => λ l, length l = N ∧ Forall (rpc_fits t) l
  | TMap native streaming bits t n => λ l,
      count_ok PU32 n ∧ Z.of_nat (length l) ≤ MaxNumber n ∧ ordered fst Z.ltb l ∧
      Forall (λ p, (prim_ok native p.1 ∧ prim_fits streaming p.1 bits) ∧ rpc_fits t p.2) l
  | TUnit => λ _, True
  | TPair t u => λ p, rpc_fits t p.1 ∧ rpc_fits u p.2
  end.

Fixpoint enc_rpc (t : rpc_type) : denote t → encoding E :=
  match t with
  | TNum _ streaming bits => λ v _, enc_prim O I E streaming v bits
  | TString m n => λ s, enc_string O I E s m n
  | TWString m n => λ s, enc_wstring O I E s m n
  | TSeq t n => enc_container (enc := enc_rpc t) PU16 n
  | TArray t _ => enc_elements (enc := enc_rpc t)
  | TMap _ streaming bits t n =>
      enc_container (enc := λ p, (λ _, enc_prim O I E streaming p.1 bits) +++ enc_rpc t p.2) PU32 n
  | TUnit => λ _, enc_nil
  | TPair t u => λ p, enc_rpc t p.1 +++ enc_rpc u p.2
  end.

Fixpoint elements_at {A} (at_ : A → nat → Prop) (enc : A → encoding E) (l : list A) (pos : nat) : Prop :=
  match l with
  | [] => True
  | x :: l => at_ x pos ∧ elements_at at_ enc l (pos + length (enc x pos))
  end.

Definition count_length (count : prim) (n sizeBits : nat) : nat :=
  length (enc_prim O I E count (Z.of_nat n) (Z.of_nat sizeBits)).

(** An empty string is met at a byte boundary only. *)
Fixpoint rpc_at (t : rpc_type) : denote t → nat → Prop :=
  match t with
  | TNum _ _ _ | TUnit => λ _ _, True
  | TString _ _ | TWString _ _ => λ s pos, s ≠ [] ∨ aligned (O := O) (I := I) (E := E) pos
  | TSeq t n => λ l pos, elements_at (rpc_at t) (enc_rpc t) l (pos + count_length PU16 (length l) n)
  | TArray t _ => λ l pos, elements_at (rpc_at t) (enc_rpc t) l pos
  | TMap _ streaming bits t n => λ l pos,
      elements_at (λ p pos, rpc_at t p.2 (pos + length (enc_prim O I E streaming p.1 bits)))
        (λ p, (λ _, enc_prim O I E streaming p.1 bits) +++ enc_rpc t p.2)
        l (pos + count_length PU32 (length l) n)
  | TPair t u => λ p pos, rpc_at t p.1 pos ∧ rpc_at u p.2 (pos + length (enc_rpc t p.1 pos))
  end.

(** A codec of which only the writer is used. *)
Lemma writer_codec {A} (put : A → st O unit) (get : st I A) fits enc :
  (∀ x, fits x → writes (put x) (enc x)) → codec put get fits (λ _, False) enc.
Proof. intros Hw. split; [exact Hw|by intros x _ i pos rest []|by intros x pos _ []]. Qed.

Lemma rpc_writes t x : rpc_fits t x → writes (rpc_write t x) (enc_rpc t x).
Proof.
  revert x. induction t as [na st bits|m n|m n|t IH n|t IH N|na st bits t IH n| |t IHt u IHu];
    intros x; cbn [denote] in x; cbn [rpc_fits rpc_write enc_rpc].
  - intros [_ Hf]. apply RpcNumericType_writes; [apply Hf|done].
  - intros [Hf _]. by apply writes_string.
  - intros [Hf _]. by apply writes_wstring.
  - intros (Hc & Hn & Hl).
    exact (container_writes (writer_codec _ (rpc_read t) _ _ IH) PU16 n x Hc Hl Hn).
  - intros [_ Hl]. exact (RArray_writes (writer_codec _ (rpc_read t) _ _ IH) x Hl).
  - intros (Hc & Hn & _ & Hl).
    refine (container_writes (writer_codec _
      (get_pair (RpcNumericType_read na st bits) (rpc_read t)) _ _ _) PU32 n x Hc Hl Hn).
    intros [k v] [[_ Hk] Hv]. apply writes_seq; [by apply RpcNumericType_writes; [apply Hk|]|by apply IH].
  - intros _. apply writes_ret.
  - intros [Hx Hy]. apply writes_seq; [by apply IHt|by apply IHu].
Qed.

Section elements.
Context {A : Type} (get : st I A) (fits : A → Prop) (at_ : A → nat → Prop) (enc : A → encoding E).
Hypothesis get_reads : ∀ x, fits x → reads (at_ x) get (enc x) x.

Lemma read_elements_at {C} (insert : A → C → C) l c : Forall fits l →
  reads (elements_at at_ enc l) (read_elements get insert (length l) c) (enc_elements (enc := enc) l)
    (fold_left (λ c x, insert x c) l c).
Proof.
  intros Hl. revert c. induction Hl as [|x l Hx _ IH]; intros c; simpl; [apply reads_ret|].
  eapply (reads_bind _ (elements_at at_ enc l)).
  - eapply reads_weaken; [|by apply get_reads]. by intros pos [??].
  - apply IH.
  - by intros pos [??].
Qed.

Lemma container_reads_at {C} count sizeBits (insert : A → C → C) empty l :
  count_ok count sizeBits → Forall fits l → Z.of_nat (length l) ≤ MaxNumber sizeBits →
  reads (λ pos, elements_at at_ enc l (pos + count_length count (length l) sizeBits))
    (container_read get count sizeBits insert empty) (enc_container (enc := enc) count sizeBits l)
    (fold_left (λ c x, insert x c) l empty).
Proof.
  intros Hc Hl Hn. pose proof (count_ok_fits count sizeBits (length l) Hc Hn) as Hf.
  unfold container_read. eapply (reads_bind _ (elements_at at_ enc l)).
  - by apply reads_prim.
  - rewrite (proj2 (Z.ltb_ge _ _)) by done. rewrite Nat2Z.id. by apply read_elements_at.
  - done.
Qed.

Lemma RArray_reads_at l : Forall fits l →
  reads (elements_at at_ enc l) (RArray_read get (length l)) (enc_elements (enc := enc) l) l.
Proof.
  induction 1 as [|x l Hx _ IH]; simpl; [apply reads_ret|].
  eapply (reads_bind _ (elements_at at_ enc l)).
  - eapply reads_weaken; [|by apply get_reads]. by intros pos [??].
  - intros i pos rest HP Hi. destruct (IH i pos rest HP Hi) as (i' & E1 & Hi').
    exists i'. by st_step E1.
  - by intros pos [??].
Qed.
End elements.

(** Reading two things, one after the other. *)
Lemma reads_pair {A B} (P Q : nat → Prop) (m : st I A) (n : st I B) e1 e2 a b :
  reads P m e1 a → reads Q n e2 b →
  reads (λ pos, P pos ∧ Q (pos + length (e1 pos))%nat)
    (x ← m; y ← n; mret (x, y)) (e1 +++ e2) (a, b).
Proof.
  intros Hm Hn. eapply (reads_bind _ Q); [eapply reads_weaken; [|exact Hm]; by intros ? [??]| |by intros ? [??]].
  intros i pos rest HQ Hi. destruct (Hn i pos rest HQ Hi) as (i' & E1 & Hi'). exists i'. by st_step E1.
Qed.

Lemma Zltb_asym x y : (x <? y) = true → (y <? x) = false.
Proof. lia. Qed.

Lemma rpc_reads t x : rpc_fits t x → reads (rpc_at t x) (rpc_read t) (enc_rpc t x) x.
Proof.
  revert x. induction t as [na st bits|m n|m n|t IH n|t IH N|na st bits t IH n| |t IHt u IHu];
    intros x; cbn [denote] in x; cbn [rpc_fits rpc_read enc_rpc rpc_at].
  - intros [Hv Hf]. by apply RpcNumericType_reads.
  - intros [Hf Hm]. pose proof (reads_string x m n Hf) as Hr. by rewrite take_ge in Hr by done.
  - intros [Hf Hm]. pose proof (reads_wstring x m n Hf) as Hr. by rewrite take_ge in Hr by done.
  - intros (Hc & Hn & Hl).
    pose proof (container_reads_at (rpc_read t) _ _ _ IH PU16 n push_back [] x Hc Hl Hn) as Hr.
    rewrite fold_push_back in Hr. exact Hr.
  - intros [<- Hl]. exact (RArray_reads_at (rpc_read t) _ _ _ IH x Hl).
  - intros (Hc & Hn & Ho & Hl).
    assert (Hp : ∀ p : Z * denote t, (prim_ok na p.1 ∧ prim_fits st p.1 bits) ∧ rpc_fits t p.2 →
      reads (λ pos, rpc_at t p.2 (pos + length (enc_prim O I E st p.1 bits)))
        (get_pair (RpcNumericType_read na st bits) (rpc_read t))
        ((λ _, enc_prim O I E st p.1 bits) +++ enc_rpc t p.2) p).
    { intros [k v] [[Hk Hf] Hv]. eapply reads_weaken; [|eapply reads_pair;
        [by apply (RpcNumericType_reads (λ _, True) na)|by apply IH]]. by intros pos. }
    pose proof (container_reads_at _ _ _ _ Hp PU32 n (ord_insert fst Z.ltb) [] x Hc Hl Hn) as Hr.
    rewrite (fold_ord_insert fst Z.ltb Zltb_asym x []) in Hr by done. exact Hr.
  - intros _. destruct x. apply reads_ret.
  - destruct x as [x y]. intros [Hx Hy]. apply reads_pair; [by apply IHt|by apply IHu].
Qed.

(** *** The parameters of a method, and a command *)

Fixpoint params_fit (ts : list rpc_type) : denotes ts → Prop :=
  match ts with
  | [] => λ _, True
  | t :: ts => λ ps, rpc_fits t ps.1 ∧ params_fit ts ps.2
  end.
Fixpoint enc_params (ts : list rpc_type) : denotes ts → encoding E :=
  match ts with
  | [] => λ _, enc_nil
  | t :: ts => λ ps, enc_rpc t ps.1 +++ enc_params ts ps.2
  end.
Fixpoint params_at (ts : list rpc_type) : denotes ts → nat → Prop :=
  match ts with
  | [] => λ _ _, True
  | t :: ts => λ ps pos, rpc_at t ps.1 pos ∧ params_at ts ps.2 (pos + length (enc_rpc t ps.1 pos))
  end.

Lemma functor_marshal_writes ts ps : params_fit ts ps → writes (functor_marshal ts ps) (enc_params ts ps).
Proof.
  induction ts as [|t ts IH]; cbn; [intros _; apply writes_ret|].
  intros [Ht Hts]. apply writes_seq; [by apply rpc_writes|by apply IH].
Qed.

Lemma functor_unmarshal_reads ts ps : params_fit ts ps →
  reads (params_at ts ps) (functor_unmarshal ts) (enc_params ts ps) ps.
Proof.
  induction ts as [|t ts IH]; cbn; [intros _; destruct ps; apply reads_ret|].
  destruct ps as [p ps]. intros [Ht Hts]. apply reads_pair; [by apply rpc_reads|by apply IH].
Qed.

Definition command_fits (c : RpcCommand) : Prop :=
  is_uint 32 (cmd_rpcId c) ∧ params_fit (cmd_params c) (cmd_marshaler c).
Definition enc_rpcId (rpcId : Z) : list E := enc_prim O I E PU32 rpcId 32.
Definition enc_command (c : RpcCommand) : encoding E :=
  (λ _, enc_rpcId (cmd_rpcId c)) +++ enc_params (cmd_params c) (cmd_marshaler c) +++ enc_pad O I E.
Definition command_at (c : RpcCommand) (pos : nat) : Prop :=
  params_at (cmd_params c) (cmd_marshaler c) (pos + length (enc_rpcId (cmd_rpcId c))).

Lemma rpcId_fits rpcId : is_uint 32 rpcId → prim_fits PU32 rpcId 32.
Proof. intros Hid. apply (prim_ok_fits PU32). exact Hid. Qed.

(** A command is written whole and ends at a byte boundary. *)
Lemma command_marshal_writes c : command_fits c → writes (command_marshal c) (enc_command c).
Proof.
  intros [Hid Hps]. apply writes_seq; [by apply writes_prim, rpcId_fits|].
  apply writes_seq; [by apply functor_marshal_writes|apply writes_align].
Qed.

Lemma command_aligned c pos : aligned (O := O) (I := I) (E := E) (pos + length (enc_command c pos)).
Proof. unfold enc_command, enc_app, aligned. rewrite !length_app, !Nat.add_assoc. apply enc_pad_aligned. Qed.
End roundtrip.

(** ** The dispatch of a call *)

(** The events a receiver answers to: a receiver whose map is still empty clones
    its defaults first. *)
Definition events (r : RpcReceiver) : RpcEvents :=
  if decide (rr_eventMap r = ∅) then rr_defaults r else rr_eventMap r.

Lemma clone_fold (l : list (Z * RpcEvent)) (m : RpcEvents) : NoDup l.*1 →
  (∀ k, k ∈ l.*1 → m !! k = None) →
  foldl (λ m kv, eventmap_insert kv.1 kv.2 m) m l = list_to_map l ∪ m.
Proof.
  revert m. induction l as [|[k ev] l IH]; intros m Hnd Hm; cbn [foldl fst snd].
  { cbn [list_to_map foldr]. by rewrite (left_id_L ∅ (∪)). }
  apply NoDup_cons in Hnd as [Hk Hnd]. cbn in Hk.
  assert (Hi : eventmap_insert k ev m = <[k := ev]> m).
  { unfold eventmap_insert. by rewrite Hm by (cbn; set_solver). }
  rewrite Hi, IH; [|done|].
  - cbn [list_to_map fst snd]. rewrite <- insert_union_r, insert_union_l; [done|].
    by apply not_elem_of_list_to_map.
  - intros k' Hk'. rewrite lookup_insert_ne by (by intros ->). apply Hm. by right.
Qed.

(** Cloning gives the defaults to a receiver that has no event. *)
Lemma cloneRpcEvents_ok r : rr_eventMap r = ∅ →
  cloneRpcEvents r = mkReceiver (rr_network r) (rr_defaults r) (rr_defaults r).
Proof.
  intros He. unfold cloneRpcEvents. f_equal.
  rewrite He, clone_fold by (apply NoDup_fst_map_to_list || done).
  by rewrite (right_id_L ∅ (∪)), list_to_map_to_list.
Qed.

Section dispatch.
Context {Ist A : Type} `{IStream Ist}.
Context (method : nat → Z → Z → ∀ ts, denotes ts → st A unit).

#[local] Abbreviation world := (RpcWorld A).

(** Two worlds that differ by the events cloned only. *)
Record world_equiv (w w' : world) : Prop := {
  we_receivers r : events <$> receivers w !! r = events <$> receivers w' !! r;
  we_network r : rr_network <$> receivers w !! r = rr_network <$> receivers w' !! r;
  we_list : receivers_ w = receivers_ w';
  we_calls : rpc_calls w = rpc_calls w';
  we_app : rpc_app w = rpc_app w';
}.

#[global] Instance world_equiv_equivalence : Equivalence world_equiv.
Proof.
  split.
  - intros w. by split.
  - intros w w' []. by split.
  - intros w w' w'' [] []. split; intros; etrans; eauto.
Qed.

Lemma clone_equiv r w x : receivers w !! r = Some x → rr_eventMap x = ∅ →
  world_equiv w (on_receiver r cloneRpcEvents w).
Proof.
  intros Hx He. split; try done; intros r'; cbn [on_receiver receivers].
  - destruct (decide (r = r')) as [<-|Hr]; [|by rewrite lookup_alter_ne].
    rewrite lookup_alter_eq, Hx. cbn. rewrite cloneRpcEvents_ok by done.
    f_equal. unfold events. cbn [rr_eventMap rr_defaults]. rewrite He.
    rewrite decide_True by done. by destruct (decide _).
  - destruct (decide (r = r')) as [<-|Hr]; [|by rewrite lookup_alter_ne].
    by rewrite lookup_alter_eq, Hx.
Qed.

#[global] Instance log_rpc_proper c : Proper (world_equiv ==> world_equiv) (log_rpc c).
Proof. intros w w' []. split; try done. cbn. by f_equal. Qed.
#[global] Instance set_rpc_app_proper a : Proper (world_equiv ==> world_equiv) (set_rpc_app a).
Proof. intros w w' []. by split. Qed.

(** Outcomes with equal results and streams, and equivalent worlds. *)
Definition out_equiv {B} (x y : result B * (Ist * world)) : Prop :=
  x.1 = y.1 ∧ x.2.1 = y.2.1 ∧ world_equiv x.2.2 y.2.2.

#[global] Instance out_equiv_equivalence B : Equivalence (@out_equiv B).
Proof.
  split.
  - intros x. by split_and!.
  - intros x y (?&?&?). by split_and!.
  - intros x y z (?&?&?) (?&?&?). split_and!; by etrans.
Qed.

(** A method respects the equivalence. *)
Definition respects {B} (m : st (Ist * world) B) : Prop :=
  ∀ i w w', world_equiv w w' → out_equiv (m (i, w)) (m (i, w')).

Lemma respects_ret {B} (b : B) : respects (mret b).
Proof. intros i w w' Hw. by split_and!. Qed.

Lemma respects_bind {B C} (m : st (Ist * world) B) (f : B → st (Ist * world) C) :
  respects m → (∀ b, respects (f b)) → respects (m ≫= f).
Proof.
  intros Hm Hf i w w' Hw. destruct (Hm i w w' Hw) as (E1 & E2 & E3). unfold mbind, st_bind.
  destruct (m (i, w)) as [r1 [i1 w1]], (m (i, w')) as [r2 [i2 w2]]. cbn in E1, E2, E3. subst r2 i2.
  destruct r1 as [b|e]; [by apply Hf|by split_and!].
Qed.

Lemma respects_istream {B} (m : st Ist B) : respects (on_istream m).
Proof. intros i w w' Hw. unfold on_istream, zoom. cbn. destruct (m i) as [r i']. by split_and!. Qed.

Lemma respects_rpc (f : world → world) : Proper (world_equiv ==> world_equiv) f → respects (on_rpc f).
Proof. intros Hf i w w' Hw. split_and!; [done|done|]. by apply Hf. Qed.

Lemma respects_method r id hint ts ps :
  respects (zoom (λ s, rpc_app s.2) (λ a s, (s.1, set_rpc_app a s.2)) (method r id hint ts ps)).
Proof.
  intros i w w' Hw. unfold zoom. cbn. rewrite (we_app _ _ Hw).
  destruct (method _ _ _ _ _ _) as [x a]. split_and!; [done|done|]. cbn. by rewrite Hw.
Qed.

Lemma handleEvent_respects r ev hint : respects (handleEvent method r ev hint).
Proof.
  unfold handleEvent, event_dispatch.
  repeat (apply respects_bind; [|intros ?]);
    first [apply respects_ret|apply respects_istream|apply respects_method|apply respects_rpc; apply _].
Qed.

(** *** The reference: the first registered receiver that has the event *)

Fixpoint responder (l : list nat) (rs : gmap nat RpcReceiver) (rpcId : Z) : option (nat * RpcEvent) :=
  match l with
  | [] => None
  | r :: l =>
      match rs !! r ≫= λ x, events x !! rpcId with
      | Some ev => Some (r, ev)
      | None => responder l rs rpcId
      end
  end.

(** What [onReceive] means: read the id, let the responder handle it. *)
Definition dispatch_spec (rpcHint : Z) : st (Ist * world) unit :=
  rpcId ← on_istream (is_read PU32 32);
  who ← gets (λ s, responder (receivers_ s.2) (receivers s.2) rpcId);
  match who with
  | Some (r, ev) => handleEvent method r ev rpcHint ;; mret tt
  | None => throw UnknownRpcMethodException
  end.

(** The receivers that are registered have not been deleted. *)
Definition receivers_alive (w : world) : Prop := Forall (λ r, is_Some (receivers w !! r)) (receivers_ w).

Lemma responder_equiv l w w' rpcId : world_equiv w w' →
  responder l (receivers w) rpcId = responder l (receivers w') rpcId.
Proof.
  intros Hw. induction l as [|r l IH]; [done|]. cbn [responder]. rewrite IH.
  pose proof (we_receivers _ _ Hw r) as Hr.
  destruct (receivers w !! r) as [x|], (receivers w' !! r) as [x'|]; simplify_eq/=; [|done].
  by rewrite Hr.
Qed.

Lemma lookupEvent_events rpcId x : rr_eventMap x ≠ ∅ → lookupEvent rpcId x = events x !! rpcId.
Proof. intros He. unfold events. by rewrite decide_False. Qed.

(** Handling by one receiver: its event, after the cloning that cannot be seen. *)
Lemma handle_equiv r rpcId hint i w x : receivers w !! r = Some x →
  ∃ w', world_equiv w w' ∧
    handle method r rpcId hint (i, w) =
      match events x !! rpcId with
      | Some ev => handleEvent method r ev hint (i, w')
      | None => (Ok false, (i, w'))
      end.
Proof.
  intros Hx. unfold handle. rewrite (bind_ok _ _ _ _ _ (gets_run _ _)). cbn [snd]. rewrite Hx.
  unfold shouldCloneRpcEvents. case_bool_decide as He.
  - exists (on_receiver r cloneRpcEvents w). split; [by eapply clone_equiv|].
    cbv iota. unfold on_rpc at 1.
    rewrite (bind_ok _ _ _ _ _ (modify_run _ _)), (bind_ok _ _ _ _ _ (gets_run _ _)).
    cbn [snd fst on_receiver receivers]. rewrite lookup_alter_eq, Hx. cbn.
    rewrite cloneRpcEvents_ok by done. unfold lookupEvent, events. cbn [rr_eventMap]. rewrite (decide_True _ _ He).
    by destruct (rr_defaults x !! rpcId).
  - exists w. split; [done|]. rewrite (bind_ok _ _ _ _ _ (mret_run _ _)), (bind_ok _ _ _ _ _ (gets_run _ _)).
    cbn [snd]. rewrite Hx. cbn. rewrite lookupEvent_events by done. by destruct (events x !! rpcId).
Qed.

Lemma handleEvent_true r ev hint s b s' :
  handleEvent method r ev hint s = (Ok b, s') → b = true.
Proof. unfold handleEvent. intros E1. do 3 st_inv E1. by injection E1. Qed.

Lemma handle_receivers_equiv l rpcId hint i w :
  Forall (λ r, is_Some (receivers w !! r)) l →
  out_equiv (handle_receivers method l rpcId hint (i, w))
    match responder l (receivers w) rpcId with
    | Some (r, ev) => handleEvent method r ev hint (i, w)
    | None => (Ok false, (i, w))
    end.
Proof.
  intros Hl. revert w Hl. induction l as [|r l IH]; intros w Hl; [by split_and!|].
  apply Forall_cons in Hl as [[x Hx] Hl]. cbn [handle_receivers responder].
  destruct (handle_equiv r rpcId hint i w x Hx) as (w1 & Hw & Eh). rewrite Hx. cbn [mbind option_bind].
  destruct (events x !! rpcId) as [ev|].
  - transitivity (handleEvent method r ev hint (i, w1)).
    + unfold mbind, st_bind. rewrite Eh.
      destruct (handleEvent method r ev hint (i, w1)) as [[b|e] s] eqn:Ev; [|by split_and!].
      apply handleEvent_true in Ev as ->. by split_and!.
    + apply handleEvent_respects. by symmetry.
  - st_step Eh. cbn [negb]. transitivity
      match responder l (receivers w1) rpcId with
      | Some (r0, ev) => handleEvent method r0 ev hint (i, w1)
      | None => (Ok false, (i, w1))
      end.
    + apply IH. eapply Forall_impl; [exact Hl|]. intros r' [y Hy]. pose proof (we_receivers _ _ Hw r') as Hr.
      rewrite Hy in Hr. by destruct (receivers w1 !! r').
    + rewrite <- (responder_equiv l w w1) by done. destruct (responder _ _ _) as [[r' ev]|].
      * apply handleEvent_respects. by symmetry.
      * split_and!; [done|done|]. by symmetry.
Qed.

Lemma onReceive_dispatch hint i w : receivers_alive w →
  out_equiv (onReceive method hint (i, w)) (dispatch_spec hint (i, w)).
Proof.
  intros Hl. unfold onReceive, dispatch_spec. unfold mbind at 1 3, st_bind at 1 3.
  change (on_istream (is_read PU32 32) (i, w)) with
    (let '(r, t) := is_read PU32 32 i in (r, (t, w)) : result Z * (Ist * world)).
  destruct (is_read PU32 32 i) as [[rpcId|e] i']; [|by split_and!].
  rewrite (bind_ok _ _ _ _ _ (gets_run _ _)). cbn [snd].
  pose proof (handle_receivers_equiv (receivers_ w) rpcId hint i' w Hl) as (E1 & E2 & E3).
  unfold handleMessage. unfold mbind at 1, st_bind at 1.
  rewrite (bind_ok _ _ _ _ _ (gets_run _ _)). cbn [snd].
  destruct (handle_receivers _ _ _ _ _) as [r1 [i1 w1]]. cbn in E1, E2, E3.
  destruct (responder _ _ _) as [[r ev]|].
  - unfold mbind, st_bind. destruct (handleEvent _ _ _ _ _) as [r2 [i2 w2]] eqn:Ev. cbn in E1, E2, E3. subst.
    destruct r2 as [b|e]; [|by split_and!]. apply handleEvent_true in Ev as ->. by split_and!.
  - cbn in E1, E2, E3. subst. by split_and!.
Qed.
End dispatch.

(** ** A call that was marshalled is made *)

Section delivery.
Context {O I E A : Type} `{HSP : StreamPair O I E}.
Context (method : nat → Z → Z → ∀ ts, denotes ts → st A unit).

Lemma functor_unmarshal_command ts ps i pos rest : params_fit ts ps → params_at ts ps pos →
  is_repr i pos ((enc_params ts ps +++ enc_pad O I E) pos ++ rest) → ∃ i1 i2,
    functor_unmarshal ts i = (Ok ps, i1) ∧ is_align i1 = (Ok tt, i2) ∧
    is_repr i2 (pos + length ((enc_params ts ps +++ enc_pad O I E) pos)) rest.
Proof.
  intros Hf Hat Hi. unfold enc_app in *. rewrite <- app_assoc in Hi.
  destruct (functor_unmarshal_reads ts ps Hf i pos _ Hat Hi) as (i1 & E1 & Hi1).
  destruct (reads_align (λ _, True) i1 _ _ Logic.I Hi1) as (i2 & E2 & Hi2).
  exists i1, i2. by rewrite length_app, Nat.add_assoc.
Qed.

(** The calls a method call is, and what is left of the application. *)
Definition made (r : nat) (rpcId hint : Z) (ts : list rpc_type) (ps : denotes ts) (a : A)
  (w : RpcWorld A) : RpcWorld A :=
  set_rpc_app a (log_rpc (CallMethod r rpcId hint ts ps) (log_rpc (OnReceiving r rpcId) w)).

Lemma handleEvent_ok r id ts ps hint i pos rest w a :
  params_fit ts ps → params_at ts ps pos →
  is_repr i pos ((enc_params ts ps +++ enc_pad O I E) pos ++ rest) →
  method r id hint ts ps (rpc_app w) = (Ok tt, a) → ∃ i',
    handleEvent method r (mkEvent id ts) hint (i, w) = (Ok true, (i', made r id hint ts ps a w)) ∧
    is_repr i' (pos + length ((enc_params ts ps +++ enc_pad O I E) pos)) rest.
Proof.
  intros Hf Hat Hi Hm.
  destruct (functor_unmarshal_command ts ps i pos rest Hf Hat Hi) as (i1 & i2 & E1 & E2 & Hi2).
  exists i2. split; [|done]. unfold handleEvent, event_dispatch, on_rpc.
  rewrite (bind_ok _ _ _ _ _ (modify_run _ _)). cbn [fst snd ev_params ev_rpcId].
  erewrite bind_ok; [|erewrite bind_ok; [|exact (zoom_run _ _ _ _ _ _ E1)];
    rewrite (bind_ok _ _ _ _ _ (modify_run _ _)); cbn [fst snd];
    refine (zoom_run _ _ _ _ _ _ _); exact Hm].
  unfold on_istream. cbn [fst snd].
  erewrite bind_ok; [|refine (zoom_run _ _ _ _ _ _ _); exact E2]. done.
Qed.

(** What [onReceive] does with a marshalled command that a receiver answers to. *)
Lemma onReceive_command r id id' ts ps hint i pos rest w a :
  receivers_alive w → responder (receivers_ w) (receivers w) id = Some (r, mkEvent id' ts) →
  command_fits (mkCommand id ts ps) → command_at (mkCommand id ts ps) pos →
  is_repr i pos (enc_command (mkCommand id ts ps) pos ++ rest) →
  method r id' hint ts ps (rpc_app w) = (Ok tt, a) → ∃ i',
    out_equiv (onReceive method hint (i, w)) (Ok tt, (i', made r id' hint ts ps a w)) ∧
    is_repr i' (pos + length (enc_command (mkCommand id ts ps) pos)) rest.
Proof.
  intros Hl Hr [Hid Hps] Hat Hi Hm. cbn [cmd_rpcId cmd_params cmd_marshaler] in *.
  unfold enc_command in *. cbn [cmd_rpcId cmd_params cmd_marshaler] in *. unfold enc_app at 1 in Hi.
  rewrite <- app_assoc in Hi.
  destruct (reads_prim (λ _, True) PU32 id 32 (rpcId_fits id Hid) i pos _ Logic.I Hi) as (i1 & E1 & Hi1).
  destruct (handleEvent_ok r id' ts ps hint i1 _ rest w a Hps Hat Hi1 Hm) as (i2 & E2 & Hi2).
  exists i2. split.
  - transitivity (dispatch_spec method hint (i, w)); [by apply onReceive_dispatch|].
    unfold dispatch_spec. erewrite bind_ok; [|exact (zoom_run _ _ _ _ _ _ E1)]. cbn [fst snd].
    rewrite (bind_ok _ _ _ _ _ (gets_run _ _)). cbn [fst snd]. rewrite Hr.
    by rewrite (bind_ok _ _ _ _ _ E2).
  - unfold enc_app at 1. by rewrite length_app, Nat.add_assoc.
Qed.

(** And with one that none answers to: the exception, and nothing called. *)
Lemma onReceive_unknown id hint i pos (rest : list E) w :
  receivers_alive w → responder (receivers_ w) (receivers w) id = None → is_uint 32 id →
  is_repr i pos (enc_prim O I E PU32 id 32 ++ rest) → ∃ i',
    out_equiv (onReceive method hint (i, w)) (Throw UnknownRpcMethodException, (i', w)).
Proof.
  intros Hl Hr Hid Hi.
  destruct (reads_prim (λ _, True) PU32 id 32 (rpcId_fits id Hid) i pos _ Logic.I Hi) as (i1 & E1 & Hi1).
  exists i1. transitivity (dispatch_spec method hint (i, w)); [by apply onReceive_dispatch|].
  unfold dispatch_spec. erewrite bind_ok; [|exact (zoom_run _ _ _ _ _ _ E1)]. cbn [fst snd].
  rewrite (bind_ok _ _ _ _ _ (gets_run _ _)). cbn [fst snd]. by rewrite Hr.
Qed.
End delivery.

(** ** Registration *)

Section registration.
Context {A : Type}.

Lemma erase_first_notin r l : r ∉ l → erase_first r l = l.
Proof.
  induction l as [|x l IH]; [done|]. intros Hr. apply not_elem_of_cons in Hr as [Hx Hl]. cbn.
  rewrite decide_False by congruence. by rewrite IH.
Qed.

Lemma erase_first_last r l : r ∉ l → erase_first r (l ++ [r]) = l.
Proof.
  induction l as [|x l IH]; intros Hr; cbn; [by rewrite decide_True|].
  apply not_elem_of_cons in Hr as [Hx Hl]. rewrite decide_False by congruence. by rewrite IH.
Qed.

(** A receiver that joined and left again has left nothing behind. *)
Lemma set_reset_network r x (w : RpcWorld A) : receivers w !! r = Some x → rr_network x = false →
  r ∉ receivers_ w → resetRpcNetwork r (setRpcNetwork r w) = w.
Proof.
  intros Hx Hn Hr. unfold resetRpcNetwork, setRpcNetwork, registerRpcReceiver, unregisterRpcReceiver,
    on_receivers, on_receiver. cbn [receivers receivers_ rpc_calls rpc_app].
  rewrite lookup_alter_eq, Hx. cbn. rewrite erase_first_last by done.
  destruct w as [rs l c a]; cbn in *. f_equal. apply map_eq. intros r'.
  destruct (decide (r = r')) as [<-|Hne].
  - rewrite !lookup_alter_eq, Hx. cbn. f_equal. destruct x. cbn in *. by subst.
  - by rewrite !lookup_alter_ne.
Qed.

(** A registered receiver answers when none before it does. *)
Lemma responder_app l l' rs id :
  responder (l ++ l') rs id =
    match responder l rs id with Some x => Some x | None => responder l' rs id end.
Proof.
  induction l as [|r l IH]; [done|]. cbn [app responder]. by destruct (rs !! r ≫= _).
Qed.
End registration.

(** ** Encodings look at the place within the byte only *)

Section locality.
Context {O I E : Type} `{HSP : StreamPair O I E}.
#[local] Abbreviation local := (local (O := O) (I := I) (E := E)).

Lemma enc_elements_local {A} (enc : A → encoding E) l : (∀ x, local (enc x)) →
  local (enc_elements (enc := enc) l).
Proof. intros He. induction l as [|x l IH]; [apply local_nil|]. by apply local_app. Qed.

Lemma enc_rpc_local t x : local (enc_rpc t x).
Proof.
  revert x. induction t as [na st bits|m n|m n|t IH n|t IH N|na st bits t IH n| |t IHt u IHu];
    intros x; cbn [denote] in x; cbn [enc_rpc].
  - done.
  - intros p q. apply enc_string_mod.
  - intros p q. apply enc_wstring_mod.
  - apply local_app; [done|]. by apply enc_elements_local.
  - by apply enc_elements_local.
  - apply local_app; [done|]. apply enc_elements_local. intros p. by apply local_app.
  - apply local_nil.
  - by apply local_app.
Qed.

Lemma enc_params_local ts ps : local (enc_params ts ps).
Proof. induction ts as [|t ts IH]; [apply local_nil|]. apply local_app; [apply enc_rpc_local|apply IH]. Qed.

Lemma enc_command_local c : local (enc_command c).
Proof.
  apply local_app; [done|]. apply local_app; [apply enc_params_local|]. intros p q. apply enc_pad_mod.
Qed.

End locality.

(** ** What can be carried is decidable *)

Section decidable.
Context {O I E : Type} `{HSP : StreamPair O I E}.

#[global] Instance ordered_dec {A K} (key : A → K) lt l : Decision (ordered key lt l).
Proof.
  induction l as [|x l IH]; [left; constructor|].
  destruct (decide (Forall (λ y, lt (key x) (key y) = true) l)) as [Hx|Hx].
  - destruct IH as [Hl|Hl]; [left; by constructor|right; by inversion 1].
  - right. by inversion 1.
Defined.

#[global] Instance count_ok_dec count n : Decision (count_ok count n).
Proof. unfold count_ok. apply _. Defined.

#[global] Instance elements_at_dec {A} (at_ : A → nat → Prop) enc l pos :
  (∀ x p, Decision (at_ x p)) → Decision (elements_at (E := E) at_ enc l pos).
Proof. intros Hd. revert pos. induction l as [|x l IH]; intros pos; cbn [elements_at]; apply _. Defined.

#[global] Instance rpc_fits_dec t x : Decision (rpc_fits t x).
Proof. revert x. induction t; intros x; cbn [denote] in x; cbn [rpc_fits]; apply _. Defined.

#[global] Instance rpc_at_dec t x pos : Decision (rpc_at t x pos).
Proof.
  revert x pos. induction t; intros x pos; cbn [denote] in x; cbn [rpc_at]; unfold aligned; apply _.
Defined.

#[global] Instance params_fit_dec ts ps : Decision (params_fit ts ps).
Proof. induction ts as [|t ts IH]; cbn; apply _. Defined.
#[global] Instance params_at_dec ts ps pos : Decision (params_at ts ps pos).
Proof. revert pos. induction ts as [|t ts IH]; intros pos; cbn; apply _. Defined.
#[global] Instance command_fits_dec c : Decision (command_fits c).
Proof. unfold command_fits. apply _. Defined.
#[global] Instance command_at_dec c pos : Decision (command_at c pos).
Proof. unfold command_at. apply _. Defined.
End decidable.
