(* ===== verification/Packet.v ===== *)
(** * sgp/protocol: packet headers and packet coders

    Models [src/include/sne/sgp/protocol/sgp.h] (the body size field),
    [cs/CsProtocol.h] (the header of a client/server packet), [cs/CsMessage.h]
    (the message types), [PacketCoder.h], [PacketCoder.cpp] and
    [src/src/sgp/protocol/cs/CsPacketCoder.h].  The class [PacketCoder] is the
    virtual interface the marshaller calls, [PacketCoderSpec] what it promises:
    a sender and a receiver in step, every packet framed by its body size. *)

From S2P Require Import Prelude BitList Bits StreamBuffer ByteStream ByteStreamSpec MemoryBlock.

(** ** Message types ([base/protocol/Message.h], [cs/CsMessage.h]) *)

Definition mtUnknown : Z := -1.
Definition mtFirst : Z := 0.
Definition mtLast : Z := 255.
Definition isValidMessage (mt : Z) : bool := (mtFirst <=? mt) && (mt <=? mtLast).

Definition csmtSystemFirst : Z := 0.
Definition csmtSystem_heartbeat : Z := 0.
Definition csmtSystem_exchangeSeed : Z := 1.
Definition csmtSystem_exchangePublicKey : Z := 2.
Definition csmtSystem_confirmSeed : Z := 3.
Definition csmtSystemLast : Z := 4.
Definition csmtRpc : Z := 21.
Definition isSystemMessage (mt : Z) : bool := (csmtSystemFirst <=? mt) && (mt <? csmtSystemLast).
Definition isRpcMessage (mt : Z) : bool := csmtRpc =? mt.

(** ** [packet::put] and [packet::get] *)

Definition packet_put (be : bool) (size : nat) (value : Z) : list Z :=
  toRpcByteOrder be (memory be size value).
Definition packet_get (be : bool) (size : nat) (buffer : list Z) : Z :=
  let bytes := toRpcByteOrder be (take size buffer) in
  le_combine (if be then rev bytes else bytes).

Record CsPacketHeader := mkHeader { bodySize_ : Z; messageType_ : Z }.

Definition newHeader : CsPacketHeader := mkHeader 0 mtUnknown.

(** [AbstractPacketHeader::getHeaderSize] and [CsPacketHeader::getHeaderSize]. *)
Definition AbstractPacketHeader_size : nat := 2.
Definition CsPacketHeader_size : nat := AbstractPacketHeader_size + 1.

Definition header_reset (h : CsPacketHeader) : CsPacketHeader := newHeader.

Definition header_isValid (h : CsPacketHeader) : bool :=
  (0 <=? bodySize_ h) && isValidMessage (messageType_ h).

(** [write] and [read]: the bytes stored at, and the header found in, a buffer. *)
Definition header_write (be : bool) (h : CsPacketHeader) : list Z :=
  packet_put be 2 (bodySize_ h) ++ packet_put be 1 (uint 8 (messageType_ h)).
Definition header_read (be : bool) (buffer : list Z) : CsPacketHeader :=
  mkHeader (packet_get be 2 buffer) (packet_get be 1 (drop 2 buffer)).

(** ** The virtual interface of a packet coder

    [C] is the coder's own state; [encode] and [decode] work on it and on a
    block. *)
Class PacketCoder (C : Type) := {
  pc_headerSize : C → nat;
  pc_reset : C → C;
  pc_readHeader : CsPacketHeader → C → st MemoryBlock (bool * CsPacketHeader);
  pc_encode : CsPacketHeader → st (C * MemoryBlock) (bool * CsPacketHeader);
  pc_decode : st (C * MemoryBlock) bool;
}.

(** ** The base class [PacketCoder], for a header of [size] bytes *)

Definition isValidPacket (size : nat) (m : MemoryBlock) : bool :=
  bool_decide (size ≤ mb_length m)%nat.

(** [static_cast<BodySize>(mblock.length() - getHeaderSize())], in [size_t]. *)
Definition getBodySize (size : nat) (m : MemoryBlock) : Z :=
  uint 16 (Z.of_nat (mb_length m) - Z.of_nat size).

Definition reserveHeader (size : nat) (m : MemoryBlock) : MemoryBlock :=
  mb_advance_wr size (mb_reset m).
Definition advanceToBody (size : nat) (m : MemoryBlock) : MemoryBlock := mb_set_rd size m.

Definition base_readHeader (be : bool) (size : nat) (h : CsPacketHeader)
  : st MemoryBlock (bool * CsPacketHeader) :=
  m ← get_st;
  if isValidPacket size m then
    bytes ← mb_read (mb_rd m) CsPacketHeader_size;
    let h := header_read be bytes in
    mret (header_isValid h, h)
  else mret (false, h).

Definition base_encode (be : bool) (size : nat) (h : CsPacketHeader)
  : st MemoryBlock (bool * CsPacketHeader) :=
  if header_isValid h then
    m ← get_st;
    if isValidPacket size m then
      mb_write 0 (header_write be h) ;;
      mret (header_isValid h, h)
    else mret (false, h)
  else mret (false, h).

Definition base_decode : st MemoryBlock bool := mret true.

(** ** [CsPacketCoder]: no state, no cipher *)

Definition CsPacketCoder := unit.

(** [getMaxPacketBodySize] *)
Definition CsPacketCoder_maxBodySize : Z := (2 ^ 16 - 1) - Z.of_nat CsPacketHeader_size.

Definition on_block {C A} (m : st MemoryBlock A) : st (C * MemoryBlock) A :=
  zoom snd (λ b s, (s.1, b)) m.

#[global] Instance CsPacketCoder_coder : PacketCoder CsPacketCoder := {|
  pc_headerSize _ := CsPacketHeader_size;
  pc_reset c := c;
  pc_readHeader h _ := base_readHeader false CsPacketHeader_size h;
  pc_encode h := on_block (base_encode false CsPacketHeader_size h);
  pc_decode := on_block base_decode;
|}.

(** ** What a coder promises

    [pc_sync s r] says that a sender in state [s] and a receiver in state [r]
    are in step.  [framed size mt p] says that [p] is one packet: its header
    tells its length and its message type. *)
Definition framed (size : nat) (mt : Z) (p : list Z) : Prop :=
  (CsPacketHeader_size ≤ size)%nat ∧ (size ≤ length p)%nat ∧
  header_read false p = mkHeader (Z.of_nat (length p - size)) mt.

(** A block as [acquireSendBlock] and the stream leave it: a reserved header,
    the body, and nothing read. *)
Definition send_block (size : nat) (body : list Z) (m : MemoryBlock) : Prop :=
  mb_wf m ∧ mb_rd m = O ∧ (size ≤ mb_wr m)%nat ∧ drop size (mb_written m) = body.

(** A receiver in state [r] turns the packet [p] into a block whose body is
    [body], and goes to state [r']. *)
Definition decodes {C} `{PacketCoder C} (size : nat) (r : C) (p body : list Z) (r' : C) : Prop :=
  ∀ b, mb_wf b → mb_rd b = O → mb_written b = p → ∃ b',
    pc_decode (r, b) = (Ok true, (r', b')) ∧ mb_wf b' ∧ mb_rd b' = O ∧
    (size ≤ mb_wr b')%nat ∧ drop size (mb_written b') = body.

Class PacketCoderSpec (C : Type) `{PacketCoder C} := {
  pc_sync : C → C → Prop;
  pc_size : nat;
  pc_padding : nat → nat;
  pc_headerSize_ok c : (∃ d, pc_sync c d ∨ pc_sync d c) → pc_headerSize c = pc_size;
  pc_size_ok : (CsPacketHeader_size ≤ pc_size)%nat;
  pc_readHeader_ok h c m : (∃ d, pc_sync d c) → mb_wf m → (pc_size ≤ mb_length m)%nat →
    let h' := header_read false (mb_contents m) in
    pc_readHeader h c m = (Ok (header_isValid h', h'), m);
  pc_encode_ok s r mt body m : pc_sync s r → isValidMessage mt = true →
    send_block pc_size body m →
    Z.of_nat (length body + pc_padding (length body)) < 2 ^ 16 → ∃ h' s' r' m' p,
    pc_encode (mkHeader (getBodySize (pc_headerSize s) m) mt) (s, m) = (Ok (true, h'), (s', m')) ∧
    mb_wf m' ∧ mb_rd m' = O ∧ mb_written m' = p ∧ framed pc_size mt p ∧
    pc_sync s' r' ∧ decodes pc_size r p (body ++ replicate (pc_padding (length body)) 0) r';
}.

(** ** Lemmas on headers *)

Lemma packet_put_wire be size v : packet_put be size v = le_split size v.
Proof.
  unfold packet_put, toRpcByteOrder, memory, RpcByteOrderImpl. destruct be; [|done].
  by rewrite rev_involutive.
Qed.

Lemma packet_get_wire be size l : packet_get be size l = le_combine (take size l).
Proof.
  unfold packet_get, toRpcByteOrder, RpcByteOrderImpl. destruct be; [|done]. by rewrite rev_involutive.
Qed.

Lemma length_header_write be h : length (header_write be h) = CsPacketHeader_size.
Proof. unfold header_write. by rewrite !packet_put_wire, length_app, !length_le_split. Qed.

Lemma header_write_read be be' bs mt rest : is_uint 16 bs → is_uint 8 mt →
  header_read be' (header_write be (mkHeader bs mt) ++ rest) = mkHeader bs mt.
Proof.
  intros Hbs Hmt. unfold header_read, header_write. cbn [bodySize_ messageType_].
  rewrite !packet_put_wire, !packet_get_wire, <- app_assoc.
  rewrite take_app_length', drop_app_length' by (by rewrite length_le_split).
  rewrite take_app_length' by (by rewrite length_le_split).
  rewrite !le_combine_split. rewrite (uint_id 8 mt) by done. f_equal; by apply uint_id.
Qed.

Lemma isValidMessage_uint mt : isValidMessage mt = true ↔ is_uint 8 mt.
Proof. unfold isValidMessage, is_uint, mtFirst, mtLast. change (2 ^ 8) with 256. lia. Qed.

Lemma header_valid bs mt : 0 ≤ bs → isValidMessage mt = true →
  header_isValid (mkHeader bs mt) = true.
Proof. intros Hbs Hmt. unfold header_isValid. cbn. rewrite Hmt. lia. Qed.

(** A read header depends on its three bytes only. *)
Lemma header_read_take be l : (CsPacketHeader_size ≤ length l)%nat →
  header_read be (take CsPacketHeader_size l) = header_read be l.
Proof.
  intros Hl. unfold header_read. rewrite !packet_get_wire.
  change CsPacketHeader_size with 3%nat in *. by destruct l as [|a [|b [|c l]]]; simpl in Hl; try lia.
Qed.

Lemma header_read_app be a b : (CsPacketHeader_size ≤ length a)%nat →
  header_read be (a ++ b) = header_read be a.
Proof.
  intros Ha. rewrite <- (header_read_take be (a ++ b)), <- (header_read_take be a) by
    (rewrite ?length_app; lia). by rewrite take_app_le.
Qed.

(** ** The client/server coder keeps the contract *)

(** Writing inside the bytes written so far replaces them. *)
Lemma mb_write_at pos l m : mb_wf m → (pos + length l ≤ mb_wr m)%nat → ∃ m',
  mb_write pos l m = (Ok tt, m') ∧ mb_wf m' ∧ mb_rd m' = mb_rd m ∧ mb_wr m' = mb_wr m ∧
  mb_written m' = take pos (mb_written m) ++ l ++ drop (pos + length l) (mb_written m).
Proof.
  intros [Hr Hw] Hl. unfold mb_write. rewrite decide_True by lia. eexists. split; [done|].
  unfold mb_wf, mb_written, mb_capacity in *. cbn [mb_rd mb_wr mb_buffer].
  assert (Ht : length (take pos (mb_buffer m)) = pos) by (rewrite length_take; lia).
  rewrite !length_app, length_drop, Ht. split_and!; try done; try lia.
  rewrite take_app_ge by lia. rewrite Ht, take_app_ge by lia. rewrite take_take.
  rewrite Nat.min_l by lia. do 2 f_equal. rewrite take_drop_commute. do 2 f_equal. lia.
Qed.

(** In particular at the base of the block. *)
Lemma mb_write_base l m : mb_wf m → (length l ≤ mb_wr m)%nat → ∃ m',
  mb_write 0 l m = (Ok tt, m') ∧ mb_wf m' ∧ mb_rd m' = mb_rd m ∧ mb_wr m' = mb_wr m ∧
  mb_written m' = l ++ drop (length l) (mb_written m).
Proof. apply (mb_write_at 0). Qed.

Lemma send_block_length size body m : send_block size body m →
  mb_length m = (size + length body)%nat ∧ length (mb_written m) = (size + length body)%nat.
Proof.
  intros ([Hr Hw] & Hrd & Hs & <-). unfold mb_length, mb_written, mb_capacity in *.
  rewrite length_drop, length_take. lia.
Qed.

Lemma getBodySize_ok size body m : send_block size body m →
  Z.of_nat (length body) < 2 ^ 16 → getBodySize size m = Z.of_nat (length body).
Proof.
  intros Hm Hl. unfold getBodySize. destruct (send_block_length _ _ _ Hm) as [-> _].
  rewrite uint_id; unfold is_uint; lia.
Qed.

(** The base class's [encode]: the header goes into the reserved bytes. *)
Lemma base_encode_ok be size bs mt body m :
  (CsPacketHeader_size ≤ size)%nat → send_block size body m → is_uint 16 bs →
  isValidMessage mt = true → ∃ m',
  base_encode be size (mkHeader bs mt) m = (Ok (true, mkHeader bs mt), m') ∧
  send_block size body m' ∧
  mb_written m' = header_write be (mkHeader bs mt) ++ drop CsPacketHeader_size (mb_written m).
Proof.
  intros Hs Hm Hbs Hmt. pose proof (send_block_length _ _ _ Hm) as [Hlen _].
  pose proof Hm as (Hwf & Hrd & Hwr & Hbody).
  destruct (mb_write_base (header_write be (mkHeader bs mt)) m Hwf)
    as (m' & E & Hwf' & Hrd' & Hwr' & Hw'); [rewrite length_header_write; lia|].
  rewrite length_header_write in Hw'. exists m'. unfold base_encode.
  rewrite header_valid by (done || apply Hbs). rewrite (bind_ok get_st _ m m m eq_refl).
  unfold isValidPacket. rewrite bool_decide_true by lia. st_step E. split; [done|]. split; [|done].
  split_and!; [done|lia|lia|]. rewrite Hw', <- Hbody.
  rewrite drop_app_ge by (by rewrite length_header_write).
  rewrite length_header_write, drop_drop. f_equal. lia.
Qed.

Lemma on_block_run {C A} (m : st MemoryBlock A) (c : C) b r b' :
  m b = (r, b') → on_block m (c, b) = (r, (c, b')).
Proof. intros E. unfold on_block, zoom. cbn. by rewrite E. Qed.

Lemma base_readHeader_ok be size h m : (CsPacketHeader_size ≤ size)%nat →
  mb_wf m → (size ≤ mb_length m)%nat →
  let h' := header_read be (mb_contents m) in
  base_readHeader be size h m = (Ok (header_isValid h', h'), m).
Proof.
  intros Hs Hwf Hl h'. unfold base_readHeader. rewrite (bind_ok get_st _ m m m eq_refl).
  unfold isValidPacket. rewrite bool_decide_true by lia.
  assert (E : mb_read (mb_rd m) CsPacketHeader_size m =
    (Ok (take CsPacketHeader_size (mb_contents m)), m)).
  { unfold mb_read. destruct Hwf. unfold mb_length in Hl. rewrite decide_True by lia.
    unfold mb_contents, mb_length. rewrite take_take, Nat.min_l by lia. done. }
  st_step E. rewrite header_read_take; [done|]. rewrite mb_contents_length by done. lia.
Qed.

(** A packet of a plain header is framed by its body. *)
Lemma header_framed be size mt body rest : (CsPacketHeader_size ≤ size)%nat →
  Z.of_nat (length body) < 2 ^ 16 → isValidMessage mt = true →
  length rest = (size - CsPacketHeader_size)%nat →
  framed size mt (header_write be (mkHeader (Z.of_nat (length body)) mt) ++ rest ++ body).
Proof.
  intros Hs Hl Hmt Hr. unfold framed. rewrite !length_app, length_header_write, Hr.
  split_and!; [done|lia|]. rewrite header_write_read.
  - do 2 f_equal. lia.
  - unfold is_uint; lia.
  - by apply isValidMessage_uint.
Qed.

#[global] Instance CsPacketCoder_spec : PacketCoderSpec CsPacketCoder.
Proof.
  refine {|
    pc_sync _ _ := True;
    pc_size := CsPacketHeader_size;
    pc_padding _ := O;
  |}.
  - done.
  - done.
  - intros h c m _ Hwf Hl. by apply base_readHeader_ok.
  - intros s r mt body m _ Hmt Hm Hl. rewrite Nat.add_0_r in *.
    rewrite (getBodySize_ok _ body) by done.
    destruct (base_encode_ok false CsPacketHeader_size (Z.of_nat (length body)) mt body m)
      as (m' & E & Hm' & Hw'); [done|done|unfold is_uint; lia|done|].
    exists (mkHeader (Z.of_nat (length body)) mt), s, r, m', (mb_written m').
    destruct Hm as (_ & _ & _ & Hbody). rewrite Hbody in Hw'.
    assert (Hfr := header_framed false CsPacketHeader_size mt body [] ltac:(done) Hl Hmt eq_refl).
    destruct Hm' as (Hwf' & Hrd' & Hwr' & Hbody').
    split_and!; try done.
    + by apply on_block_run.
    + by rewrite Hw'.
    + intros b Hwf Hrd Hw. exists b. split_and!; try done.
      * apply (f_equal length) in Hw. unfold mb_written in Hw. rewrite !length_take in Hw.
        destruct Hwf, Hwf'. unfold mb_capacity in *. lia.
      * by rewrite app_nil_r, Hw, Hbody'.
Defined.
