(* ===== verification/Marshaller.v ===== *)
(** * sgp/session: the marshaller

    Models [SgpMarshaller] ([src/src/sgp/session/SgpMarshaller.{h,cpp}]) over any
    [PacketCoder]: it frames the messages to send, and cuts the bytes received
    into messages that it hands to a callback.  The main theorem is that the
    receiver delivers exactly the messages sent, in order, however the network
    cuts the bytes into chunks. *)

From S2P Require Import Prelude BitList StreamBuffer MemoryBlock ByteStream Packet.

Record SgpMarshaller (C : Type) := mkMarshaller {
  packetHeaderSize_ : nat;
  packetCoder_ : C;
  headerForReceive_ : CsPacketHeader;
  recvBlock_ : MemoryBlock;
  msgBlock_ : MemoryBlock;
}.
Arguments mkMarshaller {C} _ _ _ _ _.
Arguments packetHeaderSize_ {C} _.
Arguments packetCoder_ {C} _.
Arguments headerForReceive_ {C} _.
Arguments recvBlock_ {C} _.
Arguments msgBlock_ {C} _.

(** The exceptions derived from [core::Exception]. *)
Definition is_core_exception (e : exn) : bool :=
  match e with
  | StreamingException _ | UnknownRpcMethodException | NotDefinedConfigError _ _ => true
  | BadAlloc | RuntimeError _ | ComError _ | AdoException _ | OutOfFuel | Undefined _ => false
  end.

Section marshaller.
Context {C : Type} `{PacketCoder C}.

Definition newMarshaller (coder : C) (recvBlock msgBlock : MemoryBlock) : SgpMarshaller C :=
  mkMarshaller (pc_headerSize coder) coder newHeader recvBlock msgBlock.

Definition set_coder (c : C) (m : SgpMarshaller C) : SgpMarshaller C :=
  mkMarshaller (packetHeaderSize_ m) c (headerForReceive_ m) (recvBlock_ m) (msgBlock_ m).
Definition set_header (h : CsPacketHeader) (m : SgpMarshaller C) : SgpMarshaller C :=
  mkMarshaller (packetHeaderSize_ m) (packetCoder_ m) h (recvBlock_ m) (msgBlock_ m).
Definition set_recv (b : MemoryBlock) (m : SgpMarshaller C) : SgpMarshaller C :=
  mkMarshaller (packetHeaderSize_ m) (packetCoder_ m) (headerForReceive_ m) b (msgBlock_ m).
Definition set_msg (b : MemoryBlock) (m : SgpMarshaller C) : SgpMarshaller C :=
  mkMarshaller (packetHeaderSize_ m) (packetCoder_ m) (headerForReceive_ m) (recvBlock_ m) b.

Definition marshaller_reset (m : SgpMarshaller C) : SgpMarshaller C :=
  mkMarshaller (packetHeaderSize_ m) (pc_reset (packetCoder_ m)) (header_reset (headerForReceive_ m))
    (mb_reset (recvBlock_ m)) (mb_reset (msgBlock_ m)).

(** [marshal], on a block from [acquireSendBlock] that holds a message. *)
Definition acquireSendBlock (m : SgpMarshaller C) (mblock : MemoryBlock) : MemoryBlock :=
  reserveHeader (pc_headerSize (packetCoder_ m)) mblock.

Definition on_coder_block {A} (a : st (C * MemoryBlock) A) : st (SgpMarshaller C * MemoryBlock) A :=
  zoom (λ s, (packetCoder_ s.1, s.2)) (λ t s, (set_coder t.1 s.1, t.2)) a.

Definition marshal (messageType : Z) : st (SgpMarshaller C * MemoryBlock) bool :=
  s ← get_st;
  let size := pc_headerSize (packetCoder_ s.1) in
  if negb (isValidPacket size s.2) then mret false
  else
    let header := mkHeader (getBodySize size s.2) messageType in
    r ← on_coder_block (pc_encode header);
    mret r.1.

(** The messages of a session, each in its block, marshalled one after the other
    and put on the wire; [None] when one is refused. *)
Fixpoint marshal_all (blocks : list (Z * MemoryBlock)) (m : SgpMarshaller C)
  : option (list Z * SgpMarshaller C) :=
  match blocks with
  | [] => Some ([], m)
  | (mt, b) :: blocks =>
      match marshal mt (m, b) with
      | (Ok true, (m', b')) =>
          '(wire, m'') ← marshal_all blocks m'; Some (mb_contents b' ++ wire, m'')
      | _ => None
      end
  end.

(** ** Receiving *)

Definition isPacketHeaderArrived (m : SgpMarshaller C) : bool :=
  bool_decide (packetHeaderSize_ m ≤ mb_length (recvBlock_ m))%nat.
Definition messageSize (m : SgpMarshaller C) : nat :=
  (packetHeaderSize_ m + Z.to_nat (bodySize_ (headerForReceive_ m)))%nat.
Definition isMessageArrived (m : SgpMarshaller C) : bool :=
  bool_decide (messageSize m ≤ mb_length (recvBlock_ m))%nat.

Definition parseHeader : st (SgpMarshaller C) bool :=
  m ← get_st;
  if header_isValid (headerForReceive_ m) then mret true
  else
    r ← zoom recvBlock_ set_recv (pc_readHeader (headerForReceive_ m) (packetCoder_ m));
    modify (set_header r.2) ;;
    mret r.1.

Definition parseMessage : st (SgpMarshaller C) bool :=
  m ← get_st;
  let size := messageSize m in
  modify (set_msg (mb_set_size size (mb_reset (msgBlock_ m)))) ;;
  bytes ← zoom recvBlock_ set_recv (mb_read (mb_rd (recvBlock_ m)) size);
  zoom msgBlock_ set_msg (mb_copyFrom bytes) ;;
  modify (λ m, set_recv (mb_crunch (mb_advance_rd size (recvBlock_ m))) m) ;;
  ok ← zoom (λ m, (packetCoder_ m, msgBlock_ m)) (λ t m, set_msg t.2 (set_coder t.1 m)) pc_decode;
  if negb ok then mret false
  else
    modify (λ m, set_msg (advanceToBody (pc_headerSize (packetCoder_ m)) (msgBlock_ m)) m) ;;
    h ← gets headerForReceive_;
    mret (isValidMessage (messageType_ h)).

(** The callback works on the message block and on the world [W] around the
    marshaller. *)
Context {W : Type} (messageUnmarshalled : Z → st (MemoryBlock * W) bool).

Definition on_marshaller {A} (a : st (SgpMarshaller C) A) : st (SgpMarshaller C * W) A :=
  zoom fst (λ m s, (m, s.2)) a.

(** [try { callback } catch (const core::Exception&) { return false; }] *)
Definition try_callback (mt : Z) : st (SgpMarshaller C * W) bool := λ s,
  let '(r, (b, w)) := messageUnmarshalled mt (msgBlock_ s.1, s.2) in
  let s' := (set_msg b s.1, w) in
  match r with
  | Ok ok => (Ok ok, s')
  | Throw e => if is_core_exception e then (Ok false, s') else (Throw e, s')
  end.

(** The loop of [unmarshal].  Every turn takes a packet off the received block,
    so its length is fuel enough. *)
Fixpoint unmarshal_loop (fuel : nat) (count : nat) : st (SgpMarshaller C * W) (bool * nat) :=
  match fuel with
  | O => throw OutOfFuel
  | S fuel =>
      m ← gets fst;
      if negb (isPacketHeaderArrived m) then mret (true, count)
      else
        ok ← on_marshaller parseHeader;
        if negb ok then mret (false, count)
        else
          m ← gets fst;
          if negb (isMessageArrived m) then mret (true, count)
          else
            ok ← on_marshaller parseMessage;
            if negb ok then mret (false, count)
            else
              m ← gets fst;
              ok ← try_callback (messageType_ (headerForReceive_ m));
              if negb ok then mret (false, S count)
              else
                on_marshaller (modify (λ m, set_header (header_reset (headerForReceive_ m)) m)) ;;
                unmarshal_loop fuel (S count)
  end.

Definition unmarshal (count : nat) : st (SgpMarshaller C * W) (bool * nat) :=
  m ← gets fst; unmarshal_loop (S (mb_length (recvBlock_ m))) count.

(** The session's side of [recvBlock_] ([TcpSessionImpl::readMessage] and
    [messageBlockReceived]): room is made for a third of the capacity, the socket
    puts a chunk no longer than the room behind the write position. *)
Definition prepareRead : st (SgpMarshaller C) unit :=
  zoom recvBlock_ set_recv (modify (λ b, mb_reserve (mb_capacity b / 3) b)).

Definition receive (chunk : list Z) : st (SgpMarshaller C * W) (bool * nat) :=
  on_marshaller (zoom recvBlock_ set_recv
    (wr ← gets mb_wr; mb_write wr chunk ;; modify (mb_advance_wr (length chunk)))) ;;
  unmarshal 0.

(** Reads of a connection: of the bytes [wire] still in the network, the [i]th
    read gets as many as the [i]th number of [ks] says and the room allows.  The
    session stops at the first failure. *)
Fixpoint receive_all (ks : list nat) (wire : list Z) : st (SgpMarshaller C * W) (bool * list Z) :=
  match ks with
  | [] => mret (true, wire)
  | k :: ks =>
      on_marshaller prepareRead ;;
      room ← gets (λ s, mb_space (recvBlock_ s.1));
      let n := Nat.min k room in
      r ← receive (take n wire);
      if negb r.1 then mret (false, drop n wire) else receive_all ks (drop n wire)
  end.
End marshaller.

(** ** What the receiver delivers *)

Section delivery.
Context {C : Type} `{HC : PacketCoderSpec C}.

(** [wire] is the packets of [msgs], for a receiver whose coder is [r]. *)
Inductive deliverable : C → list (Z * list Z) → list Z → Prop :=
| deliverable_nil r : (∃ d, pc_sync d r) → deliverable r [] []
| deliverable_cons r r' mt body p msgs wire :
    (∃ d, pc_sync d r) → isValidMessage mt = true → framed pc_size mt p →
    decodes pc_size r p body r' → deliverable r' msgs wire →
    deliverable r ((mt, body) :: msgs) (p ++ wire).

Lemma deliverable_sync r msgs wire : deliverable r msgs wire → ∃ d, pc_sync d r.
Proof. by destruct 1. Qed.

Context {W : Type} (cb : Z → st (MemoryBlock * W) bool).

(** [Ready msgs w]: in the world [w] the callback will accept the messages [msgs],
    one after the other. *)
Context (Ready : list (Z * list Z) → W → Prop).
Definition takes : Prop := ∀ mt body msgs b w,
  Ready ((mt, body) :: msgs) w → mb_wf b → mb_contents b = body → ∃ b' w',
  cb mt (b, w) = (Ok true, (b', w')) ∧ mb_wf b' ∧ Ready msgs w'.
Context (Hcb : takes).

(** Between two turns of the loop: [c] is what was received and not parsed, and
    the header, if one is kept, is the one at the head of [c]. *)
Record marshaller_inv (m : SgpMarshaller C) (c : list Z) : Prop := {
  mi_size : packetHeaderSize_ m = pc_size;
  mi_recv : mb_wf (recvBlock_ m);
  mi_contents : mb_contents (recvBlock_ m) = c;
  mi_msg : mb_wf (msgBlock_ m);
  mi_header : header_isValid (headerForReceive_ m) = true →
    (pc_size ≤ length c)%nat ∧ headerForReceive_ m = header_read false c;
}.

Lemma framed_read size mt p rest : framed size mt p →
  header_read false (p ++ rest) = mkHeader (Z.of_nat (length p - size)) mt.
Proof. intros (Hs & Hp & <-). apply header_read_app. lia. Qed.

(** Parsing the header of a packet that heads the received bytes. *)
Lemma parseHeader_ok m c mt : marshaller_inv m c → (pc_size ≤ length c)%nat →
  (∃ d, pc_sync d (packetCoder_ m)) → isValidMessage mt = true →
  (∃ n, header_read false c = mkHeader (Z.of_nat n) mt) →
  parseHeader m = (Ok true, set_header (header_read false c) m).
Proof.
  intros [Hsz Hwf Hc Hmsg Hh] Hl Hsync Hmt [n Hr]. unfold parseHeader.
  rewrite (bind_ok get_st _ m m m eq_refl).
  destruct (header_isValid (headerForReceive_ m)) eqn:Ev.
  - destruct (Hh eq_refl) as [_ <-]. by destruct m.
  - assert (E : zoom recvBlock_ set_recv (pc_readHeader (headerForReceive_ m) (packetCoder_ m)) m =
      (Ok (true, header_read false c), m)).
    { pose proof (mb_contents_length _ Hwf) as Hlen. rewrite Hc in Hlen. unfold zoom.
      rewrite (pc_readHeader_ok _ _ (recvBlock_ m)) by (done || lia).
      rewrite Hc, Hr, header_valid by (done || lia). by destruct m. }
    by st_step E.
Qed.

Lemma zoom_ok {S T A} (g : S → T) (p : T → S → S) (a : st T A) s r t :
  a (g s) = (r, t) → zoom g p a s = (r, p t s).
Proof. apply zoom_run. Qed.

(** Reading at the head of the received bytes. *)
Lemma mb_read_head b p c : mb_wf b → mb_contents b = p ++ c →
  mb_read (mb_rd b) (length p) b = (Ok p, b).
Proof.
  intros Hwf Hc. pose proof (mb_contents_length b Hwf) as Hl. rewrite Hc, length_app in Hl.
  destruct Hwf as [Hr Hw]. unfold mb_length in Hl. unfold mb_read. rewrite decide_True by lia.
  do 2 f_equal.
  assert (E : take (length p) (mb_contents b) = p) by (by rewrite Hc, take_app_length).
  unfold mb_contents, mb_length in E. by rewrite take_take, Nat.min_l in E by lia.
Qed.

Lemma mb_consume b p c : mb_wf b → mb_contents b = p ++ c →
  let b' := mb_crunch (mb_advance_rd (length p) b) in
  mb_wf b' ∧ mb_contents b' = c ∧ mb_capacity b' = mb_capacity b.
Proof.
  intros Hwf Hc. pose proof (mb_contents_length b Hwf) as Hl. rewrite Hc, length_app in Hl.
  destruct (mb_advance_rd_spec (length p) b Hwf) as [Hwf1 Hc1]; [lia|].
  destruct (mb_crunch_spec _ Hwf1) as (Hwf2 & Hc2 & Hcap2 & _).
  split_and!; [done| |done]. by rewrite Hc2, Hc1, Hc, drop_app_length.
Qed.

Lemma advanceToBody_ok size b body : mb_wf b → (size ≤ mb_wr b)%nat →
  drop size (mb_written b) = body →
  mb_wf (advanceToBody size b) ∧ mb_contents (advanceToBody size b) = body.
Proof.
  intros [Hr Hw] Hs Hb. assert (Hwf' : mb_wf (advanceToBody size b)) by (split; [exact Hs|exact Hw]).
  split; [done|]. by rewrite mb_contents_written.
Qed.

Lemma parseMessage_ok m p body r' c mt :
  packetHeaderSize_ m = pc_size → mb_wf (recvBlock_ m) → mb_contents (recvBlock_ m) = p ++ c →
  headerForReceive_ m = mkHeader (Z.of_nat (length p - pc_size)) mt → (pc_size ≤ length p)%nat →
  isValidMessage mt = true → decodes pc_size (packetCoder_ m) p body r' →
  (∃ d, pc_sync d r') → ∃ m',
  parseMessage m = (Ok true, m') ∧ packetHeaderSize_ m' = pc_size ∧ packetCoder_ m' = r' ∧
  headerForReceive_ m' = headerForReceive_ m ∧
  mb_wf (recvBlock_ m') ∧ mb_contents (recvBlock_ m') = c ∧
  mb_capacity (recvBlock_ m') = mb_capacity (recvBlock_ m) ∧
  mb_wf (msgBlock_ m') ∧ mb_contents (msgBlock_ m') = body.
Proof.
  intros Hsz Hwf Hc Hh Hp Hmt Hd [d Hsync]. unfold parseMessage.
  rewrite (bind_ok get_st _ m m m eq_refl).
  assert (Hms : messageSize m = length p)
    by (unfold messageSize; rewrite Hsz, Hh; cbn [bodySize_]; lia).
  rewrite Hms. destruct m as [sz coder h recv msg].
  cbn [packetHeaderSize_ packetCoder_ headerForReceive_ recvBlock_ msgBlock_] in *. subst sz h.
  rewrite (bind_ok _ _ _ _ _ (modify_run _ _)). cbn [recvBlock_ set_msg].
  erewrite bind_ok by (apply zoom_ok; cbn; by apply (mb_read_head recv p c)).
  set (msg0 := mb_set_size (length p) (mb_reset msg)).
  assert (Hwf0 : mb_wf msg0) by (split; simpl; lia).
  destruct (mb_copyFrom_spec p msg0 Hwf0) as (msg1 & E1 & Hwf1 & Hrd1 & Hwr1 & Hw1).
  erewrite bind_ok by (apply zoom_ok; exact E1).
  rewrite (bind_ok _ _ _ _ _ (modify_run _ _)).
  destruct (Hd msg1 Hwf1) as (msg2 & E2 & Hwf2 & Hrd2 & Hs2 & Hw2);
    [by rewrite Hrd1|by rewrite Hw1|].
  erewrite bind_ok by (apply zoom_ok; exact E2). cbn [negb].
  rewrite (bind_ok _ _ _ _ _ (modify_run _ _)).
  eexists. split; [unfold gets; erewrite bind_ok by reflexivity; cbn; rewrite Hmt; reflexivity|].
  destruct (mb_consume recv p c Hwf Hc) as (Hwf3 & Hc3 & Hcap3).
  cbn. rewrite (pc_headerSize_ok r') by eauto.
  destruct (advanceToBody_ok pc_size msg2 body Hwf2 Hs2 Hw2) as [Hwf4 Hc4].
  split_and!; done.
Qed.

(** The bytes at hand are a part of the wire: whole packets head it, or one that
    is cut. *)
Lemma deliverable_inv r msgs wire : deliverable r msgs wire →
  (msgs = [] ∧ wire = []) ∨
  ∃ r' mt body p msgs' wire', msgs = (mt, body) :: msgs' ∧ wire = p ++ wire' ∧
    isValidMessage mt = true ∧ framed pc_size mt p ∧ decodes pc_size r p body r' ∧
    deliverable r' msgs' wire'.
Proof.
  destruct 1 as [|r r' mt body p msgs wire]; [by left|right].
  by exists r', mt, body, p, msgs, wire.
Qed.

Lemma app_split_le {A} (c rest p wire : list A) : c ++ rest = p ++ wire →
  (length p ≤ length c)%nat → ∃ c', c = p ++ c' ∧ wire = c' ++ rest.
Proof.
  intros E Hl. exists (drop (length p) c).
  pose proof (f_equal (take (length p)) E) as Et. rewrite take_app_le, take_app_length in Et by done.
  pose proof (f_equal (drop (length p)) E) as Ed. rewrite drop_app_le, drop_app_length in Ed by done.
  split; [|done]. rewrite <- Et at 1. by rewrite take_drop.
Qed.

Lemma try_callback_ok (m : SgpMarshaller C) w mt body msgs : mb_wf (msgBlock_ m) →
  mb_contents (msgBlock_ m) = body → Ready ((mt, body) :: msgs) w → ∃ b' w',
  try_callback cb mt (m, w) = (Ok true, (set_msg b' m, w')) ∧ mb_wf b' ∧ Ready msgs w'.
Proof.
  intros Hwf Hc Hr. destruct (Hcb mt body msgs (msgBlock_ m) w Hr Hwf Hc) as (b' & w' & E & Hwf' & Hr').
  exists b', w'. unfold try_callback. cbn. by rewrite E.
Qed.

Lemma on_marshaller_run {A} (a : st (SgpMarshaller C) A) m (w : W) r m' :
  a m = (r, m') → on_marshaller a (m, w) = (r, (m', w)).
Proof. intros E. unfold on_marshaller, zoom. cbn. by rewrite E. Qed.

Definition unmarshalled (count : nat) (m : SgpMarshaller C) (msgs : list (Z * list Z))
    (rest : list Z) (out : result (bool * nat) * (SgpMarshaller C * W)) : Prop :=
  ∃ now later m' w' c', msgs = now ++ later ∧
    out = (Ok (true, (count + length now)%nat), (m', w')) ∧ Ready later w' ∧
    marshaller_inv m' c' ∧ mb_capacity (recvBlock_ m') = mb_capacity (recvBlock_ m) ∧
    deliverable (packetCoder_ m') later (c' ++ rest) ∧ (rest = [] → later = []).

Lemma unmarshal_loop_ok fuel count m w msgs c rest :
  marshaller_inv m c → (length c < fuel)%nat → Ready msgs w →
  deliverable (packetCoder_ m) msgs (c ++ rest) →
  unmarshalled count m msgs rest (unmarshal_loop cb fuel count (m, w)).
Proof.
  revert count m w msgs c. induction fuel as [|fuel IH];
    intros count m w msgs c Hinv Hfuel Hready Hdel; [lia|].
  pose proof Hinv as [Hsz Hwf Hc Hmsg Hh]. pose proof (mb_contents_length _ Hwf) as Hlen.
  rewrite Hc in Hlen. pose proof (pc_size_ok (C := C)) as Hps.
  change CsPacketHeader_size with 3%nat in Hps.
  assert (Hstop : rest ≠ [] ∨ msgs = [] → ∀ m', marshaller_inv m' c →
    recvBlock_ m' = recvBlock_ m → packetCoder_ m' = packetCoder_ m →
    unmarshalled count m msgs rest (Ok (true, count), (m', w))).
  { intros Hr m' Hinv' Hrecv Hcoder. exists [], msgs, m', w, c. rewrite Hrecv, Hcoder, Nat.add_0_r.
    split_and!; try done. intros Hr'. by destruct Hr. }
  cbn [unmarshal_loop]. rewrite (bind_ok _ _ _ _ _ (gets_run _ _)). cbn [fst].
  unfold isPacketHeaderArrived. rewrite Hsz, <- Hlen.
  destruct (deliverable_inv _ _ _ Hdel) as
    [[-> [-> ->]%app_eq_nil]|(r' & mt & body & p & msgs' & wire & -> & Ew & Hmt & Hfr & Hdec & Hdel')].
  { rewrite bool_decide_false by (simpl; lia). apply Hstop; auto. }
  pose proof Hfr as (_ & Hp & _).
  case_bool_decide as Harr; cbn [negb].
  2:{ apply Hstop; auto. left. intros ->. rewrite app_nil_r in Ew.
      rewrite Ew, length_app in Harr. lia. }
  assert (Hhr : header_read false c = mkHeader (Z.of_nat (length p - pc_size)) mt).
  { rewrite <- (header_read_app false c rest) by (change CsPacketHeader_size with 3%nat; lia).
    rewrite Ew. by apply framed_read. }
  pose proof (parseHeader_ok m c mt Hinv ltac:(lia) (deliverable_sync _ _ _ Hdel) Hmt
    (ex_intro _ _ Hhr)) as Eh. rewrite Hhr in Eh.
  st_step (on_marshaller_run _ m w _ _ Eh). cbn [negb].
  rewrite (bind_ok _ _ _ _ _ (gets_run _ _)). cbn [fst snd].
  set (m1 := set_header _ m). unfold isMessageArrived.
  assert (Hms : messageSize m1 = length p)
    by (unfold messageSize; cbn; rewrite Hsz; lia).
  rewrite Hms. change (recvBlock_ m1) with (recvBlock_ m). rewrite <- Hlen.
  case_bool_decide as Hall; cbn [negb].
  2:{ assert (Hinv1 : marshaller_inv m1 c) by (split; try done; intros _; by split).
      apply Hstop; [left|exact Hinv1|done|done].
      intros ->. rewrite app_nil_r in Ew. rewrite Ew, length_app in Hall. lia. }
  destruct (app_split_le _ _ _ _ Ew Hall) as (c' & -> & ->).
  destruct (parseMessage_ok m1 p body r' c' mt) as
    (m2 & E2 & Hsz2 & Hcd2 & Hh2 & Hwf2 & Hc2 & Hcap2 & Hmwf2 & Hm2); try done.
  { by eapply deliverable_sync. }
  st_step (on_marshaller_run _ m1 w _ _ E2). cbn [negb].
  rewrite (bind_ok _ _ _ _ _ (gets_run _ _)). cbn [fst snd].
  rewrite Hh2. change (messageType_ (headerForReceive_ m1)) with mt.
  destruct (try_callback_ok m2 w mt body msgs' Hmwf2 Hm2 Hready) as (b' & w' & E3 & Hwf3 & Hready').
  st_step E3. cbn [negb]. rewrite (bind_ok _ _ _ _ _ (on_marshaller_run _ _ _ _ _ (modify_run _ _))).
  set (m3 := set_header _ (set_msg b' m2)).
  assert (Hinv3 : marshaller_inv m3 c') by (by split).
  destruct (IH (S count) m3 w' msgs' c' Hinv3)
    as (d & later & m4 & w4 & c4 & -> & E4 & Hready4 & Hinv4 & Hcap4 & Hdel4 & Hend4).
  - rewrite length_app in Hfuel. lia.
  - done.
  - change (packetCoder_ m3) with (packetCoder_ m2). by rewrite Hcd2.
  - exists ((mt, body) :: d), later, m4, w4, c4. rewrite E4. cbn [length].
    split_and!; try done; [do 3 f_equal; lia|].
    rewrite Hcap4. change (recvBlock_ m3) with (recvBlock_ m2). by rewrite Hcap2.
Qed.

(** ** A connection *)

Lemma mb_write_end b l : mb_wf b → (length l ≤ mb_space b)%nat → ∃ b',
  (wr ← gets mb_wr; mb_write wr l ;; modify (mb_advance_wr (length l))) b = (Ok tt, b') ∧
  mb_wf b' ∧ mb_contents b' = mb_contents b ++ l ∧ mb_capacity b' = mb_capacity b.
Proof.
  intros Hwf Hl. unfold mb_space in Hl. pose proof Hwf as [Hr Hw].
  set (b1 := mkMB (take (mb_wr b) (mb_buffer b) ++ l ++ drop (mb_wr b + length l) (mb_buffer b))
    (mb_rd b) (mb_wr b + length l)).
  assert (Hcap : mb_capacity b1 = mb_capacity b).
  { unfold mb_capacity in *. cbn. rewrite !length_app, length_take, length_drop. lia. }
  assert (Hwf1 : mb_wf b1) by (unfold mb_wf; rewrite Hcap; cbn; lia).
  exists b1. split_and!; [|done| |done].
  - rewrite (bind_ok _ _ _ _ _ (gets_run _ _)). unfold mb_write, mbind, st_bind.
    by rewrite decide_True by lia.
  - apply mb_append_contents; [done|done|done|]. unfold mb_written. cbn.
    rewrite app_assoc, take_app_length'; [done|]. unfold mb_capacity in Hw.
    rewrite length_app, length_take. lia.
Qed.

Lemma receive_ok chunk m w msgs c rest :
  marshaller_inv m c → (length chunk ≤ mb_space (recvBlock_ m))%nat →
  Ready msgs w → deliverable (packetCoder_ m) msgs ((c ++ chunk) ++ rest) →
  unmarshalled 0 m msgs rest (receive cb chunk (m, w)).
Proof.
  intros [Hsz Hwf Hc Hmsg Hh] Hl Hready Hdel. pose proof (pc_size_ok (C := C)) as Hps.
  destruct (mb_write_end _ _ Hwf Hl) as (b' & E & Hwf' & Hc' & Hcap').
  unfold receive. st_step (on_marshaller_run _ m w _ _ (zoom_ok recvBlock_ set_recv _ m _ _ E)).
  unfold unmarshal. rewrite (bind_ok _ _ _ _ _ (gets_run _ _)). cbn [fst].
  assert (Hinv : marshaller_inv (set_recv b' m) (c ++ chunk)).
  { split; [done|done|by rewrite <- Hc|done|]. intros Hv. destruct (Hh Hv) as [Hlc Heq].
    rewrite length_app. split; [lia|]. rewrite header_read_app by lia. exact Heq. }
  destruct (unmarshal_loop_ok (S (mb_length (recvBlock_ (set_recv b' m)))) 0 _ w msgs _ rest Hinv)
    as (d & later & m' & w' & c' & H1 & H2 & H3 & H4 & H5 & H6 & H7); [|done|done|].
  { rewrite <- mb_contents_length by apply Hinv. rewrite (mi_contents _ _ Hinv). lia. }
  exists d, later, m', w', c'. split_and!; try done. by rewrite H5.
Qed.

Lemma prepareRead_ok m c : marshaller_inv m c → (3 ≤ mb_capacity (recvBlock_ m))%nat → ∃ m',
  prepareRead m = (Ok tt, m') ∧ marshaller_inv m' c ∧ packetCoder_ m' = packetCoder_ m ∧
  (3 ≤ mb_capacity (recvBlock_ m'))%nat ∧ (0 < mb_space (recvBlock_ m'))%nat.
Proof.
  intros [Hsz Hwf Hc Hmsg Hh] Hcap. set (n := (mb_capacity (recvBlock_ m) / 3)%nat).
  assert (Hn : (1 ≤ n)%nat) by (apply (Nat.div_le_mono 3 _ 3); lia).
  destruct (mb_reserve_spec n _ Hwf) as (Hwf' & Hrd & Hwr & Hroom & Hw).
  set (b' := mb_reserve n (recvBlock_ m)) in *.
  exists (set_recv b' m). split; [by apply zoom_ok|].
  assert (Hc' : mb_contents b' = c).
  { rewrite <- Hc, !mb_contents_written by done. by rewrite Hrd, Hw. }
  assert (Hge : (mb_capacity (recvBlock_ m) ≤ mb_capacity b')%nat).
  { subst b'. unfold mb_reserve. case_decide; [|done].
    unfold mb_set_size, mb_capacity. cbn. rewrite length_resize. lia. }
  split_and!; try done; [cbn; lia|]. cbn. unfold mb_space. lia.
Qed.

(** Whatever the sizes of the reads, a prefix of the messages sent is taken, in
    order and once; when the network has given every byte, all of them are. *)
Lemma receive_all_ready ks wire m w msgs c :
  marshaller_inv m c → (3 ≤ mb_capacity (recvBlock_ m))%nat → Ready msgs w →
  deliverable (packetCoder_ m) msgs (c ++ wire) → ∃ now later m' w' c' wire',
  msgs = now ++ later ∧ Ready later w' ∧
  receive_all cb ks wire (m, w) = (Ok (true, wire'), (m', w')) ∧
  marshaller_inv m' c' ∧ deliverable (packetCoder_ m') later (c' ++ wire') ∧
  (ks ≠ [] → Forall (λ k, 0 < k)%nat ks → (length wire ≤ length ks)%nat → later = [] ∧ wire' = []).
Proof.
  revert wire m w msgs c. induction ks as [|k ks IH]; intros wire m w msgs c Hinv Hcap Hready Hdel.
  { by exists [], msgs, m, w, c, wire. }
  destruct (prepareRead_ok m c Hinv Hcap) as (m1 & E1 & Hinv1 & Hcd1 & Hcap1 & Hsp1).
  cbn [receive_all]. st_step (on_marshaller_run _ m w _ _ E1).
  rewrite (bind_ok _ _ _ _ _ (gets_run _ _)). cbn [fst].
  set (n := Nat.min k (mb_space (recvBlock_ m1))).
  rewrite <- (take_drop n wire), app_assoc, <- Hcd1 in Hdel.
  destruct (receive_ok (take n wire) m1 w msgs c (drop n wire) Hinv1)
    as (d1 & later1 & m2 & w2 & c2 & -> & E2 & Hready2 & Hinv2 & Hcap2 & Hdel2 & Hend2);
    [rewrite length_take; lia|done|done|].
  st_step E2. cbn [fst negb].
  destruct (IH (drop n wire) m2 w2 later1 c2 Hinv2)
    as (d2 & later & m' & w' & c' & wire' & -> & Hready3 & E3 & Hinv3 & Hdel3 & Hend3);
    [by rewrite Hcap2|done|done|].
  exists (d1 ++ d2), later, m', w', c', wire'. rewrite E3. split_and!; try done.
  - by rewrite app_assoc.
  - intros _ Hk Hlen. apply Forall_cons in Hk as [Hk Hks]. cbn [length] in Hlen.
    assert (Hd : (length (drop n wire) ≤ length ks)%nat) by (rewrite length_drop; lia).
    destruct ks as [|k' ks]; [|by apply Hend3].
    apply Nat.le_0_r, nil_length_inv in Hd. specialize (Hend2 Hd).
    apply app_eq_nil in Hend2 as [-> ->]. cbn in E3. injection E3 as Ew _. by rewrite <- Ew.
Qed.
End delivery.

(** *** A callback that accepts every message *)

Section accepting.
Context {C : Type} `{HC : PacketCoderSpec C} {W : Type}.
Context (cb : Z → st (MemoryBlock * W) bool) (deliver : Z * list Z → W → W).

(** The callback accepts every message and records it in the world. *)
Definition accepts : Prop := ∀ mt b w, mb_wf b → ∃ b',
  cb mt (b, w) = (Ok true, (b', deliver (mt, mb_contents b) w)) ∧ mb_wf b'.
Context (Hcb : accepts).

Definition deliver_all (msgs : list (Z * list Z)) (w : W) : W :=
  fold_left (λ w m, deliver m w) msgs w.

(** Whatever the sizes of the reads, the messages sent are delivered, in order
    and once; when the network has given every byte, all of them are. *)
Lemma receive_all_ok ks wire m w msgs c :
  marshaller_inv m c → (3 ≤ mb_capacity (recvBlock_ m))%nat →
  deliverable (packetCoder_ m) msgs (c ++ wire) → ∃ now later m' c' wire',
  msgs = now ++ later ∧
  receive_all cb ks wire (m, w) = (Ok (true, wire'), (m', deliver_all now w)) ∧
  marshaller_inv m' c' ∧ deliverable (packetCoder_ m') later (c' ++ wire') ∧
  (ks ≠ [] → Forall (λ k, 0 < k)%nat ks → (length wire ≤ length ks)%nat → later = [] ∧ wire' = []).
Proof.
  intros Hinv Hcap Hdel.
  destruct (receive_all_ready cb (λ later w', ∃ now, msgs = now ++ later ∧ w' = deliver_all now w))
    with (2 := Hinv) (3 := Hcap) (5 := Hdel) (ks := ks) (w := w)
    as (now & later & m' & w' & c' & wire' & Hm & (now' & Hm' & ->) & E & Hrest).
  - intros mt body later b w' (now & Hm & ->) Hwf <-. destruct (Hcb mt b (deliver_all now w) Hwf) as (b' & E & Hwf').
    eexists b', _. split_and!; [exact E|done|]. exists (now ++ [(mt, mb_contents b)]). split.
    + by rewrite <- app_assoc.
    + unfold deliver_all. by rewrite fold_left_app.
  - by exists [].
  - rewrite Hm in Hm'. apply app_inv_tail in Hm' as <-. by exists now, later, m', c', wire'.
Qed.
End accepting.

(** ** The sender *)

Section sender.
Context {C : Type} `{HC : PacketCoderSpec C}.

(** What arrives of a message: its body, with the coder's padding. *)
Definition padded (m : Z * list Z) : Z * list Z :=
  (m.1, m.2 ++ replicate (pc_padding (length m.2)) 0).

(** A message a sender accepts: a valid type, and a body its 16-bit size counts. *)
Definition sendable (m : Z * list Z) : Prop :=
  isValidMessage m.1 = true ∧ Z.of_nat (length (padded m).2) < 2 ^ 16.

Lemma marshal_ok mt body b m r : pc_sync (packetCoder_ m) r → sendable (mt, body) →
  send_block pc_size body b → ∃ m' b' r',
  marshal mt (m, b) = (Ok true, (m', b')) ∧ framed pc_size mt (mb_contents b') ∧
  decodes pc_size r (mb_contents b') (padded (mt, body)).2 r' ∧ pc_sync (packetCoder_ m') r'.
Proof.
  intros Hs [Hmt Hfit] Hb. pose proof (send_block_length _ _ _ Hb) as [Hlen _].
  unfold padded in Hfit. cbn [fst snd] in *. rewrite length_app, length_replicate in Hfit.
  destruct (pc_encode_ok _ r mt body b Hs Hmt Hb Hfit)
    as (h' & s' & r' & b' & p & E & Hwf & Hrd & Hw & Hfr & Hs' & Hd).
  exists (set_coder s' m), b', r'.
  assert (Hc : mb_contents b' = p) by (by rewrite mb_contents_written, Hrd, Hw by done).
  rewrite Hc. split_and!; try done. unfold marshal.
  rewrite (bind_ok get_st _ (m, b) (m, b) (m, b) eq_refl). cbn [fst snd].
  rewrite (pc_headerSize_ok (packetCoder_ m)) in * by eauto.
  unfold isValidPacket. rewrite bool_decide_true by lia. cbn [negb].
  assert (E' : on_coder_block (pc_encode (mkHeader (getBodySize pc_size b) mt)) (m, b) =
    (Ok (true, h'), (set_coder s' m, b'))).
  { unfold on_coder_block, zoom. cbn [fst snd]. by rewrite E. }
  by st_step E'.
Qed.

Lemma marshal_all_ok msgs blocks m r : pc_sync (packetCoder_ m) r →
  Forall sendable msgs →
  Forall2 (λ msg b, msg.1 = b.1 ∧ send_block pc_size msg.2 b.2) msgs blocks → ∃ wire m',
  marshal_all blocks m = Some (wire, m') ∧ deliverable r (padded <$> msgs) wire.
Proof.
  intros Hs Hf Hb. revert m r Hs Hf. induction Hb as [|[mt body] [mt' b] msgs blocks [Hmt Hb] Hbs IH];
    intros m r Hs Hf.
  - exists [], m. split; [done|]. constructor. eauto.
  - cbn [fst snd] in *. subst mt'. apply Forall_cons in Hf as [Hm Hf].
    destruct (marshal_ok mt body b m r Hs Hm Hb) as (m1 & b1 & r1 & E1 & Hfr & Hd & Hs1).
    destruct (IH m1 r1 Hs1 Hf) as (wire & m2 & E2 & Hdel).
    exists (mb_contents b1 ++ wire), m2. cbn [marshal_all]. rewrite E1, E2. split; [done|].
    rewrite fmap_cons. change (padded (mt, body)) with (mt, (padded (mt, body)).2).
    econstructor; eauto. apply Hm.
Qed.
End sender.
