(* ===== verification/SecurePacket.v ===== *)
(** * sgp/protocol/security and security/cipher: encrypted packets

    Models the block cipher around a CryptoPP engine
    ([src/src/security/cipher/BlockCipherImpl.h]), the cipher key generators
    ([src/src/sgp/protocol/security/CipherKeyGenerator.cpp]) and
    [SecurePacketCoder] ([SecurePacketCoder.{h,cpp}]), the decorator that pads,
    encrypts, fingerprints and checksums a packet.  CryptoPP's engine, boost's
    [rand48] and [crc_32_type] are parameters: the engine with the law that
    decryption undoes encryption, the generator as a state and its step, the
    checksum as a function.  The decorated component is [CsPacketCoder], as the
    factories create it. *)

From S2P Require Import Prelude BitList Bits StreamBuffer MemoryBlock ByteStream ByteStreamSpec.
From S2P Require Import Packet.

(** ** Decimal seeds: [formatString] with %d, and [atoi] *)

Fixpoint decimal_loop (fuel : nat) (n : Z) (acc : list Z) : list Z :=
  match fuel with
  | O => acc
  | S fuel =>
      let acc := (48 + n mod 10) :: acc in
      if n <? 10 then acc else decimal_loop fuel (n / 10) acc
  end.
Definition format_d (n : Z) : list Z :=
  if n <? 0 then 45 :: decimal_loop (Z.to_nat (- n + 1)) (- n) []
  else decimal_loop (Z.to_nat (n + 1)) n [].

Fixpoint atoi_digits (l : list Z) (acc : Z) : Z :=
  match l with
  | c :: l => if (48 <=? c) && (c <=? 57) then atoi_digits l (acc * 10 + (c - 48)) else acc
  | [] => acc
  end.
Definition is_space (c : Z) : bool := (c =? 32) || ((9 <=? c) && (c <=? 13)).
Fixpoint atoi (l : list Z) : Z :=
  match l with
  | [] => 0
  | c :: l' =>
      if is_space c then atoi l'
      else if c =? 45 then - atoi_digits l' 0
      else if c =? 43 then atoi_digits l' 0
      else atoi_digits l 0
  end.

Section secure.

(** ** The library code *)

(** A CryptoPP block cipher in one direction: from a key, a block to a block. *)
Context (BLOCKSIZE DEFAULT_KEYLENGTH : nat).
Context (encryptBlock decryptBlock : list Z → list Z → list Z).
(** [boost::crc_32_type] over a block of bytes. *)
Context (crc_32 : list Z → Z).
(** [boost::rand48]. *)
Context {R : Type} (rand48_seed : Z → R) (rand48_next : R → Z * R).

(** ** [BlockCipherAlgorithm] *)

Record BlockCipherAlgorithm := mkAlgorithm {
  engine_ : list Z;           (* the key schedule: the key last given to [SetKey] *)
  prevUpdatedKey_ : Z;
}.

(** [key[i] = (cipherKey >> i) || (cipherKey << i)], one [uint32_t] per word of
    the key. *)
Definition key_word (cipherKey : Z) (i : nat) : Z :=
  Z.b2z (negb (Z.shiftr cipherKey (Z.of_nat i) =? 0) ||
         negb (uint 32 (Z.shiftl cipherKey (Z.of_nat i)) =? 0)).
Definition engine_key (cipherKey : Z) : list Z :=
  mjoin ((λ i, le_split 4 (key_word cipherKey i)) <$> seq 0 (DEFAULT_KEYLENGTH / 4)).

Definition updateKey (cipherKey : Z) (a : BlockCipherAlgorithm) : BlockCipherAlgorithm :=
  if cipherKey =? prevUpdatedKey_ a then a else mkAlgorithm (engine_key cipherKey) cipherKey.

Definition newAlgorithm (uninitialised : list Z) : BlockCipherAlgorithm :=
  updateKey 0 (mkAlgorithm uninitialised 0xFFFFFFFF).

Definition precondition (input : list Z) : bool :=
  bool_decide (0 < length input)%nat && bool_decide (length input mod BLOCKSIZE = 0)%nat.

(** The loop of [process]: a turn takes a block off the input. *)
Fixpoint process (block : list Z → list Z) (fuel : nat) (input : list Z) : list Z :=
  match fuel, input with
  | S fuel, _ :: _ => block (take BLOCKSIZE input) ++ process block fuel (drop BLOCKSIZE input)
  | _, _ => []
  end.

(** ** [BlockCipherImpl]: [None] is the return value [false] *)

Record BlockCipherImpl := mkCipher {
  encryptor_ : BlockCipherAlgorithm;
  decryptor_ : BlockCipherAlgorithm;
}.

Definition encrypt (input : list Z) (cipherKey : Z) (c : BlockCipherImpl)
  : option (list Z) * BlockCipherImpl :=
  if precondition input then
    let e := updateKey cipherKey (encryptor_ c) in
    (Some (process (encryptBlock (engine_ e)) (length input) input), mkCipher e (decryptor_ c))
  else (None, c).

Definition decrypt (input : list Z) (cipherKey : Z) (c : BlockCipherImpl)
  : option (list Z) * BlockCipherImpl :=
  if precondition input then
    let d := updateKey cipherKey (decryptor_ c) in
    (Some (process (decryptBlock (engine_ d)) (length input) input), mkCipher (encryptor_ c) d)
  else (None, c).

(** ** [CipherKeyGenerator] *)

Inductive CipherKeyGenerator :=
| StaticCipherKeyGenerator (encryptSeed decryptSeed : Z)
| DynamicCipherKeyGenerator (encryptKey decryptKey : R).

Definition static_init : CipherKeyGenerator := StaticCipherKeyGenerator 0x20100301 0x20100301.
Definition dynamic_init : CipherKeyGenerator :=
  DynamicCipherKeyGenerator (rand48_seed 0x19720212) (rand48_seed 0x19720212).
Definition create (useDynamicKey : bool) : CipherKeyGenerator :=
  if useDynamicKey then dynamic_init else static_init.
Definition keygen_reset (g : CipherKeyGenerator) : CipherKeyGenerator :=
  match g with
  | StaticCipherKeyGenerator _ _ => static_init
  | DynamicCipherKeyGenerator _ _ => dynamic_init
  end.

Definition setEncryptCipherKey (newKey : Z) (g : CipherKeyGenerator) : CipherKeyGenerator :=
  match g with
  | StaticCipherKeyGenerator _ d => StaticCipherKeyGenerator newKey d
  | DynamicCipherKeyGenerator _ d => DynamicCipherKeyGenerator (rand48_seed (sint 32 newKey)) d
  end.
Definition setDecryptCipherKey (newKey : Z) (g : CipherKeyGenerator) : CipherKeyGenerator :=
  match g with
  | StaticCipherKeyGenerator e _ => StaticCipherKeyGenerator e newKey
  | DynamicCipherKeyGenerator e _ => DynamicCipherKeyGenerator e (rand48_seed (sint 32 newKey))
  end.

(** A dynamic generator is [mutable]: reading a key steps it. *)
Definition getEncryptCipherKey (g : CipherKeyGenerator) : Z * CipherKeyGenerator :=
  match g with
  | StaticCipherKeyGenerator e d => (e, g)
  | DynamicCipherKeyGenerator e d =>
      let '(k, e) := rand48_next e in (uint 32 k, DynamicCipherKeyGenerator e d)
  end.
Definition getDecryptCipherKey (g : CipherKeyGenerator) : Z * CipherKeyGenerator :=
  match g with
  | StaticCipherKeyGenerator e d => (d, g)
  | DynamicCipherKeyGenerator e d =>
      let '(k, d) := rand48_next d in (uint 32 k, DynamicCipherKeyGenerator e d)
  end.

(** ** The additional header *)

Definition getFingerPrint (cipherKey : Z) : Z := uint 16 (Z.shiftr cipherKey 5).
Definition getCheckSum (body : list Z) (fingerPrint : Z) : Z := Z.lor (uint 32 (crc_32 body)) fingerPrint.
Definition AdditionalPacketHeader_size : nat := 6.
Definition additional_write (fingerPrint checkSum : Z) : list Z :=
  packet_put false 2 fingerPrint ++ packet_put false 4 checkSum.
Definition additional_read (from : list Z) : Z * Z :=
  (packet_get false 2 from, packet_get false 4 (drop 2 from)).

(** ** [SecurePacketCoder]

    [sc_clock] is what [steady_clock::now()] returns, which the environment
    advances. *)
Record SecurePacketCoder := mkSecure {
  component_ : CsPacketCoder;
  cipherKeyGenerator_ : CipherKeyGenerator;
  cipher_ : BlockCipherImpl;
  cipherKeyPeriod_ : Z;
  cipherKeyTimeLimit_ : Z;
  sc_clock : Z;
}.

Definition rawPacketHeaderSize_ : nat := CsPacketHeader_size.
Definition securePacketHeaderSize_ : nat := rawPacketHeaderSize_ + AdditionalPacketHeader_size.

Definition set_keygen (g : CipherKeyGenerator) (c : SecurePacketCoder) : SecurePacketCoder :=
  mkSecure (component_ c) g (cipher_ c) (cipherKeyPeriod_ c) (cipherKeyTimeLimit_ c) (sc_clock c).
Definition set_cipher (x : BlockCipherImpl) (c : SecurePacketCoder) : SecurePacketCoder :=
  mkSecure (component_ c) (cipherKeyGenerator_ c) x (cipherKeyPeriod_ c) (cipherKeyTimeLimit_ c)
    (sc_clock c).

Definition extendCipherKeyTimeLimit (c : SecurePacketCoder) : SecurePacketCoder :=
  mkSecure (component_ c) (cipherKeyGenerator_ c) (cipher_ c) (cipherKeyPeriod_ c)
    (sc_clock c + cipherKeyPeriod_ c) (sc_clock c).
Definition shouldExchangeCipherSeed (c : SecurePacketCoder) : bool := 0 <? cipherKeyPeriod_ c.
Definition isCipherKeyExpired (c : SecurePacketCoder) : bool :=
  if negb (shouldExchangeCipherSeed c) then false else cipherKeyTimeLimit_ c <=? sc_clock c.
Definition secure_maxBodySize : Z :=
  CsPacketCoder_maxBodySize - Z.of_nat AdditionalPacketHeader_size.

Definition set_component (p : CsPacketCoder) (c : SecurePacketCoder) : SecurePacketCoder :=
  mkSecure p (cipherKeyGenerator_ c) (cipher_ c) (cipherKeyPeriod_ c) (cipherKeyTimeLimit_ c)
    (sc_clock c).

(** The constructor; the key schedules and the time limit start uninitialised. *)
Definition newSecure (useDynamicKey : bool) (cipherKeyPeriod : Z) (engine engine' : list Z)
    (timeLimit clock : Z) : SecurePacketCoder :=
  mkSecure tt (create useDynamicKey) (mkCipher (newAlgorithm engine) (newAlgorithm engine'))
    cipherKeyPeriod timeLimit clock.

Definition secure_reset (c : SecurePacketCoder) : SecurePacketCoder :=
  let c := set_component (pc_reset (component_ c)) c in
  extendCipherKeyTimeLimit (set_keygen (keygen_reset (cipherKeyGenerator_ c)) c).

(** [toCipherKey], and the two seed setters. *)
Definition toCipherKey (seed : list Z) : Z := uint 32 (atoi seed).
Definition setEncryptSeed (seed : list Z) (c : SecurePacketCoder) : SecurePacketCoder :=
  set_keygen (setEncryptCipherKey (toCipherKey seed) (cipherKeyGenerator_ c)) c.
Definition setDecryptSeed (seed : list Z) (c : SecurePacketCoder) : SecurePacketCoder :=
  set_keygen (setDecryptCipherKey (toCipherKey seed) (cipherKeyGenerator_ c)) c.

(** [generateCipherSeed(encryptSeed, decryptSeed)], [clock] being [clock()]. *)
Definition generateCipherSeed (clock : Z) : list Z * list Z :=
  let '(a, g) := rand48_next (rand48_seed (sint 32 clock)) in
  let '(b, _) := rand48_next g in (format_d a, format_d b).

(** Padding to whole cipher blocks. *)
Definition align_delta (bodySize : nat) : nat :=
  let mod_ := (bodySize mod BLOCKSIZE)%nat in
  if decide (0 < mod_)%nat then (BLOCKSIZE - mod_)%nat else O.
Definition align : st MemoryBlock unit :=
  if decide (BLOCKSIZE = 0)%nat then mret tt
  else
    m ← get_st;
    let delta := align_delta (mb_length m - securePacketHeaderSize_) in
    if decide (0 < delta)%nat then
      modify (mb_reserve delta) ;;
      wr ← gets mb_wr;
      mb_write wr (replicate delta 0) ;;
      modify (mb_advance_wr delta)
    else mret tt.

(** The bytes from [base() + headerSize] to [wr_ptr()]. *)
Definition packet_body (m : MemoryBlock) : list Z :=
  drop securePacketHeaderSize_ (mb_written m).

(** Encryption in place of a non-empty body. *)
Definition crypt_body (f : list Z → Z → BlockCipherImpl → option (list Z) * BlockCipherImpl)
    (cipherKey : Z) : st (SecurePacketCoder * MemoryBlock) bool :=
  s ← get_st;
  let body := packet_body s.2 in
  if decide (0 < length body)%nat then
    let '(out, x) := f body cipherKey (cipher_ s.1) in
    modify (λ s, (set_cipher x s.1, s.2)) ;;
    match out with
    | None => mret false
    | Some out => on_block (mb_write securePacketHeaderSize_ out) ;; mret true
    end
  else mret true.

Definition secure_encode (h : CsPacketHeader)
  : st (SecurePacketCoder * MemoryBlock) (bool * CsPacketHeader) :=
  m ← gets snd;
  if decide (mb_length m < securePacketHeaderSize_)%nat then mret (false, h)
  else
    on_block align ;;
    m ← gets snd;
    let h := mkHeader (getBodySize securePacketHeaderSize_ m) (messageType_ h) in
    c ← gets fst;
    let '(cipherKey, g) := getEncryptCipherKey (cipherKeyGenerator_ c) in
    modify (λ s, (set_keygen g s.1, s.2)) ;;
    let fingerPrint := getFingerPrint cipherKey in
    let checkSum := getCheckSum (packet_body m) fingerPrint in
    ok ← crypt_body encrypt cipherKey;
    if negb ok then mret (false, h)
    else
      r ← zoom (λ s, (component_ s.1, s.2)) (λ t s, (s.1, t.2)) (pc_encode h);
      if negb r.1 then mret (false, r.2)
      else
        on_block (mb_write rawPacketHeaderSize_ (additional_write fingerPrint checkSum)) ;;
        mret (true, r.2).

Definition secure_decode : st (SecurePacketCoder * MemoryBlock) bool :=
  ok ← zoom (λ s, (component_ s.1, s.2)) (λ t s, (s.1, t.2)) pc_decode;
  if negb ok then mret false
  else
    from ← on_block (mb_read rawPacketHeaderSize_ AdditionalPacketHeader_size);
    let '(fingerPrint_, checkSum_) := additional_read from in
    c ← gets fst;
    let '(cipherKey, g) := getDecryptCipherKey (cipherKeyGenerator_ c) in
    modify (λ s, (set_keygen g s.1, s.2)) ;;
    let fingerPrint := getFingerPrint cipherKey in
    if negb (fingerPrint =? fingerPrint_) then mret false
    else
      ok ← crypt_body decrypt cipherKey;
      if negb ok then mret false
      else
        m ← gets snd;
        mret (getCheckSum (packet_body m) fingerPrint =? checkSum_).

Definition SecurePacketCoder_coder : PacketCoder SecurePacketCoder := {|
  pc_headerSize _ := securePacketHeaderSize_;
  pc_reset := secure_reset;
  pc_readHeader h c := pc_readHeader h (component_ c);
  pc_encode := secure_encode;
  pc_decode := secure_decode;
|}.
End secure.
