(* ===== verification/SecurePacketSpec.v ===== *)
(** * sgp/protocol/security: the encrypted packets are decoded

    Proves that a cipher in block mode is undone by its inverse, that the seeds
    the peers exchange as decimal strings are read back, and that
    [SecurePacketCoder] keeps the contract of [PacketCoder]: the sender and the
    receiver stay in step and every body arrives, padded to whole blocks. *)

From S2P Require Import Prelude BitList Bits StreamBuffer MemoryBlock ByteStream ByteStreamSpec.
From S2P Require Import Packet SecurePacket.

Lemma is_uint_lor w a b : 0 ≤ w → is_uint w a → is_uint w b → is_uint w (Z.lor a b).
Proof.
  intros Hw Ha Hb. rewrite <- (uint_id w a Ha), <- (uint_id w b Hb), <- uint_lor by done.
  by apply uint_range.
Qed.

(** ** The key schedule *)

(** Every word of the key of a nonzero [cipherKey] is 1: [||] is the logical or. *)
Lemma key_word_nonzero k i : 0 < k < 2 ^ 32 → (i < 16)%nat → key_word k i = 1.
Proof.
  intros Hk Hi. unfold key_word. rewrite Z.shiftr_div_pow2, Z.shiftl_mul_pow2 by lia.
  pose proof (pow2_pos (Z.of_nat i)). assert (Hp : 2 ^ Z.of_nat i ≤ 2 ^ 15) by (apply Z.pow_le_mono_r; lia).
  destruct (Z.eqb_spec (k / 2 ^ Z.of_nat i) 0) as [E|]; [|done]. cbn [negb orb].
  assert (Hlt : k < 2 ^ Z.of_nat i).
  { pose proof (Z.div_mod k (2 ^ Z.of_nat i)). pose proof (Z.mod_pos_bound k (2 ^ Z.of_nat i)). lia. }
  rewrite uint_id by (unfold is_uint; nia).
  destruct (Z.eqb_spec (k * 2 ^ Z.of_nat i) 0); [nia|done].
Qed.

Section spec.
Context (BLOCKSIZE DEFAULT_KEYLENGTH : nat).
Context (encryptBlock decryptBlock : list Z → list Z → list Z).
Context (crc_32 : list Z → Z).
Context {R : Type} (rand48_seed : Z → R) (rand48_next : R → Z * R).

Local Abbreviation engine_key := (engine_key DEFAULT_KEYLENGTH).
Local Abbreviation updateKey := (updateKey DEFAULT_KEYLENGTH).
Local Abbreviation process := (process BLOCKSIZE).
Local Abbreviation encrypt := (encrypt BLOCKSIZE DEFAULT_KEYLENGTH encryptBlock).
Local Abbreviation decrypt := (decrypt BLOCKSIZE DEFAULT_KEYLENGTH decryptBlock).

(** What is assumed of the engine. *)
Hypothesis BLOCKSIZE_pos : (0 < BLOCKSIZE)%nat.
Hypothesis encryptBlock_length : ∀ k b,
  length b = BLOCKSIZE → length (encryptBlock k b) = BLOCKSIZE.
Hypothesis decryptBlock_encryptBlock : ∀ k b,
  length b = BLOCKSIZE → decryptBlock k (encryptBlock k b) = b.

(** The key loaded in an engine is the one of the last [updateKey]. *)
Definition algorithm_ok (a : BlockCipherAlgorithm) : Prop :=
  engine_ a = engine_key (prevUpdatedKey_ a).

Lemma newAlgorithm_ok u : algorithm_ok (newAlgorithm DEFAULT_KEYLENGTH u).
Proof. done. Qed.

Lemma updateKey_ok k a : algorithm_ok a →
  algorithm_ok (updateKey k a) ∧ engine_ (updateKey k a) = engine_key k.
Proof.
  intros Ha. unfold SecurePacket.updateKey. destruct (Z.eqb_spec k (prevUpdatedKey_ a)) as [->|]; done.
Qed.

(** ** Block by block *)

Lemma process_nil f fuel : process f fuel [] = [].
Proof. by destruct fuel. Qed.

Lemma process_app f fuel a b : length a = BLOCKSIZE → (length a + length b ≤ fuel)%nat →
  process f fuel (a ++ b) = f a ++ process f (fuel - 1) b.
Proof.
  intros Ha Hf. destruct fuel as [|fuel]; [lia|]. rewrite Nat.sub_succ, Nat.sub_0_r.
  cbn [SecurePacket.process]. destruct (a ++ b) eqn:E.
  { apply app_eq_nil in E as [-> _]. simpl in Ha. lia. }
  by rewrite <- E, take_app_length', drop_app_length'.
Qed.

Lemma split_blocks q (l : list Z) : length l = (S q * BLOCKSIZE)%nat → ∃ a b,
  l = a ++ b ∧ length a = BLOCKSIZE ∧ length b = (q * BLOCKSIZE)%nat.
Proof.
  intros Hl. exists (take BLOCKSIZE l), (drop BLOCKSIZE l). rewrite take_drop.
  split; [done|]. rewrite length_take, length_drop. lia.
Qed.

Lemma process_length k q l fuel : length l = (q * BLOCKSIZE)%nat → (length l ≤ fuel)%nat →
  length (process (encryptBlock k) fuel l) = length l.
Proof.
  revert l fuel. induction q as [|q IH]; intros l fuel Hl Hf.
  - apply nil_length_inv in Hl as ->. by rewrite process_nil.
  - destruct (split_blocks q l Hl) as (a & b & -> & Ha & Hb). rewrite length_app in Hf.
    rewrite process_app, !length_app, encryptBlock_length, IH by (done || lia). lia.
Qed.

Lemma process_inverse k q l fuel fuel' : length l = (q * BLOCKSIZE)%nat →
  (length l ≤ fuel)%nat → (length l ≤ fuel')%nat →
  process (decryptBlock k) fuel' (process (encryptBlock k) fuel l) = l.
Proof.
  revert l fuel fuel'. induction q as [|q IH]; intros l fuel fuel' Hl Hf Hf'.
  - apply nil_length_inv in Hl as ->. by rewrite !process_nil.
  - destruct (split_blocks q l Hl) as (a & b & -> & Ha & Hb). rewrite length_app in Hf, Hf'.
    rewrite (process_app (encryptBlock k)) by (done || lia).
    rewrite process_app by (rewrite ?encryptBlock_length, ?(process_length k q) by lia; lia).
    rewrite decryptBlock_encryptBlock, IH by lia. done.
Qed.

(** Encryption succeeds on whole blocks, keeps their number, and is undone by
    decryption with the same cipher key, whatever keys were used before. *)
Lemma decrypt_encrypt input key c d :
  algorithm_ok (encryptor_ c) → algorithm_ok (decryptor_ d) →
  (0 < length input)%nat → (length input mod BLOCKSIZE = 0)%nat → ∃ out c' d',
  encrypt input key c = (Some out, c') ∧ length out = length input ∧
  decrypt out key d = (Some input, d') ∧
  algorithm_ok (encryptor_ c') ∧ algorithm_ok (decryptor_ d').
Proof.
  intros Hc Hd Hpos Hmod.
  assert (Hq : length input = (length input / BLOCKSIZE * BLOCKSIZE)%nat).
  { pose proof (Nat.div_mod (length input) BLOCKSIZE ltac:(lia)). lia. }
  destruct (updateKey_ok key _ Hc) as [Hc1 Hc2]. destruct (updateKey_ok key _ Hd) as [Hd1 Hd2].
  set (out := process (encryptBlock (engine_key key)) (length input) input).
  assert (Hlo : length out = length input) by (by eapply process_length).
  eexists out, _, _. unfold SecurePacket.encrypt, SecurePacket.decrypt, precondition.
  rewrite Hlo, !bool_decide_true by done. cbn [andb]. rewrite Hc2, Hd2.
  unfold out. rewrite (process_inverse _ _ _ _ _ Hq) by done. by split_and!.
Qed.

(** ** Key generators in step *)

Definition keys_in_step (s r : CipherKeyGenerator (R := R)) : Prop :=
  match s, r with
  | StaticCipherKeyGenerator e _, StaticCipherKeyGenerator _ d => e = d
  | DynamicCipherKeyGenerator e _, DynamicCipherKeyGenerator _ d => e = d
  | _, _ => False
  end.

Lemma get_keys_in_step s r : keys_in_step s r → ∃ k s' r',
  getEncryptCipherKey rand48_next s = (k, s') ∧
  getDecryptCipherKey rand48_next r = (k, r') ∧ keys_in_step s' r'.
Proof.
  destruct s as [e d|e d], r as [e' d'|e' d']; simpl; intros Hk; try done; subst.
  - by repeat eexists.
  - destruct (rand48_next d') as [k d1]. by repeat eexists.
Qed.

(** Both ends set the same seed: they are in step from then on. *)
Lemma set_keys_in_step k s r : keys_in_step s r →
  keys_in_step (setEncryptCipherKey rand48_seed k s) (setDecryptCipherKey rand48_seed k r).
Proof. by destruct s, r. Qed.

Definition secure_sync (s r : SecurePacketCoder (R := R)) : Prop :=
  algorithm_ok (encryptor_ (cipher_ s)) ∧ algorithm_ok (decryptor_ (cipher_ r)) ∧
  keys_in_step (cipherKeyGenerator_ s) (cipherKeyGenerator_ r).

(** ** Padding *)

Lemma align_delta_mod n : ((n + align_delta BLOCKSIZE n) mod BLOCKSIZE = 0)%nat.
Proof.
  unfold align_delta. pose proof (Nat.div_mod n BLOCKSIZE ltac:(lia)) as E.
  pose proof (Nat.mod_upper_bound n BLOCKSIZE ltac:(lia)). case_decide as Hd.
  - replace (n + (BLOCKSIZE - n mod BLOCKSIZE))%nat with (S (n / BLOCKSIZE) * BLOCKSIZE)%nat by lia.
    apply Nat.Div0.mod_mul.
  - rewrite Nat.add_0_r. lia.
Qed.

Lemma align_ok body m : send_block securePacketHeaderSize_ body m → ∃ m',
  align BLOCKSIZE m = (Ok tt, m') ∧
  send_block securePacketHeaderSize_
    (body ++ replicate (align_delta BLOCKSIZE (length body)) 0) m'.
Proof.
  intros Hm. pose proof (send_block_length _ _ _ Hm) as [Hlen _].
  unfold align. rewrite decide_False by lia. rewrite (bind_ok get_st _ m m m eq_refl).
  rewrite Hlen. replace (securePacketHeaderSize_ + length body - securePacketHeaderSize_)%nat
    with (length body) by lia.
  set (d := align_delta BLOCKSIZE (length body)).
  destruct Hm as (Hwf & Hrd & Hwr & Hbody). case_decide as Hd.
  - destruct (mb_copyFrom_spec (replicate d 0) m Hwf) as (m' & E & Hwf' & Hrd' & Hwr' & Hw').
    unfold mb_copyFrom in E. rewrite length_replicate in *. exists m'. split; [exact E|].
    split_and!; [done|by rewrite Hrd'|lia|]. rewrite Hw', drop_app_le; [by rewrite Hbody|].
    destruct Hwf. unfold mb_written, mb_capacity in *. rewrite length_take. lia.
  - exists m. split; [done|]. replace d with O by lia. by rewrite app_nil_r.
Qed.

(** ** Encryption in place *)

(** Replacing the body of a packet keeps its header. *)
Lemma write_body size body out m : send_block size body m → length out = length body → ∃ m',
  mb_write size out m = (Ok tt, m') ∧ send_block size out m' ∧
  take size (mb_written m') = take size (mb_written m) ∧ mb_wr m' = mb_wr m.
Proof.
  intros Hm Ho. pose proof (send_block_length _ _ _ Hm) as [Hlen Hlw].
  destruct Hm as (Hwf & Hrd & Hwr & Hbody). unfold mb_length in Hlen.
  destruct (mb_write_at size out m Hwf) as (m' & E & Hwf' & Hrd' & Hwr' & Hw'); [lia|].
  assert (Ht : length (take size (mb_written m)) = size) by (rewrite length_take; lia).
  exists m'. split; [done|]. rewrite Hw'. split; [|split; [|done]].
  - split_and!; [done|by rewrite Hrd'|lia|]. rewrite Hw', drop_app_length' by done.
    rewrite drop_ge, app_nil_r by lia. done.
  - by rewrite take_app_length'.
Qed.

(** One direction of the cipher, applied to the body of a block: an empty body
    is left alone and the cipher does not see its key. *)
Lemma crypt_body_ok f key (c : SecurePacketCoder (R := R)) body m out x :
  send_block securePacketHeaderSize_ body m →
  ((0 < length body)%nat → f body key (cipher_ c) = (Some out, x) ∧ length out = length body) →
  (length body = O → out = [] ∧ x = cipher_ c) → ∃ m',
  crypt_body f key (c, m) = (Ok true, (set_cipher x c, m')) ∧
  send_block securePacketHeaderSize_ out m' ∧
  take securePacketHeaderSize_ (mb_written m') = take securePacketHeaderSize_ (mb_written m).
Proof.
  intros Hm Hf Hz. unfold crypt_body. rewrite (bind_ok get_st _ (c, m) (c, m) (c, m) eq_refl).
  cbn [fst snd]. assert (Hb : packet_body m = body) by apply Hm. rewrite Hb.
  case_decide as Hpos.
  - destruct (Hf Hpos) as [E Hlo]. rewrite E.
    destruct (write_body _ body out m Hm Hlo) as (m' & E' & Hm' & Ht & _).
    rewrite (bind_ok _ _ _ _ _ (modify_run _ _)). cbn [fst snd].
    exists m'. by st_step (on_block_run _ (set_cipher x c) _ _ _ E').
  - destruct Hz as [-> ->]; [lia|]. exists m. split_and!; try done; [by destruct c|].
    destruct body; [done|simpl in Hpos; lia].
Qed.

Lemma additional_roundtrip fp cs rest : is_uint 16 fp → is_uint 32 cs →
  additional_read (additional_write fp cs ++ rest) = (fp, cs).
Proof.
  intros Hfp Hcs. unfold additional_read, additional_write.
  rewrite !packet_put_wire, !packet_get_wire, <- app_assoc.
  rewrite take_app_length', drop_app_length' by (by rewrite length_le_split).
  rewrite take_app_length' by (by rewrite length_le_split).
  rewrite !le_combine_split. f_equal; by apply uint_id.
Qed.

Lemma length_additional fp cs : length (additional_write fp cs) = AdditionalPacketHeader_size.
Proof. unfold additional_write. by rewrite !packet_put_wire, length_app, !length_le_split. Qed.

(** ** A packet of a body *)

(** The cipher's part of both ends: what [crypt_body] needs to turn [body] into
    [out] at the sender and back at the receiver. *)
Definition body_crypted (body out : list Z) (key : Z) (c d c' d' : BlockCipherImpl) : Prop :=
  ((0 < length body)%nat → encrypt body key c = (Some out, c') ∧ length out = length body) ∧
  (length body = O → out = [] ∧ c' = c) ∧
  ((0 < length out)%nat → decrypt out key d = (Some body, d') ∧ length body = length out) ∧
  (length out = O → body = [] ∧ d' = d).

Lemma body_crypted_ok body key c d :
  algorithm_ok (encryptor_ c) → algorithm_ok (decryptor_ d) →
  (length body mod BLOCKSIZE = 0)%nat → ∃ out c' d',
  body_crypted body out key c d c' d' ∧ length out = length body ∧
  algorithm_ok (encryptor_ c') ∧ algorithm_ok (decryptor_ d').
Proof.
  intros Hc Hd Hmod. destruct (decide (0 < length body)%nat) as [Hpos|Hpos].
  - destruct (decrypt_encrypt body key c d Hc Hd Hpos Hmod) as (out & c' & d' & E1 & El & E2 & Hc' & Hd').
    exists out, c', d'. unfold body_crypted. split_and!; try done; intros; exfalso; lia.
  - assert (body = []) as -> by (apply nil_length_inv; lia).
    exists [], c, d. unfold body_crypted. split_and!; try done; simpl; intros; exfalso; lia.
Qed.

(** The bytes of a packet: header, additional header, encrypted body. *)
Definition secure_packet (mt : Z) (out : list Z) (key checkSum : Z) : list Z :=
  header_write false (mkHeader (Z.of_nat (length out)) mt) ++
  additional_write (getFingerPrint key) checkSum ++ out.

Lemma secure_packet_drop mt out key cs :
  drop securePacketHeaderSize_ (secure_packet mt out key cs) = out ∧
  length (secure_packet mt out key cs) = (securePacketHeaderSize_ + length out)%nat.
Proof.
  unfold secure_packet. rewrite !length_app, length_header_write, length_additional.
  rewrite app_assoc, drop_app_length'; [by split|].
  by rewrite length_app, length_header_write, length_additional.
Qed.

Lemma getCheckSum_range body key : is_uint 32 (getCheckSum crc_32 body (getFingerPrint key)).
Proof.
  apply is_uint_lor; [lia|by apply uint_range|].
  apply (is_uint_mono 16); [lia|]. by apply uint_range.
Qed.

(** The header and the additional header around an encrypted body. *)
Lemma write_headers mt out key cs m : send_block securePacketHeaderSize_ out m →
  isValidMessage mt = true → Z.of_nat (length out) < 2 ^ 16 → ∃ m1 m2,
  base_encode false CsPacketHeader_size (mkHeader (Z.of_nat (length out)) mt) m =
    (Ok (true, mkHeader (Z.of_nat (length out)) mt), m1) ∧
  mb_write rawPacketHeaderSize_ (additional_write (getFingerPrint key) cs) m1 = (Ok tt, m2) ∧
  mb_wf m2 ∧ mb_rd m2 = O ∧ mb_written m2 = secure_packet mt out key cs.
Proof.
  intros Hm Hmt Hfit. pose proof (send_block_length _ _ _ Hm) as [_ Hlw].
  destruct Hm as (Hwf & Hrd & Hwr & Hout). unfold securePacketHeaderSize_, rawPacketHeaderSize_ in *.
  destruct (base_encode_ok false CsPacketHeader_size (Z.of_nat (length out)) mt
    (drop CsPacketHeader_size (mb_written m)) m) as (m1 & E1 & (Hwf1 & Hrd1 & Hwr1 & _) & Hw1);
    [done|by split_and!; [done|done|lia|]|unfold is_uint; lia|done|].
  destruct (mb_write_at CsPacketHeader_size (additional_write (getFingerPrint key) cs) m1 Hwf1)
    as (m2 & E2 & Hwf2 & Hrd2 & _ & Hw2).
  { apply (f_equal length) in Hw1. rewrite length_app, length_header_write, length_drop in Hw1.
    unfold mb_written at 1 in Hw1. rewrite length_take in Hw1. rewrite length_additional. lia. }
  exists m1, m2. split_and!; try done; [by rewrite Hrd2|]. rewrite Hw2, Hw1, length_additional.
  rewrite take_app_length', drop_app_ge by (rewrite length_header_write; lia).
  rewrite length_header_write. unfold secure_packet. do 2 f_equal.
  rewrite drop_drop, <- Hout. f_equal.
Qed.

Local Abbreviation secure_encode :=
  (secure_encode BLOCKSIZE DEFAULT_KEYLENGTH encryptBlock crc_32 rand48_next).
Local Abbreviation secure_decode :=
  (secure_decode BLOCKSIZE DEFAULT_KEYLENGTH decryptBlock crc_32 rand48_next).

Definition secure_padding (n : nat) : nat := align_delta BLOCKSIZE n.

Lemma secure_encode_ok (s : SecurePacketCoder (R := R)) mt body padded m key g out x :
  isValidMessage mt = true → send_block securePacketHeaderSize_ body m →
  padded = body ++ replicate (secure_padding (length body)) 0 →
  Z.of_nat (length padded) < 2 ^ 16 →
  getEncryptCipherKey rand48_next (cipherKeyGenerator_ s) = (key, g) →
  ((0 < length padded)%nat → encrypt padded key (cipher_ s) = (Some out, x)) →
  (length padded = O → out = [] ∧ x = cipher_ s) → length out = length padded → ∃ h' m',
  secure_encode (mkHeader (getBodySize securePacketHeaderSize_ m) mt) (s, m) =
    (Ok (true, h'), (set_cipher x (set_keygen g s), m')) ∧
  mb_wf m' ∧ mb_rd m' = O ∧
  mb_written m' = secure_packet mt out key (getCheckSum crc_32 padded (getFingerPrint key)).
Proof.
  intros Hmt Hm -> Hfit Hkey Hx Hz Hlo. set (pb := body ++ replicate _ 0) in *.
  destruct (send_block_length _ _ _ Hm) as [Hlen _].
  destruct (align_ok body m Hm) as (m1 & E1 & Hm1). fold (secure_padding (length body)) pb in Hm1.
  destruct (crypt_body_ok encrypt key (set_keygen g s) pb m1 out x Hm1) as (m2 & E2 & Hm2 & Ht2);
    [by intros Hp; split; [apply Hx|]|done|].
  destruct (write_headers mt out key (getCheckSum crc_32 pb (getFingerPrint key)) m2 Hm2 Hmt)
    as (m3 & m4 & E3 & E4 & Hwf & Hrd & Hw); [by rewrite Hlo|].
  exists (mkHeader (Z.of_nat (length out)) mt), m4. split_and!; try done.
  unfold SecurePacket.secure_encode. rewrite (bind_ok _ _ _ _ _ (gets_run _ _)). cbn [snd].
  rewrite decide_False by lia. st_step (on_block_run _ s _ _ _ E1).
  rewrite (bind_ok _ _ _ _ _ (gets_run _ _)). cbn [snd messageType_].
  rewrite (getBodySize_ok _ pb m1) by done.
  rewrite (bind_ok _ _ _ _ _ (gets_run _ _)). cbn [fst]. rewrite Hkey.
  rewrite (bind_ok _ _ _ _ _ (modify_run _ _)). cbn [fst snd].
  assert (Hb1 : packet_body m1 = pb) by apply Hm1. rewrite Hb1. st_step E2. cbn [negb].
  rewrite <- Hlo.
  rewrite (bind_ok _ _ _ _ _ (zoom_run _ _ _ (set_cipher x (set_keygen g s), m2) _ _
    (on_block_run _ (component_ (set_cipher x (set_keygen g s))) m2 _ _ E3))).
  cbn [fst snd negb]. by st_step (on_block_run _ (set_cipher x (set_keygen g s)) _ _ _ E4).
Qed.

Lemma secure_decode_ok (r : SecurePacketCoder (R := R)) mt body b key g out x :
  mb_wf b → mb_rd b = O →
  ((0 < length out)%nat → decrypt out key (cipher_ r) = (Some body, x)) →
  length out = length body → (length out = O → body = [] ∧ x = cipher_ r) →
  mb_written b = secure_packet mt out key (getCheckSum crc_32 body (getFingerPrint key)) →
  getDecryptCipherKey rand48_next (cipherKeyGenerator_ r) = (key, g) → ∃ b',
  secure_decode (r, b) = (Ok true, (set_cipher x (set_keygen g r), b')) ∧
  send_block securePacketHeaderSize_ body b'.
Proof.
  intros Hwf Hrd Hx Hlo Hz Hw Hkey.
  set (cs := getCheckSum crc_32 body (getFingerPrint key)) in *.
  destruct (secure_packet_drop mt out key cs) as [Hd Hl]. rewrite <- Hw in Hd, Hl.
  assert (Hwr : mb_wr b = (securePacketHeaderSize_ + length out)%nat).
  { rewrite <- Hl. unfold mb_written. destruct Hwf. unfold mb_capacity in *. rewrite length_take. lia. }
  assert (Hb : send_block securePacketHeaderSize_ out b) by (split_and!; [done|done|lia|done]).
  destruct (crypt_body_ok decrypt key (set_keygen g r) out b body x Hb) as (b' & E2 & Hb' & _);
    [by intros Hp; split; [apply Hx|]|done|].
  exists b'. split; [|done]. unfold SecurePacket.secure_decode.
  rewrite (bind_ok _ _ _ _ _ (zoom_run _ _ _ (r, b) _ _
    (on_block_run base_decode (component_ r) b _ _ eq_refl))). cbn [fst snd negb].
  set (from := take AdditionalPacketHeader_size (drop rawPacketHeaderSize_ (mb_buffer b))).
  assert (E1 : mb_read rawPacketHeaderSize_ AdditionalPacketHeader_size b = (Ok from, b)).
  { unfold mb_read. rewrite decide_True; [done|]. destruct Hwf. rewrite Hwr in *.
    unfold securePacketHeaderSize_ in *. lia. }
  assert (Ef : from = additional_write (getFingerPrint key) cs).
  { transitivity (take AdditionalPacketHeader_size (drop rawPacketHeaderSize_ (mb_written b))).
    - unfold mb_written. rewrite take_drop_commute, take_take. unfold from.
      rewrite take_drop_commute. do 2 f_equal. unfold securePacketHeaderSize_ in Hwr. lia.
    - rewrite Hw. unfold secure_packet.
      rewrite drop_app_length' by (by rewrite length_header_write).
      by rewrite take_app_length' by (by rewrite length_additional). }
  assert (Hrt : additional_read from = (getFingerPrint key, cs)).
  { rewrite Ef, <- (app_nil_r (additional_write _ _)).
    apply additional_roundtrip; [by apply uint_range|apply getCheckSum_range]. }
  st_step (on_block_run _ r _ _ _ E1). rewrite Hrt.
  rewrite (bind_ok _ _ _ _ _ (gets_run _ _)). cbn [fst]. rewrite Hkey.
  rewrite (bind_ok _ _ _ _ _ (modify_run _ _)). cbn [fst snd]. rewrite Z.eqb_refl. cbn [negb].
  st_step E2. cbn [negb]. rewrite (bind_ok _ _ _ _ _ (gets_run _ _)). cbn [snd].
  assert (Hbody : packet_body b' = body) by apply Hb'. rewrite Hbody.
  unfold mret, st_ret. do 2 f_equal. apply Z.eqb_refl.
Qed.

(** ** The contract *)

Local Abbreviation coder := (SecurePacketCoder_coder BLOCKSIZE DEFAULT_KEYLENGTH encryptBlock
  decryptBlock crc_32 rand48_seed rand48_next).

Definition SecurePacketCoder_spec : @PacketCoderSpec (SecurePacketCoder (R := R)) coder.
Proof.
  refine (@Build_PacketCoderSpec _ coder secure_sync securePacketHeaderSize_ secure_padding
    _ _ _ _).
  - done.
  - by vm_compute; lia.
  - intros h c m _ Hwf Hl.
    apply (base_readHeader_ok false CsPacketHeader_size h m); [done|done|].
    etrans; [|exact Hl]. unfold securePacketHeaderSize_, rawPacketHeaderSize_. lia.
  - intros s r mt body m (Hs & Hr & Hk) Hmt Hm Hfit.
    destruct (get_keys_in_step _ _ Hk) as (key & gs & gr & Es & Er & Hk').
    set (pb := body ++ replicate (secure_padding (length body)) 0).
    assert (Hlp : length pb = (length body + secure_padding (length body))%nat)
      by (unfold pb; by rewrite length_app, length_replicate).
    destruct (body_crypted_ok pb key (cipher_ s) (cipher_ r) Hs Hr)
      as (out & c' & d' & (H1 & H2 & H3 & H4) & Hlo & Hc' & Hd').
    { rewrite Hlp. apply align_delta_mod. }
    destruct (secure_encode_ok s mt body pb m key gs out c' Hmt Hm eq_refl) as
      (h' & m' & E & Hwf & Hrd & Hw); [by rewrite Hlp|done|by intros Hp; apply H1|done|done|].
    exists h', (set_cipher c' (set_keygen gs s)), (set_cipher d' (set_keygen gr r)), m', (mb_written m').
    split_and!; try done.
    + rewrite Hw. destruct (secure_packet_drop mt out key
        (getCheckSum crc_32 pb (getFingerPrint key))) as [_ Hl]. unfold secure_packet in *.
      apply header_framed; [by vm_compute; lia|by rewrite Hlo, Hlp|done|].
      by rewrite length_additional.
    + intros b Hbwf Hbrd Hbw. rewrite Hw in Hbw.
      destruct (secure_decode_ok r mt pb b key gr out d' Hbwf Hbrd) as (b' & E' & Hb'); try done;
        [by intros Hp; apply H3|].
      exists b'. destruct Hb' as (Hwf' & Hrd' & Hwr' & Hbody'). by split_and!.
Defined.
End spec.

(** ** Seeds as decimal strings *)

Definition is_digit (c : Z) : Prop := 48 ≤ c ≤ 57.

Lemma atoi_digits_app a b acc : Forall is_digit a →
  atoi_digits (a ++ b) acc = atoi_digits b (atoi_digits a acc).
Proof.
  intros Ha. revert acc. induction Ha as [|c a Hc _ IH]; intros acc; [done|].
  unfold is_digit in Hc. cbn [app atoi_digits].
  rewrite (proj2 (andb_true_iff _ _)) by lia. apply IH.
Qed.

Lemma decimal_loop_ok fuel n acc : 0 ≤ n < Z.of_nat fuel → ∃ ds,
  decimal_loop fuel n acc = ds ++ acc ∧ Forall is_digit ds ∧ ds ≠ [] ∧ atoi_digits ds 0 = n.
Proof.
  revert n acc. induction fuel as [|fuel IH]; intros n acc Hn; [lia|]. cbn [decimal_loop].
  pose proof (Z.mod_pos_bound n 10). pose proof (Z.div_mod n 10).
  assert (Hd : is_digit (48 + n mod 10)) by (unfold is_digit; lia).
  destruct (Z.ltb_spec n 10).
  - exists [48 + n mod 10]. split_and!; [done|by constructor|done|]. cbn [atoi_digits].
    rewrite (proj2 (andb_true_iff _ _)) by (unfold is_digit in Hd; lia).
    rewrite Z.mod_small by lia. lia.
  - destruct (IH (n / 10) ((48 + n mod 10) :: acc)) as (ds & E & Hds & Hne & Ha).
    { split; [apply Z.div_pos; lia|]. apply Z.div_lt_upper_bound; lia. }
    exists (ds ++ [48 + n mod 10]). rewrite E, <- app_assoc. split_and!; [done| |by destruct ds|].
    + apply Forall_app. split; [done|]. by constructor.
    + rewrite atoi_digits_app, Ha by done. cbn [atoi_digits].
      rewrite (proj2 (andb_true_iff _ _)) by (unfold is_digit in Hd; lia). lia.
Qed.

(** The seeds a coder generates are read back as the keys they name. *)
Lemma atoi_format_d n : atoi (format_d n) = n.
Proof.
  unfold format_d. destruct (Z.ltb_spec n 0).
  - destruct (decimal_loop_ok (Z.to_nat (- n + 1)) (- n) []) as (ds & -> & _ & _ & Ha); [lia|].
    rewrite app_nil_r. cbn [atoi is_space]. cbn. rewrite Ha. lia.
  - destruct (decimal_loop_ok (Z.to_nat (n + 1)) n []) as (ds & -> & Hds & Hne & Ha); [lia|].
    rewrite app_nil_r. destruct ds as [|c ds]; [done|]. apply Forall_cons in Hds as [Hc _].
    unfold is_digit in Hc. cbn [atoi]. unfold is_space.
    rewrite !(proj2 (Z.eqb_neq c _)) by lia. rewrite (proj2 (Z.leb_gt c 13)) by lia.
    rewrite andb_false_r. exact Ha.
Qed.
