(* ===== verification/MarshallerSafety.v ===== *)
(** * sgp/session: the marshaller on any input

    [Marshaller.v] proves what a receiver does with the packets of a sender.  Here
    the bytes are arbitrary, as an attacker may send them: the receiver parses
    them without reading or writing outside its blocks, and always ends. *)

From S2P Require Import Prelude BitList StreamBuffer MemoryBlock ByteStream Packet Marshaller.
From S2P Require Import SecurePacket SecurePacketSpec.

(** A block that holds at least a header of [size] bytes, unread. *)
Definition packet_block (size : nat) (b : MemoryBlock) : Prop :=
  mb_wf b ∧ mb_rd b = O ∧ (size ≤ mb_wr b)%nat.

(** What the receiver needs of a coder, whatever the bytes of the block. *)
Class PacketCoderSafe (C : Type) `{PacketCoder C} (size : nat) := {
  pcs_inv : C → Prop;
  pcs_size_pos : (0 < size)%nat;
  pcs_headerSize c : pcs_inv c → pc_headerSize c = size;
  pcs_readHeader c h m : pcs_inv c → mb_wf m → (size ≤ mb_length m)%nat →
    ∃ r, pc_readHeader h c m = (Ok r, m);
  pcs_decode c b : pcs_inv c → packet_block size b → ∃ ok c' b',
    pc_decode (c, b) = (Ok ok, (c', b')) ∧ pcs_inv c' ∧ packet_block size b';
}.

Section safety.
Context {C : Type} {size : nat} `{HC : PacketCoderSafe C size}.
Context {W : Type} (cb : Z → st (MemoryBlock * W) bool).

(** The callback returns, and leaves the block usable. *)
Definition returns : Prop := ∀ mt b w, mb_wf b → ∃ ok b' w',
  cb mt (b, w) = (Ok ok, (b', w')) ∧ mb_wf b'.
Hypothesis Hcb : returns.

Record receiver_inv (m : SgpMarshaller C) : Prop := {
  ri_size : packetHeaderSize_ m = size;
  ri_coder : pcs_inv (packetCoder_ m);
  ri_recv : mb_wf (recvBlock_ m);
  ri_msg : mb_wf (msgBlock_ m);
}.

Lemma parseHeader_safe m : receiver_inv m → (size ≤ mb_length (recvBlock_ m))%nat → ∃ ok h,
  parseHeader m = (Ok ok, set_header h m).
Proof.
  intros Hm Hl. unfold parseHeader. rewrite (bind_ok get_st _ m m m eq_refl).
  destruct (header_isValid (headerForReceive_ m)).
  - exists true, (headerForReceive_ m). by destruct m.
  - destruct (pcs_readHeader (packetCoder_ m) (headerForReceive_ m) (recvBlock_ m)) as [r E];
      [apply Hm..|done|].
    assert (E' : zoom recvBlock_ set_recv (pc_readHeader (headerForReceive_ m) (packetCoder_ m)) m = (Ok r, m)).
    { unfold zoom. rewrite E. by destruct m. }
    exists r.1, r.2. by st_step E'.
Qed.

(** The bytes of a packet that has arrived are in the block. *)
Lemma mb_read_arrived b n : mb_wf b → (n ≤ mb_length b)%nat → ∃ p c,
  mb_contents b = p ++ c ∧ length p = n ∧ mb_read (mb_rd b) n b = (Ok p, b).
Proof.
  intros Hwf Hn. pose proof (mb_contents_length b Hwf) as Hl.
  assert (Hp : length (take n (mb_contents b)) = n) by (rewrite length_take; lia).
  exists (take n (mb_contents b)), (drop n (mb_contents b)). rewrite take_drop.
  split_and!; [done|done|]. rewrite <- Hp at 1. eapply mb_read_head; [done|]. symmetry. apply take_drop.
Qed.

Lemma parseMessage_safe m : receiver_inv m → (messageSize m ≤ mb_length (recvBlock_ m))%nat → ∃ ok m',
  parseMessage m = (Ok ok, m') ∧ receiver_inv m' ∧
  mb_length (recvBlock_ m') = (mb_length (recvBlock_ m) - messageSize m)%nat ∧
  mb_capacity (recvBlock_ m') = mb_capacity (recvBlock_ m).
Proof.
  intros [Hsz Hcd Hwf Hmsg] Hl. unfold parseMessage. rewrite (bind_ok get_st _ m m m eq_refl).
  set (n := messageSize m) in *. destruct (mb_read_arrived _ n Hwf Hl) as (p & c & Hc & Hp & Er).
  assert (Hn : (size ≤ n)%nat) by (unfold n, messageSize; lia).
  destruct m as [sz coder h recv msg]. cbn [packetHeaderSize_ packetCoder_ recvBlock_ msgBlock_] in *. subst sz.
  rewrite (bind_ok _ _ _ _ _ (modify_run _ _)). cbn [recvBlock_ set_msg].
  erewrite bind_ok by (apply zoom_ok; exact Er).
  set (msg0 := mb_set_size n (mb_reset msg)).
  assert (Hwf0 : mb_wf msg0) by (split; simpl; lia).
  destruct (mb_copyFrom_spec p msg0 Hwf0) as (msg1 & E1 & Hwf1 & Hrd1 & Hwr1 & _).
  erewrite bind_ok by (apply zoom_ok; exact E1).
  rewrite (bind_ok _ _ _ _ _ (modify_run _ _)).
  destruct (pcs_decode coder msg1 Hcd) as (ok & c' & msg2 & E2 & Hcd' & Hwf2 & Hrd2 & Hw2).
  { split_and!; [done|by rewrite Hrd1|rewrite Hwr1, Hp; cbn; lia]. }
  erewrite bind_ok by (apply zoom_ok; exact E2).
  destruct (mb_consume recv p c Hwf Hc) as (Hwf3 & Hc3 & Hcap3). cbv zeta in *. rewrite Hp in *.
  assert (Hlen : mb_length (mb_crunch (mb_advance_rd n recv)) = (mb_length recv - n)%nat).
  { rewrite <- !mb_contents_length by done. rewrite Hc3, Hc, length_app. lia. }
  destruct ok; cbn [negb].
  - rewrite (bind_ok _ _ _ _ _ (modify_run _ _)). unfold gets. erewrite bind_ok by reflexivity.
    eexists _, _. split; [reflexivity|]. cbn. rewrite (pcs_headerSize c' Hcd').
    split_and!; [|done|done]. split; cbn; try done. destruct Hwf2 as [_ Hwr2]. by split.
  - eexists _, _. split; [reflexivity|]. cbn. by split_and!.
Qed.

Lemma unmarshal_loop_safe fuel count m w : receiver_inv m → (mb_length (recvBlock_ m) < fuel)%nat →
  ∃ ok n m' w', unmarshal_loop cb fuel count (m, w) = (Ok (ok, n), (m', w')) ∧ receiver_inv m' ∧
    mb_capacity (recvBlock_ m') = mb_capacity (recvBlock_ m) ∧ (count ≤ n)%nat.
Proof.
  revert count m w. induction fuel as [|fuel IH]; intros count m w Hm Hf; [lia|].
  pose proof (pcs_size_pos (C := C)) as Hpos. cbn [unmarshal_loop].
  rewrite (bind_ok _ _ _ _ _ (gets_run _ _)). cbn [fst]. unfold isPacketHeaderArrived.
  rewrite (ri_size _ Hm). case_bool_decide as Ha; cbn [negb]; [|by exists true, count, m, w].
  destruct (parseHeader_safe m Hm Ha) as (ok & h & E1). st_step (on_marshaller_run _ m w _ _ E1).
  assert (Hm1 : receiver_inv (set_header h m)) by by destruct Hm.
  destruct ok; cbn [negb]; [|by exists false, count, (set_header h m), w].
  rewrite (bind_ok _ _ _ _ _ (gets_run _ _)). cbn [fst]. unfold isMessageArrived.
  case_bool_decide as Hl; cbn [negb]; [|by exists true, count, (set_header h m), w].
  destruct (parseMessage_safe _ Hm1 Hl) as (ok & m2 & E2 & Hm2 & Hl2 & Hcap2).
  st_step (on_marshaller_run _ _ w _ _ E2).
  destruct ok; cbn [negb]; [|by exists false, count, m2, w].
  rewrite (bind_ok _ _ _ _ _ (gets_run _ _)). cbn [fst].
  destruct (Hcb (messageType_ (headerForReceive_ m2)) (msgBlock_ m2) w (ri_msg _ Hm2))
    as (ok & b' & w' & E3 & Hb').
  assert (E3' : try_callback cb (messageType_ (headerForReceive_ m2)) (m2, w) =
    (Ok ok, (set_msg b' m2, w'))) by (unfold try_callback; cbn; by rewrite E3).
  st_step E3'. assert (Hm3 : receiver_inv (set_msg b' m2)) by by destruct Hm2.
  destruct ok; cbn [negb]; [|by exists false, (S count), (set_msg b' m2), w'; split_and!; [..|lia]].
  rewrite (bind_ok _ _ _ _ _ (on_marshaller_run _ _ _ _ _ (modify_run _ _))).
  set (m4 := set_header _ (set_msg b' m2)). assert (Hm4 : receiver_inv m4) by by destruct Hm3.
  destruct (IH (S count) m4 w' Hm4) as (ok & n & m' & w2 & E4 & Hm' & Hcap' & Hn).
  { change (recvBlock_ m4) with (recvBlock_ m2). rewrite Hl2.
    assert (size ≤ messageSize (set_header h m))%nat
      by (unfold messageSize; rewrite (ri_size _ Hm1); lia).
    change (recvBlock_ (set_header h m)) with (recvBlock_ m) in *. lia. }
  exists ok, n, m', w2. split_and!; [done|done| |lia]. rewrite Hcap'.
  change (recvBlock_ m4) with (recvBlock_ m2). by rewrite Hcap2.
Qed.

(** A read of any bytes that fit behind the write position. *)
Lemma receive_safe chunk m w : receiver_inv m → (length chunk ≤ mb_space (recvBlock_ m))%nat →
  ∃ ok n m' w', receive cb chunk (m, w) = (Ok (ok, n), (m', w')) ∧ receiver_inv m'.
Proof.
  intros Hm Hl. destruct (mb_write_end _ _ (ri_recv _ Hm) Hl) as (b' & E & Hwf' & _).
  unfold receive. st_step (on_marshaller_run _ m w _ _ (zoom_ok recvBlock_ set_recv _ m _ _ E)).
  unfold unmarshal. rewrite (bind_ok _ _ _ _ _ (gets_run _ _)). cbn [fst].
  destruct (unmarshal_loop_safe (S (mb_length (recvBlock_ (set_recv b' m)))) 0 (set_recv b' m) w)
    as (ok & n & m' & w' & E' & Hm' & _); [by destruct Hm|lia|]. by exists ok, n, m', w'.
Qed.

Lemma receive_all_safe ks wire m w : receiver_inv m →
  ∃ ok wire' m' w', receive_all cb ks wire (m, w) = (Ok (ok, wire'), (m', w')) ∧ receiver_inv m'.
Proof.
  revert wire m w. induction ks as [|k ks IH]; intros wire m w Hm; cbn [receive_all].
  { by exists true, wire, m, w. }
  set (b := mb_reserve (mb_capacity (recvBlock_ m) / 3) (recvBlock_ m)).
  assert (E1 : prepareRead m = (Ok tt, set_recv b m)) by by apply zoom_ok.
  assert (Hm1 : receiver_inv (set_recv b m)).
  { destruct Hm as [? ? Hwf ?]. split; try done. cbn.
    by destruct (mb_reserve_spec (mb_capacity (recvBlock_ m) / 3) _ Hwf). }
  st_step (on_marshaller_run _ m w _ _ E1). rewrite (bind_ok _ _ _ _ _ (gets_run _ _)). cbn [fst].
  set (n := Nat.min k _).
  destruct (receive_safe (take n wire) (set_recv b m) w Hm1) as (ok & n' & m2 & w2 & E2 & Hm2);
    [rewrite length_take; lia|].
  st_step E2. cbn [fst]. destruct ok; cbn [negb]; [|by exists false, (drop n wire), m2, w2]. apply IH, Hm2.
Qed.
End safety.

(** ** Both coders are safe *)

Lemma base_readHeader_safe size c (h : CsPacketHeader) m : (CsPacketHeader_size ≤ size)%nat →
  mb_wf m → (size ≤ mb_length m)%nat → ∃ r, base_readHeader c CsPacketHeader_size h m = (Ok r, m).
Proof.
  intros Hs Hwf Hl. eexists. apply (base_readHeader_ok c CsPacketHeader_size h m); [done|done|lia].
Qed.

#[global] Instance CsPacketCoder_safe : PacketCoderSafe CsPacketCoder CsPacketHeader_size.
Proof.
  refine {| pcs_inv _ := True |}; [vm_compute; lia|done|..].
  - intros c h m _. by apply base_readHeader_safe.
  - intros c b _ Hb. by exists true, c, b.
Defined.

Section secure.
Context (BLOCKSIZE DEFAULT_KEYLENGTH : nat).
Context (encryptBlock decryptBlock : list Z → list Z → list Z).
Context (crc_32 : list Z → Z).
Context {R : Type} (rand48_seed : Z → R) (rand48_next : R → Z * R).
Hypothesis BLOCKSIZE_pos : (0 < BLOCKSIZE)%nat.
Hypothesis decryptBlock_length : ∀ k b,
  length b = BLOCKSIZE → length (decryptBlock k b) = BLOCKSIZE.

Local Abbreviation coder := (SecurePacketCoder_coder BLOCKSIZE DEFAULT_KEYLENGTH encryptBlock
  decryptBlock crc_32 rand48_seed rand48_next).
Local Abbreviation decrypt := (decrypt BLOCKSIZE DEFAULT_KEYLENGTH decryptBlock).

(** A body that is not whole blocks is refused, any other is decrypted in place. *)
Lemma decrypt_length input key c out c' : decrypt input key c = (Some out, c') →
  length out = length input.
Proof.
  unfold SecurePacket.decrypt, precondition. destruct (_ && _) eqn:E; [|done]. intros [= <- _].
  apply andb_true_iff in E as [_ Hmod]. apply bool_decide_eq_true in Hmod.
  eapply (process_length BLOCKSIZE decryptBlock crc_32 rand48_seed rand48_next BLOCKSIZE_pos decryptBlock_length _
    (length input / BLOCKSIZE)); [|done].
  pose proof (Nat.div_mod (length input) BLOCKSIZE ltac:(lia)). lia.
Qed.

Lemma mb_write_packet out b : packet_block securePacketHeaderSize_ b →
  length out = length (packet_body b) → ∃ b',
  mb_write securePacketHeaderSize_ out b = (Ok tt, b') ∧ packet_block securePacketHeaderSize_ b' ∧
  packet_body b' = out.
Proof.
  intros (Hwf & Hrd & Hw) Hl. unfold packet_body, mb_written in Hl. destruct Hwf as [Hr Hc].
  rewrite length_drop, length_take in Hl. unfold mb_capacity in *.
  destruct (mb_write_at securePacketHeaderSize_ out b) as (b' & E & Hwf' & Hrd' & Hwr' & Hw');
    [by split|lia|]. exists b'. split; [done|]. split; [by split_and!; [|rewrite Hrd'|rewrite Hwr']|].
  unfold packet_body. rewrite Hw'. unfold mb_written.
  rewrite take_take, Nat.min_l, (drop_ge (take (mb_wr b) _)) by (rewrite ?length_take; lia).
  rewrite app_nil_r, drop_app_length'; [done|]. rewrite length_take. lia.
Qed.

(** The body of [b'] is the plain text of that of [b]. *)
Definition decrypted (key : Z) (c : SecurePacketCoder (R := R)) (b b' : MemoryBlock) : Prop :=
  (packet_body b ≠ [] → ∃ d, decrypt (packet_body b) key (cipher_ c) = (Some (packet_body b'), d)) ∧
  length (packet_body b') = length (packet_body b).

Lemma crypt_body_safe key (c : SecurePacketCoder (R := R)) b : packet_block securePacketHeaderSize_ b → ∃ ok c' b',
  crypt_body decrypt key (c, b) = (Ok ok, (c', b')) ∧ packet_block securePacketHeaderSize_ b' ∧
  (ok = true → decrypted key c b b').
Proof.
  intros Hb. unfold crypt_body. rewrite (bind_ok get_st _ (c, b) (c, b) (c, b) eq_refl). cbn [fst snd].
  case_decide as Hpos.
  2:{ exists true, c, b. split_and!; [done|done|]. intros _. split; [|done].
      intros Hne. destruct (packet_body b); [done|]. cbn in Hpos. lia. }
  destruct (decrypt (packet_body b) key (cipher_ c)) as [[out|] x] eqn:E;
    rewrite (bind_ok _ _ _ _ _ (modify_run _ _)); cbn [fst snd]; [|by eexists _, _, _].
  pose proof (decrypt_length _ _ _ _ _ E) as El. destruct (mb_write_packet out b Hb El) as (b' & E' & Hb' & Eb).
  st_step (on_block_run _ (set_cipher x c) _ _ _ E'). eexists _, _, b'. split_and!; [done|done|].
  intros _. split; rewrite Eb; [|done]. intros _. by exists x.
Qed.

(** A packet is accepted only if its additional header fits the key and the plain
    text; any other is refused. *)
Lemma secure_decode_cases (c : SecurePacketCoder (R := R)) b : packet_block securePacketHeaderSize_ b → ∃ ok c' b',
  secure_decode BLOCKSIZE DEFAULT_KEYLENGTH decryptBlock crc_32 rand48_next (c, b) = (Ok ok, (c', b')) ∧
  packet_block securePacketHeaderSize_ b' ∧
  (ok = true →
    let key := (getDecryptCipherKey rand48_next (cipherKeyGenerator_ c)).1 in
    additional_read (take AdditionalPacketHeader_size (drop rawPacketHeaderSize_ (mb_buffer b))) =
      (getFingerPrint key, getCheckSum crc_32 (packet_body b') (getFingerPrint key)) ∧
    decrypted key c b b').
Proof.
  intros Hb. pose proof Hb as ([Hr Hw] & Hrd & Hs). unfold secure_decode.
  rewrite (bind_ok _ _ _ _ _ (zoom_run _ _ _ (c, b) _ _
    (on_block_run base_decode (component_ c) b _ _ eq_refl))). cbn [fst snd negb].
  assert (E1 : mb_read rawPacketHeaderSize_ AdditionalPacketHeader_size b =
    (Ok (take AdditionalPacketHeader_size (drop rawPacketHeaderSize_ (mb_buffer b))), b)).
  { unfold mb_read. rewrite decide_True; [done|]. unfold securePacketHeaderSize_ in Hs. lia. }
  st_step (on_block_run _ c _ _ _ E1).
  destruct (additional_read _) as [fp cs]. rewrite (bind_ok _ _ _ _ _ (gets_run _ _)). cbn [fst].
  destruct (getDecryptCipherKey rand48_next (cipherKeyGenerator_ c)) as [key g].
  rewrite (bind_ok _ _ _ _ _ (modify_run _ _)). cbn [fst snd].
  destruct (Z.eqb_spec (getFingerPrint key) fp) as [<-|]; cbn [negb]; [|by eexists _, _, _].
  destruct (crypt_body_safe key (set_keygen g c) b Hb) as (ok & c' & b' & E2 & Hb' & Hd).
  st_step E2. destruct ok; cbn [negb]; [|by eexists _, _, _].
  rewrite (bind_ok _ _ _ _ _ (gets_run _ _)). eexists _, _, b'. split_and!; [done|done|].
  intros <-%Z.eqb_eq. split; [done|]. by apply Hd.
Qed.

Definition SecurePacketCoder_safe :
  @PacketCoderSafe (SecurePacketCoder (R := R)) coder securePacketHeaderSize_.
Proof.
  refine (@Build_PacketCoderSafe _ coder _ (λ _, True) _ _ _ _).
  - vm_compute. lia.
  - done.
  - intros c h m _. apply (base_readHeader_safe securePacketHeaderSize_ false h m). vm_compute. lia.
  - intros c b _ Hb. destruct (secure_decode_cases c b Hb) as (ok & c' & b' & E & Hb' & _).
    by exists ok, c', b'.
Defined.
End secure.
