(* ===== verification/SortedVector.v ===== *)
(** * Sorted vectors: [std::lower_bound]

    The memory pool and the allocator of blocks of various sizes keep their
    elements in a vector sorted by a number (an address, a size) and use
    [std::lower_bound] on it.  The lemmas on insertion, search and removal that
    both components share. *)

From S2P Require Import Prelude.
From stdpp Require Import sorting.
#[local] Open Scope Z_scope.

Section sorted_vector.
Context {A : Type} (key : A → Z).

(** The position [std::lower_bound] returns on a sorted range: the first element
    that is not less than [k]. *)
Fixpoint lower_bound (k : Z) (l : list A) : nat :=
  match l with
  | [] => O
  | x :: l => if (key x <? k)%Z then S (lower_bound k l) else O
  end.

(** [pos = lower_bound(...); pos != end ? insert(pos, x) : push_back(x)] *)
Definition insert_sorted (x : A) (l : list A) : list A :=
  let pos := lower_bound (key x) l in
  if decide (pos < length l)%nat then take pos l ++ x :: drop pos l else l ++ [x].

(** [erase(pos)] *)
Definition erase_at (pos : nat) (l : list A) : list A := take pos l ++ drop (S pos) l.

Definition sorted_by (l : list A) : Prop := StronglySorted (λ x y, key x ≤ key y) l.

Lemma lower_bound_le k l : (lower_bound k l ≤ length l)%nat.
Proof. induction l as [|x l IH]; simpl; [lia|]. destruct (key x <? k); simpl; lia. Qed.

(** What is before the position is less, what is at it is not. *)
Lemma lower_bound_take k l : Forall (λ x, key x < k) (take (lower_bound k l) l).
Proof.
  induction l as [|x l IH]; simpl; [constructor|].
  destruct (Z.ltb_spec (key x) k); simpl; [by constructor|constructor].
Qed.

Lemma lower_bound_drop k l : sorted_by l → Forall (λ x, k ≤ key x) (drop (lower_bound k l) l).
Proof.
  induction 1 as [|x l Hl IH Hx]; simpl; [constructor|].
  destruct (Z.ltb_spec (key x) k); simpl; [done|]. constructor; [done|].
  eapply Forall_impl; [exact Hx|]. simpl. lia.
Qed.

Lemma insert_sorted_eq x l : insert_sorted x l =
  take (lower_bound (key x) l) l ++ x :: drop (lower_bound (key x) l) l.
Proof.
  unfold insert_sorted. pose proof (lower_bound_le (key x) l). case_decide; [done|].
  by rewrite take_ge, drop_ge by lia.
Qed.

Lemma insert_sorted_perm x l : insert_sorted x l ≡ₚ x :: l.
Proof.
  rewrite insert_sorted_eq, <- Permutation_middle. constructor. by rewrite take_drop.
Qed.

Lemma length_insert_sorted x l : length (insert_sorted x l) = S (length l).
Proof. by rewrite (insert_sorted_perm x l). Qed.

Lemma sorted_by_app a b : sorted_by (a ++ b) ↔
  sorted_by a ∧ sorted_by b ∧ (∀ x y, x ∈ a → y ∈ b → key x ≤ key y).
Proof.
  unfold sorted_by. induction a as [|x a IH]; simpl.
  - split; [intros H; split_and!; [constructor|done|]; intros x y Hx; by apply not_elem_of_nil in Hx|by intros (_ & ? & _)].
  - split.
    + intros H. inversion H as [|? ? Hs Hx]; subst. apply IH in Hs as (Ha & Hb & Hab).
      apply Forall_app in Hx as [Hxa Hxb]. split_and!; [by constructor|done|].
      intros x' y [->|Hx']%elem_of_cons Hy; [|by apply Hab]. by rewrite Forall_forall in Hxb; apply Hxb.
    + intros (Ha & Hb & Hab). inversion Ha as [|? ? Hs Hx]; subst. constructor.
      * apply IH. split_and!; [done|done|]. intros ????. apply Hab; [by apply elem_of_cons; right|done].
      * apply Forall_app. split; [done|]. apply Forall_forall. intros y Hy.
        apply Hab; [by apply elem_of_cons; left|done].
Qed.

Lemma insert_sorted_sorted x l : sorted_by l → sorted_by (insert_sorted x l).
Proof.
  intros Hl. rewrite insert_sorted_eq. set (p := lower_bound (key x) l).
  pose proof (lower_bound_take (key x) l) as Ht. pose proof (lower_bound_drop (key x) l Hl) as Hd.
  fold p in Ht, Hd. rewrite <- (take_drop p l) in Hl. apply sorted_by_app in Hl as (Ha & Hb & Hab).
  rewrite Forall_forall in Ht, Hd. apply sorted_by_app. split_and!; [done| |].
  - constructor; [done|]. by apply Forall_forall.
  - intros y z Hy [->|Hz]%elem_of_cons; [apply Ht in Hy; lia|by apply Hab].
Qed.

(** Searching an element that is there, keys being all different. *)
Lemma lower_bound_elem x l : sorted_by l → NoDup (key <$> l) → x ∈ l →
  l !! lower_bound (key x) l = Some x.
Proof.
  intros Hl Hnd Hx. apply list_elem_of_lookup in Hx as [i Hi].
  set (p := lower_bound (key x) l).
  pose proof (lower_bound_take (key x) l) as Ht. pose proof (lower_bound_drop (key x) l Hl) as Hd.
  fold p in Ht, Hd. rewrite Forall_forall in Ht, Hd.
  assert (Hpi : (p ≤ i)%nat).
  { destruct (decide (p ≤ i)%nat) as [|Hlt]; [done|]. exfalso.
    assert (x ∈ take p l) as Hin by (apply list_elem_of_lookup; exists i; rewrite lookup_take_lt by lia; done).
    apply Ht in Hin. lia. }
  destruct (l !! p) as [y|] eqn:Hp.
  2:{ apply lookup_ge_None in Hp. apply lookup_lt_Some in Hi. lia. }
  assert (Hyk : key x ≤ key y).
  { apply Hd. apply list_elem_of_lookup. exists O. by rewrite lookup_drop, Nat.add_0_r. }
  destruct (decide (p = i)) as [Heq|Hne]; [by subst i; rewrite Hi in Hp|].
  exfalso. rewrite <- (take_drop (S p) l) in Hl. apply sorted_by_app in Hl as (_ & _ & Hab).
  assert (Hyx : key y ≤ key x).
  { apply Hab; apply list_elem_of_lookup.
    - exists p. by rewrite lookup_take_lt by lia.
    - exists (i - S p)%nat. rewrite lookup_drop. by replace (S p + (i - S p))%nat with i by lia. }
  apply Hne. apply (NoDup_lookup (key <$> l) p i (key x)); [done| |]; rewrite list_lookup_fmap.
  - rewrite Hp. simpl. f_equal. lia.
  - by rewrite Hi.
Qed.

Lemma erase_at_perm p x l : l !! p = Some x → l ≡ₚ x :: erase_at p l.
Proof.
  intros Hp. unfold erase_at. rewrite <- (take_drop_middle l p x Hp) at 1.
  by rewrite <- Permutation_middle.
Qed.

Lemma erase_at_sorted p l : sorted_by l → sorted_by (erase_at p l).
Proof.
  intros Hl. unfold erase_at. destruct (decide (p < length l)%nat) as [Hp|Hp].
  - apply lookup_lt_is_Some_2 in Hp as [x Hx]. rewrite <- (take_drop_middle l p x Hx) in Hl.
    apply sorted_by_app in Hl as (Ha & Hb & Hab). inversion Hb; subst.
    apply sorted_by_app. split_and!; [done|done|]. intros y z Hy Hz.
    apply Hab; [done|by apply elem_of_cons; right].
  - by rewrite take_ge, drop_ge, app_nil_r by lia.
Qed.
End sorted_vector.
