(* ===== verification/MemoryPool.v ===== *)
(** * base/memory: the resource pool and the memory block manager

    Models [MemoryPool] ([src/include/sne/base/memory/MemoryPool.h]; [ObjectPool]
    is the same class with the size of its resource) and [MemoryBlockManager]
    ([MemoryBlockManager.h]).  A resource is its address.  The allocator is a
    parameter: it returns an address that is not in use.  The invariant says
    that the active and the idle resources are exactly those the allocator gave,
    each in one place; the mutex makes every method one step, and the step
    relation at the end shows that no interleaving hands out a resource twice. *)

From S2P Require Import Prelude SortedVector MemoryBlock.

(** What the [MemoryPoolCallback] is told. *)
Inductive pool_event :=
| poolGrowing (neededSize : nat)
| poolGrowed (activeResourceSize inactiveResourceSize : nat).

Record MemoryPool := mkPool {
  poolSize_ : nat;
  growable_ : bool;
  spareSize_ : nat;
  activeResources_ : list Z;
  inactiveResources_ : list Z;
  mp_live : list Z;             (* the addresses the allocator has given out *)
  mp_log : list pool_event;     (* the calls of the callback, latest first *)
}.

Section pool.
(** [Allocator::malloc]: an address different from those in use. *)
Context (malloc : list Z → Z).

Definition set_resources (active inactive live : list Z) (log : list pool_event) (p : MemoryPool)
  : MemoryPool :=
  mkPool (poolSize_ p) (growable_ p) (spareSize_ p) active inactive live log.

Definition newPool (poolSize : nat) (growable : bool) : MemoryPool :=
  mkPool poolSize growable (Nat.max 1 (poolSize / 10)) [] [] [] [].

Definition isFull (p : MemoryPool) : bool :=
  bool_decide (length (inactiveResources_ p) ≤ spareSize_ p)%nat.

(** The loop [inactiveResources_.push(allocator_.malloc())]. *)
Fixpoint push_resources (n : nat) (p : MemoryPool) : MemoryPool :=
  match n with
  | O => p
  | S n =>
      let r := malloc (mp_live p) in
      push_resources n (set_resources (activeResources_ p) (inactiveResources_ p ++ [r])
        (r :: mp_live p) (mp_log p) p)
  end.

(** [size_t] arithmetic: it wraps below zero. *)
Definition neededSize (p : MemoryPool) : nat :=
  Z.to_nat (uint 64 (Z.of_nat (poolSize_ p) + Z.of_nat (spareSize_ p) -
    Z.of_nat (length (inactiveResources_ p)))).

Definition log_event (e : pool_event) (p : MemoryPool) : MemoryPool :=
  set_resources (activeResources_ p) (inactiveResources_ p) (mp_live p) (e :: mp_log p) p.

Definition prepareResources (p : MemoryPool) : MemoryPool :=
  let n := neededSize p in
  let p := push_resources n (log_event (poolGrowing n) p) in
  log_event (poolGrowed (length (activeResources_ p)) (length (inactiveResources_ p))) p.

Definition initialize (p : MemoryPool) : MemoryPool := prepareResources p.

Definition findActiveResource (r : Z) (p : MemoryPool) : nat := lower_bound id r (activeResources_ p).

(** The null pointer is [None]. *)
Definition acquire : st MemoryPool (option Z) := λ p,
  if isFull p && negb (growable_ p) then (Ok None, p)
  else
    let p := if isFull p then prepareResources p else p in
    match inactiveResources_ p with
    | r :: idle =>
        (Ok (Some r), set_resources (insert_sorted id r (activeResources_ p)) idle
                        (mp_live p) (mp_log p) p)
    | [] => (Throw BadAlloc, p)
    end.

Definition release (r : Z) (p : MemoryPool) : MemoryPool :=
  let pos := findActiveResource r p in
  if decide (activeResources_ p !! pos = Some r) then
    set_resources (erase_at pos (activeResources_ p)) (inactiveResources_ p ++ [r])
      (mp_live p) (mp_log p) p
  else p.

(** Every resource is given back to the allocator. *)
Definition destroy (p : MemoryPool) : MemoryPool :=
  set_resources [] []
    (filter (λ r, r ∉ activeResources_ p ∧ r ∉ inactiveResources_ p) (mp_live p)) (mp_log p) p.

Definition getActiveResourceCount (p : MemoryPool) : nat := length (activeResources_ p).
Definition getInactiveResourceCount (p : MemoryPool) : nat := length (inactiveResources_ p).

(** ** The invariant *)

Hypothesis malloc_fresh : ∀ l, malloc l ∉ l.

Record pool_inv (p : MemoryPool) : Prop := {
  pi_sorted : sorted_by id (activeResources_ p);
  pi_nodup : NoDup (mp_live p);
  pi_live : mp_live p ≡ₚ activeResources_ p ++ inactiveResources_ p;
  pi_small : Z.of_nat (poolSize_ p + spareSize_ p) < 2 ^ 64;
  pi_spare : (0 < spareSize_ p)%nat;
}.

Lemma pool_inv_nodup p : pool_inv p → NoDup (activeResources_ p ++ inactiveResources_ p).
Proof. intros Hp. rewrite <- (pi_live _ Hp). apply Hp. Qed.

Lemma push_resources_eq n p : ∃ l, length l = n ∧
  push_resources n p = set_resources (activeResources_ p) (inactiveResources_ p ++ l)
    (reverse l ++ mp_live p) (mp_log p) p ∧
  (NoDup (mp_live p) → NoDup (reverse l ++ mp_live p)).
Proof.
  revert p. induction n as [|n IH]; intros p.
  - exists []. split; [done|]. split; [by destruct p; cbn; rewrite app_nil_r|done].
  - cbn [push_resources]. set (r := malloc (mp_live p)).
    destruct (IH (set_resources (activeResources_ p) (inactiveResources_ p ++ [r])
      (r :: mp_live p) (mp_log p) p)) as (l & Hl & E & Hnd).
    exists (r :: l). split; [simpl; by rewrite Hl|]. rewrite E, reverse_cons, <- !app_assoc.
    unfold set_resources in *. cbn [activeResources_ inactiveResources_ mp_live mp_log poolSize_
      growable_ spareSize_] in *. rewrite <- app_assoc. split; [done|].
    intros Hp. apply Hnd. constructor; [apply malloc_fresh|done].
Qed.

Lemma neededSize_eq p : Z.of_nat (poolSize_ p + spareSize_ p) < 2 ^ 64 →
  (length (inactiveResources_ p) ≤ poolSize_ p + spareSize_ p)%nat →
  neededSize p = (poolSize_ p + spareSize_ p - length (inactiveResources_ p))%nat.
Proof. intros Hs Hl. unfold neededSize. rewrite uint_id; unfold is_uint; lia. Qed.

(** Growing fills the idle resources up to the pool size and the spare ones. *)
Lemma prepareResources_ok p : pool_inv p →
  (length (inactiveResources_ p) ≤ poolSize_ p + spareSize_ p)%nat → ∃ l,
  pool_inv (prepareResources p) ∧
  activeResources_ (prepareResources p) = activeResources_ p ∧
  inactiveResources_ (prepareResources p) = inactiveResources_ p ++ l ∧
  length (inactiveResources_ (prepareResources p)) = (poolSize_ p + spareSize_ p)%nat ∧
  poolSize_ (prepareResources p) = poolSize_ p ∧
  spareSize_ (prepareResources p) = spareSize_ p ∧ growable_ (prepareResources p) = growable_ p.
Proof.
  intros [Hs Hnd Hl Hsm Hsp] Hle.
  destruct (push_resources_eq (neededSize p) (log_event (poolGrowing (neededSize p)) p))
    as (l & Hlen & E & Hnd'). exists l.
  unfold prepareResources. rewrite E. cbn.
  assert (Hll : length (inactiveResources_ p ++ l) = (poolSize_ p + spareSize_ p)%nat).
  { rewrite length_app, Hlen, neededSize_eq by done. lia. }
  split_and!; try done. split; cbn; try done.
  - by apply Hnd'.
  - rewrite Hl, reverse_Permutation. solve_Permutation.
Qed.

Lemma newPool_inv n growable : Z.of_nat n < 2 ^ 63 → pool_inv (newPool n growable).
Proof.
  intros Hn. split; [constructor|constructor|done| |]; unfold newPool; cbn [poolSize_ spareSize_]; [|lia].
  assert (n / 10 ≤ n)%nat by (apply Nat.Div0.div_le_upper_bound; lia). lia.
Qed.

(** ** acquire *)

(** The resource handed out was idle or new, and is active from then on. *)
Lemma acquire_some p r p' : pool_inv p → acquire p = (Ok (Some r), p') →
  pool_inv p' ∧ r ∉ activeResources_ p ∧ activeResources_ p' ≡ₚ r :: activeResources_ p ∧
  poolSize_ p' = poolSize_ p ∧ spareSize_ p' = spareSize_ p ∧ growable_ p' = growable_ p.
Proof.
  intros Hp. unfold acquire. destruct (isFull p && negb (growable_ p)); [done|].
  set (q := if isFull p then prepareResources p else p).
  assert (Hq : pool_inv q ∧ activeResources_ q = activeResources_ p ∧
    poolSize_ q = poolSize_ p ∧ spareSize_ q = spareSize_ p ∧ growable_ q = growable_ p).
  { unfold q, isFull. case_bool_decide as Hf; [|done].
    destruct (prepareResources_ok p Hp) as (l & H1 & H2 & _ & _ & H5 & H6 & H7); [lia|done]. }
  clearbody q. destruct Hq as (Hq & Ha & H1 & H2 & H3). rewrite <- Ha.
  destruct (inactiveResources_ q) as [|r' idle] eqn:Ei; intros [= <- <-].
  pose proof (pool_inv_nodup q Hq) as Hnd. rewrite Ei in Hnd.
  destruct Hq as [Hs Hn Hl Hsm Hsp]. cbn. split_and!; try done.
  - split; cbn; try done; [by apply insert_sorted_sorted|].
    rewrite insert_sorted_perm, Hl, Ei. solve_Permutation.
  - intros Hin. apply NoDup_app in Hnd as (_ & Hnd & _). apply (Hnd r' Hin).
    apply elem_of_cons. by left.
  - apply insert_sorted_perm.
Qed.

(** A pool that grows always has a resource; one that does not refuses, with
    nothing changed, exactly when only the spare ones are left. *)
Lemma acquire_growable p : pool_inv p → growable_ p = true →
  ∃ r p', acquire p = (Ok (Some r), p').
Proof.
  intros Hp Hg. unfold acquire. rewrite Hg, andb_false_r. unfold isFull.
  case_bool_decide as Hf.
  - destruct (prepareResources_ok p Hp) as (l & _ & _ & H3 & H4 & _); [lia|].
    pose proof (pi_spare _ Hp).
    destruct (inactiveResources_ (prepareResources p)); [simpl in H4; lia|]. by repeat eexists.
  - destruct (inactiveResources_ p); [simpl in Hf; lia|]. by repeat eexists.
Qed.

Lemma acquire_not_growable p : growable_ p = false →
  if isFull p then acquire p = (Ok None, p)
  else ∃ r p', acquire p = (Ok (Some r), p') ∧
    length (inactiveResources_ p') = (length (inactiveResources_ p) - 1)%nat.
Proof.
  intros Hg. destruct (isFull p) eqn:Hf; unfold acquire; rewrite Hf, Hg; [done|].
  unfold isFull in Hf. apply bool_decide_eq_false in Hf.
  destruct (inactiveResources_ p) as [|r idle] eqn:E; [simpl in Hf; lia|].
  exists r. eexists. split; [reflexivity|]. cbn. lia.
Qed.

(** A pool that does not grow hands out [poolSize_] resources and no more. *)
Lemma acquire_bounded p : growable_ p = false →
  (length (activeResources_ p) + length (inactiveResources_ p) = poolSize_ p + spareSize_ p)%nat →
  acquire p = (Ok None, p) ↔ (poolSize_ p ≤ length (activeResources_ p))%nat.
Proof.
  intros Hg Hlen. pose proof (acquire_not_growable p Hg) as Ha. unfold isFull in Ha.
  case_bool_decide as Hf.
  - split; [lia|done].
  - destruct Ha as (r & p' & E & _). rewrite E. split; [done|lia].
Qed.

(** ** release *)

Lemma release_active p r : pool_inv p → r ∈ activeResources_ p →
  pool_inv (release r p) ∧ r :: activeResources_ (release r p) ≡ₚ activeResources_ p ∧
  inactiveResources_ (release r p) = inactiveResources_ p ++ [r].
Proof.
  intros Hp Hr. pose proof (pool_inv_nodup p Hp) as Hnd. destruct Hp as [Hs Hn Hl Hsm Hsp].
  assert (Hpos : activeResources_ p !! findActiveResource r p = Some r).
  { apply (lower_bound_elem id r); [done| |done]. rewrite list_fmap_id. apply NoDup_app in Hnd as [Hnd' _]. exact Hnd'. }
  pose proof (erase_at_perm _ _ _ Hpos) as Hperm.
  unfold release. rewrite decide_True by done. cbn. split_and!; try done. split; cbn; try done.
  - by apply erase_at_sorted.
  - rewrite Hl, Hperm at 1. solve_Permutation.
Qed.

(** A resource that is not active, released twice or not of this pool, is ignored. *)
Lemma release_inactive p r : r ∉ activeResources_ p → release r p = p.
Proof.
  intros Hr. unfold release. rewrite decide_False; [done|].
  intros Hl. by apply list_elem_of_lookup_2 in Hl.
Qed.

Lemma release_inv p r : pool_inv p → pool_inv (release r p).
Proof.
  intros Hp. destruct (decide (r ∈ activeResources_ p)).
  - by apply release_active.
  - by rewrite release_inactive.
Qed.

(** ** Interleavings

    Threads call the pool in any order; the mutex makes each call a step. *)
Inductive pool_step : MemoryPool → MemoryPool → Prop :=
| step_acquire p r p' : acquire p = (Ok r, p') → pool_step p p'
| step_release p r : pool_step p (release r p).

Lemma pool_step_inv p p' : pool_inv p → pool_step p p' → pool_inv p'.
Proof.
  intros Hp Hst. revert Hp. destruct Hst as [p0 [r|] p1 Ha|p0 r]; intros Hp;
    [by eapply acquire_some| |by apply release_inv].
  unfold acquire in Ha. destruct (isFull p0 && negb (growable_ p0)); [by injection Ha as <-|].
  by destruct (inactiveResources_ _).
Qed.

(** A resource is handed out to one thread only until it is released. *)
Lemma acquire_exclusive p r p' r' p'' : pool_inv p → acquire p = (Ok (Some r), p') →
  acquire p' = (Ok (Some r'), p'') → r' ≠ r.
Proof.
  intros Hp H1 H2. destruct (acquire_some _ _ _ Hp H1) as (Hp' & _ & Hperm & _).
  destruct (acquire_some _ _ _ Hp' H2) as (_ & Hr' & _). intros ->. apply Hr'.
  rewrite Hperm. apply elem_of_cons. by left.
Qed.

(** What stays true of a pool from its initialization on: its parameters, and
    the number of its resources while it may not grow. *)
Record pool_of (n : nat) (growable : bool) (p : MemoryPool) : Prop := {
  po_inv : pool_inv p;
  po_size : poolSize_ p = n;
  po_growable : growable_ p = growable;
  po_count : growable = false →
    (length (activeResources_ p) + length (inactiveResources_ p) = poolSize_ p + spareSize_ p)%nat;
}.

Lemma initialize_pool_of n growable : Z.of_nat n < 2 ^ 63 → pool_of n growable (initialize (newPool n growable)).
Proof.
  intros Hn. destruct (prepareResources_ok _ (newPool_inv n growable Hn)) as (l & H1 & H2 & _ & H4 & H5 & H6 & H7);
    [cbn; lia|]. unfold initialize. split; [done|by rewrite H5|by rewrite H7|].
  intros _. rewrite H4, H2, H5, H6. cbn. lia.
Qed.

Lemma pool_of_step n growable p p' : pool_of n growable p → pool_step p p' → pool_of n growable p'.
Proof.
  intros Hp Hst. pose proof (pool_step_inv _ _ (po_inv _ _ _ Hp) Hst) as Hi. revert Hp Hi.
  destruct Hst as [p0 [r|] p1 Ha|p0 r]; intros [Hp Hs Hg Hc] Hi.
  - destruct (acquire_some _ _ _ Hp Ha) as (_ & _ & H1 & H2 & H3 & H4). split; [done|congruence..|].
    intros Hg'. specialize (Hc Hg'). rewrite Hg' in Hg. pose proof (acquire_not_growable p0 Hg) as Hn.
    destruct (isFull p0) eqn:Hf; [congruence|]. destruct Hn as (r' & p' & E & Hl).
    rewrite Ha in E. injection E as <- <-. unfold isFull in Hf. apply bool_decide_eq_false in Hf.
    rewrite H1, Hl, H2, H3. cbn. lia.
  - unfold acquire in Ha. destruct (isFull p0 && negb (growable_ p0)); [by injection Ha as <-|].
    by destruct (inactiveResources_ _).
  - destruct (decide (r ∈ activeResources_ p0)) as [Hr|Hr]; [|by rewrite release_inactive].
    destruct (release_active p0 r Hp Hr) as (_ & H1 & H2).
    assert (E : poolSize_ (release r p0) = poolSize_ p0 ∧ spareSize_ (release r p0) = spareSize_ p0 ∧
      growable_ (release r p0) = growable_ p0) by (unfold release; by case_decide).
    destruct E as (E1 & E2 & E3). split; [done|congruence..|]. intros Hg'. specialize (Hc Hg').
    rewrite E1, E2, H2, length_app. apply Permutation_length in H1. cbn in H1 |- *. lia.
Qed.

Lemma pool_reachable n growable p : Z.of_nat n < 2 ^ 63 →
  rtc pool_step (initialize (newPool n growable)) p → pool_of n growable p.
Proof.
  intros Hn Hr. pose proof (initialize_pool_of n growable Hn) as H0. revert H0.
  induction Hr as [|x y z Hxy _ IH]; intros Hx; [done|]. apply IH. by eapply pool_of_step.
Qed.

(** ** [MemoryBlockManager]

    The blocks of the pool by address.  A block that was never acquired is as
    [MemoryBlockAllocator::malloc] makes it. *)
Record MemoryBlockManager := mkManager {
  memoryBlockPool_ : MemoryPool;
  initialBlockSize_ : nat;
  mbm_blocks : gmap Z MemoryBlock;
  mbm_releaser : gset Z;      (* the blocks whose [releaser_] is this manager *)
}.

Definition newMemoryBlockManager (poolSize initialBlockSize : nat) : MemoryBlockManager :=
  mkManager (initialize (newPool poolSize true)) initialBlockSize ∅ ∅.

Definition block_at (a : Z) (m : MemoryBlockManager) : MemoryBlock :=
  default (mb_new (initialBlockSize_ m)) (mbm_blocks m !! a).

(** [MemoryBlockManager::acquire], with [MemoryBlock::acquire]. *)
Definition acquireBlock : st MemoryBlockManager (option Z) := λ m,
  let '(r, p) := acquire (memoryBlockPool_ m) in
  match r with
  | Ok (Some a) =>
      (Ok (Some a), mkManager p (initialBlockSize_ m)
        (<[a := mb_reset (block_at a m)]> (mbm_blocks m)) ({[a]} ∪ mbm_releaser m))
  | _ => (r, mkManager p (initialBlockSize_ m) (mbm_blocks m) (mbm_releaser m))
  end.

(** [MemoryBlock::release]: to the releaser it has; a null one is undefined. *)
Definition releaseBlock (a : Z) : st MemoryBlockManager unit := λ m,
  if decide (a ∈ mbm_releaser m) then
    (Ok tt, mkManager (release a (memoryBlockPool_ m)) (initialBlockSize_ m) (mbm_blocks m)
              (mbm_releaser m))
  else (Throw (Undefined "null releaser"), m).

(** A block is handed out empty, to one owner, and can be given back. *)
Lemma acquireBlock_ok m : pool_inv (memoryBlockPool_ m) →
  growable_ (memoryBlockPool_ m) = true → ∃ a m',
  acquireBlock m = (Ok (Some a), m') ∧ pool_inv (memoryBlockPool_ m') ∧
  a ∉ activeResources_ (memoryBlockPool_ m) ∧ a ∈ activeResources_ (memoryBlockPool_ m') ∧
  mb_wf (block_at a m') ∧ mb_contents (block_at a m') = [] ∧ a ∈ mbm_releaser m'.
Proof.
  intros Hp Hg. destruct (acquire_growable _ Hp Hg) as (a & p' & E).
  destruct (acquire_some _ _ _ Hp E) as (Hp' & Hnew & Hperm & _).
  unfold acquireBlock. rewrite E. eexists a, _. split; [reflexivity|]. cbn.
  unfold block_at. cbn. rewrite lookup_insert. case_decide; [|done]. cbn.
  split_and!; try done; [rewrite Hperm; apply elem_of_cons; by left|split; cbn; lia|set_solver].
Qed.
End pool.

(** An allocator of addresses for the witnesses: one above all those in use. *)
Definition above (l : list Z) : Z := foldr (λ x m, Z.max x m) 0 l + 1.

Lemma above_fresh l : above l ∉ l.
Proof.
  assert (H : ∀ x, x ∈ l → x < above l).
  { unfold above. induction l as [|y l IH]; cbn; [by intros x ?%elem_of_nil|].
    intros x [->|Hx]%elem_of_cons; [lia|]. specialize (IH x Hx). lia. }
  intros Hin. specialize (H _ Hin). lia.
Qed.
