(* ===== verification/VariousAllocator.v ===== *)
(** * base/memory: [VariousMemoryAllocator]

    Models [src/include/sne/base/memory/VariousMemoryAllocator.h]: a cache of
    freed chunks sorted by size, searched for the first that is large enough.  A
    chunk is a header that holds its size and the bytes after it; the heap maps
    its address to both.  [new uint8_t[]] is a parameter that returns an unused
    address and bytes of any value. *)

From S2P Require Import Prelude SortedVector.

Record Block := mkBlock { chunkSize_ : Z; chunk_ : Z }.

Definition headerSize : Z := 8.

(** The header and the usable bytes of a chunk. *)
Record chunk_data := mkChunk { ch_header : Z; ch_bytes : list Z }.

Record VariousMemoryAllocator := mkVariousMemoryAllocator {
  cachedBlocks_ : list Block;
  va_heap : gmap Z chunk_data;
}.

Section allocator.
(** [new uint8_t[n]]: an address, and what the bytes behind it hold. *)
Context (new_chunk : gmap Z chunk_data → Z) (garbage : Z → list Z).

Definition set_cache (l : list Block) (a : VariousMemoryAllocator) : VariousMemoryAllocator :=
  mkVariousMemoryAllocator l (va_heap a).

(** [Block(chunkSize)]; [chunkSize + headerSize] is a [size_t]. *)
Definition new_block (chunkSize : Z) (a : VariousMemoryAllocator)
  : Block * VariousMemoryAllocator :=
  let c := new_chunk (va_heap a) in
  let bytes := take (Z.to_nat (uint 64 (chunkSize + headerSize) - headerSize)) (garbage chunkSize) in
  (mkBlock chunkSize c,
   mkVariousMemoryAllocator (cachedBlocks_ a) (<[c := mkChunk chunkSize bytes]> (va_heap a))).

Fixpoint preallocate (poolSize : nat) (chunkSize : Z) (a : VariousMemoryAllocator)
  : VariousMemoryAllocator :=
  match poolSize with
  | O => a
  | S n =>
      let '(b, a) := new_block chunkSize a in
      preallocate n chunkSize (set_cache (cachedBlocks_ a ++ [b]) a)
  end.

Definition newVariousMemoryAllocator (poolSize : nat) (chunkSize : Z) : VariousMemoryAllocator :=
  preallocate poolSize chunkSize (mkVariousMemoryAllocator [] ∅).

Definition find (chunkSize : Z) (a : VariousMemoryAllocator) : nat :=
  lower_bound chunkSize_ chunkSize (cachedBlocks_ a).

Definition insert_block (b : Block) (a : VariousMemoryAllocator) : VariousMemoryAllocator :=
  set_cache (insert_sorted chunkSize_ b (cachedBlocks_ a)) a.

(** The pointer returned is behind the header. *)
Definition malloc (nbytes : Z) (a : VariousMemoryAllocator) : Z * VariousMemoryAllocator :=
  let pos := find nbytes a in
  match cachedBlocks_ a !! pos with
  | Some b => (chunk_ b + headerSize, set_cache (erase_at pos (cachedBlocks_ a)) a)
  | None => let '(b, a) := new_block nbytes a in (chunk_ b + headerSize, a)
  end.

(** [memset(ptr, value, n)] over more bytes than the chunk has is undefined. *)
Definition memset (ptr value : Z) (n : Z) : st VariousMemoryAllocator unit := λ a,
  match va_heap a !! (ptr - headerSize) with
  | Some c =>
      if decide (Z.to_nat n ≤ length (ch_bytes c))%nat then
        (Ok tt, mkVariousMemoryAllocator (cachedBlocks_ a)
          (<[ptr - headerSize := mkChunk (ch_header c)
              (replicate (Z.to_nat n) value ++ drop (Z.to_nat n) (ch_bytes c))]> (va_heap a)))
      else (Throw (Undefined "memset past the chunk"), a)
  | None => (Throw (Undefined "memset outside the heap"), a)
  end.

Definition calloc (nbytes initial_value : Z) : st VariousMemoryAllocator Z := λ a,
  let '(ptr, a) := malloc nbytes a in
  (memset ptr initial_value nbytes ;; mret ptr) a.

(** [calloc(n_elem, elem_size)]: the product is a [size_t]. *)
Definition calloc_elements (n_elem elem_size initial_value : Z) : st VariousMemoryAllocator Z :=
  calloc (uint 64 (n_elem * elem_size)) initial_value.

(** [None] is the null pointer. *)
Definition free (ptr : option Z) : st VariousMemoryAllocator unit := λ a,
  match ptr with
  | None => (Ok tt, a)
  | Some ptr =>
      let c := ptr - headerSize in
      match va_heap a !! c with
      | Some d => (Ok tt, insert_block (mkBlock (ch_header d) c) a)
      | None => (Throw (Undefined "free of a foreign pointer"), a)
      end
  end.

Definition getCachedMemoryCount (a : VariousMemoryAllocator) : nat := length (cachedBlocks_ a).

(** ** The invariant *)

Hypothesis new_chunk_fresh : ∀ h, new_chunk h ∉ dom h.
Hypothesis garbage_length : ∀ n, 0 ≤ n → length (garbage n) = Z.to_nat n.

(** A chunk's header is the number of its bytes; cached blocks are chunks of
    their size, in order, each once. *)
Record alloc_inv (a : VariousMemoryAllocator) : Prop := {
  ai_sorted : sorted_by chunkSize_ (cachedBlocks_ a);
  ai_nodup : NoDup (chunk_ <$> cachedBlocks_ a);
  ai_cached : Forall (λ b, ch_header <$> va_heap a !! chunk_ b = Some (chunkSize_ b)) (cachedBlocks_ a);
  ai_heap : map_Forall (λ _ c, 0 ≤ ch_header c ∧ length (ch_bytes c) = Z.to_nat (ch_header c)) (va_heap a);
}.

(** The chunks in use: those of the heap that are not cached. *)
Definition in_use (c : Z) (a : VariousMemoryAllocator) : Prop :=
  c ∈ dom (va_heap a) ∧ c ∉ chunk_ <$> cachedBlocks_ a.

Definition chunk_capacity (c : Z) (a : VariousMemoryAllocator) : nat :=
  match va_heap a !! c with Some d => length (ch_bytes d) | None => O end.

Lemma cached_in_heap a b : alloc_inv a → b ∈ cachedBlocks_ a → chunk_ b ∈ dom (va_heap a).
Proof.
  intros Ha Hb. pose proof (ai_cached _ Ha) as Hc. rewrite Forall_forall in Hc.
  specialize (Hc b Hb). apply elem_of_dom. destruct (va_heap a !! chunk_ b); [by eexists|done].
Qed.

Lemma new_block_ok n a : alloc_inv a → 0 ≤ n → n + headerSize < 2 ^ 64 →
  let '(b, a') := new_block n a in
  alloc_inv a' ∧ chunk_ b ∉ dom (va_heap a) ∧ chunkSize_ b = n ∧
  cachedBlocks_ a' = cachedBlocks_ a ∧ in_use (chunk_ b) a' ∧ chunk_capacity (chunk_ b) a' = Z.to_nat n ∧
  va_heap a ⊆ va_heap a' ∧ ch_header <$> va_heap a' !! chunk_ b = Some n.
Proof.
  intros Ha Hn Hb. unfold new_block. cbn. set (c := new_chunk (va_heap a)).
  assert (Hc : c ∉ dom (va_heap a)) by apply new_chunk_fresh.
  assert (Hlen : length (take (Z.to_nat (uint 64 (n + headerSize) - headerSize)) (garbage n)) = Z.to_nat n).
  { rewrite uint_id by (unfold is_uint, headerSize in *; lia).
    rewrite length_take, garbage_length by done. unfold headerSize. lia. }
  assert (Hsub : va_heap a ⊆ <[c := mkChunk n (take (Z.to_nat (uint 64 (n + headerSize) - headerSize)) (garbage n))]> (va_heap a)).
  { apply insert_subseteq. by apply not_elem_of_dom. }
  split_and!; try done.
  - destruct Ha as [Hs Hnd Hca Hh]. split; cbn; try done.
    + eapply Forall_impl; [exact Hca|]. intros b Hbb. cbn in Hbb.
      destruct (va_heap a !! chunk_ b) as [d|] eqn:E; [|done].
      rewrite (lookup_weaken _ _ _ _ E Hsub). done.
    + apply map_Forall_insert_2; [by split|done].
  - split; cbn; [set_solver|]. intros Hin. apply list_elem_of_fmap in Hin as (b & E & Hbi).
    apply Hc. rewrite E. by apply cached_in_heap.
  - unfold chunk_capacity. cbn. rewrite lookup_insert. by case_decide.
  - cbn. rewrite lookup_insert. by case_decide.
Qed.

(** The cached block [find] picks: it is large enough, and no smaller one is. *)
Lemma find_best n a b : alloc_inv a → cachedBlocks_ a !! find n a = Some b →
  n ≤ chunkSize_ b ∧ ∀ b', b' ∈ cachedBlocks_ a → n ≤ chunkSize_ b' → chunkSize_ b ≤ chunkSize_ b'.
Proof.
  intros Ha Hb. pose proof (lower_bound_take chunkSize_ n (cachedBlocks_ a)) as Ht.
  pose proof (lower_bound_drop chunkSize_ n _ (ai_sorted _ Ha)) as Hd.
  fold (find n a) in Ht, Hd. pose proof (drop_S _ _ _ Hb) as Hds. rewrite Hds in Hd.
  apply Forall_cons in Hd as [Hn _]. split; [done|]. intros b' Hb' Hnb'.
  pose proof (ai_sorted _ Ha) as Hs. rewrite <- (take_drop (find n a) (cachedBlocks_ a)), Hds in Hs, Hb'.
  apply sorted_by_app in Hs as (_ & Hs & _). apply elem_of_app in Hb' as [Hb'|[->|Hb']%elem_of_cons].
  - rewrite Forall_forall in Ht. apply Ht in Hb'. lia.
  - done.
  - inversion Hs as [|? ? _ Hall]; subst. rewrite Forall_forall in Hall. by apply Hall.
Qed.

Lemma find_none n a : alloc_inv a → cachedBlocks_ a !! find n a = None →
  ∀ b, b ∈ cachedBlocks_ a → chunkSize_ b < n.
Proof.
  intros Ha Hn b Hb. apply lookup_ge_None in Hn.
  pose proof (lower_bound_take chunkSize_ n (cachedBlocks_ a)) as Ht. fold (find n a) in Ht.
  rewrite take_ge in Ht by done. rewrite Forall_forall in Ht. by apply Ht.
Qed.

(** The memory handed out is large enough and was not in use; what was in use
    stays in use, with the same bytes. *)
Lemma malloc_ok n a : alloc_inv a → 0 ≤ n → n + headerSize < 2 ^ 64 →
  let '(ptr, a') := malloc n a in
  alloc_inv a' ∧ in_use (ptr - headerSize) a' ∧ ¬ in_use (ptr - headerSize) a ∧
  (Z.to_nat n ≤ chunk_capacity (ptr - headerSize) a')%nat ∧
  (∀ c, in_use c a → in_use c a' ∧ va_heap a' !! c = va_heap a !! c).
Proof.
  intros Ha Hn Hb. unfold malloc. destruct (cachedBlocks_ a !! find n a) as [b|] eqn:Hf.
  - destruct (find_best n a b Ha Hf) as [Hbig _].
    pose proof (list_elem_of_lookup_2 _ _ _ Hf) as Hin.
    pose proof (erase_at_perm _ _ _ Hf) as Hperm. set (l := erase_at _ _) in *.
    replace (chunk_ b + headerSize - headerSize) with (chunk_ b) by lia.
    pose proof (ai_nodup _ Ha) as Hnd. rewrite Hperm, fmap_cons in Hnd.
    apply NoDup_cons in Hnd as [Hbl Hnd].
    assert (Hcap : (Z.to_nat n ≤ chunk_capacity (chunk_ b) a)%nat).
    { pose proof (ai_cached _ Ha) as Hca. rewrite Forall_forall in Hca. specialize (Hca b Hin).
      unfold chunk_capacity. destruct (va_heap a !! chunk_ b) as [d|] eqn:Ed; [|done].
      injection Hca as Hh. destruct (ai_heap _ Ha _ _ Ed) as [H0 ->]. lia. }
    split_and!.
    + destruct Ha as [Hs Hnd' Hca Hh]. split; cbn; try done; [by apply erase_at_sorted|].
      rewrite Hperm in Hca. by apply Forall_cons in Hca as [_ Hca].
    + split; [by apply (cached_in_heap a)|done].
    + intros [_ Hno]. apply Hno. rewrite Hperm, fmap_cons. apply elem_of_cons. by left.
    + done.
    + intros c [Hd Hno]. split; [|done]. split; [done|]. cbn. intros Hc. apply Hno.
      rewrite Hperm, fmap_cons. apply elem_of_cons. by right.
  - pose proof (new_block_ok n a Ha Hn Hb) as Hnew. destruct (new_block n a) as [b a'].
    destruct Hnew as (Ha' & Hfresh & Hsz & Hca & Huse & Hcap & Hsub & _).
    replace (chunk_ b + headerSize - headerSize) with (chunk_ b) by lia.
    split_and!; [done|done|by intros [? _]|lia|]. intros c [Hd Hno].
    apply elem_of_dom in Hd as [d Hd]. pose proof (lookup_weaken _ _ _ _ Hd Hsub) as Hd'.
    split; [|by rewrite Hd, Hd']. split; [by apply elem_of_dom; eexists|by rewrite Hca].
Qed.

(** Memory that is freed goes back to the cache; nothing else changes. *)
Lemma free_ok ptr a : alloc_inv a → in_use (ptr - headerSize) a → ∃ a',
  free (Some ptr) a = (Ok tt, a') ∧ alloc_inv a' ∧ ¬ in_use (ptr - headerSize) a' ∧
  va_heap a' = va_heap a ∧ getCachedMemoryCount a' = S (getCachedMemoryCount a) ∧
  (∀ c, c ≠ ptr - headerSize → in_use c a ↔ in_use c a').
Proof.
  intros Ha [Hd Hno]. unfold free. set (c := ptr - headerSize) in *.
  apply elem_of_dom in Hd as [d Hd]. rewrite Hd. eexists. split; [reflexivity|].
  set (b := mkBlock (ch_header d) c).
  pose proof (insert_sorted_perm chunkSize_ b (cachedBlocks_ a)) as Hperm.
  assert (Hin : ∀ x, x ∈ chunk_ <$> insert_sorted chunkSize_ b (cachedBlocks_ a) ↔
    x = c ∨ x ∈ chunk_ <$> cachedBlocks_ a).
  { intros x. by rewrite Hperm, fmap_cons, elem_of_cons. }
  split_and!.
  - destruct Ha as [Hs Hnd Hca Hh]. split; cbn; try done; [by apply insert_sorted_sorted| |].
    + rewrite Hperm, fmap_cons. by apply NoDup_cons.
    + rewrite Hperm. constructor; [|done]. cbn. by rewrite Hd.
  - intros [_ Hn]. apply Hn. apply Hin. by left.
  - done.
  - unfold getCachedMemoryCount. cbn. apply length_insert_sorted.
  - intros x Hx. unfold in_use. cbn. rewrite Hin. naive_solver.
Qed.

(** A chunk that was freed serves a later request of at most its size: the heap
    does not grow. *)
Lemma malloc_after_free ptr n a a' : alloc_inv a → in_use (ptr - headerSize) a →
  free (Some ptr) a = (Ok tt, a') →
  (Z.to_nat n ≤ chunk_capacity (ptr - headerSize) a)%nat → 0 ≤ n →
  va_heap (malloc n a').2 = va_heap a'.
Proof.
  intros Ha [Hd Hno] Hf Hn H0. unfold free in Hf. set (c := ptr - headerSize) in *.
  apply elem_of_dom in Hd as [d Hd]. rewrite Hd in Hf. injection Hf as <-.
  unfold chunk_capacity in Hn. rewrite Hd in Hn. destruct (ai_heap _ Ha _ _ Hd) as [Hh0 Hh].
  destruct (free_ok ptr a Ha) as (a2 & E & Ha2 & _); [by split; [apply elem_of_dom; eexists|]|].
  unfold free in E. fold c in E. rewrite Hd in E. injection E as <-.
  unfold malloc. destruct (_ !! find n _) eqn:Hf; [done|]. exfalso.
  pose proof (find_none n _ Ha2 Hf (mkBlock (ch_header d) c)) as Hlt. cbn in Hlt.
  rewrite Hh in Hn. enough (ch_header d < n) by lia. apply Hlt.
  rewrite (insert_sorted_perm chunkSize_). apply elem_of_cons. by left.
Qed.

(** Filling the memory at hand touches nothing else. *)
Lemma memset_ok ptr value n a : alloc_inv a →
  (Z.to_nat n ≤ chunk_capacity (ptr - headerSize) a)%nat → in_use (ptr - headerSize) a → ∃ a',
  memset ptr value n a = (Ok tt, a') ∧ alloc_inv a' ∧
  (∀ c, in_use c a' ↔ in_use c a) ∧ (∀ c, chunk_capacity c a' = chunk_capacity c a).
Proof.
  intros Ha Hn [Hd _]. unfold memset, chunk_capacity in *. set (c := ptr - headerSize) in *.
  apply elem_of_dom in Hd as [d Hd]. rewrite Hd in *. rewrite decide_True by done.
  eexists. split; [reflexivity|].
  set (d' := mkChunk _ _).
  assert (Hlen : length (ch_bytes d') = length (ch_bytes d))
    by (cbn; rewrite length_app, length_replicate, length_drop; lia).
  split_and!.
  - destruct Ha as [Hs Hnd Hca Hh]. split; cbn; try done.
    + eapply Forall_impl; [exact Hca|]. intros b Hb. cbn in Hb. rewrite lookup_insert.
      case_decide as E; [|done]. rewrite <- E, Hd in Hb. exact Hb.
    + apply map_Forall_insert_2; [|done]. rewrite Hlen. exact (Hh _ _ Hd).
  - intros x. unfold in_use. cbn. rewrite dom_insert_lookup; [done|by eexists].
  - intros x. cbn. rewrite lookup_insert. case_decide as E; [|done]. subst x. by rewrite Hd.
Qed.

(** ** Clients

    A client asks for memory, fills what it got and gives it back; [out] is what
    it holds, each pointer with the size it asked for. *)
Inductive client_step : VariousMemoryAllocator * list (Z * Z) → VariousMemoryAllocator * list (Z * Z) → Prop :=
| client_malloc n a out : 0 ≤ n → n + headerSize < 2 ^ 64 →
    client_step (a, out) ((malloc n a).2, ((malloc n a).1, n) :: out)
| client_memset ptr value n k a a' out r : (ptr, n) ∈ out → k ≤ n →
    memset ptr value k a = (r, a') → client_step (a, out) (a', out)
| client_free ptr n a a' out out' r : out ≡ₚ (ptr, n) :: out' →
    free (Some ptr) a = (r, a') → client_step (a, out) (a', out').

Definition held_ok (a : VariousMemoryAllocator) (p : Z * Z) : Prop :=
  in_use (p.1 - headerSize) a ∧ (Z.to_nat p.2 ≤ chunk_capacity (p.1 - headerSize) a)%nat.

Record client_inv (s : VariousMemoryAllocator * list (Z * Z)) : Prop := {
  ci_alloc : alloc_inv s.1;
  ci_nodup : NoDup s.2.*1;
  ci_held : Forall (held_ok s.1) s.2;
}.

Lemma client_step_inv s s' : client_inv s → client_step s s' → client_inv s'.
Proof.
  intros Hs Hst. revert Hs. destruct Hst as [n a out Hn Hb|ptr value n k a a' out r Hin Hk E|ptr n a a' out out' r Hp E];
    intros [Ha Hnd Hh]; cbn [fst snd] in *.
  - pose proof (malloc_ok n a Ha Hn Hb) as Hm. destruct (malloc n a) as [ptr a'].
    destruct Hm as (Ha' & Huse & Hnew & Hcap & Hold). cbn [fst snd].
    rewrite Forall_forall in Hh. split; cbn; [done| |].
    + apply NoDup_cons. split; [|done]. intros Hin. apply list_elem_of_fmap in Hin as (p & -> & Hin).
      by destruct (Hh p Hin).
    + constructor; [by split|]. apply Forall_forall. intros p Hin. destruct (Hh p Hin) as [Hu Hc].
      destruct (Hold _ Hu) as [Hu' E]. split; [done|]. unfold chunk_capacity in *. by rewrite E.
  - rewrite Forall_forall in Hh. destruct (Hh _ Hin) as [Hu Hc]. cbn in Hu, Hc.
    destruct (memset_ok ptr value k a Ha) as (a2 & E2 & Ha2 & Hu2 & Hc2); [lia|done|].
    rewrite E in E2. injection E2 as -> ->. split; cbn; [done|done|]. apply Forall_forall.
    intros p Hp. destruct (Hh p Hp) as [H1 H2]. split; [by apply Hu2|by rewrite Hc2].
  - rewrite Hp in Hnd, Hh. cbn in Hnd. apply NoDup_cons in Hnd as [Hnin Hnd].
    apply Forall_cons in Hh as [[Hu Hc] Hh]. cbn in Hu.
    destruct (free_ok ptr a Ha Hu) as (a2 & E2 & Ha2 & _ & Hheap & _ & Hold).
    rewrite E in E2. injection E2 as -> ->. split; cbn; [done|done|].
    rewrite Forall_forall in Hh |- *. intros p Hin. destruct (Hh p Hin) as [H1 H2].
    split; [|unfold chunk_capacity in *; by rewrite Hheap]. apply Hold; [|done].
    intros Heq. apply Hnin. apply list_elem_of_fmap. exists p. split; [lia|done].
Qed.

Lemma preallocate_inv poolSize chunkSize a : alloc_inv a → 0 ≤ chunkSize →
  chunkSize + headerSize < 2 ^ 64 →
  Forall (λ b, chunkSize_ b = chunkSize) (cachedBlocks_ a) →
  alloc_inv (preallocate poolSize chunkSize a).
Proof.
  intros Ha Hn Hb. revert a Ha. induction poolSize as [|k IH]; intros a Ha Hf; cbn [preallocate]; [done|].
  pose proof (new_block_ok chunkSize a Ha Hn Hb) as Hnew. destruct (new_block chunkSize a) as [b a'].
  destruct Hnew as (Ha' & Hfresh & Hsz & Hca & _ & _ & Hsub & Hh). apply IH.
  - destruct Ha' as [Hs Hnd Hc Hhp]. split; cbn; try done.
    + apply sorted_by_app. split_and!; [done|by constructor; constructor|].
      intros x y Hx Hy. rewrite Hca in Hx. apply list_elem_of_singleton in Hy as ->.
      rewrite Forall_forall in Hf. rewrite (Hf _ Hx). lia.
    + rewrite fmap_app. apply NoDup_app. split_and!; [done| |by apply NoDup_singleton].
      intros x Hx Hy. cbn in Hy. apply list_elem_of_singleton in Hy as ->. rewrite Hca in Hx.
      apply list_elem_of_fmap in Hx as (b' & E & Hin). apply Hfresh. rewrite E. by apply cached_in_heap.
    + apply Forall_app. split; [done|]. repeat constructor. by rewrite Hh, Hsz.
  - cbn. rewrite Hca. apply Forall_app. split; [done|]. by repeat constructor.
Qed.

Lemma newVariousMemoryAllocator_inv poolSize chunkSize : 0 ≤ chunkSize →
  chunkSize + headerSize < 2 ^ 64 → alloc_inv (newVariousMemoryAllocator poolSize chunkSize).
Proof.
  intros Hn Hb. apply preallocate_inv; [|done|done|constructor].
  split; cbn; [constructor|constructor|constructor|apply map_Forall_empty].
Qed.

(** Every client of a new allocator. *)
Lemma client_reachable poolSize chunkSize s : 0 ≤ chunkSize → chunkSize + headerSize < 2 ^ 64 →
  rtc client_step (newVariousMemoryAllocator poolSize chunkSize, []) s → client_inv s.
Proof.
  intros Hn Hb Hr. assert (H0 : client_inv (newVariousMemoryAllocator poolSize chunkSize, []))
    by (split; cbn; [by apply newVariousMemoryAllocator_inv|constructor|constructor]).
  revert H0. induction Hr as [|x y z Hxy _ IH]; intros Hx; [done|]. apply IH.
  by eapply client_step_inv.
Qed.
End allocator.
