(* ===== verification/SmartPtr.v ===== *)
(** * core/utility: reference-counted pointers

    Models [SmartPtr.h] and [SmartPtr.cpp] ([src/include/sne/core/utility/SmartPtr.h],
    [src/src/core/utility/SmartPtr.cpp]): [SharedObject] with its count, the two traits
    that change it, and the operations of [SmartPtr], made by any number of threads.
    A smart pointer is a place: a variable, or a member of a shared object, which is
    destroyed with it.  What an operation has still to do when another thread may come
    between is its work: the atomic decrement, the destructor of the object, which
    asserts that its count is 0, and the assignment of [rawPtr_] that follows them.  A
    place is used by one thread at a time, so it is out of the map while an operation on
    it has not ended.  [operator=] is as it is meant, with a pointer that is not const:
    as it stands it passes a [const Type*] to a parameter that is not const, and no
    instance of it compiles. *)

From S2P Require Import Prelude.

(** ** [SharedObject] and the traits *)

(** An address, [None] for a null pointer. *)
Abbreviation pointer := (option Z).

(** [so_members]: how many smart pointers the derived class has. *)
Record SharedObject := mkShared { referenceCount_ : Z; so_members : nat }.
Definition newSharedObject (members : nat) : SharedObject := mkShared 0 members.
Definition set_referenceCount (c : Z) (o : SharedObject) : SharedObject := mkShared c (so_members o).

(** [uint32_t]s.  What is returned is whether the object is to be deleted. *)
Definition addReference (o : SharedObject) : SharedObject := set_referenceCount (uint 32 (referenceCount_ o + 1)) o.
Definition removeReference (o : SharedObject) : bool * SharedObject :=
  let c := uint 32 (referenceCount_ o - 1) in (c =? 0, set_referenceCount c o).
(** [atomic_dec32] returns the count before. *)
Definition threadSafe_removeReference (o : SharedObject) : bool * SharedObject :=
  (referenceCount_ o =? 1, set_referenceCount (uint 32 (referenceCount_ o - 1)) o).

(** ** The state *)

Inductive place := Variable_ (v : nat) | Member (a : Z) (i : nat).
#[global] Instance place_eq_dec : EqDecision place.
Proof. solve_decision. Defined.
#[global] Instance place_countable : Countable place.
Proof.
  refine (inj_countable' (λ p, match p with Variable_ v => inl v | Member a i => inr (a, i) end)
    (λ x, match x with inl v => Variable_ v | inr (a, i) => Member a i end) _). by intros [].
Defined.

Inductive pointer_task :=
| RemoveReference (p : pointer)
| Delete (a : Z)
| Write (pl : place) (p : pointer).

#[global] Instance work_eq_dec : EqDecision pointer_task.
Proof. solve_decision. Defined.

Record store := mkStore {
  objects : gmap Z SharedObject;
  places : gmap place pointer;
  threads : list (list pointer_task);
  deleted : list Z;
  held : gset Z;                 (* the objects that were ever referred to, for the statements *)
}.
Definition newStore (threads : nat) : store := mkStore ∅ ∅ (replicate threads []) [] ∅.

Definition set_work (t : nat) (l : list pointer_task) (s : store) : store :=
  mkStore (objects s) (places s) (<[t := l]> (threads s)) (deleted s) (held s).
Definition set_objects (o : gmap Z SharedObject) (s : store) : store :=
  mkStore o (places s) (threads s) (deleted s) (held s).
Definition set_places (m : gmap place pointer) (s : store) : store :=
  mkStore (objects s) m (threads s) (deleted s) (held s).

(** Objects that nothing has referred to yet, or that a pointer refers to. *)
Definition holders (a : Z) (m : gmap place pointer) : gmap place pointer := filter (λ x, x.2 = Some a) m.
Definition may_refer (p : pointer) (s : store) : bool :=
  match p with
  | None => true
  | Some a => (bool_decide (is_Some (objects s !! a)) && bool_decide (a ∉ held s)) || bool_decide (holders a (places s) ≠ ∅)
  end.

(** A place that no smart pointer is at. *)
Definition writes_to (pl : place) (w : pointer_task) : bool := match w with Write pl' _ => bool_decide (pl = pl') | _ => false end.
Definition unused (pl : place) (s : store) : bool :=
  bool_decide (places s !! pl = None) && negb (existsb (existsb (writes_to pl)) (threads s)).

(** [Traits::addReference] of what [may_refer] allows. *)
Definition refer (p : pointer) (s : store) : result store :=
  match p with
  | None => Ok s
  | Some a =>
      match objects s !! a with
      | None => Throw (Undefined "a deleted object")
      | Some o => Ok (mkStore (<[a := addReference o]> (objects s)) (places s) (threads s) (deleted s) ({[a]} ∪ held s))
      end
  end.

(** ** The operations of [SmartPtr] *)

(** The smart pointers of an object, from the last. *)
Definition member_places (a : Z) (o : SharedObject) : list place := Member a <$> reverse (seq 0 (so_members o)).
Definition member_values (m : gmap place pointer) (l : list place) : list pointer := omap (λ pl, m !! pl) l.
Definition remove_places (l : list place) (m : gmap place pointer) : gmap place pointer := foldr delete m l.
Definition null_places (l : list place) (m : gmap place pointer) : gmap place pointer := foldr (λ pl, <[pl := None]>) m l.

Inductive pointer_event :=
| Allocate (a : Z) (members : nat)                       (* [new] of a derived class *)
| Construct (v : nat) (p : pointer)                      (* [SmartPtr(Type *ptr)] *)
| CopyConstruct (v from : nat)                           (* [SmartPtr(const ThisSmartPtr&)] *)
| CopyMember (v via : nat) (i : nat)                     (* of [via->member] *)
| Destroy (t v : nat)                                    (* [~SmartPtr] *)
| Assign (t v : nat) (p : pointer)                       (* both [operator=] *)
| AssignMember (t via i : nat) (p : pointer)             (* [via->member = p] *)
| ResetPointer (t v : nat)                               (* [reset] *)
| SwapPointers (v w : nat)                               (* [swap] *)
| Work (t : nat).                                        (* the next of what is to be done *)

Definition construct (v : nat) (p : pointer) (s : store) : result store :=
  match refer p s with Ok s => Ok (set_places (<[Variable_ v := p]> (places s)) s) | e => e end.
(** [Traits::changeReference(ptr, rawPtr_)] adds first. *)
Definition assign (t : nat) (taken : list place) (old p : pointer) (after : list pointer_task) (s : store) : result store :=
  match refer p s with
  | Ok s => Ok (set_work t (RemoveReference old :: after) (set_places (remove_places taken (places s)) s))
  | e => e
  end.

Definition do_work (t : nat) (w : pointer_task) (l : list pointer_task) (s : store) : result store :=
  match w with
  | RemoveReference None => Ok (set_work t l s)
  | RemoveReference (Some a) =>
      match objects s !! a with
      | None => Throw (Undefined "a deleted object")
      | Some o =>
          let '(last, o) := threadSafe_removeReference o in
          Ok (set_work t (if (last : bool) then Delete a :: l else l) (set_objects (<[a := o]> (objects s)) s))
      end
  | Delete a =>
      match objects s !! a with
      | None => Throw (Undefined "a deleted object")
      | Some o =>
          let pls := member_places a o in
          if negb (referenceCount_ o =? 0) then Throw (Undefined "a shared object destroyed with references") else
          Ok (mkStore (delete a (objects s)) (remove_places pls (places s))
            (<[t := (RemoveReference <$> member_values (places s) pls) ++ l]> (threads s)) (deleted s ++ [a]) (held s))
      end
  | Write pl p => Ok (set_work t l (set_places (<[pl := p]> (places s)) s))
  end.

(** What is not possible in the state is [None]: an address that was in use, a place that
    does not exist, a thread that has something to do. *)
Definition pointer_exec (e : pointer_event) (s : store) : option (result store) :=
  match e with
  | Allocate a n =>
      if bool_decide (objects s !! a = None) && bool_decide (a ∉ deleted s) then
        Some (Ok (mkStore (<[a := newSharedObject n]> (objects s))
          (null_places (member_places a (newSharedObject n)) (places s)) (threads s) (deleted s) (held s)))
      else None
  | Construct v p => if may_refer p s && unused (Variable_ v) s then Some (construct v p s) else None
  | CopyConstruct v from =>
      p ← places s !! Variable_ from;
      if unused (Variable_ v) s then Some (construct v p s) else None
  | CopyMember v via i =>
      h ← places s !! Variable_ via; a ← h; p ← places s !! Member a i;
      if unused (Variable_ v) s then Some (construct v p s) else None
  | Destroy t v =>
      p ← places s !! Variable_ v;
      if bool_decide (threads s !! t = Some []) then
        Some (Ok (set_work t [RemoveReference p] (set_places (delete (Variable_ v) (places s)) s)))
      else None
  | Assign t v p =>
      old ← places s !! Variable_ v;
      if may_refer p s && bool_decide (threads s !! t = Some []) then
        Some (assign t [Variable_ v] old p [Write (Variable_ v) p] s)
      else None
  | AssignMember t via i p =>
      h ← places s !! Variable_ via; a ← h; old ← places s !! Member a i;
      if may_refer p s && bool_decide (threads s !! t = Some []) then
        Some (assign t [Member a i; Variable_ via] old p [Write (Member a i) p; Write (Variable_ via) h] s)
      else None
  | ResetPointer t v =>
      p ← places s !! Variable_ v;
      if bool_decide (threads s !! t = Some []) then
        Some (Ok (set_work t [RemoveReference p; Write (Variable_ v) None] (set_places (delete (Variable_ v) (places s)) s)))
      else None
  | SwapPointers v w =>
      p ← places s !! Variable_ v; q ← places s !! Variable_ w;
      Some (Ok (set_places (<[Variable_ v := q]> (<[Variable_ w := p]> (places s))) s))
  | Work t =>
      l ← threads s !! t;
      match l with
      | [] => None
      | w :: l => Some (do_work t w l s)
      end
  end.

Fixpoint pointer_run (es : list pointer_event) (s : store) : option (result store) :=
  match es with
  | [] => Some (Ok s)
  | e :: es => r ← pointer_exec e s; match r with Ok s => pointer_run es s | e => Some e end
  end.

(** ** Counting *)

(** Sums over what the threads have to do. *)
Definition total (f : pointer_task → nat) (ts : list (list pointer_task)) : nat := sum_list_with (sum_list_with f) ts.

Definition is_ref (p : pointer) (a : Z) : nat := if decide (p = Some a) then 1 else 0.
Definition work_ref (a : Z) (w : pointer_task) : nat := match w with RemoveReference p | Write _ p => is_ref p a | Delete _ => 0 end.
Definition work_delete (a : Z) (w : pointer_task) : nat := match w with Delete b => if decide (a = b) then 1 else 0 | _ => 0 end.
Definition work_write (pl : place) (w : pointer_task) : nat := if writes_to pl w then 1 else 0.

Definition references (a : Z) (s : store) : nat := size (holders a (places s)) + total (work_ref a) (threads s).
Definition deletions (a : Z) (s : store) : nat := total (work_delete a) (threads s).
Definition writers (pl : place) (s : store) : nat := total (work_write pl) (threads s).

Lemma total_cons f l ts : total f (l :: ts) = (sum_list_with f l + total f ts)%nat.
Proof. done. Qed.

Lemma total_tasks_insert f ts t l l' : ts !! t = Some l →
  (total f (<[t := l']> ts) + sum_list_with f l = total f ts + sum_list_with f l')%nat.
Proof.
  revert t. induction ts as [|x ts IH]; intros t; [done|]. destruct t as [|t].
  - intros [= ->]. unfold total. cbn. lia.
  - intros Ht. specialize (IH t Ht). rewrite !total_cons.
    change (<[S t := l']> (x :: ts)) with (x :: <[t := l']> ts). rewrite total_cons. lia.
Qed.

Lemma total_pos f ts t l : ts !! t = Some l → (sum_list_with f l ≤ total f ts)%nat.
Proof.
  revert t. induction ts as [|x ts IH]; intros t; [done|]. rewrite total_cons. destruct t as [|t].
  - intros [= ->]. lia.
  - intros Ht. specialize (IH t Ht). lia.
Qed.

Lemma sum_with_app f (l l' : list pointer_task) : sum_list_with f (l ++ l') = (sum_list_with f l + sum_list_with f l')%nat.
Proof. induction l as [|w l IH]; cbn; [done|]. rewrite IH. lia. Qed.

Lemma holders_insert a pl p m : m !! pl = None → size (holders a (<[pl := p]> m)) = (is_ref p a + size (holders a m))%nat.
Proof.
  intros Hm. unfold holders, is_ref. rewrite map_filter_insert. cbn. destruct (decide (p = Some a)) as [E|E].
  - rewrite map_size_insert_None; [done|]. apply map_lookup_filter_None. by left.
  - by rewrite delete_id.
Qed.

Lemma holders_delete a pl p m : m !! pl = Some p → size (holders a m) = (is_ref p a + size (holders a (delete pl m)))%nat.
Proof.
  intros Hm. rewrite <- (insert_delete_id m pl p Hm) at 1. apply holders_insert. apply lookup_delete_eq.
Qed.

Lemma holders_pos a pl m : m !! pl = Some (Some a) → (0 < size (holders a m))%nat.
Proof. intros Hm. rewrite (holders_delete a pl _ m Hm). unfold is_ref. rewrite decide_True by done. lia. Qed.

Lemma holders_nonempty a m : holders a m ≠ ∅ → ∃ pl, m !! pl = Some (Some a).
Proof.
  intros Hne. destruct (map_choose _ Hne) as (pl & p & Hp). apply map_lookup_filter_Some in Hp as [Hp E].
  cbn in E. subst p. by exists pl.
Qed.

(** ** What is kept *)

(** A write to a member of an object is followed by one that holds the object. *)
Fixpoint held_writes (l : list pointer_task) : Prop :=
  match l with
  | [] => True
  | Write (Member a i) p :: l => (match l with Write _ (Some b) :: _ => b = a | _ => False end) ∧ held_writes l
  | _ :: l => held_writes l
  end.

(** [extra]: the references that an operation holds in its own variables. *)
Definition extra (a : Z) (E : list pointer) : nat := sum_list_with (λ p, is_ref p a) E.
Definition known (a : Z) (E : list pointer) (s : store) : nat := references a s + extra a E.
Definition dying (a : Z) (E : list pointer) (s : store) : Prop := known a E s = 0%nat ∧ a ∈ held s.
#[global] Instance dying_dec a E s : Decision (dying a E s).
Proof. unfold dying. apply _. Defined.
Definition placed (pl : place) (s : store) : nat := if decide (is_Some (places s !! pl)) then 1 else 0.

(** A member is one of the smart pointers of an object that is there. *)
Definition member_ok (pl : place) (s : store) : Prop :=
  match pl with Variable_ _ => True | Member a i => ∃ o, objects s !! a = Some o ∧ (i < so_members o)%nat end.

Record store_inv (n : nat) (E : list pointer) (s : store) : Prop := {
  si_live : ∀ a o, objects s !! a = Some o → referenceCount_ o = Z.of_nat (known a E s) ∧ (known a E s ≤ n)%nat ∧
    deletions a s = (if decide (dying a E s) then 1 else 0)%nat;
  si_dead : ∀ a, objects s !! a = None → known a E s = 0%nat ∧ deletions a s = 0%nat;
  si_held : ∀ a, (0 < known a E s)%nat → a ∈ held s;
  si_members : ∀ pl, (0 < writers pl s + placed pl s)%nat → member_ok pl s;
  si_writers : ∀ pl, (writers pl s + placed pl s ≤ 1)%nat;
  si_writes : Forall held_writes (threads s);
  si_deleted : NoDup (deleted s);
  si_gone : ∀ a, a ∈ deleted s ↔ objects s !! a = None ∧ a ∈ held s;
}.

Lemma total_replicate f n : total f (replicate n []) = 0%nat.
Proof. induction n as [|n IH]; [done|]. exact IH. Qed.

Lemma newStore_inv n : store_inv 0 [] (newStore n).
Proof.
  assert (Hr : ∀ a, known a [] (newStore n) = 0%nat).
  { intros a. unfold known, references, newStore. cbn [threads places]. by rewrite total_replicate. }
  split; try done.
  - intros a _. split; [apply Hr|]. unfold deletions, newStore. cbn [threads]. apply total_replicate.
  - intros a. rewrite Hr. lia.
  - intros pl. unfold writers, placed, newStore. cbn [threads places].
    rewrite total_replicate, decide_False by (by intros [? ?]). lia.
  - intros pl. unfold writers, placed, newStore. cbn [threads places]. rewrite total_replicate, decide_False by (by intros [? ?]). lia.
  - apply Forall_replicate. constructor.
  - constructor.
  - intros a. cbn. rewrite elem_of_nil. set_solver.
Qed.

Lemma known_live n E s a : store_inv n E s → (0 < known a E s)%nat → ∃ o, objects s !! a = Some o.
Proof.
  intros Hi Ha. destruct (objects s !! a) as [o|] eqn:E1; [by exists o|]. destruct (si_dead _ _ _ Hi a E1). lia.
Qed.

Lemma extra_cons a p E : extra a (p :: E) = (is_ref p a + extra a E)%nat.
Proof. done. Qed.
Lemma is_ref_self a : is_ref (Some a) a = 1%nat.
Proof. unfold is_ref. by rewrite decide_True. Qed.
Lemma is_ref_other a b : a ≠ b → is_ref (Some b) a = 0%nat.
Proof. unfold is_ref. intros ?. by rewrite decide_False by congruence. Qed.

(** Two states that count alike. *)
Lemma same_counts n E E' s s' : objects s' = objects s → held s' = held s → deleted s' = deleted s →
  (∀ a, known a E' s' = known a E s) → (∀ a, deletions a s' = deletions a s) →
  (∀ pl, (0 < writers pl s' + placed pl s')%nat → member_ok pl s) →
  (∀ pl, (writers pl s' + placed pl s' ≤ 1)%nat) → Forall held_writes (threads s') →
  store_inv n E s → store_inv n E' s'.
Proof.
  intros Eo Eh Ed Ek El Hm Hw Hwr [H1 H2 H3 H4 H5 H6 H7 H8].
  assert (Edy : ∀ a, dying a E' s' ↔ dying a E s) by (intros a; unfold dying; by rewrite Ek, Eh).
  split; try (rewrite ?Eo, ?Ed, ?Eh; try done).
  - intros a o Ho. rewrite Ek, El. destruct (H1 a o Ho) as (? & ? & ->). split_and!; [done|done|].
    by rewrite (decide_ext _ _ _ _ (Edy a)).
  - intros a Ho. rewrite Ek, El. by apply H2.
  - intros a. rewrite Ek. apply H3.
  - intros pl Hp. specialize (Hm pl Hp). unfold member_ok in *. by rewrite Eo.
Qed.

(** *** The steps *)

(** [addReference] *)
Lemma refer_inv n E p s : Z.of_nat (S n) < 2 ^ 32 → store_inv n E s → may_refer p s = true →
  ∃ s', refer p s = Ok s' ∧ store_inv (S n) (p :: E) s' ∧ places s' = places s ∧ threads s' = threads s.
Proof.
  intros Hn Hi Hp. destruct p as [a|]; cbn [refer].
  2:{ exists s. split; [done|]. split; [|done]. destruct Hi as [H1 H2 H3 H4 H5 H6 H7 H8]. split; try done.
      intros b o Ho. destruct (H1 b o Ho) as (? & ? & ?). split_and!; [done| |done].
      change (known b (None :: E) s) with (known b E s). lia. }
  assert (Ho : ∃ o, objects s !! a = Some o ∧ (a ∈ held s → (0 < known a E s)%nat)).
  { unfold may_refer in Hp. apply orb_true_iff in Hp as [Hp|Hp].
    - apply andb_true_iff in Hp as [H1%bool_decide_eq_true H2%bool_decide_eq_true]. destruct H1 as [o Ho].
      exists o. split; [done|]. intros ?. by destruct H2.
    - apply bool_decide_eq_true in Hp. destruct (holders_nonempty _ _ Hp) as [pl Hpl].
      assert (Hk : (0 < known a E s)%nat) by (unfold known, references; pose proof (holders_pos a pl _ Hpl); lia).
      destruct (known_live n E s a Hi Hk) as [o Ho]. by exists o. }
  destruct Ho as (o & Ho & Hheld). rewrite Ho. eexists. split; [done|]. split; [|done].
  pose proof Hi as [H1 H2 H3 H4 H5 H6 H7 H8].
  assert (Ek : ∀ b, known b (Some a :: E) (mkStore (<[a := addReference o]> (objects s)) (places s) (threads s) (deleted s)
    ({[a]} ∪ held s)) = (is_ref (Some a) b + known b E s)%nat).
  { intros b. unfold known, references. cbn [places threads]. rewrite extra_cons. lia. }
  split; cbn [objects places threads deleted held].
  - intros b ob Hb. rewrite Ek. destruct (decide (b = a)) as [->|Hne].
    + rewrite lookup_insert_eq in Hb. injection Hb as <-. destruct (H1 a o Ho) as (Hc & Hle & Hd). rewrite is_ref_self.
      cbn [addReference set_referenceCount referenceCount_]. rewrite Hc, uint_id by (unfold is_uint; lia).
      split_and!; [lia|lia|]. rewrite decide_False by (intros [Hz _]; rewrite Ek, is_ref_self in Hz; lia).
      change (deletions a _) with (deletions a s). rewrite Hd, decide_False; [done|]. intros [Hz Hh]. specialize (Hheld Hh). lia.
    + rewrite lookup_insert_ne in Hb by done. rewrite is_ref_other by done. destruct (H1 b ob Hb) as (Hc & Hle & Hd).
      split_and!; [done|lia|]. change (deletions b _) with (deletions b s). rewrite Hd. apply decide_ext. unfold dying.
      rewrite Ek, is_ref_other by done. cbn. set_solver.
  - intros b Hb. rewrite Ek. destruct (decide (b = a)) as [->|Hne]; [by rewrite lookup_insert_eq in Hb|].
    rewrite lookup_insert_ne in Hb by done. rewrite is_ref_other by done. by apply H2.
  - intros b. rewrite Ek. destruct (decide (b = a)) as [->|Hne]; [set_solver|]. rewrite is_ref_other by done.
    intros Hb%H3. set_solver.
  - intros [v|b i] Hb%H4; [done|]. destruct Hb as (ob & Hob & Hlt). cbn. destruct (decide (b = a)) as [->|Hne].
    + rewrite Ho in Hob. injection Hob as <-. rewrite lookup_insert_eq. by eexists.
    + rewrite lookup_insert_ne by done. by exists ob.
  - exact H5.
  - exact H6.
  - exact H7.
  - intros b. rewrite H8. destruct (decide (b = a)) as [->|Hne].
    + rewrite lookup_insert_eq, Ho. split; intros [? ?]; done.
    + rewrite lookup_insert_ne by done. set_solver.
Qed.

Lemma known_places a E s pl p m : places s !! pl = None → m = <[pl := p]> (places s) →
  known a E (set_places m s) = (is_ref p a + known a E s)%nat.
Proof.
  intros Hpl ->. unfold known, references. cbn [places threads set_places]. rewrite holders_insert by done. lia.
Qed.
Lemma known_taken a E s pl p : places s !! pl = Some p →
  known a E s = (is_ref p a + known a E (set_places (delete pl (places s)) s))%nat.
Proof.
  intros Hpl. unfold known, references. cbn [places threads set_places]. rewrite (holders_delete a pl p) by done. lia.
Qed.

Lemma placed_insert pl pl' p s : placed pl (set_places (<[pl' := p]> (places s)) s) = (if decide (pl = pl') then 1 else placed pl s)%nat.
Proof.
  unfold placed. cbn [places set_places]. destruct (decide (pl = pl')) as [->|Hne].
  - rewrite lookup_insert_eq. by rewrite decide_True by (by eexists).
  - by rewrite lookup_insert_ne.
Qed.
Lemma placed_delete pl pl' s : placed pl (set_places (delete pl' (places s)) s) = (if decide (pl = pl') then 0 else placed pl s)%nat.
Proof.
  unfold placed. cbn [places set_places]. destruct (decide (pl = pl')) as [->|Hne].
  - rewrite lookup_delete_eq. by rewrite decide_False by (by intros [? ?]).
  - by rewrite lookup_delete_ne.
Qed.

(** A smart pointer is made at a place, with a reference the operation holds. *)
Lemma place_in n E pl p s : store_inv n (p :: E) s → places s !! pl = None → writers pl s = 0%nat →
  member_ok pl s →
  store_inv n E (set_places (<[pl := p]> (places s)) s).
Proof.
  intros Hi Hpl Hw Hm. apply (same_counts n (p :: E) E s); try done.
  - intros a. rewrite (known_places a E s pl p) by done. unfold known. rewrite extra_cons. lia.
  - intros pl'. rewrite placed_insert. change (writers pl' _) with (writers pl' s). case_decide as Eq; [by subst|].
    apply (si_members _ _ _ Hi).
  - intros pl'. rewrite placed_insert. change (writers pl' _) with (writers pl' s). case_decide as Eq; [subst; lia|by eapply si_writers].
  - exact (si_writes _ _ _ Hi).
Qed.

(** A smart pointer is taken away, and the operation holds its reference. *)
Lemma place_out n E pl p s : store_inv n E s → places s !! pl = Some p →
  store_inv n (p :: E) (set_places (delete pl (places s)) s) ∧ writers pl (set_places (delete pl (places s)) s) = 0%nat.
Proof.
  intros Hi Hpl. pose proof (si_writers _ _ _ Hi pl) as Hw. unfold placed in Hw. rewrite decide_True in Hw by (by eexists).
  split; [|change (writers pl _) with (writers pl s); lia].
  apply (same_counts n E (p :: E) s); try done.
  - intros a. rewrite (known_taken a E s pl p) by done. unfold known. rewrite extra_cons. lia.
  - intros pl'. rewrite placed_delete. change (writers pl' _) with (writers pl' s). intros Hp. apply (si_members _ _ _ Hi).
    case_decide; lia.
  - intros pl'. rewrite placed_delete. change (writers pl' _) with (writers pl' s). pose proof (si_writers _ _ _ Hi pl'). case_decide; lia.
  - exact (si_writes _ _ _ Hi).
Qed.

(** What a thread has to do changes, and with it what is held. *)
Lemma work_inv n E E' s t l l' : store_inv n E s → threads s !! t = Some l →
  (∀ a, sum_list_with (work_ref a) l' + extra a E' = sum_list_with (work_ref a) l + extra a E)%nat →
  (∀ a, sum_list_with (work_delete a) l' = sum_list_with (work_delete a) l) →
  (∀ pl, (sum_list_with (work_write pl) l' ≤ sum_list_with (work_write pl) l)%nat ∨
    (writers pl s + placed pl s = 0 ∧ sum_list_with (work_write pl) l' ≤ 1)%nat ∧ member_ok pl s) →
  held_writes l' → store_inv n E' (set_work t l' s).
Proof.
  intros Hi Ht Hr Hd Hw Hh. apply (same_counts n E E' s); try done.
  - intros a. unfold known, references. cbn [places threads set_work]. specialize (Hr a).
    pose proof (total_tasks_insert (work_ref a) _ _ _ l' Ht). lia.
  - intros a. unfold deletions. cbn [threads set_work]. specialize (Hd a). pose proof (total_tasks_insert (work_delete a) _ _ _ l' Ht). lia.
  - intros pl. change (placed pl (set_work t l' s)) with (placed pl s). pose proof (si_members _ _ _ Hi pl) as Hm.
    unfold writers in *. cbn [threads set_work]. pose proof (total_tasks_insert (work_write pl) _ _ _ l' Ht).
    destruct (Hw pl) as [?|[? ?]]; [|done]. intros ?. apply Hm. lia.
  - intros pl. pose proof (si_writers _ _ _ Hi pl) as Hp. change (placed pl (set_work t l' s)) with (placed pl s). unfold writers in *.
    cbn [threads set_work]. pose proof (total_tasks_insert (work_write pl) _ _ _ l' Ht). destruct (Hw pl) as [?|[? ?]]; lia.
  - cbn [threads set_work]. apply Forall_insert; [exact (si_writes _ _ _ Hi)|done].
Qed.

(** *** What threads do *)

Lemma threadSafe_removeReference_eq o : 0 < referenceCount_ o < 2 ^ 32 → threadSafe_removeReference o = removeReference o.
Proof.
  intros Hc. unfold threadSafe_removeReference, removeReference. rewrite uint_id by (unfold is_uint; lia).
  f_equal. destruct (Z.eqb_spec (referenceCount_ o) 1), (Z.eqb_spec (referenceCount_ o - 1) 0); lia.
Qed.

(** The last of the references that an operation holds is given back. *)
Lemma drop_inv n a o l t s : Z.of_nat n < 2 ^ 32 → store_inv n [Some a] s → objects s !! a = Some o → threads s !! t = Some l →
  store_inv n [] (set_work t (if (threadSafe_removeReference o).1 then Delete a :: l else l)
    (set_objects (<[a := (threadSafe_removeReference o).2]> (objects s)) s)).
Proof.
  intros Hn Hi Ho Ht. destruct (si_live _ _ _ Hi a o Ho) as (Hc & Hle & Hd).
  set (o' := (threadSafe_removeReference o).2). set (last := (threadSafe_removeReference o).1).
  set (l' := if last then Delete a :: l else l). set (s' := set_work t l' (set_objects (<[a := o']> (objects s)) s)).
  assert (Hka : known a [Some a] s = S (known a [] s)) by (unfold known; rewrite extra_cons, is_ref_self; cbn; lia).
  assert (Hlast : last = bool_decide (known a [] s = 0%nat)).
  { unfold last, threadSafe_removeReference. cbn. rewrite Hc, Hka. destruct (Z.eqb_spec (Z.of_nat (S (known a [] s))) 1); case_bool_decide; lia. }
  assert (Hheld : a ∈ held s) by (apply (si_held _ _ _ Hi); lia).
  rewrite decide_False in Hd by (intros [Hz _]; lia).
  assert (Ek : ∀ b, known b [] s' = known b [] s).
  { intros b. unfold known, references, s', set_work, set_objects. cbn [places threads].
    pose proof (total_tasks_insert (work_ref b) _ _ _ l' Ht). unfold l' in *. destruct last; cbn in *; lia. }
  assert (Ekb : ∀ b, b ≠ a → known b [] s = known b [Some a] s) by (intros b Hb; unfold known; by rewrite extra_cons, is_ref_other).
  assert (Ed : ∀ b, deletions b s' = ((if decide (b = a ∧ last = true) then 1 else 0) + deletions b s)%nat).
  { intros b. unfold deletions, s', set_work, set_objects. cbn [threads].
    pose proof (total_tasks_insert (work_delete b) _ _ _ l' Ht). unfold l' in *. destruct last; cbn in *.
    - destruct (decide (b = a)); [rewrite decide_True by done; lia|rewrite decide_False by (by intros [? _]); lia].
    - rewrite decide_False by (by intros [_ ?]). lia. }
  assert (Ew : ∀ pl, writers pl s' = writers pl s).
  { intros pl. unfold writers, s', set_work, set_objects. cbn [threads]. pose proof (total_tasks_insert (work_write pl) _ _ _ l' Ht).
    unfold l' in *. destruct last; cbn in *; lia. }
  assert (Hmem : ∀ pl, member_ok pl s → member_ok pl s').
  { intros [v|b i]; [done|]. intros (ob & Hob & Hlt). unfold s'. cbn. destruct (decide (b = a)) as [->|Hne].
    - rewrite Ho in Hob. injection Hob as <-. rewrite lookup_insert_eq. by eexists.
    - rewrite lookup_insert_ne by done. by exists ob. }
  split.
  - intros b ob Hb. unfold s' in Hb. cbn in Hb. rewrite Ek, Ed. destruct (decide (b = a)) as [->|Hne].
    + rewrite lookup_insert_eq in Hb. injection Hb as <-. split_and!; [|lia|].
      * unfold o', threadSafe_removeReference. cbn. rewrite Hc, Hka, uint_id by (unfold is_uint; lia). lia.
      * rewrite Hd, Hlast. case_bool_decide as Hz.
        -- rewrite decide_True by done. rewrite decide_True; [done|]. split; [by rewrite Ek|done].
        -- rewrite decide_False by (by intros [_ ?]). rewrite decide_False; [done|]. intros [H0 _]. by rewrite Ek in H0.
    + rewrite lookup_insert_ne in Hb by done. destruct (si_live _ _ _ Hi b ob Hb) as (H1 & H2 & H3). rewrite Ekb by done.
      split_and!; [done|done|]. rewrite (decide_False (P := b = a ∧ _)) by (by intros [? _]). rewrite H3. cbn. apply decide_ext.
      unfold dying. by rewrite <- Ekb, Ek by done.
  - intros b Hb. unfold s' in Hb. cbn in Hb. rewrite Ek, Ed. destruct (decide (b = a)) as [->|Hne]; [by rewrite lookup_insert_eq in Hb|].
    rewrite lookup_insert_ne in Hb by done. rewrite Ekb, (decide_False (P := b = a ∧ _)) by (done || by intros [? _]).
    exact (si_dead _ _ _ Hi b Hb).
  - intros b. rewrite Ek. change (held s') with (held s). intros Hb. destruct (decide (b = a)) as [->|Hne]; [done|].
    rewrite Ekb in Hb by done. by apply (si_held _ _ _ Hi).
  - intros pl. rewrite Ew. change (placed pl s') with (placed pl s). intros Hp. by apply Hmem, (si_members _ _ _ Hi).
  - intros pl. rewrite Ew. exact (si_writers _ _ _ Hi pl).
  - unfold s'. cbn. apply Forall_insert; [exact (si_writes _ _ _ Hi)|]. pose proof (Forall_lookup_1 _ _ _ _ (si_writes _ _ _ Hi) Ht).
    unfold l'. by destruct last.
  - exact (si_deleted _ _ _ Hi).
  - intros b. unfold s'. cbn. rewrite (si_gone _ _ _ Hi). destruct (decide (b = a)) as [->|Hne].
    + rewrite lookup_insert_eq, Ho. split; by intros [? ?].
    + by rewrite lookup_insert_ne.
Qed.

Lemma held_writes_tail w l : held_writes (w :: l) → held_writes l.
Proof. destruct w as [p|a|[v|a i] p]; cbn; [done..|]. by intros [_ ?]. Qed.

Lemma known_work a E s t l : threads s !! t = Some l → (sum_list_with (work_ref a) l ≤ known a E s)%nat.
Proof. intros Ht. unfold known, references. pose proof (total_pos (work_ref a) _ _ _ Ht). lia. Qed.

Lemma remove_step n t p l s : Z.of_nat n < 2 ^ 32 → store_inv n [] s → threads s !! t = Some (RemoveReference p :: l) →
  ∃ s', do_work t (RemoveReference p) l s = Ok s' ∧ store_inv n [] s'.
Proof.
  intros Hn Hi Ht. pose proof (held_writes_tail _ _ (Forall_lookup_1 _ _ _ _ (si_writes _ _ _ Hi) Ht)) as Hh.
  assert (Hi1 : store_inv n [p] (set_work t l s)).
  { eapply (work_inv n [] [p] s t); [done|exact Ht| |done|by left|done]. intros a. cbn. lia. }
  destruct p as [a|]; cbn [do_work].
  - destruct (known_live n [] s a Hi) as [o Ho].
    { pose proof (known_work a [] s t _ Ht) as Hk. cbn in Hk. rewrite is_ref_self in Hk. lia. }
    rewrite Ho. destruct (threadSafe_removeReference o) as [last o'] eqn:Er. eexists. split; [done|].
    assert (Hl : threads (set_work t l s) !! t = Some l).
    { cbn. apply list_lookup_insert_eq. by eapply lookup_lt_Some. }
    pose proof (drop_inv n a o l t (set_work t l s) Hn Hi1 Ho Hl) as Hi2. rewrite Er in Hi2. cbn [fst snd] in Hi2.
    unfold set_work, set_objects in *. cbn in *. by rewrite list_insert_insert_eq in Hi2.
  - eexists. split; [done|]. apply (same_counts n [None] [] (set_work t l s)); try done.
    + apply (si_members _ _ _ Hi1).
    + apply (si_writers _ _ _ Hi1).
    + apply (si_writes _ _ _ Hi1).
Qed.

Lemma write_step n t pl p l s : store_inv n [] s → threads s !! t = Some (Write pl p :: l) →
  ∃ s', do_work t (Write pl p) l s = Ok s' ∧ store_inv n [] s'.
Proof.
  intros Hi Ht. pose proof (held_writes_tail _ _ (Forall_lookup_1 _ _ _ _ (si_writes _ _ _ Hi) Ht)) as Hh.
  assert (Hi1 : store_inv n [p] (set_work t l s)).
  { eapply (work_inv n [] [p] s t); [done|exact Ht| |done| |done].
    - intros a. cbn. lia.
    - intros pl'. left. cbn. lia. }
  assert (Hw : (writers pl (set_work t l s) + 1 ≤ writers pl s)%nat).
  { unfold writers, set_work. cbn [threads]. pose proof (total_tasks_insert (work_write pl) _ _ _ l Ht) as He. cbn in He.
    unfold work_write at 2, writes_to in He. rewrite bool_decide_eq_true_2 in He by done. lia. }
  pose proof (si_writers _ _ _ Hi pl) as H1. eexists. split; [done|].
  change (set_work t l (set_places (<[pl := p]> (places s)) s)) with (set_places (<[pl := p]> (places (set_work t l s))) (set_work t l s)).
  apply (place_in n [] pl p); [done| |lia|].
  - cbn. unfold placed in H1. destruct (places s !! pl); [|done]. rewrite decide_True in H1 by (by eexists). lia.
  - apply (si_members _ _ _ Hi pl). lia.
Qed.

Lemma remove_lookup l m pl : remove_places l m !! pl = if decide (pl ∈ l) then None else m !! pl.
Proof.
  induction l as [|pl' l IH]; [done|]. cbn [remove_places foldr]. destruct (decide (pl = pl')) as [->|Hne].
  - rewrite lookup_delete_eq. by rewrite decide_True by (apply elem_of_cons; by left).
  - rewrite lookup_delete_ne by done. unfold remove_places in IH. rewrite IH. apply decide_ext. rewrite elem_of_cons. naive_solver.
Qed.

Lemma holders_remove a l m : NoDup l →
  size (holders a m) = (extra a (member_values m l) + size (holders a (remove_places l m)))%nat.
Proof.
  induction 1 as [|pl l Hpl _ IH]; [done|]. rewrite IH. pose proof (remove_lookup l m pl) as Hs. rewrite decide_False in Hs by done.
  unfold member_values, remove_places in *. cbn [omap list_omap foldr]. destruct (m !! pl) as [p|] eqn:Ep.
  - rewrite (holders_delete a pl p (foldr delete m l)) by done. rewrite extra_cons. lia.
  - by rewrite (delete_id (foldr delete m l)).
Qed.

Lemma member_places_spec a o pl : pl ∈ member_places a o ↔ ∃ i, pl = Member a i ∧ (i < so_members o)%nat.
Proof.
  unfold member_places. rewrite list_elem_of_fmap. setoid_rewrite elem_of_reverse. setoid_rewrite elem_of_seq. naive_solver lia.
Qed.
Lemma member_places_NoDup a o : NoDup (member_places a o).
Proof. unfold member_places. apply NoDup_fmap_2; [by intros ?? [= ->]|]. rewrite reverse_Permutation. apply NoDup_seq. Qed.

(** A write to a member has a reference to its object. *)
Lemma held_writes_ref a i l : held_writes l → (0 < sum_list_with (work_write (Member a i)) l)%nat →
  (0 < sum_list_with (work_ref a) l)%nat.
Proof.
  induction l as [|w l IH]; cbn [sum_list_with]; [lia|]. intros Hh Hw. pose proof (held_writes_tail _ _ Hh) as Ht.
  unfold work_write at 1 in Hw. destruct (writes_to (Member a i) w) eqn:Ew; [|specialize (IH Ht); lia].
  destruct w as [p|b|pl p]; [done|done|]. cbn in Ew. apply bool_decide_eq_true in Ew. subst pl. destruct Hh as [Hh _].
  destruct l as [|[p'|b|pl [b|]] l]; try done. subst b. cbn. rewrite is_ref_self. lia.
Qed.

Lemma total_exists f ts : (0 < total f ts)%nat → ∃ t l, ts !! t = Some l ∧ (0 < sum_list_with f l)%nat.
Proof.
  induction ts as [|l ts IH]; [by cbn; lia|]. rewrite total_cons. intros H.
  destruct (decide (0 < sum_list_with f l)%nat) as [Hl|Hl]; [by exists 0%nat, l|].
  destruct IH as (t & l' & Ht & Hl'); [lia|]. by exists (S t), l'.
Qed.

Lemma writers_known a i E s : Forall held_writes (threads s) → (0 < writers (Member a i) s)%nat → (0 < known a E s)%nat.
Proof.
  intros Hh Hw. destruct (total_exists _ _ Hw) as (t & l & Ht & Hl).
  pose proof (held_writes_ref a i l (Forall_lookup_1 _ _ _ _ Hh Ht) Hl). pose proof (known_work a E s t l Ht). lia.
Qed.

Lemma delete_step n t a l s : store_inv n [] s → threads s !! t = Some (Delete a :: l) →
  ∃ s', do_work t (Delete a) l s = Ok s' ∧ store_inv n [] s'.
Proof.
  intros Hi Ht. pose proof (Forall_lookup_1 _ _ _ _ (si_writes _ _ _ Hi) Ht) as Hh.
  assert (Hd : (1 ≤ deletions a s)%nat).
  { pose proof (total_pos (work_delete a) _ _ _ Ht) as Hd. cbn in Hd. rewrite decide_True in Hd by done. unfold deletions. lia. }
  cbn [do_work]. destruct (objects s !! a) as [o|] eqn:Ho; [|destruct (si_dead _ _ _ Hi a Ho); lia].
  destruct (si_live _ _ _ Hi a o Ho) as (Hc & _ & Hd1). destruct (decide (dying a [] s)) as [[Hz Hheld]|]; [|lia].
  rewrite Hc, Hz. cbn [negb Z.of_nat Z.eqb].
  set (pls := member_places a o). set (l' := (RemoveReference <$> member_values (places s) pls) ++ l).
  eexists. split; [done|]. set (s' := mkStore _ _ _ _ _).
  assert (Hvals : ∀ b, sum_list_with (work_ref b) (RemoveReference <$> member_values (places s) pls) = extra b (member_values (places s) pls)).
  { intros b. induction (member_values (places s) pls) as [|p ps IH]; [done|]. cbn. by rewrite IH. }
  assert (Hsum : ∀ f l0, (∀ p, f (RemoveReference p) = 0%nat) → sum_list_with f ((RemoveReference <$> l0) ++ l) = sum_list_with f l).
  { intros f l0 Hf. induction l0 as [|p ps IH]; [done|]. cbn. by rewrite Hf, IH. }
  assert (Ek : ∀ b, known b [] s' = known b [] s).
  { intros b. unfold known, references, s'. cbn [places threads]. pose proof (total_tasks_insert (work_ref b) _ _ _ l' Ht) as He.
    pose proof (holders_remove b pls (places s) (member_places_NoDup a o)). unfold l' in He. rewrite sum_with_app, Hvals in He.
    cbn [sum_list_with work_ref] in He. unfold l'. lia. }
  assert (Ed : ∀ b, (deletions b s' + (if decide (b = a) then 1 else 0) = deletions b s)%nat).
  { intros b. unfold deletions, s'. cbn [threads]. pose proof (total_tasks_insert (work_delete b) _ _ _ l' Ht) as He. unfold l' in *.
    rewrite Hsum in He by done. cbn in He. lia. }
  assert (Ew : ∀ pl, writers pl s' = writers pl s).
  { intros pl. unfold writers, s'. cbn [threads]. pose proof (total_tasks_insert (work_write pl) _ _ _ l' Ht) as He. unfold l' in *.
    rewrite Hsum in He by done. cbn in He. lia. }
  assert (Ep : ∀ pl, placed pl s' = if decide (pl ∈ pls) then 0%nat else placed pl s).
  { intros pl. unfold placed, s'. cbn [places]. pose proof (remove_lookup pls (places s) pl) as Hl. fold pls.
    destruct (decide (pl ∈ pls)); rewrite Hl.
    - by rewrite decide_False by (by intros [? ?]).
    - done. }
  assert (Edead : ∀ b, objects s' !! b = if decide (b = a) then None else objects s !! b).
  { intros b. unfold s'. cbn. case_decide as Hb; [subst; by rewrite lookup_delete_eq|by rewrite lookup_delete_ne]. }
  split.
  - intros b ob. rewrite Edead. case_decide as Hb; [done|]. intros Hob. destruct (si_live _ _ _ Hi b ob Hob) as (H1 & H2 & H3).
    specialize (Ed b). rewrite (decide_False (P := b = a)) in Ed by done. rewrite Ek. split_and!; [done|done|].
    replace (deletions b s') with (deletions b s) by lia. rewrite H3. apply decide_ext. unfold dying. by rewrite Ek.
  - intros b. rewrite Edead, Ek. specialize (Ed b). case_decide as Hb; [subst b; intros _; split; [done|lia]|].
    intros Hob. destruct (si_dead _ _ _ Hi b Hob). lia.
  - intros b. rewrite Ek. apply (si_held _ _ _ Hi).
  - intros pl. rewrite Ew, Ep. intros Hp.
    assert (Hok : member_ok pl s) by (apply (si_members _ _ _ Hi); destruct (decide (pl ∈ pls)); lia).
    destruct pl as [v|b i]; [done|]. destruct Hok as (ob & Hob & Hlt). exists ob. rewrite Edead. split; [|done].
    destruct (decide (b = a)) as [Hb|Hb]; [|done]. subst b. rewrite Ho in Hob. injection Hob as <-. exfalso.
    rewrite decide_True in Hp by (apply member_places_spec; by exists i).
    assert (0 < known a [] s)%nat; [|lia]. apply (writers_known a i [] s (si_writes _ _ _ Hi)). lia.
  - intros pl. rewrite Ew, Ep. pose proof (si_writers _ _ _ Hi pl). case_decide; lia.
  - unfold s'. cbn. apply Forall_insert; [exact (si_writes _ _ _ Hi)|]. apply held_writes_tail in Hh.
    clear -Hh. unfold l'. by induction (member_values (places s) pls).
  - unfold s'. cbn. apply NoDup_app. split_and!; [exact (si_deleted _ _ _ Hi)| |apply NoDup_singleton].
    intros b Hb ->%list_elem_of_singleton. apply (si_gone _ _ _ Hi) in Hb as [Hb _]. by rewrite Ho in Hb.
  - intros b. rewrite Edead. change (held s') with (held s). unfold s'. cbn [deleted]. rewrite elem_of_app, list_elem_of_singleton, (si_gone _ _ _ Hi).
    case_decide; naive_solver.
Qed.

(** *** Every event *)

Lemma no_writers pl s : existsb (existsb (writes_to pl)) (threads s) = false → writers pl s = 0%nat.
Proof.
  intros He. destruct (decide (writers pl s = 0%nat)) as [|Hne]; [done|]. exfalso.
  destruct (total_exists (work_write pl) (threads s)) as (t & l & Ht & Hl); [unfold writers in Hne; lia|].
  assert (Hex : existsb (writes_to pl) l = true).
  { clear -Hl. induction l as [|w l IH]; cbn in *; [lia|]. unfold work_write in Hl at 1. destruct (writes_to pl w); [done|]. by apply IH. }
  assert (existsb (existsb (writes_to pl)) (threads s) = true); [|congruence].
  apply existsb_exists. exists l. split; [|done]. apply list_elem_of_In. by eapply list_elem_of_lookup_2.
Qed.

Lemma construct_inv n v p s : Z.of_nat (S n) < 2 ^ 32 → store_inv n [] s → may_refer p s = true → unused (Variable_ v) s = true →
  ∃ s', construct v p s = Ok s' ∧ store_inv (S n) [] s'.
Proof.
  intros Hn Hi Hp Hu. apply andb_true_iff in Hu as [Hu%bool_decide_eq_true Hw%negb_true_iff].
  destruct (refer_inv n [] p s Hn Hi Hp) as (s1 & E1 & Hi1 & Epl & Eth). unfold construct. rewrite E1. eexists. split; [done|].
  apply (place_in (S n) [] (Variable_ v) p s1); [done|by rewrite Epl| |done]. unfold writers. rewrite Eth. by apply no_writers.
Qed.

Lemma one_write_le pl w p : (sum_list_with (work_write pl) [RemoveReference w; Write pl p] ≤ 1)%nat.
Proof. cbn. unfold work_write. case_match; lia. Qed.
Lemma one_write_ne pl pl' w p : pl ≠ pl' → (sum_list_with (work_write pl) [RemoveReference w; Write pl' p] ≤ 0)%nat.
Proof. intros Hne. cbn. unfold work_write. cbn. by rewrite bool_decide_eq_false_2. Qed.

Lemma assign_inv n t v old p s : Z.of_nat (S n) < 2 ^ 32 → store_inv n [] s → may_refer p s = true → threads s !! t = Some [] →
  places s !! Variable_ v = Some old → ∃ s', assign t [Variable_ v] old p [Write (Variable_ v) p] s = Ok s' ∧ store_inv (S n) [] s'.
Proof.
  intros Hn Hi Hp Ht Hv. destruct (refer_inv n [] p s Hn Hi Hp) as (s1 & E1 & Hi1 & Epl & Eth). unfold assign. rewrite E1.
  eexists. split; [done|]. rewrite <- Epl in Hv. rewrite <- Eth in Ht. destruct (place_out _ _ _ _ _ Hi1 Hv) as [Hi2 Hw2].
  cbn [remove_places foldr]. eapply (work_inv _ _ [] _ t []); [exact Hi2|exact Ht| |done| |done].
  - intros a. cbn. lia.
  - intros pl. destruct (decide (pl = Variable_ v)) as [->|Hne]; [right|left; by apply one_write_ne].
    rewrite Hw2, placed_delete, decide_True by done. split; [|done]. split; [done|]. apply one_write_le.
Qed.

Lemma holder_may_refer pl a s : places s !! pl = Some (Some a) → may_refer (Some a) s = true.
Proof.
  intros Hpl. unfold may_refer. apply orb_true_iff. right. apply bool_decide_eq_true. intros E.
  pose proof (holders_pos a pl _ Hpl) as Hp. rewrite E, map_size_empty in Hp. lia.
Qed.
Lemma place_may_refer pl p s : places s !! pl = Some p → may_refer p s = true.
Proof. destruct p as [a|]; [apply holder_may_refer|done]. Qed.

Lemma null_lookup l m pl : null_places l m !! pl = if decide (pl ∈ l) then Some None else m !! pl.
Proof.
  induction l as [|pl' l IH]; [done|]. cbn [null_places foldr]. destruct (decide (pl = pl')) as [->|Hne].
  - rewrite lookup_insert_eq. by rewrite decide_True by (apply elem_of_cons; by left).
  - rewrite lookup_insert_ne by done. unfold null_places in IH. rewrite IH. apply decide_ext. rewrite elem_of_cons. naive_solver.
Qed.
Lemma holders_null a l m : NoDup l → (∀ pl, pl ∈ l → m !! pl = None) → size (holders a (null_places l m)) = size (holders a m).
Proof.
  induction 1 as [|pl l Hpl _ IH]; [done|]. intros Hl. cbn [null_places foldr]. rewrite holders_insert.
  - unfold null_places in IH. rewrite IH; [done|]. intros ??. apply Hl, elem_of_cons. by right.
  - pose proof (null_lookup l m pl) as Hn. rewrite decide_False in Hn by done. unfold null_places in Hn. rewrite Hn. apply Hl, elem_of_cons. by left.
Qed.

Lemma allocate_inv n a k s : store_inv n [] s → objects s !! a = None → a ∉ deleted s →
  store_inv n [] (mkStore (<[a := newSharedObject k]> (objects s))
    (null_places (member_places a (newSharedObject k)) (places s)) (threads s) (deleted s) (held s)).
Proof.
  intros Hi Ha Hd. set (pls := member_places a (newSharedObject k)). set (s' := mkStore _ _ _ _ _).
  assert (Hnew : ∀ i, writers (Member a i) s = 0%nat ∧ placed (Member a i) s = 0%nat).
  { intros i. destruct (decide (0 < writers (Member a i) s + placed (Member a i) s)%nat) as [Hp|]; [|lia].
    destruct (si_members _ _ _ Hi _ Hp) as (o & Ho & _). congruence. }
  assert (Hnone : ∀ pl, pl ∈ pls → places s !! pl = None).
  { intros pl (i & -> & _)%member_places_spec. destruct (Hnew i) as [_ Hp]. unfold placed in Hp.
    destruct (places s !! Member a i); [|done]. rewrite decide_True in Hp by (by eexists). done. }
  assert (Hheld : a ∉ held s) by (intros Hh; by apply Hd, (si_gone _ _ _ Hi)).
  assert (Ek : ∀ b, known b [] s' = known b [] s).
  { intros b. unfold known, references, s'. cbn [places threads]. rewrite holders_null; [done|apply member_places_NoDup|done]. }
  assert (Ep : ∀ pl, placed pl s' = if decide (pl ∈ pls) then 1%nat else placed pl s).
  { intros pl. unfold placed, s'. cbn [places]. pose proof (null_lookup pls (places s) pl) as Hl.
    destruct (decide (pl ∈ pls)); rewrite Hl; [by rewrite decide_True by (by eexists)|done]. }
  split.
  - intros b ob Hb. unfold s' in Hb. cbn in Hb. rewrite Ek. change (deletions b s') with (deletions b s).
    assert (Edy : dying b [] s' ↔ dying b [] s) by (unfold dying; by rewrite Ek).
    rewrite (decide_ext _ _ _ _ Edy). destruct (decide (b = a)) as [->|Hne].
    + rewrite lookup_insert_eq in Hb. injection Hb as <-. destruct (si_dead _ _ _ Hi a Ha) as [-> ->].
      split_and!; [done|lia|]. by rewrite decide_False by (by intros [_ ?]).
    + rewrite lookup_insert_ne in Hb by done. exact (si_live _ _ _ Hi b ob Hb).
  - intros b Hb. unfold s' in Hb. cbn in Hb. rewrite Ek. change (deletions b s') with (deletions b s).
    destruct (decide (b = a)) as [->|Hne]; [by rewrite lookup_insert_eq in Hb|]. rewrite lookup_insert_ne in Hb by done.
    exact (si_dead _ _ _ Hi b Hb).
  - intros b. rewrite Ek. apply (si_held _ _ _ Hi).
  - intros pl. rewrite Ep. change (writers pl s') with (writers pl s). intros Hp. destruct (decide (pl ∈ pls)) as [Hin|Hin].
    + apply member_places_spec in Hin as (i & -> & Hlt). exists (newSharedObject k). unfold s'. cbn. by rewrite lookup_insert_eq.
    + pose proof (si_members _ _ _ Hi pl Hp) as Hm. destruct pl as [v|b i]; [done|]. destruct Hm as (o & Ho & Hlt).
      exists o. split; [|done]. unfold s'. cbn. rewrite lookup_insert_ne; [done|]. intros <-. congruence.
  - intros pl. rewrite Ep. change (writers pl s') with (writers pl s). destruct (decide (pl ∈ pls)) as [Hin|Hin].
    + apply member_places_spec in Hin as (i & -> & Hlt). destruct (Hnew i). lia.
    + exact (si_writers _ _ _ Hi pl).
  - exact (si_writes _ _ _ Hi).
  - exact (si_deleted _ _ _ Hi).
  - intros b. unfold s'. cbn [objects deleted held]. rewrite (si_gone _ _ _ Hi). destruct (decide (b = a)) as [->|Hne].
    + rewrite lookup_insert_eq. split; [by intros [_ ?]|by intros [? _]].
    + by rewrite lookup_insert_ne.
Qed.

Lemma assign_member_inv n t via a i old p s : Z.of_nat (S n) < 2 ^ 32 → store_inv n [] s → may_refer p s = true → threads s !! t = Some [] →
  places s !! Variable_ via = Some (Some a) → places s !! Member a i = Some old →
  ∃ s', assign t [Member a i; Variable_ via] old p [Write (Member a i) p; Write (Variable_ via) (Some a)] s = Ok s' ∧ store_inv (S n) [] s'.
Proof.
  intros Hn Hi Hp Ht Hvia Hm. destruct (refer_inv n [] p s Hn Hi Hp) as (s1 & E1 & Hi1 & Epl & Eth). unfold assign. rewrite E1.
  eexists. split; [done|]. rewrite <- Epl in Hvia, Hm. rewrite <- Eth in Ht. destruct (place_out _ _ _ _ _ Hi1 Hvia) as [Hi2 Hw2].
  set (s2 := set_places (delete (Variable_ via) (places s1)) s1) in *.
  assert (Hm2 : places s2 !! Member a i = Some old) by (cbn; by rewrite lookup_delete_ne).
  destruct (place_out _ _ _ _ _ Hi2 Hm2) as [Hi3 Hw3]. pose proof (si_members _ _ _ Hi2 (Member a i)) as Hok.
  set (s3 := set_places (delete (Member a i) (places s2)) s2) in *.
  change (store_inv (S n) [] (set_work t [RemoveReference old; Write (Member a i) p; Write (Variable_ via) (Some a)] s3)).
  eapply (work_inv _ _ [] s3 t []); [exact Hi3|exact Ht| |done| |done].
  - intros b. cbn. lia.
  - intros pl. destruct (decide (pl = Member a i)) as [->|Hne].
    { right. rewrite Hw3. unfold s3. rewrite placed_delete, decide_True by done. split; [split; [done|]|].
      { cbn. unfold work_write. cbn. rewrite (bool_decide_eq_false_2 (Member a i = Variable_ via)) by done. case_match; lia. }
      apply Hok. unfold placed. rewrite decide_True by (by eexists). lia. }
    destruct (decide (pl = Variable_ via)) as [->|Hne'].
    { right. change (writers _ s3) with (writers (Variable_ via) s2). rewrite Hw2. unfold s3. rewrite placed_delete, decide_False by done.
      unfold s2. rewrite placed_delete, decide_True by done. split; [|done]. split; [done|].
      cbn. unfold work_write. cbn. rewrite (bool_decide_eq_false_2 (Variable_ via = Member a i)) by done. case_match; lia. }
    left. cbn. unfold work_write. cbn. by rewrite !bool_decide_eq_false_2.
Qed.

Lemma is_ref_null a : is_ref None a = 0%nat.
Proof. done. Qed.

Lemma released_inv n t v p after s : store_inv n [] s → threads s !! t = Some [] → places s !! Variable_ v = Some p →
  after = [] ∨ after = [Write (Variable_ v) None] →
  store_inv n [] (set_work t (RemoveReference p :: after) (set_places (delete (Variable_ v) (places s)) s)).
Proof.
  intros Hi Ht Hv Ha. destruct (place_out _ _ _ _ _ Hi Hv) as [Hi2 Hw2].
  eapply (work_inv _ _ [] _ t []); [exact Hi2|exact Ht| | | |].
  - intros a. destruct Ha as [-> | ->]; cbn; rewrite ?is_ref_null; lia.
  - by destruct Ha as [-> | ->].
  - intros pl. destruct Ha as [-> | ->]; [by left|]. destruct (decide (pl = Variable_ v)) as [->|Hne]; [right|left; by apply one_write_ne].
    rewrite Hw2, placed_delete, decide_True by done. split; [|done]. split; [done|]. apply one_write_le.
  - by destruct Ha as [-> | ->].
Qed.

Lemma swap_inv n v w p q s : store_inv n [] s → places s !! Variable_ v = Some p → places s !! Variable_ w = Some q →
  store_inv n [] (set_places (<[Variable_ v := q]> (<[Variable_ w := p]> (places s))) s).
Proof.
  intros Hi Hv Hw. set (s' := set_places _ s).
  assert (Hp : ∀ pl, placed pl s' = placed pl s).
  { intros pl. unfold placed, s'. cbn [places set_places]. destruct (decide (pl = Variable_ v)) as [->|Hne].
    { rewrite lookup_insert_eq, Hv. by rewrite !decide_True by (by eexists). }
    rewrite lookup_insert_ne by done. destruct (decide (pl = Variable_ w)) as [->|Hne']; [|by rewrite lookup_insert_ne].
    rewrite lookup_insert_eq, Hw. by rewrite !decide_True by (by eexists). }
  apply (same_counts n [] [] s); try done.
  - intros a. unfold known, references, s'. cbn [places threads set_places]. f_equal. f_equal.
    destruct (decide (v = w)) as [->|Hne].
    + rewrite insert_insert_eq. rewrite Hv in Hw. injection Hw as ->. by rewrite insert_id.
    + rewrite <- (insert_delete_eq (<[Variable_ w := p]> (places s))), holders_insert by apply lookup_delete_eq.
      rewrite delete_insert_ne by congruence. rewrite <- (insert_delete_eq (delete (Variable_ v) (places s))), holders_insert by apply lookup_delete_eq.
      rewrite (holders_delete a (Variable_ v) p (places s)) by done.
      rewrite (holders_delete a (Variable_ w) q (delete (Variable_ v) (places s))) by (rewrite lookup_delete_ne by congruence; done). lia.
  - intros pl. rewrite Hp. apply (si_members _ _ _ Hi).
  - intros pl. rewrite Hp. apply (si_writers _ _ _ Hi).
  - exact (si_writes _ _ _ Hi).
Qed.

(** An event that is possible does no harm, and adds at most one reference. *)
Lemma pointer_exec_inv n e s r : Z.of_nat (S n) < 2 ^ 32 → store_inv n [] s → pointer_exec e s = Some r →
  ∃ s', r = Ok s' ∧ store_inv (S n) [] s'.
Proof.
  intros Hn Hi He. assert (Hup : ∀ s', store_inv n [] s' → store_inv (S n) [] s').
  { intros s' [H1 H2 H3 H4 H5 H6 H7 H8]. split; try done. intros a o Ho. destruct (H1 a o Ho) as (? & ? & ?). split_and!; [done|lia|done]. }
  assert (Hn' : Z.of_nat n < 2 ^ 32) by lia.
  destruct e as [a k|v p|v from|v via i|t v|t v p|t via i p|t v|v w|t]; cbn [pointer_exec] in He.
  - case_match eqn:E; [|done]. apply andb_true_iff in E as [E1%bool_decide_eq_true E2%bool_decide_eq_true]. injection He as <-.
    eexists. split; [done|]. by apply Hup, allocate_inv.
  - case_match eqn:E; [|done]. apply andb_true_iff in E as [E1 E2]. injection He as <-. by apply construct_inv.
  - destruct (places s !! Variable_ from) as [p|] eqn:Ep; [|done]. cbn [mbind option_bind] in He. case_match eqn:E; [|done].
    injection He as <-. apply construct_inv; [done|done|by eapply place_may_refer|done].
  - destruct (places s !! Variable_ via) as [[a|]|] eqn:Ev; [|done..]. cbn [mbind option_bind] in He.
    destruct (places s !! Member a i) as [p|] eqn:Ep; [|done]. cbn [mbind option_bind] in He. case_match eqn:E; [|done].
    injection He as <-. apply construct_inv; [done|done|by eapply place_may_refer|done].
  - destruct (places s !! Variable_ v) as [p|] eqn:Ep; [|done]. cbn [mbind option_bind] in He. case_bool_decide; [|done].
    injection He as <-. eexists. split; [done|]. apply Hup, released_inv; [done..|by left].
  - destruct (places s !! Variable_ v) as [old|] eqn:Ep; [|done]. cbn [mbind option_bind] in He. case_match eqn:E; [|done].
    apply andb_true_iff in E as [E1 E2%bool_decide_eq_true]. injection He as <-. by apply assign_inv.
  - destruct (places s !! Variable_ via) as [[a|]|] eqn:Ev; [|done..]. cbn [mbind option_bind] in He.
    destruct (places s !! Member a i) as [old|] eqn:Ep; [|done]. cbn [mbind option_bind] in He. case_match eqn:E; [|done].
    apply andb_true_iff in E as [E1 E2%bool_decide_eq_true]. injection He as <-. by apply assign_member_inv.
  - destruct (places s !! Variable_ v) as [p|] eqn:Ep; [|done]. cbn [mbind option_bind] in He. case_bool_decide; [|done].
    injection He as <-. eexists. split; [done|]. apply Hup, released_inv; [done..|by right].
  - destruct (places s !! Variable_ v) as [p|] eqn:Ev; [|done]. destruct (places s !! Variable_ w) as [q|] eqn:Ew; [|done].
    injection He as <-. eexists. split; [done|]. by apply Hup, swap_inv.
  - destruct (threads s !! t) as [[|w l]|] eqn:Et; [done| |done]. cbn [mbind option_bind] in He. injection He as <-.
    assert (∃ s', do_work t w l s = Ok s' ∧ store_inv n [] s') as (s' & E & Hs'); [|exists s'; split; [done|by apply Hup]].
    destruct w as [p|a|pl p]; [by apply (remove_step n)|by apply (delete_step n)|by apply (write_step n)].
Qed.

Lemma pointer_run_inv es n s r : Z.of_nat (n + length es) < 2 ^ 32 → store_inv n [] s → pointer_run es s = Some r →
  ∃ s', r = Ok s' ∧ store_inv (n + length es) [] s'.
Proof.
  revert n s. induction es as [|e es IH]; intros n s Hn Hi.
  - intros [= <-]. exists s. split; [done|]. by rewrite Nat.add_0_r.
  - cbn [pointer_run length]. cbn [length] in Hn. destruct (pointer_exec e s) as [r1|] eqn:E; [|done]. cbn [mbind option_bind].
    destruct (pointer_exec_inv n e s r1 ltac:(lia) Hi E) as (s1 & -> & Hi1). intros Hr.
    destruct (IH (S n) s1 ltac:(lia) Hi1 Hr) as (s' & -> & Hs'). exists s'. split; [done|].
    by replace (n + S (length es))%nat with (S n + length es)%nat by lia.
Qed.

(** ** The work of a thread ends *)

Definition work_weight (w : pointer_task) : nat := match w with RemoveReference _ => 2 | Delete _ => 1 | Write _ _ => 4 end.
Definition weight (s : store) : nat := 3 * size (places s) + total work_weight (threads s).

Lemma remove_size l m : NoDup l → size m = (length (member_values m l) + size (remove_places l m))%nat.
Proof.
  induction 1 as [|pl l Hpl _ IH]; [done|]. rewrite IH. pose proof (remove_lookup l m pl) as Hs. rewrite decide_False in Hs by done.
  unfold member_values, remove_places in *. cbn [omap list_omap foldr]. destruct (m !! pl) as [p|] eqn:Ep.
  - cbn [length]. rewrite <- (insert_delete_id _ _ _ Hs) at 1. rewrite map_size_insert_None by apply lookup_delete_eq. lia.
  - by rewrite (delete_id (foldr delete m l)).
Qed.

Lemma weight_step n t w l s : Z.of_nat n < 2 ^ 32 → store_inv n [] s → threads s !! t = Some (w :: l) →
  ∃ s', do_work t w l s = Ok s' ∧ store_inv n [] s' ∧ (weight s' < weight s)%nat ∧ is_Some (threads s' !! t).
Proof.
  intros Hn Hi Ht. pose proof (lookup_lt_Some _ _ _ Ht) as Hlt.
  pose proof (total_tasks_insert work_weight _ _ _ l Ht) as Hl. cbn [sum_list_with] in Hl.
  assert (Hsome : ∀ l', is_Some (<[t := l']> (threads s) !! t)) by (intros l'; exists l'; by apply list_lookup_insert_eq).
  destruct w as [p|a|pl p].
  - destruct (remove_step n t p l s Hn Hi Ht) as (s' & E & Hi'). exists s'. split_and!; [done|done| |].
    + destruct p as [a|]; cbn [do_work] in E; [|injection E as <-; unfold weight; cbn [places threads set_work work_weight] in *; lia].
      destruct (objects s !! a) as [o|]; [|done]. destruct (threadSafe_removeReference o) as [last o']. injection E as <-.
      unfold weight. cbn [places threads set_work set_objects].
      pose proof (total_tasks_insert work_weight _ _ _ (if last then Delete a :: l else l) Ht) as Hl'. destruct last; cbn [sum_list_with work_weight] in *; lia.
    + destruct p as [a|]; cbn [do_work] in E; [|injection E as <-; apply Hsome].
      destruct (objects s !! a) as [o|]; [|done]. destruct (threadSafe_removeReference o) as [last o']. injection E as <-. apply Hsome.
  - destruct (delete_step n t a l s Hi Ht) as (s' & E & Hi'). exists s'. split; [exact E|]. split; [exact Hi'|]. clear Hi'. cbn [do_work] in E.
    destruct (objects s !! a) as [o|]; [|done]. destruct (negb _); [done|]. injection E as <-. split; [|apply Hsome].
    unfold weight. cbn [places threads]. set (pls := member_places a o).
    pose proof (remove_size pls (places s) (member_places_NoDup a o)).
    pose proof (total_tasks_insert work_weight _ _ _ ((RemoveReference <$> member_values (places s) pls) ++ l) Ht) as Hl'.
    assert (Hw : sum_list_with work_weight (RemoveReference <$> member_values (places s) pls) = (2 * length (member_values (places s) pls))%nat).
    { clear. generalize (member_values (places s) pls) as ps. intros ps. induction ps as [|p ps IH]; [done|]. cbn in *. lia. }
    rewrite sum_with_app, Hw in Hl'. cbn [sum_list_with work_weight] in *. lia.
  - destruct (write_step n t pl p l s Hi Ht) as (s' & E & Hi'). exists s'. cbn [do_work] in E. injection E as <-.
    split_and!; [done|done| |apply Hsome]. unfold weight. cbn [places threads set_work set_places]. rewrite map_size_insert.
    destruct (places s !! pl); cbn [id work_weight] in *; lia.
Qed.

Lemma pointer_work_runs n t s : Z.of_nat n < 2 ^ 32 → store_inv n [] s → is_Some (threads s !! t) →
  ∃ k s', (k ≤ weight s)%nat ∧ pointer_run (replicate k (Work t)) s = Some (Ok s') ∧ threads s' !! t = Some [] ∧ store_inv n [] s'.
Proof.
  intros Hn. remember (weight s) as m eqn:Em. revert s Em. induction (lt_wf m) as [m _ IH]; intros s -> Hi [l Ht].
  destruct l as [|w l]; [exists 0%nat, s; split_and!; [lia|done|done|done]|].
  destruct (weight_step n t w l s Hn Hi Ht) as (s1 & E & Hi1 & Hw & Hs).
  destruct (IH (weight s1) Hw s1 eq_refl Hi1 Hs) as (k & s' & Hk & Hrun & Hend & Hi').
  exists (S k), s'. split_and!; [lia| |done|done]. cbn [replicate pointer_run pointer_exec]. rewrite Ht. cbn [mbind option_bind].
  rewrite E. exact Hrun.
Qed.

(** When no thread has anything to do, the pointers are all there is. *)
Lemma total_idle f ts : Forall (λ l, l = []) ts → total f ts = 0%nat.
Proof. induction 1 as [|l ts -> _ IH]; [done|]. by rewrite total_cons, IH. Qed.

Lemma idle_store n s a : store_inv n [] s → Forall (λ l, l = []) (threads s) → a ∈ held s →
  if decide (holders a (places s) = ∅) then a ∈ deleted s
  else ∃ o, objects s !! a = Some o ∧ referenceCount_ o = Z.of_nat (size (holders a (places s))).
Proof.
  intros Hi Hidle Ha.
  assert (Hk : known a [] s = size (holders a (places s))) by (unfold known, references; rewrite total_idle by done; cbn; lia).
  destruct (objects s !! a) as [o|] eqn:Ho.
  - destruct (si_live _ _ _ Hi a o Ho) as (Hc & _ & Hd). unfold deletions in Hd. rewrite total_idle in Hd by done.
    destruct (decide (dying a [] s)) as [|Hnd]; [done|]. case_decide as Hh; [|exists o; split; [done|by rewrite Hc, Hk]].
    destruct Hnd. split; [|done]. by rewrite Hk, Hh, map_size_empty.
  - destruct (si_dead _ _ _ Hi a Ho) as [Hz _]. rewrite Hk in Hz. rewrite decide_True by (by apply map_size_empty_inv).
    by apply (si_gone _ _ _ Hi).
Qed.

(** ** The width of the count *)

Lemma addReference_wraps k o : 0 ≤ referenceCount_ o → referenceCount_ (Nat.iter k addReference o) =
  if decide (k = 0%nat) then referenceCount_ o else uint 32 (referenceCount_ o + Z.of_nat k).
Proof.
  intros Hc. induction k as [|k IH]; [done|]. cbn [Nat.iter nat_rect addReference set_referenceCount referenceCount_].
  change (nat_rect _ o (λ _, addReference) k) with (Nat.iter k addReference o). rewrite IH. destruct (decide (k = 0%nat)) as [->|]; [done|].
  unfold uint. rewrite Zplus_mod_idemp_l. f_equal. lia.
Qed.
