(* ===== verification/BandwidthLimit.v ===== *)
(** * base/session: [BandwidthLimit]

    Models [src/src/base/session/BandwidthLimit.{h,cpp}] and [SessionCapacity.h].
    [time(0)] is an argument.  A time of 0 means "not set", as in the source. *)

From S2P Require Import Prelude.

Record SessionCapacity := mkCapacity {
  maxBytesPerSecond_ : Z;
  secondsForThrottling_ : Z;
  maxPendablePacketCount_ : Z;
}.

Definition shouldThrottle (c : SessionCapacity) : bool := 0 <? maxBytesPerSecond_ c.
Definition getUnlimitedCapacity : SessionCapacity := mkCapacity 0 0 0.

Record BandwidthLimit := mkLimit {
  capacity_ : SessionCapacity;
  readBytes_ : Z;
  startedTime_ : Z;
  badTime_ : Z;
}.

Definition reset (b : BandwidthLimit) : BandwidthLimit := mkLimit (capacity_ b) 0 0 0.
Definition newBandwidthLimit (c : SessionCapacity) : BandwidthLimit := mkLimit c 0 0 0.

Definition check (now : Z) (b : BandwidthLimit) : bool * BandwidthLimit :=
  if negb (shouldThrottle (capacity_ b)) then (true, b)
  else if readBytes_ b <? maxBytesPerSecond_ (capacity_ b) then (true, b)
  else if badTime_ b =? 0 then (true, b)
  else if secondsForThrottling_ (capacity_ b) <=? now - badTime_ b then (true, reset b)
  else (false, b).

Definition add (now bytes : Z) (b : BandwidthLimit) : BandwidthLimit :=
  if negb (shouldThrottle (capacity_ b)) then b
  else
    let readBytes := uint 64 (readBytes_ b + bytes) in
    let startedTime := if startedTime_ b =? 0 then now else startedTime_ b in
    let b := mkLimit (capacity_ b) readBytes startedTime (badTime_ b) in
    if readBytes <? maxBytesPerSecond_ (capacity_ b) then
      if 1 <=? now - startedTime then reset b else b
    else if badTime_ b =? 0 then mkLimit (capacity_ b) readBytes startedTime now
    else b.

(** The difference of two [size_t]: it wraps below zero. *)
Definition getLeftBytes (b : BandwidthLimit) : Z :=
  if negb (badTime_ b =? 0) then 0 else uint 64 (maxBytesPerSecond_ (capacity_ b) - readBytes_ b).

(** ** The limit *)

Definition capacity_ok (c : SessionCapacity) : Prop :=
  is_uint 16 (maxBytesPerSecond_ c) ∧ is_uint 16 (secondsForThrottling_ c).

(** Bad exactly when the limit is reached; then since a time in the past. *)
Record limit_inv (now : Z) (b : BandwidthLimit) : Prop := {
  li_capacity : capacity_ok (capacity_ b);
  li_read : 0 ≤ readBytes_ b;
  li_bad : badTime_ b ≠ 0 → maxBytesPerSecond_ (capacity_ b) ≤ readBytes_ b;
  li_good : shouldThrottle (capacity_ b) = true → badTime_ b = 0 →
    readBytes_ b < maxBytesPerSecond_ (capacity_ b);
  li_badTime : 0 ≤ badTime_ b ≤ now;
  li_startedTime : 0 ≤ startedTime_ b ≤ now;
}.

Lemma newBandwidthLimit_inv now c : 0 ≤ now → capacity_ok c → limit_inv now (newBandwidthLimit c).
Proof. intros Hn Hc. split; cbn; try done; try lia. unfold shouldThrottle. intros ?%Z.ltb_lt _. lia. Qed.

Lemma reset_inv now b : limit_inv now b → limit_inv now (reset b).
Proof. intros [Hc Hr Hb Hg Hbt Hst]. split; cbn; try done; try lia. unfold shouldThrottle. intros ?%Z.ltb_lt _. lia. Qed.

(** Receiving: no overflow in practice, time moves on. *)
Lemma add_inv t now bytes b : limit_inv t b → 0 < now → t ≤ now → 0 ≤ bytes →
  readBytes_ b + bytes < 2 ^ 64 → limit_inv now (add now bytes b).
Proof.
  intros [Hc Hr Hb Hg Hbt Hst] Hn Ht Hby Hov. unfold add.
  destruct (shouldThrottle (capacity_ b)) eqn:Es; cbn [negb].
  2:{ split; try done; try lia. congruence. }
  rewrite uint_id by (unfold is_uint; lia). cbn [capacity_ badTime_].
  assert (Hs' : 0 ≤ (if startedTime_ b =? 0 then now else startedTime_ b) ≤ now)
    by (destruct (startedTime_ b =? 0); lia).
  specialize (Hg eq_refl). unfold shouldThrottle in *.
  destruct (Z.ltb_spec (readBytes_ b + bytes) (maxBytesPerSecond_ (capacity_ b))).
  - destruct (1 <=? _); split; cbn; try done; try lia.
  - destruct (Z.eqb_spec (badTime_ b) 0); split; cbn; try done; try lia.
Qed.

Lemma check_inv now b : limit_inv now b → limit_inv now (check now b).2.
Proof.
  intros Hb. unfold check. repeat case_match; try done. by apply reset_inv.
Qed.

(** A session is refused exactly while it is bad and its pause is not over, and
    is accepted again, with fresh counters, once it is. *)
Lemma check_false now b : limit_inv now b →
  (check now b).1 = false ↔
  shouldThrottle (capacity_ b) = true ∧ badTime_ b ≠ 0 ∧
  now - badTime_ b < secondsForThrottling_ (capacity_ b).
Proof.
  intros [Hc Hr Hb Hg Hbt Hst]. unfold check.
  destruct (shouldThrottle (capacity_ b)) eqn:Es; cbn [negb fst]; [|naive_solver].
  destruct (Z.ltb_spec (readBytes_ b) (maxBytesPerSecond_ (capacity_ b))) as [Hlt|Hge]; cbn [fst].
  { split; [done|]. intros (_ & Hne & _). specialize (Hb Hne). lia. }
  destruct (Z.eqb_spec (badTime_ b) 0) as [E0|Hne]; cbn [fst]; [naive_solver|].
  destruct (Z.leb_spec (secondsForThrottling_ (capacity_ b)) (now - badTime_ b)); cbn [fst];
    split; try done; try (intros (_ & _ & ?); lia).
Qed.

Lemma check_recovers now b : limit_inv now b → shouldThrottle (capacity_ b) = true →
  badTime_ b ≠ 0 → secondsForThrottling_ (capacity_ b) ≤ now - badTime_ b →
  check now b = (true, reset b).
Proof.
  intros [Hc Hr Hb Hg Hbt Hst] Es Hne Ht. unfold check. rewrite Es. cbn [negb].
  specialize (Hb Hne). rewrite (proj2 (Z.ltb_ge _ _)) by lia.
  rewrite (proj2 (Z.eqb_neq _ _)) by done. by rewrite (proj2 (Z.leb_le _ _)).
Qed.

(** The bytes left are what the second still allows, never a wrapped number. *)
Lemma getLeftBytes_ok now b : limit_inv now b → shouldThrottle (capacity_ b) = true →
  getLeftBytes b = if decide (badTime_ b = 0) then maxBytesPerSecond_ (capacity_ b) - readBytes_ b else 0.
Proof.
  intros [[Hc1 Hc2] Hr Hb Hg Hbt Hst] Es. unfold getLeftBytes. case_decide as Hz.
  - rewrite Hz. cbn [negb Z.eqb]. apply uint_id. specialize (Hg Es Hz).
    destruct Hc1. unfold is_uint. lia.
  - by rewrite (proj2 (Z.eqb_neq _ _)).
Qed.

(** The window is only looked at below the limit: bytes that arrived long ago
    still count, so a slow session is throttled too. *)
Lemma add_old_bytes now t b1 b2 c : capacity_ok c → 0 < t → t ≤ now →
  0 ≤ b1 < maxBytesPerSecond_ c → maxBytesPerSecond_ c ≤ b1 + b2 → 0 ≤ b2 < 2 ^ 63 →
  badTime_ (add now b2 (add t b1 (newBandwidthLimit c))) = now.
Proof.
  intros [Hc1 Hc2] Ht Hnow H1 H2 H3. unfold newBandwidthLimit, add at 2, shouldThrottle.
  cbn [capacity_ readBytes_ startedTime_ badTime_].
  rewrite (proj2 (Z.ltb_lt 0 (maxBytesPerSecond_ c))) by lia. cbn [negb Z.eqb]. destruct Hc1.
  rewrite Z.add_0_l, uint_id by (unfold is_uint; lia). rewrite (proj2 (Z.ltb_lt b1 _)) by lia.
  rewrite Z.sub_diag. cbn [Z.leb Z.compare].
  unfold add, shouldThrottle. cbn [capacity_ readBytes_ startedTime_ badTime_].
  rewrite (proj2 (Z.ltb_lt 0 (maxBytesPerSecond_ c))) by lia. cbn [negb].
  rewrite uint_id by (unfold is_uint; lia).
  rewrite (proj2 (Z.ltb_ge (b1 + b2) _)) by lia. by cbn.
Qed.

(** ** Runs

    The clock moves on; bytes are added and the limit is looked at in any order. *)
Inductive limiter_step : Z * BandwidthLimit → Z * BandwidthLimit → Prop :=
| limiter_add t now bytes b : t ≤ now → 0 ≤ bytes → readBytes_ b + bytes < 2 ^ 64 →
    limiter_step (t, b) (now, add now bytes b)
| limiter_check t now b : t ≤ now → limiter_step (t, b) (now, (check now b).2).

Lemma limit_inv_later t now b : t ≤ now → limit_inv t b → limit_inv now b.
Proof. intros Ht [Hc Hr Hb Hg Hbt Hst]. split; try done; lia. Qed.

Lemma limiter_reachable c t0 t b : capacity_ok c → 0 < t0 →
  rtc limiter_step (t0, newBandwidthLimit c) (t, b) → t0 ≤ t ∧ limit_inv t b ∧ capacity_ b = c.
Proof.
  intros Hc Ht0. set (P := λ s : Z * BandwidthLimit, t0 ≤ s.1 ∧ limit_inv s.1 s.2 ∧ capacity_ s.2 = c).
  assert (HP : ∀ s s', limiter_step s s' → P s → P s').
  { intros s s' [t1 now bytes b1 Ht Hb Hov|t1 now b1 Ht] (H1 & H2 & H3); cbn in *; unfold P; cbn.
    - split_and!; [lia|apply (add_inv t1); done || lia|].
      unfold add. by repeat case_match.
    - split_and!; [lia|by apply check_inv, (limit_inv_later t1)|]. unfold check. by repeat case_match. }
  intros Hr. assert (H0 : P (t0, newBandwidthLimit c))
    by (split_and!; cbn; [lia|apply newBandwidthLimit_inv; [lia|done]|done]).
  assert (Hrun : ∀ s s', rtc limiter_step s s' → P s → P s') by (induction 1; eauto).
  exact (Hrun _ _ Hr H0).
Qed.
