(* ===== verification/StateMachine.v ===== *)
(** * core/fsm: [StateMachine]

    Models [src/include/sne/core/fsm/StateMachine.h] and [State.h].  A state
    object is named by its address ([S]); its virtual methods are callbacks of the
    application on the owner, and the owner may hold the machine, so a callback is
    a method of a world [W] that the machine is a part of.
    [revertToPreviousState] passes a pointer where [changeState] takes a
    reference: it compiles only because nothing instantiates it, and it has no
    model. *)

From S2P Require Import Prelude.

Record StateMachine (S : Type) := mkMachine {
  currentState_ : option S;
  previousState_ : option S;
  globalState_ : option S;
}.
Arguments mkMachine {S} _ _ _.
Arguments currentState_ {S} _.
Arguments previousState_ {S} _.
Arguments globalState_ {S} _.

Definition newStateMachine {S} : StateMachine S := mkMachine None None None.

(** The virtual methods of [State<Owner>], for every state object. *)
Class State (S W Event : Type) := {
  state_entry : S → st W unit;
  state_exit : S → st W unit;
  state_update : S → Z → st W unit;
  state_handleEvent : S → Event → st W bool;
}.

Section machine.
Context {S W Event : Type} `{EqDecision S, State S W Event}.
(** Where the machine is in the world. *)
Context (machine : W → StateMachine S) (set_machine : StateMachine S → W → W).

Definition setCurrentState (s : S) : st W unit := modify (λ w,
  set_machine (mkMachine (Some s) (previousState_ (machine w)) (globalState_ (machine w))) w).
Definition setGlobalState (s : S) : st W unit := modify (λ w,
  set_machine (mkMachine (currentState_ (machine w)) (previousState_ (machine w)) (Some s)) w).
Definition setPreviousState (s : option S) : st W unit := modify (λ w,
  set_machine (mkMachine (currentState_ (machine w)) s (globalState_ (machine w))) w).

(** A method of a state that may be null. *)
Definition when_state {A} (s : option S) (default : A) (m : S → st W A) : st W A :=
  match s with Some s => m s | None => mret default end.

Definition update (diff : Z) : st W unit :=
  g ← gets (λ w, globalState_ (machine w));
  when_state g tt (λ s, state_update s diff) ;;
  c ← gets (λ w, currentState_ (machine w));
  when_state c tt (λ s, state_update s diff).

Definition handleEvent (e : Event) : st W bool :=
  c ← gets (λ w, currentState_ (machine w));
  b ← when_state c false (λ s, state_handleEvent s e);
  if (b : bool) then mret true
  else
    g ← gets (λ w, globalState_ (machine w));
    b ← when_state g false (λ s, state_handleEvent s e);
    mret b.

Definition isInState (s : S) (w : W) : bool := bool_decide (currentState_ (machine w) = Some s).

Definition changeState (newState : S) : st W bool :=
  b ← gets (isInState newState);
  if (b : bool) then mret false
  else
    c ← gets (λ w, currentState_ (machine w));
    setPreviousState c ;;
    c ← gets (λ w, currentState_ (machine w));
    when_state c tt state_exit ;;
    setCurrentState newState ;;
    state_entry newState ;;
    mret true.

(** A run of requests. *)
Fixpoint change_all (l : list S) : st W unit :=
  match l with
  | [] => mret tt
  | s :: l => changeState s ;; change_all l
  end.

(** ** The machine between callbacks *)

Hypothesis machine_set : ∀ m w, machine (set_machine m w) = m.

(** A callback that does not throw and leaves the machine alone. *)
Definition quiet {A} (m : st W A) : Prop := ∀ w, ∃ a w', m w = (Ok a, w') ∧ machine w' = machine w.

Lemma changeState_same s w : currentState_ (machine w) = Some s → changeState s w = (Ok false, w).
Proof.
  intros Hc. unfold changeState. rewrite (bind_ok _ _ _ _ _ (gets_run _ _)).
  unfold isInState. by rewrite bool_decide_eq_true_2.
Qed.

Lemma changeState_other s w : currentState_ (machine w) ≠ Some s →
  changeState s w =
    (let c := currentState_ (machine w) in
     let w0 := set_machine (mkMachine c c (globalState_ (machine w))) w in
     (when_state c tt state_exit ;; setCurrentState s ;; state_entry s ;; mret true) w0).
Proof.
  intros Hc. unfold changeState. rewrite (bind_ok _ _ _ _ _ (gets_run _ _)).
  unfold isInState. rewrite bool_decide_eq_false_2 by done.
  rewrite (bind_ok _ _ _ _ _ (gets_run _ _)). unfold setPreviousState.
  rewrite (bind_ok _ _ _ _ _ (modify_run _ _)), (bind_ok _ _ _ _ _ (gets_run _ _)).
  by rewrite machine_set.
Qed.

(** Quiet callbacks: the old state is left before the new one is entered, and the
    machine remembers it. *)
Lemma changeState_quiet s w : currentState_ (machine w) ≠ Some s →
  (∀ s, quiet (state_exit s)) → (∀ s, quiet (state_entry s)) → ∃ w1 w2,
  when_state (currentState_ (machine w)) tt state_exit
    (set_machine (mkMachine (currentState_ (machine w)) (currentState_ (machine w))
      (globalState_ (machine w))) w) = (Ok tt, w1) ∧
  state_entry s (set_machine (mkMachine (Some s) (currentState_ (machine w))
    (globalState_ (machine w))) w1) = (Ok tt, w2) ∧
  changeState s w = (Ok true, w2) ∧
  machine w2 = mkMachine (Some s) (currentState_ (machine w)) (globalState_ (machine w)).
Proof.
  intros Hc Hx He. rewrite changeState_other by done. cbv zeta.
  set (w0 := set_machine _ w). assert (Hm0 : machine w0 = mkMachine (currentState_ (machine w))
    (currentState_ (machine w)) (globalState_ (machine w))) by apply machine_set.
  assert (∃ w1, when_state (currentState_ (machine w)) tt state_exit w0 = (Ok tt, w1) ∧
    machine w1 = machine w0) as (w1 & E1 & Hm1).
  { destruct (currentState_ (machine w)) as [c|]; cbn [when_state]; [|by exists w0].
    destruct (Hx c w0) as ([] & w1 & ? & ?). by exists w1. }
  rewrite (bind_ok _ _ _ _ _ E1). unfold setCurrentState.
  rewrite (bind_ok _ _ _ _ _ (modify_run _ _)). rewrite Hm1, Hm0.
  cbn [previousState_ globalState_].
  destruct (He s (set_machine (mkMachine (Some s) (currentState_ (machine w))
    (globalState_ (machine w))) w1)) as ([] & w2 & E2 & Hm2).
  exists w1, w2. split_and!; [done|done| |].
  - by rewrite (bind_ok _ _ _ _ _ E2).
  - by rewrite Hm2, machine_set.
Qed.

(** An event goes to the current state, and to the global state only if the
    current one did not handle it. *)
Lemma handleEvent_current e w c w' : currentState_ (machine w) = Some c →
  state_handleEvent c e w = (Ok true, w') → handleEvent e w = (Ok true, w').
Proof.
  intros Hc Hh. unfold handleEvent. rewrite (bind_ok _ _ _ _ _ (gets_run _ _)), Hc.
  cbn [when_state]. by rewrite (bind_ok _ _ _ _ _ Hh).
Qed.

Lemma handleEvent_global e w w' : 
  when_state (currentState_ (machine w)) false (λ s, state_handleEvent s e) w = (Ok false, w') →
  handleEvent e w = when_state (globalState_ (machine w')) false (λ s, state_handleEvent s e) w'.
Proof.
  intros Hh. unfold handleEvent. rewrite (bind_ok _ _ _ _ _ (gets_run _ _)), (bind_ok _ _ _ _ _ Hh).
  rewrite (bind_ok _ _ _ _ _ (gets_run _ _)).
  destruct (when_state (globalState_ (machine w')) _ _ w') as [[b|ex] w2] eqn:E2.
  - by rewrite (bind_ok _ _ _ _ _ E2).
  - by rewrite (bind_throw _ _ _ _ _ E2).
Qed.
End machine.

(** ** The order of the callbacks

    A world that records them: the machine and the calls so far. *)

Inductive call (S : Type) := Entry (s : S) | Exit (s : S).
Arguments Entry {S} s.
Arguments Exit {S} s.

Section trace.
Context {S : Type} `{EqDecision S}.

Definition traced : Type := StateMachine S * list (call S).
Definition set_traced (m : StateMachine S) (w : traced) : traced := (m, w.2).
Definition record_call (c : call S) : st traced unit := λ w, (Ok tt, (w.1, w.2 ++ [c])).

#[local] Instance trace_state : State S traced unit := {
  state_entry s := record_call (Entry s);
  state_exit s := record_call (Exit s);
  state_update _ _ := mret tt;
  state_handleEvent _ _ := mret false;
}.

(** The calls of a run: a request for the current state makes none. *)
Fixpoint run_calls (c : option S) (l : list S) : list (call S) :=
  match l with
  | [] => []
  | s :: l =>
      if decide (c = Some s) then run_calls c l
      else match c with Some c => [Exit c] | None => [] end ++ Entry s :: run_calls (Some s) l
  end.

(** Each state that is entered is left before another is entered. *)
Fixpoint alternates (c : option S) (l : list (call S)) : Prop :=
  match l with
  | [] => True
  | Entry s :: l => c = None ∧ alternates (Some s) l
  | Exit s :: l => c = Some s ∧ alternates None l
  end.

Lemma run_calls_alternates c l : alternates c (run_calls c l).
Proof.
  revert c. induction l as [|s l IH]; intros c; cbn; [done|]. case_decide; [by subst|].
  destruct c as [c|]; cbn; auto.
Qed.

Lemma quiet_record c : quiet fst (record_call c).
Proof. intros w. by eexists _, _. Qed.

Lemma change_all_trace l w : ∃ m,
  change_all fst set_traced l w = (Ok tt, (m, w.2 ++ run_calls (currentState_ w.1) l)) ∧
  currentState_ m = (match last l with Some s => Some s | None => currentState_ w.1 end).
Proof.
  revert w. induction l as [|s l IH]; intros w; cbn [change_all run_calls].
  { exists w.1. rewrite app_nil_r. by destruct w. }
  case_decide as Hc.
  - rewrite (bind_ok _ _ _ _ _ (changeState_same fst set_traced s w Hc)).
    destruct (IH w) as (m & E1 & Hm). exists m. split; [done|]. rewrite Hm, last_cons, Hc. by destruct (last l).
  - destruct (changeState_quiet fst set_traced (λ _ _, eq_refl) s w Hc) as (w1 & w2 & E1 & E2 & E3 & Hm2);
      [intros; apply quiet_record..|].
    rewrite (bind_ok _ _ _ _ _ E3). destruct (IH w2) as (m & E4 & Hm). exists m. rewrite E4. split.
    + rewrite Hm2. cbn [currentState_]. cbn in E2. injection E2 as <-. cbn [snd].
      destruct (currentState_ w.1) as [c|]; cbn in E1; injection E1 as <-; cbn [snd set_traced];
        by rewrite <- !app_assoc.
    + rewrite Hm, Hm2, last_cons. by destruct (last l).
Qed.
End trace.
