(* ===== verification/TcpSession.v ===== *)
(** * base/session/impl: [TcpSessionImpl] and its timers

    Models [src/include/sne/base/session/impl/detail/TcpSessionImpl.h],
    [src/src/base/session/impl/TcpSessionImpl.cpp], [src/src/base/io_context/AsioTimer.h]
    and [SessionStats.h].  A session is driven by the [io_context], one handler
    at a time: [exec] runs the handler of one event (a posted closure, the
    completion of a read, a write or a timer, the opening of the socket, a call of
    the application), and [step] is the relation of all of them.  The operations
    in progress and the closures posted are part of the state; the application is
    a reaction to the calls of [SessionCallback].  The times of [getElapsedTime]
    and the log lines are left out.  A handler that is left by an exception the
    session does not catch has no successor. *)

From S2P Require Import Prelude StreamBuffer MemoryBlock Packet Marshaller BandwidthLimit.

(** ** [AsioTimer]

    [timer_waits] counts the [async_wait]s whose handlers have not run yet: a
    wait that is cancelled still completes. *)

Record AsioTimer := mkTimer { isRunning_ : bool; timer_waits : nat }.

Definition newTimer : AsioTimer := mkTimer false 0.
Definition once (t : AsioTimer) : AsioTimer := mkTimer true (S (timer_waits t)).
Definition cancel (t : AsioTimer) : AsioTimer := mkTimer false (timer_waits t).
(** The completion of a wait: it is taken off. *)
Definition timer_completed (t : AsioTimer) : AsioTimer := mkTimer (isRunning_ t) (timer_waits t - 1).
Definition set_isRunning (b : bool) (t : AsioTimer) : AsioTimer := mkTimer b (timer_waits t).

(** ** [SessionStats] *)

Record SessionStats := mkStats {
  recvBytes_ : Z;
  sentBytes_ : Z;
  recvMessageCount_ : Z;
  sentMessageCount_ : Z;
  useCount_ : Z;
}.
Definition newStats : SessionStats := mkStats 0 0 0 0 0.
Definition stats_reset (s : SessionStats) : SessionStats := mkStats 0 0 0 0 (useCount_ s).
Definition stats_used (s : SessionStats) : SessionStats :=
  mkStats (recvBytes_ s) (sentBytes_ s) (recvMessageCount_ s) (sentMessageCount_ s)
    (uint 64 (useCount_ s + 1)).
Definition stats_received (bytes count : Z) (s : SessionStats) : SessionStats :=
  mkStats (uint 64 (recvBytes_ s + bytes)) (sentBytes_ s) (uint 64 (recvMessageCount_ s + count))
    (sentMessageCount_ s) (useCount_ s).
Definition stats_sent (bytes : Z) (s : SessionStats) : SessionStats :=
  mkStats (recvBytes_ s) (uint 64 (sentBytes_ s + bytes)) (recvMessageCount_ s)
    (uint 64 (sentMessageCount_ s + 1)) (useCount_ s).

(** ** The [Marshaller] interface ([src/include/sne/base/protocol/Marshaller.h]) *)

Class Marshaller (M : Type) := {
  ma_reset : M → M;
  ma_marshal : Z → st (M * MemoryBlock) bool;
  ma_unmarshal : ∀ {W : Type}, (Z → st (MemoryBlock * W) bool) → nat → st (M * W) (bool * nat);
  ma_recvBlock : M → MemoryBlock;                      (* acquireRecvBlock *)
  ma_set_recvBlock : MemoryBlock → M → M;
}.

#[global] Instance SgpMarshaller_marshaller {C} `{PacketCoder C} : Marshaller (SgpMarshaller C) := {
  ma_reset := marshaller_reset;
  ma_marshal := marshal;
  ma_unmarshal W := unmarshal;
  ma_recvBlock := recvBlock_;
  ma_set_recvBlock := set_recv;
}.

(** ** The state *)

(** A [MemoryBlock*]: the block and where it is. *)
Record block := mkBlock { b_id : Z; b_mem : MemoryBlock }.

(** What the session does for the application when the [io_context] comes to it. *)
Inductive request :=
| PSend (b : block) (mt : Z)
| PDisconnect
| PDisconnectGracefully.

(** The calls of [SessionCallback]. *)
Inductive call :=
| OnConnected
| OnDisconnected
| OnMessageTransfered (mt : Z)
| OnMessageArrived (mt : Z) (body : list Z)
| OnThrottling (readBytes maxBytesPerSecond : Z)
| OnRelease.

(** An [async_write] in progress: of one block, which its handler holds, or of
    the buffers of a gathered write. *)
Inductive write_op := WSingle (b : block) | WGather (buffers : list (list Z)).

(** An [async_read_some] in progress: the place and the size of its buffer. *)
Record read_op := mkRead { rd_pos : nat; rd_size : nat }.

Record TcpSessionImpl (M : Type) := mkSession {
  socket_ : bool;                        (* is it open? *)
  outputQueue_ : list block;
  isWritePended_ : bool;
  prevLoggedOutputQueueSize_ : nat;
  outputMemoryBlocks_ : list block;
  disconnectTimer_ : AsioTimer;
  incomingBandwidthLimiter_ : BandwidthLimit;
  throttleTimer_ : AsioTimer;
  maxPendablePacketCount_ : Z;
  marshaller_ : M;
  stats_ : SessionStats;
}.
Arguments mkSession {M} _ _ _ _ _ _ _ _ _ _ _.
Arguments socket_ {M} _.
Arguments outputQueue_ {M} _.
Arguments isWritePended_ {M} _.
Arguments prevLoggedOutputQueueSize_ {M} _.
Arguments outputMemoryBlocks_ {M} _.
Arguments disconnectTimer_ {M} _.
Arguments incomingBandwidthLimiter_ {M} _.
Arguments throttleTimer_ {M} _.
Arguments maxPendablePacketCount_ {M} _.
Arguments marshaller_ {M} _.
Arguments stats_ {M} _.

(** The [io_context] and the world: closures posted, operations in progress, the
    calls made so far; and, for the statements only, what became of the blocks and
    of the bytes. *)
Record world (A : Type) := mkWorld {
  posted : list request;
  reads_pending : list read_op;
  writes_pending : list write_op;
  calls : list call;
  app : A;
  asked : list Z;                        (* blocks given to [sendMessage] *)
  released : list Z;                     (* blocks given back to their pool *)
  lost : list Z;                         (* blocks forgotten *)
  accepted : list (list Z);              (* packets accepted on this connection *)
  wire : list Z;                         (* bytes written on this connection *)
}.
Arguments mkWorld {A} _ _ _ _ _ _ _ _ _ _.
Arguments posted {A} _.
Arguments reads_pending {A} _.
Arguments writes_pending {A} _.
Arguments calls {A} _.
Arguments app {A} _.
Arguments asked {A} _.
Arguments released {A} _.
Arguments lost {A} _.
Arguments accepted {A} _.
Arguments wire {A} _.

Record state (M A : Type) := mkState { ses : TcpSessionImpl M; wld : world A }.
Arguments mkState {M A} _ _.
Arguments ses {M A} _.
Arguments wld {M A} _.

Section session.
Context {M A : Type} `{Marshaller M}.
(** The application: what it answers to a call, and what it asks for meanwhile. *)
Context (react : call → A → bool * list request * A).

#[local] Abbreviation session := (TcpSessionImpl M).
#[local] Abbreviation state := (state M A).

(** *** Fields *)

Definition on_ses (f : session → session) (s : state) : state := mkState (f (ses s)) (wld s).
Definition on_wld (f : world A → world A) (s : state) : state := mkState (ses s) (f (wld s)).

Definition set_socket (b : bool) (s : session) : session :=
  mkSession b (outputQueue_ s) (isWritePended_ s) (prevLoggedOutputQueueSize_ s)
    (outputMemoryBlocks_ s) (disconnectTimer_ s) (incomingBandwidthLimiter_ s) (throttleTimer_ s)
    (maxPendablePacketCount_ s) (marshaller_ s) (stats_ s).
Definition set_queue (q : list block) (s : session) : session :=
  mkSession (socket_ s) q (isWritePended_ s) (prevLoggedOutputQueueSize_ s)
    (outputMemoryBlocks_ s) (disconnectTimer_ s) (incomingBandwidthLimiter_ s) (throttleTimer_ s)
    (maxPendablePacketCount_ s) (marshaller_ s) (stats_ s).
Definition set_pended (b : bool) (s : session) : session :=
  mkSession (socket_ s) (outputQueue_ s) b (prevLoggedOutputQueueSize_ s)
    (outputMemoryBlocks_ s) (disconnectTimer_ s) (incomingBandwidthLimiter_ s) (throttleTimer_ s)
    (maxPendablePacketCount_ s) (marshaller_ s) (stats_ s).
Definition set_logged (n : nat) (s : session) : session :=
  mkSession (socket_ s) (outputQueue_ s) (isWritePended_ s) n
    (outputMemoryBlocks_ s) (disconnectTimer_ s) (incomingBandwidthLimiter_ s) (throttleTimer_ s)
    (maxPendablePacketCount_ s) (marshaller_ s) (stats_ s).
Definition set_blocks (l : list block) (s : session) : session :=
  mkSession (socket_ s) (outputQueue_ s) (isWritePended_ s) (prevLoggedOutputQueueSize_ s)
    l (disconnectTimer_ s) (incomingBandwidthLimiter_ s) (throttleTimer_ s)
    (maxPendablePacketCount_ s) (marshaller_ s) (stats_ s).
Definition on_disconnectTimer (f : AsioTimer → AsioTimer) (s : session) : session :=
  mkSession (socket_ s) (outputQueue_ s) (isWritePended_ s) (prevLoggedOutputQueueSize_ s)
    (outputMemoryBlocks_ s) (f (disconnectTimer_ s)) (incomingBandwidthLimiter_ s) (throttleTimer_ s)
    (maxPendablePacketCount_ s) (marshaller_ s) (stats_ s).
Definition set_limiter (l : BandwidthLimit) (s : session) : session :=
  mkSession (socket_ s) (outputQueue_ s) (isWritePended_ s) (prevLoggedOutputQueueSize_ s)
    (outputMemoryBlocks_ s) (disconnectTimer_ s) l (throttleTimer_ s)
    (maxPendablePacketCount_ s) (marshaller_ s) (stats_ s).
Definition on_throttleTimer (f : AsioTimer → AsioTimer) (s : session) : session :=
  mkSession (socket_ s) (outputQueue_ s) (isWritePended_ s) (prevLoggedOutputQueueSize_ s)
    (outputMemoryBlocks_ s) (disconnectTimer_ s) (incomingBandwidthLimiter_ s) (f (throttleTimer_ s))
    (maxPendablePacketCount_ s) (marshaller_ s) (stats_ s).
Definition set_marshaller (m : M) (s : session) : session :=
  mkSession (socket_ s) (outputQueue_ s) (isWritePended_ s) (prevLoggedOutputQueueSize_ s)
    (outputMemoryBlocks_ s) (disconnectTimer_ s) (incomingBandwidthLimiter_ s) (throttleTimer_ s)
    (maxPendablePacketCount_ s) m (stats_ s).
Definition on_stats (f : SessionStats → SessionStats) (s : session) : session :=
  mkSession (socket_ s) (outputQueue_ s) (isWritePended_ s) (prevLoggedOutputQueueSize_ s)
    (outputMemoryBlocks_ s) (disconnectTimer_ s) (incomingBandwidthLimiter_ s) (throttleTimer_ s)
    (maxPendablePacketCount_ s) (marshaller_ s) (f (stats_ s)).

Definition requests_ids (l : list request) : list Z :=
  omap (λ q, match q with PSend b _ => Some (b_id b) | _ => None end) l.

(** [getIoContext().post]: by the session, and by the application. *)
Definition post (q : request) (w : world A) : world A :=
  mkWorld (posted w ++ [q]) (reads_pending w) (writes_pending w) (calls w) (app w)
    (asked w ++ requests_ids [q]) (released w) (lost w) (accepted w) (wire w).
Definition start_read (r : read_op) (w : world A) : world A :=
  mkWorld (posted w) (reads_pending w ++ [r]) (writes_pending w) (calls w) (app w)
    (asked w) (released w) (lost w) (accepted w) (wire w).
Definition start_write (o : write_op) (w : world A) : world A :=
  mkWorld (posted w) (reads_pending w) (writes_pending w ++ [o]) (calls w) (app w)
    (asked w) (released w) (lost w) (accepted w) (wire w).
Definition release_blocks (l : list block) (w : world A) : world A :=
  mkWorld (posted w) (reads_pending w) (writes_pending w) (calls w) (app w)
    (asked w) (released w ++ (b_id <$> l)) (lost w) (accepted w) (wire w).
Definition lose_blocks (l : list block) (w : world A) : world A :=
  mkWorld (posted w) (reads_pending w) (writes_pending w) (calls w) (app w)
    (asked w) (released w) (lost w ++ (b_id <$> l)) (accepted w) (wire w).
Definition accept_packet (p : list Z) (w : world A) : world A :=
  mkWorld (posted w) (reads_pending w) (writes_pending w) (calls w) (app w)
    (asked w) (released w) (lost w) (accepted w ++ [p]) (wire w).

(** A call of [getCallback()]. *)
Definition call_world (c : call) (w : world A) : bool * world A :=
  let '(b, qs, a) := react c (app w) in
  (b, mkWorld (posted w ++ qs) (reads_pending w) (writes_pending w) (calls w ++ [c]) a
    (asked w ++ requests_ids qs) (released w) (lost w) (accepted w) (wire w)).
Definition callback (c : call) (s : state) : state := on_wld (λ w, (call_world c w).2) s.

(** *** The session's methods *)

Definition maxGatherWriteCount : nat := 10.

Definition isConnected (s : session) : bool := socket_ s.
Definition isDisconnectReserved (s : session) : bool := isRunning_ (disconnectTimer_ s).
Definition canSendMessage (s : session) : bool :=
  isConnected s && negb (isRunning_ (disconnectTimer_ s)).

Definition disconnect (s : state) : state := on_wld (post PDisconnect) s.
Definition disconnectGracefully (s : state) : state := on_wld (post PDisconnectGracefully) s.

Definition startDisconnectTimer (s : state) : state := on_ses (on_disconnectTimer once) s.
Definition stopDisconnectTimer (s : state) : state := on_ses (on_disconnectTimer cancel) s.
Definition startThrottleTimer (s : state) : state :=
  if isRunning_ (throttleTimer_ (ses s)) then s else on_ses (on_throttleTimer once) s.
Definition stopThrottleTimer (s : state) : state := on_ses (on_throttleTimer cancel) s.

Definition flushOutputQueue (s : state) : state :=
  on_ses (set_queue []) (on_wld (release_blocks (outputQueue_ (ses s))) s).

(** [outputMemoryBlocks_.clear()]: the pointers are forgotten. *)
Definition clearOutputBlocks (s : state) : state :=
  on_ses (set_blocks []) (on_wld (lose_blocks (outputMemoryBlocks_ (ses s))) s).

(** [TcpSessionImpl::reset] *)
Definition session_reset (s : state) : state :=
  let s := on_ses (set_socket false) s in
  let s := flushOutputQueue s in
  let s := on_ses (on_stats stats_reset) s in
  let s := on_ses (set_pended false) s in
  let s := on_ses (set_logged 0) s in
  let s := clearOutputBlocks s in
  let s := stopThrottleTimer (stopDisconnectTimer s) in
  let s := on_ses (λ t, set_marshaller (ma_reset (marshaller_ t)) t) s in
  on_ses (λ t, set_limiter (reset (incomingBandwidthLimiter_ t)) t) s.

(** The closure [disconnect] posts. *)
Definition do_disconnect (s : state) : state :=
  if isDisconnectReserved (ses s) then s
  else
    let connected := isConnected (ses s) in
    let s := stopThrottleTimer (stopDisconnectTimer s) in
    let s := on_ses (set_socket false) s in
    if negb connected then s
    else callback OnRelease (callback OnDisconnected (session_reset s)).

(** The closure [disconnectGracefully] posts. *)
Definition do_disconnectGracefully (s : state) : state :=
  if isDisconnectReserved (ses s) then s else startDisconnectTimer s.

Definition writeMessage (b : block) (s : state) : state :=
  on_ses (set_pended true) (on_wld (start_write (WSingle b)) s).

Definition writeSucceeded (b : block) (s : state) : state :=
  on_ses (λ t, on_stats (stats_sent (Z.of_nat (mb_length (b_mem b)))) (set_pended false t)) s.

Definition gatherWrite (s : state) : state :=
  match outputQueue_ (ses s) with
  | [] => s
  | [b] => writeMessage b (on_ses (set_queue []) s)
  | q =>
      let s := clearOutputBlocks s in
      let l := take maxGatherWriteCount q in
      let s := on_ses (set_queue (drop maxGatherWriteCount q)) s in
      let s := on_ses (set_blocks l) s in
      let s := on_wld (start_write (WGather ((λ b, mb_contents (b_mem b)) <$> l))) s in
      on_ses (set_pended true) s
  end.

Definition checkOutputQueue (s : state) : bool * state :=
  let logThreshold := 10%nat in
  let queueSize := length (outputQueue_ (ses s)) in
  if (0 <? maxPendablePacketCount_ (ses s)) &&
     (maxPendablePacketCount_ (ses s) <=? Z.of_nat queueSize) then (false, s)
  else
    (true, if decide (prevLoggedOutputQueueSize_ (ses s) + logThreshold < queueSize)%nat
           then on_ses (set_logged queueSize) s else s).

(** The closure [sendMessage] posts.  The guard gives the block back unless it
    was handed on. *)
Definition do_sendMessage (b : block) (mt : Z) (s : state) : option state :=
  if negb (canSendMessage (ses s)) then Some (on_wld (release_blocks [b]) s)
  else
    match ma_marshal mt (marshaller_ (ses s), b_mem b) with
    | (Throw _, _) => None
    | (Ok ok, (m, mem)) =>
        let b := mkBlock (b_id b) mem in
        let s := on_ses (set_marshaller m) s in
        Some (
          if (ok : bool) then
            if isWritePended_ (ses s) then
              let '(room, s) := checkOutputQueue s in
              if (room : bool) then
                let s := on_ses (λ t, set_queue (outputQueue_ t ++ [b]) t) s in
                callback (OnMessageTransfered mt) (on_wld (accept_packet (mb_contents mem)) s)
              else on_wld (release_blocks [b]) (disconnect s)
            else
              let s := writeMessage b s in
              callback (OnMessageTransfered mt) (on_wld (accept_packet (mb_contents mem)) s)
          else on_wld (release_blocks [b]) (disconnectGracefully s))
    end.

Definition readMessage (s : state) : state :=
  let recvBlock := ma_recvBlock (marshaller_ (ses s)) in
  let recvBlock := mb_reserve (mb_capacity recvBlock / 3) recvBlock in
  let s := on_ses (λ t, set_marshaller (ma_set_recvBlock recvBlock (marshaller_ t)) t) s in
  on_wld (start_read (mkRead (mb_wr recvBlock) (mb_space recvBlock))) s.

(** [MarshallerCallback::messageUnmarshalled]: the block is read by the
    application, and reset by the marshaller before it is used again. *)
Definition messageUnmarshalled (reserved : bool) (mt : Z) : st (MemoryBlock * world A) bool := λ bw,
  if reserved then (Ok true, bw)
  else let '(ok, w) := call_world (OnMessageArrived mt (mb_contents bw.1)) bw.2 in (Ok ok, (bw.1, w)).

Definition addInboundBandwidth (now bytes : Z) (s : state) : bool * state :=
  let l := add now bytes (incomingBandwidthLimiter_ (ses s)) in
  let '(isKarmaRemained, l) := check now l in
  (isKarmaRemained, on_ses (set_limiter l) s).

Definition throttleReceiving (s : state) : state :=
  let l := incomingBandwidthLimiter_ (ses s) in
  callback (OnThrottling (readBytes_ l) (maxBytesPerSecond_ (capacity_ l))) (startThrottleTimer s).

(** The bytes are in the receive block, where the read put them. *)
Definition messageBlockReceived (now : Z) (r : read_op) (chunk : list Z) (s : state)
  : option (bool * state) :=
  let n := Z.of_nat (length chunk) in
  match mb_write (rd_pos r) chunk (ma_recvBlock (marshaller_ (ses s))) with
  | (Throw _, _) => None
  | (Ok _, recvBlock) =>
      let recvBlock := mb_advance_wr (length chunk) recvBlock in
      let s := on_ses (λ t, set_marshaller (ma_set_recvBlock recvBlock (marshaller_ t)) t) s in
      let s := on_ses (on_stats (stats_received n 0)) s in
      let '(isKarmaRemained, s) := addInboundBandwidth now n s in
      match ma_unmarshal (messageUnmarshalled (isDisconnectReserved (ses s))) 0
              (marshaller_ (ses s), wld s) with
      | (Throw _, _) => None
      | (Ok (isSucceeded, count), (m, w)) =>
          let s := mkState (on_stats (stats_received 0 (Z.of_nat count)) (set_marshaller m (ses s))) w in
          Some (
            if negb isSucceeded then (false, s)
            else if negb isKarmaRemained then (true, throttleReceiving s)
            else (true, readMessage s))
      end
  end.

(** [handle_read]; [None] is an error. *)
Definition handle_read (now : Z) (r : read_op) (chunk : option (list Z)) (s : state) : option state :=
  match chunk with
  | None => Some (disconnect s)
  | Some chunk =>
      '(ok, s) ← messageBlockReceived now r chunk s;
      Some (if (ok : bool) then s else disconnect s)
  end.

Definition handle_write (ok : bool) (b : block) (s : state) : state :=
  let s := if ok then gatherWrite (writeSucceeded b s) else disconnect s in
  on_wld (release_blocks [b]) s.

Definition handle_gather_write (ok : bool) (s : state) : state :=
  let blocks := outputMemoryBlocks_ (ses s) in
  let s := if ok then fold_left (λ s b, writeSucceeded b s) blocks s else s in
  let s := on_ses (set_blocks []) (on_wld (release_blocks blocks) s) in
  if ok then gatherWrite s else disconnect s.

(** [TimerCallback::timedOut], by the timer that is its act. *)
Inductive which_timer := DisconnectTimer | ThrottleTimer.

Definition timedOut (act : which_timer) (s : state) : state :=
  match act with
  | DisconnectTimer =>
      if isWritePended_ (ses s) || negb (bool_decide (length (outputQueue_ (ses s)) = O))
      then startDisconnectTimer s else disconnect s
  | ThrottleTimer =>
      readMessage (on_ses (λ t, set_limiter (reset (incomingBandwidthLimiter_ t)) t) s)
  end.

Definition timer (act : which_timer) (s : state) : AsioTimer :=
  match act with
  | DisconnectTimer => disconnectTimer_ (ses s)
  | ThrottleTimer => throttleTimer_ (ses s)
  end.
Definition on_timer (act : which_timer) (f : AsioTimer → AsioTimer) (s : state) : state :=
  match act with
  | DisconnectTimer => on_ses (on_disconnectTimer f) s
  | ThrottleTimer => on_ses (on_throttleTimer f) s
  end.

(** [AsioTimer::handle_timeout]; [ok] is the absence of an error. *)
Definition handle_timeout (act : which_timer) (ok : bool) (s : state) : state :=
  let s :=
    if ok then
      if isRunning_ (timer act s) then timedOut act (on_timer act (set_isRunning false) s) else s
    else s in
  on_timer act (set_isRunning false) s.

(** [sessionOpened], after the socket is connected. *)
Definition sessionOpened (s : state) : state :=
  let s := on_ses (on_stats stats_used) s in
  let '(ok, w) := call_world OnConnected (wld s) in
  let s := mkState (ses s) w in
  if (ok : bool) then readMessage s else disconnect s.

(** *** The events *)

Inductive event :=
| EvOpen                                       (* [open], [connect] *)
| EvCall (q : request)                         (* a method called by the application *)
| EvPosted                                     (* the [io_context] runs a closure *)
| EvRead (now : Z) (chunk : option (list Z))   (* a read completes *)
| EvWrite (failed : option nat)                (* a write completes, or fails after some bytes *)
| EvTimer (act : which_timer) (ok : bool).     (* a wait completes, or is aborted *)

Definition do_request (q : request) (s : state) : option state :=
  match q with
  | PSend b mt => do_sendMessage b mt s
  | PDisconnect => Some (do_disconnect s)
  | PDisconnectGracefully => Some (do_disconnectGracefully s)
  end.

Definition take_posted (qs : list request) (w : world A) : world A :=
  mkWorld qs (reads_pending w) (writes_pending w) (calls w) (app w)
    (asked w) (released w) (lost w) (accepted w) (wire w).
Definition take_read (rs : list read_op) (w : world A) : world A :=
  mkWorld (posted w) rs (writes_pending w) (calls w) (app w)
    (asked w) (released w) (lost w) (accepted w) (wire w).
Definition take_write (os : list write_op) (bytes : list Z) (w : world A) : world A :=
  mkWorld (posted w) (reads_pending w) os (calls w) (app w)
    (asked w) (released w) (lost w) (accepted w) (wire w ++ bytes).
Definition new_connection (w : world A) : world A :=
  mkWorld (posted w) (reads_pending w) (writes_pending w) (calls w) (app w)
    (asked w) (released w) (lost w) [] [].

(** The bytes an operation writes. *)
Definition op_bytes (o : write_op) : list Z :=
  match o with WSingle b => mb_contents (b_mem b) | WGather bufs => mjoin bufs end.

(** A socket is opened when nothing of the connection before is in progress. *)
Definition exec (e : event) (s : state) : option state :=
  match e with
  | EvOpen =>
      if socket_ (ses s) || negb (bool_decide (length (reads_pending (wld s)) = O)) ||
         negb (bool_decide (length (writes_pending (wld s)) = O)) ||
         negb (bool_decide (timer_waits (disconnectTimer_ (ses s)) = O)) ||
         negb (bool_decide (timer_waits (throttleTimer_ (ses s)) = O)) then None
      else Some (sessionOpened (on_ses (set_socket true) (on_wld new_connection s)))
  | EvCall q => Some (on_wld (post q) s)
  | EvPosted =>
      match posted (wld s) with
      | [] => None
      | q :: qs => do_request q (on_wld (take_posted qs) s)
      end
  | EvRead now chunk =>
      match reads_pending (wld s) with
      | [] => None
      | r :: rs =>
          if bool_decide (length (default [] chunk) ≤ rd_size r)%nat
          then handle_read now r chunk (on_wld (take_read rs) s) else None
      end
  | EvWrite failed =>
      match writes_pending (wld s) with
      | [] => None
      | o :: os =>
          let ok := match failed with None => true | Some _ => false end in
          let bytes := match failed with None => op_bytes o | Some n => take n (op_bytes o) end in
          let s := on_wld (take_write os bytes) s in
          Some match o with
               | WSingle b => handle_write ok b s
               | WGather _ => handle_gather_write ok s
               end
      end
  | EvTimer act ok =>
      if bool_decide (timer_waits (timer act s) = O) then None
      else Some (handle_timeout act ok (on_timer act timer_completed s))
  end.

Fixpoint exec_all (es : list event) (s : state) : option state :=
  match es with
  | [] => Some s
  | e :: es => s ← exec e s; exec_all es s
  end.

Inductive step : state → state → Prop :=
| step_exec e s s' : exec e s = Some s' → step s s'.

(** A session from its constructor. *)
Definition newSession (capacity : SessionCapacity) (m : M) (a : A) : state :=
  mkState
    (mkSession false [] false 0 [] newTimer (newBandwidthLimit capacity) newTimer
      (BandwidthLimit.maxPendablePacketCount_ capacity) (ma_reset m) newStats)
    (mkWorld [] [] [] [] a [] [] [] [] []).

Definition reachable (capacity : SessionCapacity) (m : M) (a : A) (s : state) : Prop :=
  rtc step (newSession capacity m a) s.
End session.
