(* ===== verification/TcpSessionSpec.v ===== *)
(** * base/session/impl: what a session guarantees

    Invariants of every reachable state of [TcpSession.v]: one write at a time, in
    the order of the calls of [sendMessage]; a bounded queue; every block in one
    place; connections reported once.  And what the handlers lead to: the queue
    drains, a graceful disconnection closes an idle session. *)

From S2P Require Import Prelude StreamBuffer MemoryBlock Packet Marshaller BandwidthLimit.
From S2P Require Import TcpSession.

(** ** What a marshaller may do to the world of its callback *)

(** Whatever the callback leads to, step by step, unmarshalling leads to. *)
Class MarshallerSpec (M : Type) `{Marshaller M} := {
  ma_unmarshal_preorder {W : Type} (R : W → W → Prop) (cb : Z → st (MemoryBlock * W) bool) count m w
      r m' w' : PreOrder R →
    (∀ mt b w r b' w', cb mt (b, w) = (r, (b', w')) → R w w') →
    ma_unmarshal cb count (m, w) = (r, (m', w')) → R w w';
}.

Section sgp.
Context {C : Type} `{PacketCoder C} {W : Type} (R : W → W → Prop) `{!PreOrder R}.
Context (cb : Z → st (MemoryBlock * W) bool).
Hypothesis cb_R : ∀ mt b w r b' w', cb mt (b, w) = (r, (b', w')) → R w w'.

(** A command that leads from world to world along [R]. *)
Definition along {X} (a : st (SgpMarshaller C * W) X) : Prop :=
  ∀ s r s', a s = (r, s') → R s.2 s'.2.

Lemma along_bind {X Y} (a : st (SgpMarshaller C * W) X) (f : X → st _ Y) :
  along a → (∀ x, along (f x)) → along (a ≫= f).
Proof.
  intros Ha Hf s r s'. unfold mbind, st_bind. destruct (a s) as [[x|e] s1] eqn:E.
  - intros E2. transitivity s1.2; [by eapply Ha|by eapply Hf].
  - intros [= <- <-]. by eapply Ha.
Qed.

Lemma along_ret {X} (x : X) : along (mret x).
Proof. intros s r s' [= <- <-]. reflexivity. Qed.

Lemma along_gets {X} (f : SgpMarshaller C * W → X) : along (gets f).
Proof. intros s r s' [= <- <-]. reflexivity. Qed.

Lemma along_on_marshaller {X} (a : st (SgpMarshaller C) X) : along (on_marshaller a).
Proof.
  intros [m w] r s'. unfold on_marshaller, zoom. cbn. destruct (a m) as [r1 m1].
  intros [= <- <-]. reflexivity.
Qed.

Lemma along_try_callback mt : along (try_callback cb mt).
Proof.
  intros [m w] r s'. unfold try_callback. cbn. destruct (cb mt _) as [r1 [b1 w1]] eqn:E.
  apply cb_R in E. repeat case_match; intros; by simplify_eq.
Qed.

Lemma along_unmarshal_loop fuel count : along (unmarshal_loop cb fuel count).
Proof.
  revert count. induction fuel as [|fuel IH]; intros count; cbn [unmarshal_loop].
  { intros s r s' [= <- <-]. reflexivity. }
  repeat first [apply along_bind; [eauto using along_gets, along_on_marshaller, along_try_callback|intros]
               |apply along_ret|apply IH|case_match].
Qed.
End sgp.

#[global] Instance SgpMarshaller_spec {C} `{PacketCoder C} : MarshallerSpec (SgpMarshaller C).
Proof.
  split. intros W R cb count m w r m' w' HR Hcb E.
  assert (Ha : along R (unmarshal cb count)).
  { unfold unmarshal. apply (along_bind R); [by apply along_gets|].
    intros x. by apply along_unmarshal_loop. }
  exact (Ha (m, w) r (m', w') E).
Qed.

Section invariants.
Context {M A : Type} `{HM : MarshallerSpec M}.
Context (react : call → A → bool * list request * A).

#[local] Abbreviation session := (TcpSessionImpl M).
#[local] Abbreviation state := (state M A).

(** ** Calls of the application

    [w'] is [w] after calls that satisfy [P] and requests posted. *)
Definition called (P : call → Prop) (w w' : world A) : Prop :=
  ∃ qs cs a, Forall P cs ∧
    w' = mkWorld (posted w ++ qs) (reads_pending w) (writes_pending w) (calls w ++ cs) a
      (asked w ++ requests_ids qs) (released w) (lost w) (accepted w) (wire w).

Lemma requests_ids_app l l' : requests_ids (l ++ l') = requests_ids l ++ requests_ids l'.
Proof. apply omap_app. Qed.

#[global] Instance called_preorder P : PreOrder (called P).
Proof.
  split.
  - intros [po rp wp cs a k r l ac wi]. exists [], [], a. split; [constructor|]. cbn.
    by rewrite !app_nil_r.
  - intros w1 w2 w3 (q1 & c1 & a1 & F1 & ->) (q2 & c2 & a2 & F2 & ->).
    exists (q1 ++ q2), (c1 ++ c2), a2. split; [by apply Forall_app|]. cbn.
    by rewrite requests_ids_app, !app_assoc.
Qed.

Lemma called_post P q w : called P w (post q w).
Proof.
  exists [q], [], (app w). split; [constructor|]. unfold post. by rewrite app_nil_r.
Qed.

Lemma called_call (P : call → Prop) c w : P c → called P w (call_world react c w).2.
Proof.
  intros Hc. unfold call_world. destruct (react c (app w)) as [[b qs] a]. cbn.
  exists qs, [c], a. split; [by repeat constructor|done].
Qed.

Lemma called_mono (P Q : call → Prop) w w' : (∀ c, P c → Q c) → called P w w' → called Q w w'.
Proof.
  intros HPQ (qs & cs & a & F & ->). exists qs, cs, a. split; [|done]. by eapply Forall_impl.
Qed.

(** ** Handlers that leave the output alone *)

Definition out_view (s : state) :=
  (socket_ (ses s), outputQueue_ (ses s), isWritePended_ (ses s), outputMemoryBlocks_ (ses s),
   maxPendablePacketCount_ (ses s), (writes_pending (wld s), accepted (wld s), wire (wld s))).

(** From [s] to [s'] the output is as it was; calls that satisfy [P] were made and
    requests posted. *)
Definition quiet (P : call → Prop) (s s' : state) : Prop :=
  out_view s' = out_view s ∧ released (wld s') = released (wld s) ∧ lost (wld s') = lost (wld s) ∧
  ∃ qs cs, Forall P cs ∧ posted (wld s') = posted (wld s) ++ qs ∧
    asked (wld s') = asked (wld s) ++ requests_ids qs ∧ calls (wld s') = calls (wld s) ++ cs.

#[global] Instance quiet_preorder P : PreOrder (quiet P).
Proof.
  split.
  - intros s. split_and!; try done. exists [], []. rewrite !app_nil_r. by split_and!; [constructor|..].
  - intros s1 s2 s3 (V1 & R1 & L1 & q1 & c1 & F1 & P1 & A1 & C1) (V2 & R2 & L2 & q2 & c2 & F2 & P2 & A2 & C2).
    split_and!; [congruence..|]. exists (q1 ++ q2), (c1 ++ c2).
    rewrite P2, P1, A2, A1, C2, C1, requests_ids_app, !app_assoc. split_and!; try done. by apply Forall_app.
Qed.

Lemma quiet_same P s s' : out_view s' = out_view s → wld s' = wld s → quiet P s s'.
Proof.
  intros V W. split; [done|]. rewrite W. split_and!; try done. exists [], [].
  rewrite !app_nil_r. by split_and!; [constructor|..].
Qed.

Lemma quiet_called P s w : called P (wld s) w → quiet P s (mkState (ses s) w).
Proof.
  intros (qs & cs & a & F & ->). split_and!; try done. by exists qs, cs.
Qed.

Lemma quiet_callback (P : call → Prop) c s : P c → quiet P s (callback react c s).
Proof. intros Hc. apply (quiet_called P s). by apply called_call. Qed.

Lemma quiet_post P q s : quiet P s (on_wld (post q) s).
Proof. apply (quiet_called P s), called_post. Qed.

Lemma quiet_timer P act f s : quiet P s (on_timer act f s).
Proof. destruct act; by apply quiet_same. Qed.

Lemma quiet_readMessage P s : quiet P s (readMessage s).
Proof.
  split_and!; try done. exists [], []. rewrite !app_nil_r. by split_and!; [constructor|..].
Qed.

Lemma quiet_startThrottleTimer P s : quiet P s (startThrottleTimer s).
Proof. unfold startThrottleTimer. case_match; by apply quiet_same. Qed.

Lemma quiet_throttleReceiving (P : call → Prop) s : (∀ r m, P (OnThrottling r m)) →
  quiet P s (throttleReceiving react s).
Proof.
  intros HP. unfold throttleReceiving. etrans; [apply quiet_startThrottleTimer|by apply quiet_callback].
Qed.

Lemma quiet_timedOut P act s : quiet P s (timedOut act s).
Proof.
  destruct act; cbn [timedOut].
  - case_match; [by apply quiet_same|apply quiet_post].
  - etrans; [|apply quiet_readMessage]. by apply quiet_same.
Qed.

Lemma quiet_handle_timeout P act ok s : quiet P s (handle_timeout act ok s).
Proof.
  unfold handle_timeout. etrans; [|apply quiet_timer].
  repeat case_match; try done. etrans; [apply (quiet_timer P act (set_isRunning false))|apply quiet_timedOut].
Qed.

(** A session that is to disconnect hands no message over. *)
Definition received_call (reserved : bool) (c : call) : Prop :=
  match c with
  | OnMessageArrived _ _ => reserved = false
  | OnThrottling _ _ => True
  | _ => False
  end.

Lemma messageUnmarshalled_called reserved mt b w r b' w' :
  messageUnmarshalled react reserved mt (b, w) = (r, (b', w')) → called (received_call reserved) w w'.
Proof.
  unfold messageUnmarshalled. destruct reserved; [by intros [= <- <- <-]|]. cbn.
  pose proof (called_call (received_call false) (OnMessageArrived mt (mb_contents b)) w eq_refl) as Hc.
  destruct (call_world react _ w) as [ok w1]. by intros [= <- <- <-].
Qed.

Lemma addInboundBandwidth_eq now n (s : state) :
  addInboundBandwidth now n s =
    let p := check now (add now n (incomingBandwidthLimiter_ (ses s))) in
    (p.1, on_ses (set_limiter p.2) s).
Proof. unfold addInboundBandwidth. by destruct (check _ _). Qed.

Lemma quiet_handle_read now r chunk s s' :
  handle_read react now r chunk s = Some s' →
  quiet (received_call (isDisconnectReserved (ses s))) s s'.
Proof.
  unfold handle_read. destruct chunk as [chunk|]; [|intros [= <-]; apply quiet_post].
  unfold messageBlockReceived. destruct (mb_write _ _ _) as [[[]|e] recv]; [|done].
  rewrite addInboundBandwidth_eq. cbv zeta.
  destruct (check _ _) as [karma lim]. cbn [fst snd].
  set (s1 := on_ses (set_limiter lim) _).
  assert (Q1 : quiet (received_call (isDisconnectReserved (ses s))) s s1) by by apply quiet_same.
  change (isDisconnectReserved (ses s1)) with (isDisconnectReserved (ses s)).
  destruct (ma_unmarshal _ _ _) as [[[ok count]|e] [m w]] eqn:E; [|done].
  eapply (ma_unmarshal_preorder (called (received_call (isDisconnectReserved (ses s))))) in E;
    [|apply _|apply messageUnmarshalled_called].
  set (s2 := mkState _ w).
  assert (Q2 : quiet (received_call (isDisconnectReserved (ses s))) s1 s2).
  { transitivity (mkState (ses s1) w); [by apply quiet_called|by apply quiet_same]. }
  pose proof (transitivity Q1 Q2) as Q. cbn [mbind option_bind].
  destruct ok; cbn [negb]; [|intros [= <-]; etrans; [exact Q|apply quiet_post]].
  destruct karma; cbn [negb]; intros [= <-]; (etrans; [exact Q|]);
    [apply quiet_readMessage|by apply quiet_throttleReceiving].
Qed.

(** ** Every block is in one place *)

Definition occ (x : Z) (l : list Z) : nat := count_occ Z.eq_dec l x.
Definition ids (l : list block) : list Z := b_id <$> l.
(** The blocks held by the handlers of the writes in progress. *)
Definition held (l : list write_op) : list Z :=
  omap (λ o, match o with WSingle b => Some (b_id b) | WGather _ => None end) l.

(** The blocks given to [sendMessage] are in a closure, in the queue, in a write,
    given back, or forgotten. *)
Definition blocks_inv (s : state) : Prop := ∀ x,
  occ x (asked (wld s)) =
    (occ x (requests_ids (posted (wld s))) + occ x (ids (outputQueue_ (ses s))) +
     occ x (held (writes_pending (wld s))) + occ x (ids (outputMemoryBlocks_ (ses s))) +
     occ x (released (wld s)) + occ x (lost (wld s)))%nat.

Lemma occ_app x l l' : occ x (l ++ l') = (occ x l + occ x l')%nat.
Proof. apply count_occ_app. Qed.

Lemma occ_take_drop x n l : (occ x (ids (take n l)) + occ x (ids (drop n l)))%nat = occ x (ids l).
Proof. rewrite <- occ_app. unfold ids. by rewrite <- fmap_app, take_drop. Qed.

Lemma held_app l l' : held (l ++ l') = held l ++ held l'.
Proof. apply omap_app. Qed.

Lemma blocks_quiet P s s' : quiet P s s' → blocks_inv s → blocks_inv s'.
Proof.
  intros (V & R & L & qs & cs & _ & EP & EA & _) Hi x. specialize (Hi x).
  injection V as _ Eq _ Eo _ Ew _ _.
  rewrite EP, EA, R, L, Eq, Eo, Ew, requests_ids_app, !occ_app. lia.
Qed.

(** Unfolds the steps of a handler and counts. *)
Ltac count_blocks :=
  cbn [on_ses on_wld ses wld set_socket set_queue set_pended set_logged set_blocks on_stats
    on_disconnectTimer on_throttleTimer set_marshaller set_limiter post release_blocks lose_blocks
    accept_packet start_write posted asked released lost writes_pending outputQueue_
    outputMemoryBlocks_ take_write];
  rewrite ?requests_ids_app, ?held_app, ?occ_app.

Lemma blocks_reset s : blocks_inv s → blocks_inv (session_reset s).
Proof.
  intros Hi x. specialize (Hi x). unfold session_reset, flushOutputQueue, clearOutputBlocks,
    stopThrottleTimer, stopDisconnectTimer. count_blocks. fold (ids (outputQueue_ (ses s))).
  fold (ids (outputMemoryBlocks_ (ses s))). change (occ x (ids [])) with O. lia.
Qed.

Lemma blocks_gatherWrite s : blocks_inv s → blocks_inv (gatherWrite s).
Proof.
  intros Hi x. specialize (Hi x). unfold gatherWrite.
  destruct (outputQueue_ (ses s)) as [|b1 [|b2 q]] eqn:Eq; [by rewrite Eq|..].
  - unfold writeMessage. count_blocks. change (occ x (ids [])) with O.
    change (held [WSingle b1]) with (ids [b1]). lia.
  - unfold clearOutputBlocks. count_blocks. fold (ids (outputMemoryBlocks_ (ses s))).
    rewrite <- (occ_take_drop x maxGatherWriteCount) in Hi. cbn [held omap list_omap]. 
    change (occ x []) with O. lia.
Qed.

Lemma blocks_do_disconnect s : blocks_inv s → blocks_inv (do_disconnect react s).
Proof.
  intros Hi. unfold do_disconnect. case_match; [done|]. cbv zeta.
  set (s1 := on_ses (set_socket false) _). assert (Hi1 : blocks_inv s1) by exact Hi.
  case_match; [done|].
  eapply (blocks_quiet (λ _, True)); [apply quiet_callback; exact I|].
  eapply (blocks_quiet (λ _, True)); [apply quiet_callback; exact I|]. by apply blocks_reset.
Qed.

(** With the block [b] in the hand of a handler. *)
Definition blocks_inv_with (b : Z) (s : state) : Prop :=
  blocks_inv (mkState (ses s) (release_blocks [mkBlock b (mb_new 0)] (wld s))).

Lemma blocks_with_release b s : blocks_inv_with (b_id b) s → blocks_inv (on_wld (release_blocks [b]) s).
Proof. done. Qed.

Lemma blocks_with_quiet P b s s' : quiet P s s' → blocks_inv_with b s → blocks_inv_with b s'.
Proof.
  intros (V & R & L & qs & cs & F & EP & EA & EC). apply (blocks_quiet P).
  split_and!; cbn; try congruence; [exact V|]. by exists qs, cs.
Qed.

Lemma blocks_writeMessage b s : blocks_inv_with (b_id b) s → blocks_inv (writeMessage b s).
Proof.
  intros Hi x. specialize (Hi x). unfold writeMessage. revert Hi. count_blocks.
  change (held [WSingle b]) with [b_id b]. cbn [fmap list_fmap b_id]. lia.
Qed.

Lemma blocks_enqueue b s :
  blocks_inv_with (b_id b) s → blocks_inv (on_ses (λ t, set_queue (outputQueue_ t ++ [b]) t) s).
Proof.
  intros Hi x. specialize (Hi x). revert Hi. count_blocks. unfold ids. rewrite fmap_app, occ_app.
  cbn [fmap list_fmap b_id]. lia.
Qed.

Lemma checkOutputQueue_spec s :
  let '(room, s1) := checkOutputQueue s in
  quiet (λ _, False) s s1 ∧
  (room = true → 0 < maxPendablePacketCount_ (ses s) →
    Z.of_nat (length (outputQueue_ (ses s))) < maxPendablePacketCount_ (ses s)).
Proof.
  unfold checkOutputQueue. destruct ((0 <? _) && _) eqn:E; [by split|]. split.
  - case_match; by apply quiet_same.
  - intros _ Hm. apply andb_false_iff in E as [E|E]; lia.
Qed.

(** The outcomes of sending: refused, queued, written or given up. *)
Lemma do_sendMessage_cases b mt s s' : do_sendMessage react b mt s = Some s' →
  (canSendMessage (ses s) = false ∧ s' = on_wld (release_blocks [b]) s) ∨
  ∃ mem s1, canSendMessage (ses s) = true ∧ quiet (λ _, False) s s1 ∧
    let b' := mkBlock (b_id b) mem in
    let accepted_in s2 := callback react (OnMessageTransfered mt)
      (on_wld (accept_packet (mb_contents mem)) s2) in
    (isWritePended_ (ses s) = true ∧
     (0 < maxPendablePacketCount_ (ses s) →
      Z.of_nat (length (outputQueue_ (ses s))) < maxPendablePacketCount_ (ses s)) ∧
     s' = accepted_in (on_ses (λ t, set_queue (outputQueue_ t ++ [b']) t) s1)) ∨
    (isWritePended_ (ses s) = false ∧ s' = accepted_in (writeMessage b' s1)) ∨
    s' = on_wld (release_blocks [b']) s1.
Proof.
  unfold do_sendMessage. destruct (canSendMessage (ses s)) eqn:Ec; cbn [negb];
    [|intros [= <-]; by left]. right.
  destruct (ma_marshal _ _) as [[ok|e] [m mem]]; [|done]. exists mem.
  set (s1 := on_ses (set_marshaller m) s) in *.
  assert (Q1 : quiet (λ _, False) s s1) by by apply quiet_same.
  change (isWritePended_ (ses s1)) with (isWritePended_ (ses s)) in *.
  injection H0 as <-. destruct ok.
  - destruct (isWritePended_ (ses s)).
    + pose proof (checkOutputQueue_spec s1) as Hq. destruct (checkOutputQueue s1) as [[] s2].
      * exists s2. destruct Hq as [Q Hq]. split_and!; [done|by etrans|]. left. split_and!; try done.
        by apply Hq.
      * exists (disconnect s2). destruct Hq as [Q _]. split_and!; [done| |by right; right].
        etrans; [exact Q1|]. etrans; [exact Q|apply quiet_post].
    + exists s1. split_and!; [done|done|]. by right; left.
  - exists (disconnectGracefully s1). split_and!; [done| |by right; right].
    etrans; [exact Q1|apply quiet_post].
Qed.

Lemma quiet_called_callback c s : quiet (λ _, True) s (callback react c s).
Proof. by apply quiet_callback. Qed.

Lemma blocks_do_sendMessage b mt s s' : blocks_inv_with (b_id b) s →
  do_sendMessage react b mt s = Some s' → blocks_inv s'.
Proof.
  intros Hi [[_ ->]|(mem & s1 & _ & Q & [(_ & _ & ->)|[[_ ->]| ->]])]%do_sendMessage_cases; [done|..];
    apply (blocks_with_quiet _ _ _ _ Q) in Hi.
  - eapply blocks_quiet; [apply quiet_called_callback|]. exact (blocks_enqueue (mkBlock (b_id b) mem) s1 Hi).
  - eapply blocks_quiet; [apply quiet_called_callback|]. exact (blocks_writeMessage (mkBlock (b_id b) mem) s1 Hi).
  - done.
Qed.

(** Giving a block back commutes with the next write. *)
Lemma gatherWrite_release l (s : state) :
  gatherWrite (on_wld (release_blocks l) s) = on_wld (release_blocks l) (gatherWrite s).
Proof.
  destruct s as [t w]. unfold gatherWrite. cbn [on_wld ses wld].
  by destruct (outputQueue_ t) as [|b1 [|b2 q]].
Qed.

Lemma fold_writeSucceeded l (s : state) : let s' := fold_left (λ s b, writeSucceeded b s) l s in
  wld s' = wld s ∧ socket_ (ses s') = socket_ (ses s) ∧
  outputQueue_ (ses s') = outputQueue_ (ses s) ∧
  outputMemoryBlocks_ (ses s') = outputMemoryBlocks_ (ses s) ∧
  maxPendablePacketCount_ (ses s') = maxPendablePacketCount_ (ses s) ∧
  isWritePended_ (ses s') = (if decide (l = []) then isWritePended_ (ses s) else false).
Proof.
  cbv zeta. revert s. induction l as [|b l IH]; intros s; cbn [fold_left]; [done|].
  destruct (IH (writeSucceeded b s)) as (E1 & E2 & E3 & E4 & E5 & E6).
  rewrite E1, E2, E3, E4, E5, E6. split_and!; try done.
  rewrite (decide_False (P := b :: l = [])) by done. by case_decide.
Qed.

Lemma blocks_exec e s s' : blocks_inv s → exec react e s = Some s' → blocks_inv s'.
Proof.
  intros Hi. destruct e as [|q| |now chunk|failed|act ok]; cbn [exec].
  - case_match; [done|]. intros [= <-]. unfold sessionOpened. cbv zeta.
    set (s1 := on_ses (on_stats stats_used) _). assert (Hi1 : blocks_inv s1) by exact Hi.
    pose proof (called_call (λ _, True) OnConnected (wld s1) I) as Q%quiet_called.
    destruct (call_world react OnConnected (wld s1)) as [ok w]. cbn [snd] in Q.
    apply (blocks_quiet _ _ _ Q) in Hi1.
    destruct ok; (eapply (blocks_quiet (λ _, True)); [|exact Hi1]);
      [apply quiet_readMessage|apply quiet_post].
  - intros [= <-]. eapply (blocks_quiet (λ _, True)); [apply quiet_post|done].
  - destruct (posted (wld s)) as [|q qs] eqn:Ep; [done|].
    set (s1 := on_wld (take_posted qs) s).
    assert (Ho : ∀ x, occ x (requests_ids (posted (wld s))) =
      (occ x (requests_ids [q]) + occ x (requests_ids qs))%nat).
    { intros x. rewrite Ep. change (q :: qs) with ([q] ++ qs). by rewrite requests_ids_app, occ_app. }
    destruct q as [b mt| |]; cbn [do_request].
    + apply blocks_do_sendMessage. intros x. specialize (Hi x). rewrite Ho in Hi. revert Hi.
      unfold s1, take_posted. count_blocks. change (requests_ids [PSend b mt]) with [b_id b].
      cbn [fmap list_fmap b_id]. lia.
    + intros [= <-]. apply blocks_do_disconnect. intros x. specialize (Hi x). by rewrite Ho in Hi.
    + intros [= <-]. unfold do_disconnectGracefully.
      assert (Hi1 : blocks_inv s1) by (intros x; specialize (Hi x); by rewrite Ho in Hi).
      by case_match.
  - destruct (reads_pending (wld s)) as [|r rs]; [done|]. case_match; [|done].
    intros Q%quiet_handle_read. by apply (blocks_quiet _ _ _ Q).
  - destruct (writes_pending (wld s)) as [|o os] eqn:Eo; [done|]. intros [= <-].
    generalize (match failed with None => op_bytes o | Some n => take n (op_bytes o) end) as bytes.
    generalize (match failed with None => true | Some _ => false end) as ok. intros ok bytes.
    assert (Ho : ∀ x, occ x (held (writes_pending (wld s))) = (occ x (held [o]) + occ x (held os))%nat).
    { intros x. rewrite Eo. change (o :: os) with ([o] ++ os). by rewrite held_app, occ_app. }
    destruct o as [b|bufs].
    + unfold handle_write. apply blocks_with_release.
      assert (Hi1 : blocks_inv_with (b_id b) (on_wld (take_write os bytes) s)).
      { intros x. specialize (Hi x). rewrite Ho in Hi. revert Hi. count_blocks.
        change (held [WSingle b]) with [b_id b]. cbn [fmap list_fmap b_id]. lia. }
      destruct ok.
      * unfold blocks_inv_with in *. apply (blocks_gatherWrite (on_wld (release_blocks [b])
          (writeSucceeded b (on_wld (take_write os bytes) s)))) in Hi1.
        by rewrite gatherWrite_release in Hi1.
      * eapply (blocks_with_quiet (λ _, True)); [apply quiet_post|done].
    + unfold handle_gather_write.
      set (s1 := on_wld (take_write os bytes) s).
      set (s2 := if ok then _ else s1).
      assert (Hs2 : wld s2 = wld s1 ∧ outputQueue_ (ses s2) = outputQueue_ (ses s1)).
      { unfold s2. destruct ok; [|done].
        by destruct (fold_writeSucceeded (outputMemoryBlocks_ (ses s1)) s1) as (? & ? & ? & ?). }
      assert (Hi2 : blocks_inv (on_ses (set_blocks [])
        (on_wld (release_blocks (outputMemoryBlocks_ (ses s1))) s2))).
      { intros x. specialize (Hi x). rewrite Ho in Hi. revert Hi. count_blocks.
        destruct Hs2 as [-> ->]. unfold s1. count_blocks. fold (ids (outputMemoryBlocks_ (ses s))).
        change (occ x (held [WGather bufs])) with O. change (occ x (ids [])) with O. lia. }
      destruct ok; [by apply blocks_gatherWrite|].
      eapply (blocks_quiet (λ _, True)); [apply quiet_post|done].
  - case_match; [done|]. intros [= <-].
    eapply (blocks_quiet (λ _, True)); [|exact Hi]. etrans; [apply quiet_timer|apply quiet_handle_timeout].
Qed.

(** ** One write at a time, in order, from a bounded queue *)

Definition block_bytes (l : list block) : list Z := mjoin ((λ b, mb_contents (b_mem b)) <$> l).
Definition ops_bytes (l : list write_op) : list Z := mjoin (op_bytes <$> l).

Record out_inv (s : state) : Prop := {
  oi_ops : match writes_pending (wld s) with
    | [] => outputMemoryBlocks_ (ses s) = [] ∧
        (isWritePended_ (ses s) = false → outputQueue_ (ses s) = [])
    | [WSingle _] => outputMemoryBlocks_ (ses s) = [] ∧ isWritePended_ (ses s) = socket_ (ses s)
    | [WGather bufs] => isWritePended_ (ses s) = socket_ (ses s) ∧
        (socket_ (ses s) = true → outputMemoryBlocks_ (ses s) ≠ [] ∧
          bufs = (λ b, mb_contents (b_mem b)) <$> outputMemoryBlocks_ (ses s))
    | _ => False
    end;
  oi_closed : socket_ (ses s) = false →
    isWritePended_ (ses s) = false ∧ outputQueue_ (ses s) = [] ∧ outputMemoryBlocks_ (ses s) = [];
  oi_bound : 0 < maxPendablePacketCount_ (ses s) →
    Z.of_nat (length (outputQueue_ (ses s))) ≤ maxPendablePacketCount_ (ses s);
  oi_wire : ∃ rest,
    mjoin (accepted (wld s)) = wire (wld s) ++ ops_bytes (writes_pending (wld s)) ++ rest ∧
    (socket_ (ses s) = true → writes_pending (wld s) ≠ [] ∨ isWritePended_ (ses s) = false →
      rest = block_bytes (outputQueue_ (ses s)));
}.

Lemma block_bytes_app l l' : block_bytes (l ++ l') = block_bytes l ++ block_bytes l'.
Proof. unfold block_bytes. by rewrite fmap_app, join_app. Qed.

Lemma ops_bytes_one o : ops_bytes ([] ++ [o]) = op_bytes o.
Proof. apply app_nil_r. Qed.

Lemma out_same_view s s' : out_view s' = out_view s → out_inv s → out_inv s'.
Proof.
  intros V [Ho Hc Hb Hw]. injection V as E1 E2 E3 E4 E5 E6 E7 E8.
  split; by rewrite ?E1, ?E2, ?E3, ?E4, ?E5, ?E6, ?E7, ?E8.
Qed.

Lemma out_quiet P s s' : quiet P s s' → out_inv s → out_inv s'.
Proof. intros [V _]. by apply out_same_view. Qed.

Lemma out_release l s : out_inv s → out_inv (on_wld (release_blocks l) s).
Proof. by intros [? ? ? ?]. Qed.

(** A closed session has nothing to write. *)
Lemma out_reset s : out_inv s → out_inv (session_reset s).
Proof.
  intros [Ho Hc Hb Hw]. split; cbn; try done.
  - by destruct (writes_pending (wld s)) as [|[b|bufs] [|]].
  - lia.
  - destruct Hw as (rest & E & _). by exists rest.
Qed.

Lemma out_do_disconnect s : out_inv s → out_inv (do_disconnect react s).
Proof.
  intros Hi. unfold do_disconnect. case_match; [done|]. cbv zeta.
  destruct (isConnected (ses s)) eqn:Ec; cbn [negb].
  - eapply out_quiet; [apply quiet_called_callback|].
    eapply out_quiet; [apply quiet_called_callback|].
    change (session_reset (on_ses (set_socket false) (stopThrottleTimer (stopDisconnectTimer s))))
      with (session_reset (stopThrottleTimer (stopDisconnectTimer s))).
    apply out_reset. eapply (out_quiet (λ _, True)); [|exact Hi]. by apply quiet_same.
  - eapply (out_quiet (λ _, True)); [|exact Hi]. apply quiet_same; [|done].
    unfold out_view. cbn. unfold isConnected in Ec. by rewrite Ec.
Qed.

(** Starting the next write. *)
Lemma out_gatherWrite s : socket_ (ses s) = true → writes_pending (wld s) = [] →
  isWritePended_ (ses s) = false → outputMemoryBlocks_ (ses s) = [] →
  (0 < maxPendablePacketCount_ (ses s) →
    Z.of_nat (length (outputQueue_ (ses s))) ≤ maxPendablePacketCount_ (ses s)) →
  mjoin (accepted (wld s)) = wire (wld s) ++ block_bytes (outputQueue_ (ses s)) →
  out_inv (gatherWrite s).
Proof.
  intros Ho Hw Hp Hm Hb E. unfold gatherWrite.
  destruct (outputQueue_ (ses s)) as [|b1 [|b2 q]] eqn:Eq.
  - split; rewrite ?Hw, ?Eq; [done|congruence|done|].
    exists []. rewrite app_nil_r in *. by split.
  - split; cbn; rewrite ?Hw; cbn; rewrite ?Hm, ?Ho; try done; [lia|].
    exists []. rewrite E. unfold block_bytes, ops_bytes. cbn. by rewrite !app_nil_r.
  - set (l := take maxGatherWriteCount (b1 :: b2 :: q)).
    assert (Hl : l ≠ []) by done.
    split; cbn [on_ses on_wld ses wld set_socket set_queue set_pended set_blocks clearOutputBlocks
      start_write lose_blocks writes_pending isWritePended_ socket_ outputMemoryBlocks_ outputQueue_
      maxPendablePacketCount_ accepted wire]; rewrite ?Hw, ?Ho; try done.
    + intros Hmax. specialize (Hb Hmax). rewrite length_drop. lia.
    + exists (block_bytes (drop maxGatherWriteCount (b1 :: b2 :: q))). split; [|done].
      rewrite E. f_equal. cbn [app ops_bytes fmap list_fmap mjoin op_bytes]. 
      rewrite <- (take_drop maxGatherWriteCount (b1 :: b2 :: q)) at 1. rewrite block_bytes_app.
      f_equal. by rewrite ops_bytes_one.
Qed.

Lemma out_writeMessage b p s : out_inv s → socket_ (ses s) = true → isWritePended_ (ses s) = false →
  mb_contents (b_mem b) = p → out_inv (on_wld (accept_packet p) (writeMessage b s)).
Proof.
  intros [Ho Hc Hb (rest & E & Hr)] Hs Hp <-.
  assert (Hw : writes_pending (wld s) = []).
  { destruct (writes_pending (wld s)) as [|[b0|bufs] [|]]; [done|..]; try done; destruct Ho; congruence. }
  rewrite Hw in Ho, E. destruct Ho as [Hm Hq]. specialize (Hq Hp).
  specialize (Hr Hs (or_intror Hp)). rewrite Hq in Hr. subst rest.
  split; cbn; rewrite ?Hw, ?Hs; cbn; try done.
  exists []. rewrite join_app, E, Hq. unfold ops_bytes, block_bytes. cbn. by rewrite !app_nil_r.
Qed.

Lemma out_enqueue b p s : out_inv s → socket_ (ses s) = true → isWritePended_ (ses s) = true →
  (0 < maxPendablePacketCount_ (ses s) →
    Z.of_nat (length (outputQueue_ (ses s))) < maxPendablePacketCount_ (ses s)) →
  mb_contents (b_mem b) = p →
  out_inv (on_wld (accept_packet p) (on_ses (λ t, set_queue (outputQueue_ t ++ [b]) t) s)).
Proof.
  intros [Ho Hc Hb (rest & E & Hr)] Hs Hp Hroom <-. split; cbn.
  - destruct (writes_pending (wld s)) as [|[b0|bufs] [|]]; try done. split; [by apply Ho|congruence].
  - congruence.
  - rewrite length_app. cbn. lia.
  - exists (rest ++ mb_contents (b_mem b)). rewrite join_app, E, <- !app_assoc. cbn.
    rewrite app_nil_r. split; [done|]. intros _ [Hne|?]; [|congruence].
    rewrite Hr by auto. unfold block_bytes. rewrite fmap_app, join_app. cbn. by rewrite app_nil_r.
Qed.

Lemma canSend_spec (s : state) : canSendMessage (ses s) = true → socket_ (ses s) = true.
Proof. unfold canSendMessage, isConnected. by intros [? _]%andb_true_iff. Qed.

Lemma quiet_out_view P s s' : quiet P s s' → out_view s' = out_view s.
Proof. by intros [? _]. Qed.

Lemma out_do_sendMessage b mt s s' : out_inv s → do_sendMessage react b mt s = Some s' → out_inv s'.
Proof.
  intros Hi [[_ ->]|(mem & s1 & Hs%canSend_spec & Q & Hcases)]%do_sendMessage_cases;
    [by apply out_release|].
  pose proof (out_quiet _ _ _ Q Hi) as Hi1. apply quiet_out_view in Q. injection Q as E1 E2 E3 E4 E5 _ _ _.
  destruct Hcases as [(Hp & Hroom & ->)|[[Hp ->]| ->]].
  - eapply out_quiet; [apply quiet_called_callback|]. apply out_enqueue; try done; congruence || idtac.
    by rewrite E5, E2.
  - eapply out_quiet; [apply quiet_called_callback|]. by apply out_writeMessage; try congruence.
  - by apply out_release.
Qed.

(** The output when a write has ended after [bytes]. *)
Definition ended_view (p : bool) (bytes : list Z) (s : state) :=
  (socket_ (ses s), outputQueue_ (ses s), p, @nil block, maxPendablePacketCount_ (ses s),
   (@nil write_op, accepted (wld s), wire (wld s) ++ bytes)).

(** A write has completed: the next one starts, if any. *)
Lemma out_written o s s1 : out_inv s → writes_pending (wld s) = [o] →
  out_view s1 = ended_view false (op_bytes o) s → out_inv (gatherWrite s1).
Proof.
  intros [Ho Hc Hb (rest & E & Hr)] Hw V. injection V as E1 E2 E5 E6 E3 E7 E8 E9.
  rewrite Hw in E, Hr, Ho.
  assert (Eo : ops_bytes [o] = op_bytes o) by apply ops_bytes_one. rewrite Eo in E.
  destruct (socket_ (ses s)) eqn:Es.
  - apply out_gatherWrite; rewrite ?E2, ?E3; try done. rewrite E8, E9, E, <- app_assoc.
    by rewrite Hr by (done || by left).
  - destruct (Hc eq_refl) as (Hp & Hq & Hm). unfold gatherWrite. rewrite E2, Hq.
    split; rewrite ?E1, ?E2, ?E3, ?E5, ?E6, ?E7, ?E8, ?E9, ?Hq; try done; [cbn; lia|].
    exists rest. rewrite E, app_assoc. by split.
Qed.

(** A write has failed: the output stays as it is until the socket is closed. *)
Lemma out_failed o bytes s s1 : out_inv s → writes_pending (wld s) = [o] →
  bytes `prefix_of` op_bytes o → out_view s1 = ended_view (isWritePended_ (ses s)) bytes s → out_inv s1.
Proof.
  intros [Ho Hc Hb (rest & E & Hr)] Hw [k Ek] V. injection V as E1 E2 E5 E6 E3 E7 E8 E9.
  rewrite Hw in E, Hr, Ho.
  assert (Eo : ops_bytes [o] = op_bytes o) by apply ops_bytes_one. rewrite Eo, Ek in E.
  assert (Hp : isWritePended_ (ses s) = socket_ (ses s)) by (destruct o; apply Ho).
  split; rewrite ?E1, ?E2, ?E3, ?E5, ?E6, ?E7, ?E8, ?E9; try done.
  - split; [done|]. rewrite Hp. intros Hs. by apply Hc.
  - intros Hs. by destruct (Hc Hs) as (? & ? & ?).
  - exists (k ++ rest). rewrite E, <- !app_assoc. split; [done|]. rewrite Hp. intros -> [?|?]; done.
Qed.

Lemma take_prefix {X} n (l : list X) : take n l `prefix_of` l.
Proof. exists (drop n l). by rewrite take_drop. Qed.

Lemma out_inv_single s o os : out_inv s → writes_pending (wld s) = o :: os → os = [].
Proof.
  intros [Ho _ _ _] E. rewrite E in Ho. by destruct o, os.
Qed.

Lemma out_exec e s s' : out_inv s → exec react e s = Some s' → out_inv s'.
Proof.
  intros Hi. destruct e as [|q| |now chunk|failed|act ok]; cbn [exec].
  - case_match eqn:Eg; [done|]. intros [= <-]. unfold sessionOpened. cbv zeta.
    apply orb_false_iff in Eg as [Eg Ht]. apply orb_false_iff in Eg as [Eg Hd].
    apply orb_false_iff in Eg as [Eg Hw]. apply orb_false_iff in Eg as [Es Hr].
    apply negb_false_iff, bool_decide_eq_true, nil_length_inv in Hw.
    destruct Hi as [Ho Hc Hb _]. destruct (Hc Es) as (Hp & Hq & Hm).
    set (s1 := on_ses (on_stats stats_used) _).
    assert (Hi1 : out_inv s1).
    { split; cbn; rewrite ?Hw, ?Hp, ?Hq, ?Hm; cbn; try done; [lia|]. by exists []. }
    pose proof (called_call (λ _, True) OnConnected (wld s1) I) as Q%quiet_called.
    destruct (call_world react OnConnected (wld s1)) as [ok w]. cbn [snd] in Q.
    apply (out_quiet _ _ _ Q) in Hi1.
    destruct ok; (eapply (out_quiet (λ _, True)); [|exact Hi1]); [apply quiet_readMessage|apply quiet_post].
  - intros [= <-]. eapply (out_quiet (λ _, True)); [apply quiet_post|done].
  - destruct (posted (wld s)) as [|q qs]; [done|].
    assert (Hi1 : out_inv (on_wld (take_posted qs) s)) by by apply (out_same_view s).
    destruct q as [b mt| |]; cbn [do_request].
    + by apply out_do_sendMessage.
    + intros [= <-]. by apply out_do_disconnect.
    + intros [= <-]. unfold do_disconnectGracefully. case_match; [done|].
      by apply (out_same_view (on_wld (take_posted qs) s)).
  - destruct (reads_pending (wld s)) as [|r rs]; [done|]. case_match; [|done].
    intros Q%quiet_handle_read. apply (out_quiet _ _ _ Q). by apply (out_same_view s).
  - destruct (writes_pending (wld s)) as [|o os] eqn:Eo; [done|]. intros [= <-].
    pose proof (out_inv_single _ _ _ Hi Eo) as ->.
    pose proof (oi_ops _ Hi) as Hops. rewrite Eo in Hops.
    destruct o as [b|bufs]; destruct failed as [n|].
    + unfold handle_write. apply out_release. eapply (out_quiet (λ _, True)); [apply quiet_post|].
      eapply out_failed; [done|done|apply take_prefix|]. unfold out_view, ended_view.
      cbn. by destruct Hops as [-> _].
    + unfold handle_write. apply out_release. eapply out_written; [done|done|].
      unfold out_view, ended_view. cbn. by destruct Hops as [-> _].
    + unfold handle_gather_write. eapply (out_quiet (λ _, True)); [apply quiet_post|].
      eapply out_failed; [done|done|apply take_prefix|]. done.
    + unfold handle_gather_write. eapply out_written; [done|done|].
      set (s1 := on_wld _ s).
      destruct (fold_writeSucceeded (outputMemoryBlocks_ (ses s1)) s1) as (F1 & F2 & F3 & F4 & F5 & F6).
      unfold out_view, ended_view. cbn [on_ses on_wld ses wld set_blocks socket_ outputQueue_
        isWritePended_ outputMemoryBlocks_ maxPendablePacketCount_ release_blocks writes_pending
        accepted wire]. rewrite F1, F2, F3, F5, F6. cbn. do 3 f_equal.
      clear F1 F2 F3 F4 F5 F6. case_decide as Hnil; [|done]. f_equal. destruct (isWritePended_ (ses s)) eqn:Ep; [|done].
      exfalso. destruct Hops as [Hs Hne]. destruct (Hne (eq_sym Hs)) as [Hx _]. by apply Hx.
  - case_match; [done|]. intros [= <-].
    eapply (out_quiet (λ _, True)); [|exact Hi]. etrans; [apply quiet_timer|apply quiet_handle_timeout].
Qed.

(** ** Connections are reported once *)

Definition lifecycle (c : call) : Prop :=
  match c with OnConnected | OnDisconnected | OnRelease => True | _ => False end.

(** The calls of a session, [true] while it is connected: a connection is
    announced, then its end, then the session is given back. *)
Inductive life : bool → list call → Prop :=
| life_new : life false []
| life_open l : life false l → life true (l ++ [OnConnected])
| life_close l : life true l → life false ((l ++ [OnDisconnected]) ++ [OnRelease])
| life_other b l c : life b l → ¬ lifecycle c → life b (l ++ [c]).

Definition life_inv (s : state) : Prop := life (socket_ (ses s)) (calls (wld s)).

Lemma life_others b l cs : life b l → Forall (λ c, ¬ lifecycle c) cs → life b (l ++ cs).
Proof.
  intros Hl Hc. revert l Hl. induction Hc as [|c cs Hc _ IH]; intros l Hl; [by rewrite app_nil_r|].
  change (c :: cs) with ([c] ++ cs). rewrite app_assoc. apply IH. by constructor.
Qed.

(** What a handler does to a connection: nothing, or it ends it. *)
Definition life_step (s s' : state) : Prop := ∃ cs, calls (wld s') = calls (wld s) ++ cs ∧
  ((socket_ (ses s') = socket_ (ses s) ∧ Forall (λ c, ¬ lifecycle c) cs) ∨
   (socket_ (ses s) = true ∧ socket_ (ses s') = false ∧ cs = [OnDisconnected; OnRelease])).

Lemma life_keeps s s' : life_step s s' → life_inv s → life_inv s'.
Proof.
  unfold life_inv. intros (cs & -> & [[-> Hcs]|(Hs & -> & ->)]) Hl; [by apply life_others|].
  rewrite Hs in Hl. change [OnDisconnected; OnRelease] with ([OnDisconnected] ++ [OnRelease]). rewrite app_assoc. by apply life_close.
Qed.
Lemma life_same s s' : socket_ (ses s') = socket_ (ses s) → calls (wld s') = calls (wld s) → life_step s s'.
Proof. intros Hs Hc. exists []. rewrite Hc, app_nil_r. split; [done|]. by left. Qed.
Lemma life_quiet (P : call → Prop) s s' : (∀ c, P c → ¬ lifecycle c) → quiet P s s' → life_step s s'.
Proof.
  intros HP (V & _ & _ & qs & cs & F & _ & _ & EC). injection V as E1 _ _ _ _ _ _ _.
  exists cs. split; [done|]. left. split; [done|]. by eapply Forall_impl.
Qed.
Lemma callback_calls c (s : state) : calls (wld (callback react c s)) = calls (wld s) ++ [c].
Proof.
  unfold callback, call_world. cbn. by destruct (react c (app (wld s))) as [[b qs] a].
Qed.

Lemma callback_ses c (s : state) : ses (callback react c s) = ses s.
Proof. done. Qed.

Lemma life_callback c s s' : ¬ lifecycle c → socket_ (ses s') = socket_ (ses s) → calls (wld s') = calls (wld s) →
  life_step s (callback react c s').
Proof.
  intros Hc Hs Hcs. exists [c]. rewrite callback_calls, Hcs. split; [done|]. left. by repeat constructor.
Qed.

Lemma gatherWrite_calls (s : state) :
  calls (wld (gatherWrite s)) = calls (wld s) ∧ socket_ (ses (gatherWrite s)) = socket_ (ses s).
Proof. unfold gatherWrite. by destruct (outputQueue_ (ses s)) as [|b1 [|b2 q]]. Qed.

Lemma life_do_disconnect s : life_step s (do_disconnect react s).
Proof.
  unfold do_disconnect. case_match; [by apply life_same|]. cbv zeta.
  destruct (isConnected (ses s)) eqn:Ec; cbn [negb]; unfold isConnected in Ec; [|by apply life_same].
  exists [OnDisconnected; OnRelease]. rewrite !callback_calls, <- app_assoc. split; [done|]. by right.
Qed.

(** Every handler but the one of a new connection. *)
Lemma life_step_exec e s s' : e ≠ EvOpen → exec react e s = Some s' → life_step s s'.
Proof.
  intros He. destruct e as [|q| |now chunk|failed|act ok]; cbn [exec]; [done|..].
  - intros [= <-]. by apply life_same.
  - destruct (posted (wld s)) as [|q qs]; [done|]. destruct q as [b mt| |]; cbn [do_request].
    + intros [[_ ->]|(mem & s1 & _ & Q & Hcases)]%do_sendMessage_cases; [by apply life_same|].
      destruct Q as (V & _ & _ & ? & cs & F & _ & _ & EC). injection V as E1 _ _ _ _ _ _ _.
      destruct cs; [|by apply Forall_cons in F as [[] _]]. rewrite app_nil_r in EC.
      destruct Hcases as [(_ & _ & ->)|[[_ ->]| ->]]; [apply life_callback; [by intros []|done..]..|by apply life_same].
    + intros [= <-]. apply (life_do_disconnect (on_wld (take_posted qs) s)).
    + intros [= <-]. unfold do_disconnectGracefully. case_match; by apply life_same.
  - destruct (reads_pending (wld s)) as [|r rs]; [done|]. case_match; [|done].
    intros Q%quiet_handle_read. eapply (life_quiet _ (on_wld (take_read rs) s)); [|exact Q]. intros []; cbn; tauto.
  - destruct (writes_pending (wld s)) as [|o os]; [done|]. intros [= <-].
    destruct o as [b|bufs]; destruct failed as [n|]; try by apply life_same.
    + unfold handle_write.
      destruct (gatherWrite_calls (writeSucceeded b (on_wld (take_write os (op_bytes (WSingle b))) s))) as [Hc Hs].
      by apply life_same.
    + unfold handle_gather_write. set (s1 := on_wld _ s). set (s2 := on_ses _ _).
      destruct (gatherWrite_calls s2) as [Hc Hs]. destruct (fold_writeSucceeded (outputMemoryBlocks_ (ses s1)) s1) as (F1 & F2 & _).
      apply life_same; [rewrite Hs|rewrite Hc]; unfold s2; cbn [on_wld on_ses wld ses release_blocks calls set_blocks socket_];
        by rewrite ?F1, ?F2.
  - case_match; [done|]. intros [= <-]. apply (life_quiet (λ _, False)); [done|].
    etrans; [apply quiet_timer|apply quiet_handle_timeout].
Qed.

(** A new connection. *)
Lemma life_opened s : socket_ (ses (sessionOpened react s)) = socket_ (ses s) ∧
  calls (wld (sessionOpened react s)) = calls (wld s) ++ [OnConnected].
Proof.
  unfold sessionOpened. cbv zeta. set (s1 := on_ses (on_stats stats_used) _).
  pose proof (callback_calls OnConnected s1) as Ec. unfold callback in Ec. cbn [on_wld wld] in Ec.
  destruct (call_world react OnConnected (wld s1)) as [ok w]. cbn [snd] in Ec. by destruct ok.
Qed.

Lemma life_exec e s s' : life_inv s → exec react e s = Some s' → life_inv s'.
Proof.
  intros Hi. assert (Hd : e = EvOpen ∨ e ≠ EvOpen) by (destruct e; auto). destruct Hd as [->|He]; [|intros Hs; by eapply life_keeps; [eapply life_step_exec|]].
  cbn [exec]. case_match eqn:Eg; [done|]. intros [= <-]. rewrite !orb_false_iff in Eg. destruct Eg as ((((Es & _) & _) & _) & _).
  unfold life_inv in *. rewrite Es in Hi. destruct (life_opened (on_ses (set_socket true) (on_wld new_connection s))) as [-> ->].
  by apply life_open.
Qed.

(** The capacity is constant. *)
Lemma capacity_exec e s s' : exec react e s = Some s' →
  maxPendablePacketCount_ (ses s') = maxPendablePacketCount_ (ses s).
Proof.
  assert (Hg : ∀ s : state, maxPendablePacketCount_ (ses (gatherWrite s)) = maxPendablePacketCount_ (ses s)).
  { intros t. unfold gatherWrite. by destruct (outputQueue_ (ses t)) as [|b1 [|b2 q]]. }
  assert (Hq : ∀ P s s', quiet P s s' → maxPendablePacketCount_ (ses s') = maxPendablePacketCount_ (ses s)).
  { intros P t t' (V & _). by injection V. }
  destruct e as [|q| |now chunk|failed|act ok]; cbn [exec].
  - case_match; [done|]. intros [= <-]. unfold sessionOpened. cbv zeta.
    destruct (call_world react OnConnected _) as [[] w]; done.
  - by intros [= <-].
  - destruct (posted (wld s)) as [|q qs]; [done|]. destruct q as [b mt| |]; cbn [do_request].
    + intros [[_ ->]|(mem & s1 & _ & Q%Hq & Hcases)]%do_sendMessage_cases; [done|].
      by destruct Hcases as [(_ & _ & ->)|[[_ ->]| ->]].
    + intros [= <-]. unfold do_disconnect. cbv zeta. by repeat case_match.
    + intros [= <-]. unfold do_disconnectGracefully. by case_match.
  - destruct (reads_pending (wld s)) as [|r rs]; [done|]. case_match; [|done].
    by intros Q%quiet_handle_read%Hq.
  - destruct (writes_pending (wld s)) as [|o os]; [done|]. intros [= <-].
    destruct o as [b|bufs]; destruct failed as [n|]; try done.
    + exact (Hg (writeSucceeded b (on_wld (take_write os (op_bytes (WSingle b))) s))).
    + unfold handle_gather_write. rewrite Hg. cbn [on_ses on_wld ses set_blocks maxPendablePacketCount_].
      set (s1 := on_wld _ s).
      destruct (fold_writeSucceeded (outputMemoryBlocks_ (ses s1)) s1) as (_ & _ & _ & _ & F5 & _). exact F5.
  - case_match; [done|]. intros [= <-]. eapply (Hq (λ _, True)).
    etrans; [apply quiet_timer|apply quiet_handle_timeout].
Qed.

(** ** Every reachable state *)

Lemma reachable_invariants capacity m a s : 0 ≤ BandwidthLimit.maxPendablePacketCount_ capacity →
  reachable react capacity m a s →
  blocks_inv s ∧ out_inv s ∧ life_inv s ∧
  maxPendablePacketCount_ (ses s) = BandwidthLimit.maxPendablePacketCount_ capacity.
Proof.
  intros Hc. unfold reachable. generalize (eq_refl (newSession capacity m a)).
  generalize (newSession capacity m a) at 1 3 as s0. intros s0 E0 Hr.
  assert (H0' : blocks_inv s0 ∧ out_inv s0 ∧ life_inv s0 ∧
    maxPendablePacketCount_ (ses s0) = BandwidthLimit.maxPendablePacketCount_ capacity).
  { subst s0. split_and!; [done| |constructor|done]. split; try done. by exists []. }
  clear E0. induction Hr as [|s1 s2 s3 [e s1' s2' E] _ IH]; [done|]. apply IH.
  destruct H0' as (Hb & Ho & Hl & Hm). split_and!.
  - by eapply blocks_exec.
  - by eapply out_exec.
  - by eapply life_exec.
  - rewrite <- Hm. by eapply capacity_exec.
Qed.

Lemma exec_all_steps es (s s' : state) : exec_all react es s = Some s' → rtc (step react) s s'.
Proof.
  revert s. induction es as [|e es IH]; intros s; cbn [exec_all]; [by intros [= <-]|].
  destruct (exec react e s) as [s1|] eqn:E; cbn [mbind option_bind]; [|done].
  intros Hes. eapply rtc_l; [by eapply step_exec|by apply IH].
Qed.

(** ** The queue drains *)

Lemma gatherWrite_next (s : state) : outputQueue_ (ses s) ≠ [] → ∃ o,
  writes_pending (wld (gatherWrite s)) = writes_pending (wld s) ++ [o] ∧
  (length (outputQueue_ (ses (gatherWrite s))) < length (outputQueue_ (ses s)))%nat ∧
  accepted (wld (gatherWrite s)) = accepted (wld s).
Proof.
  intros Hne. unfold gatherWrite. destruct (outputQueue_ (ses s)) as [|b1 [|b2 q]]; [done|..].
  - exists (WSingle b1). cbn. split_and!; [done|lia|done].
  - eexists. split_and!; [done| |done].
    cbn [on_ses on_wld ses set_blocks set_queue set_pended outputQueue_]. rewrite length_drop. cbn. lia.
Qed.

(** The handler of a completed write: what it does before the next one starts. *)
Lemma write_completes s o : out_inv s → writes_pending (wld s) = [o] → ∃ s1 l,
  exec react (EvWrite None) s = Some (on_wld (release_blocks l) (gatherWrite s1)) ∧
  out_view s1 = ended_view false (op_bytes o) s.
Proof.
  intros Hi Eo. cbn [exec]. rewrite Eo. pose proof (oi_ops _ Hi) as Hops. rewrite Eo in Hops.
  destruct o as [b|bufs].
  - eexists _, [b]. split; [reflexivity|]. unfold out_view, ended_view. cbn. by destruct Hops as [-> _].
  - unfold handle_gather_write. set (s1 := on_wld _ s). set (s2 := on_ses _ _).
    exists s2, []. split.
    + f_equal. unfold on_wld, release_blocks. destruct (gatherWrite s2) as [t w]. cbn.
      rewrite app_nil_r. by destruct w.
    + destruct (fold_writeSucceeded (outputMemoryBlocks_ (ses s1)) s1) as (F1 & F2 & F3 & F4 & F5 & F6).
      unfold s2, out_view, ended_view. cbn [on_ses on_wld ses wld set_blocks socket_ outputQueue_
        isWritePended_ outputMemoryBlocks_ maxPendablePacketCount_ release_blocks writes_pending
        accepted wire]. rewrite F1, F2, F3, F5, F6. cbn. do 3 f_equal.
      clear F1 F2 F3 F4 F5 F6 s2. case_decide as Hnil; [|done]. f_equal.
      destruct (isWritePended_ (ses s)) eqn:Ep; [|done].
      exfalso. destruct Hops as [Hs Hne]. destruct (Hne (eq_sym Hs)) as [Hx _]. by apply Hx.
Qed.

(** When the writes of a connected session succeed, it writes every packet it
    accepted, in order, and then nothing is pended. *)
Lemma drain_ok s o : out_inv s → socket_ (ses s) = true → writes_pending (wld s) = [o] → ∃ n s',
  exec_all react (replicate n (EvWrite None)) s = Some s' ∧
  (1 ≤ n ≤ S (length (outputQueue_ (ses s))))%nat ∧
  socket_ (ses s') = true ∧ isWritePended_ (ses s') = false ∧
  outputQueue_ (ses s') = [] ∧ writes_pending (wld s') = [] ∧
  wire (wld s') = mjoin (accepted (wld s')) ∧ accepted (wld s') = accepted (wld s).
Proof.
  remember (length (outputQueue_ (ses s))) as len eqn:El. revert s o El.
  induction (lt_wf len) as [len _ IH]. intros s o El Hi Hs Eo.
  destruct (write_completes s o Hi Eo) as (s1 & l & Ex & V).
  pose proof (out_exec _ _ _ Hi Ex) as Hi'. set (s2 := on_wld _ _) in *.
  injection V as E1 E2 E3 E4 E5 E6 E7 E8.
  assert (Hs2 : socket_ (ses s2) = true).
  { destruct (gatherWrite_calls s1) as [_ Eg]. unfold s2. cbn [on_wld ses]. congruence. }
  destruct (decide (outputQueue_ (ses s1) = [])) as [Hq|Hq].
  - exists 1%nat, s2. cbn [replicate exec_all]. rewrite Ex. cbn [mbind option_bind].
    assert (Eg : gatherWrite s1 = s1) by (unfold gatherWrite; by rewrite Hq).
    destruct Hi' as [_ _ _ (rest & E & Hr)].
    unfold s2 in E, Hr |- *. cbn [on_wld ses wld release_blocks accepted wire writes_pending] in E, Hr |- *.
    rewrite Eg in *. rewrite E1 in Hr. rewrite E6, E3, Hq in *. specialize (Hr Hs (or_intror eq_refl)). subst rest.
    split_and!; try done; [lia|congruence|]. rewrite E. cbn. by rewrite app_nil_r.
  - destruct (gatherWrite_next s1 Hq) as (o' & Ew & Hlt & Ea). rewrite E6 in Ew. rewrite E2 in Hlt.
    destruct (IH (length (outputQueue_ (ses s2))) ltac:(subst len; exact Hlt) s2 o' eq_refl Hi' Hs2 Ew)
      as (n & s' & Ex' & Hn & H1' & H2' & H3 & H4 & H5 & H6).
    exists (S n), s'. cbn [replicate exec_all]. rewrite Ex. cbn [mbind option_bind].
    assert (length (outputQueue_ (ses s2)) < len)%nat by (subst len; exact Hlt).
    split_and!; try done; [lia|lia|]. rewrite H6. unfold s2. cbn [on_wld wld release_blocks accepted].
    by rewrite Ea.
Qed.

(** ** Graceful disconnection *)

Lemma do_disconnect_connected s : isRunning_ (disconnectTimer_ (ses s)) = false → socket_ (ses s) = true →
  socket_ (ses (do_disconnect react s)) = false ∧
  calls (wld (do_disconnect react s)) = (calls (wld s) ++ [OnDisconnected]) ++ [OnRelease].
Proof.
  intros Ht Hs. unfold do_disconnect, isDisconnectReserved, isConnected. rewrite Ht, Hs. cbv zeta. cbn [negb].
  by rewrite !callback_calls.
Qed.

(** A session with nothing to write is closed when the timer ends, and its end is
    reported. *)
Lemma graceful_closes s qs : posted (wld s) = PDisconnectGracefully :: qs →
  socket_ (ses s) = true → isRunning_ (disconnectTimer_ (ses s)) = false →
  isWritePended_ (ses s) = false → outputQueue_ (ses s) = [] → qs = [] → ∃ s',
  exec_all react [EvPosted; EvTimer DisconnectTimer true; EvPosted] s = Some s' ∧
  socket_ (ses s') = false ∧ calls (wld s') = (calls (wld s) ++ [OnDisconnected]) ++ [OnRelease].
Proof.
  intros Hp Hs Ht Hw Hq ->. cbn [exec_all exec]. rewrite Hp. cbn [do_request].
  unfold do_disconnectGracefully, isDisconnectReserved. cbn [on_wld ses]. rewrite Ht.
  cbn. rewrite Hw, Hq. rewrite !bool_decide_eq_false_2 by done. rewrite bool_decide_eq_true_2 by done.
  cbn [negb orb mbind option_bind on_ses on_wld disconnect wld post posted take_posted app startDisconnectTimer].
  rewrite app_nil_l. cbn [do_request]. eexists. split; [reflexivity|].
  match goal with
  | |- context [do_disconnect react ?t] => exact (do_disconnect_connected t eq_refl Hs)
  end.
Qed.

(** ** What is left of a connection that ended *)

(** An application that asks for nothing. *)
Definition asks_nothing : Prop := ∀ c a, ∃ a', react c a = (true, [], a').

Lemma callback_posted c (s : state) : asks_nothing → posted (wld (callback react c s)) = posted (wld s).
Proof.
  intros Hr. unfold callback, call_world. cbn. destruct (Hr c (app (wld s))) as [a' ->]. cbn. by rewrite app_nil_r.
Qed.
Lemma callback_pending c (s : state) : reads_pending (wld (callback react c s)) = reads_pending (wld s) ∧
  writes_pending (wld (callback react c s)) = writes_pending (wld s).
Proof. unfold callback, call_world. cbn. by destruct (react c (app (wld s))) as [[? ?] ?]. Qed.

(** The waits and the operations in progress outlive the connection. *)
Lemma do_disconnect_leaves s : asks_nothing → isRunning_ (disconnectTimer_ (ses s)) = false → socket_ (ses s) = true →
  let s' := do_disconnect react s in
  posted (wld s') = posted (wld s) ∧ reads_pending (wld s') = reads_pending (wld s) ∧
  writes_pending (wld s') = writes_pending (wld s) ∧ isRunning_ (disconnectTimer_ (ses s')) = false ∧
  timer_waits (disconnectTimer_ (ses s')) = timer_waits (disconnectTimer_ (ses s)) ∧
  timer_waits (throttleTimer_ (ses s')) = timer_waits (throttleTimer_ (ses s)).
Proof.
  intros Hr Ht Hs. unfold do_disconnect, isDisconnectReserved, isConnected. rewrite Ht, Hs. cbv zeta. cbn [negb].
  rewrite !callback_posted by done. set (s1 := session_reset _).
  destruct (callback_pending OnRelease (callback react OnDisconnected s1)) as [-> ->].
  destruct (callback_pending OnDisconnected s1) as [-> ->]. done.
Qed.

Lemma sessionOpened_leaves s : asks_nothing →
  posted (wld (sessionOpened react s)) = posted (wld s) ∧
  isRunning_ (disconnectTimer_ (ses (sessionOpened react s))) = isRunning_ (disconnectTimer_ (ses s)).
Proof.
  intros Hr. unfold sessionOpened, call_world. cbv zeta. cbn [wld on_ses app].
  destruct (Hr OnConnected (app (wld s))) as [a' ->]. cbn. by rewrite app_nil_r.
Qed.
End invariants.
