(* ===== verification/SessionHandle.v ===== *)
(** * base/session: a [Session] and the life of its implementation

    Models [Session] ([src/src/base/session/Session.cpp]), the bridge to a
    [TcpSessionImpl], whose machine is that of [TcpSession.v], and the destructor of
    [ClientSideBridge] ([src/src/server/s2s/ClientSideBridge.cpp]).  Every closure and handler
    that an implementation leaves with the [io_context] has a pointer to it; those of one
    that was destroyed are still run. *)

From S2P Require Import Prelude Packet Marshaller BandwidthLimit TcpSession.

Section handle.
Context {M A : Type} `{Marshaller M}.
Context (react : call → A → bool * list request * A).
#[local] Abbreviation impl := (state M A).

(** [impl_], and how many closures and handlers of implementations that are gone wait. *)
Record Session := mkSession { impl_ : option impl; orphans : nat }.
Definition newHandle : Session := mkSession None 0.

Definition hasImpl (x : Session) : bool := bool_decide (is_Some (impl_ x)).
Definition null_impl : exn := Undefined "a null pointer to the implementation".
Definition set_impl (s : impl) (x : Session) : Session := mkSession (Some s) (orphans x).

(** What waits in the [io_context] with a pointer to the implementation. *)
Definition pending (s : impl) : nat :=
  length (posted (wld s)) + length (reads_pending (wld s)) + length (writes_pending (wld s)) +
  timer_waits (disconnectTimer_ (ses s)) + timer_waits (throttleTimer_ (ses s)).
Definition delete_impl (x : Session) : Session :=
  match impl_ x with Some s => mkSession None (orphans x + pending s) | None => x end.

(** [setImplementation] of an implementation that was made, or of none. *)
Definition setImplementation (s : option impl) (x : Session) : result Session :=
  if hasImpl x then Throw (Undefined "assert(! impl_.get())") else Ok (mkSession s (orphans x)).

Definition handle_initialize (x : Session) : option Session :=
  match impl_ x with
  | Some s => s ← exec react EvOpen s; Some (set_impl s x)
  | None => Some x
  end.

(** The calls that go through: [disconnect], [disconnectGracefully], [sendMessage]. *)
Definition handle_call (q : request) (x : Session) : result Session :=
  match impl_ x with
  | Some s => Ok (set_impl (on_wld (post q) s) x)
  | None => Throw null_impl
  end.
Definition handle_disconnect : Session → result Session := handle_call PDisconnect.

(** [finalize] asks for the implementation only after it has used it. *)
Definition handle_finalize (x : Session) : result Session :=
  match handle_disconnect x with
  | Ok x => Ok (delete_impl x)
  | e => e
  end.

(** [~ClientSideBridge] and the destructors after it. *)
Definition destroy_bridge (x : Session) : result Session :=
  match handle_disconnect x with
  | Ok x => Ok (delete_impl x)
  | e => e
  end.

(** What the [io_context] runs: an event of the implementation, or one that is left. *)
Definition handle_run (e : option event) (x : Session) : option (result Session) :=
  match e with
  | Some e => s ← impl_ x; s ← exec react e s; Some (Ok (set_impl s x))
  | None => if (0 <? orphans x)%nat then Some (Throw (Undefined "a closure of a session that was deleted")) else None
  end.

(** ** What comes of it *)

(** A session without an implementation cannot be finalized, nor one that was. *)
Theorem finalize_needs_an_implementation x : hasImpl x = false → handle_finalize x = Throw null_impl.
Proof. unfold hasImpl, handle_finalize, handle_disconnect, handle_call. destruct (impl_ x); [done|done]. Qed.

(** [finalize], and the end of a bridge, post the closure that disconnects and delete the
    implementation before it has run: it runs on an object that is gone, in whatever state
    the session was. *)
Theorem finalize_leaves_a_closure x s : impl_ x = Some s → ∃ x',
  handle_finalize x = Ok x' ∧ destroy_bridge x = Ok x' ∧ impl_ x' = None ∧ (0 < orphans x')%nat ∧
  handle_run None x' = Some (Throw (Undefined "a closure of a session that was deleted")).
Proof.
  intros Hx. unfold handle_finalize, destroy_bridge, handle_disconnect, handle_call. rewrite Hx. eexists. split; [done|]. split; [done|].
  assert (Hpos : (0 < orphans (delete_impl (set_impl (on_wld (post PDisconnect) s) x)))%nat).
  { cbn. unfold pending. cbn. rewrite length_app. cbn. lia. }
  split; [done|]. split; [exact Hpos|]. unfold handle_run. by rewrite (proj2 (Nat.ltb_lt _ _) Hpos).
Qed.

(** Only an implementation that nothing waits for may go. *)
Theorem idle_implementation_may_go x s : impl_ x = Some s → pending s = 0%nat → orphans x = 0%nat →
  ∀ e, handle_run e (delete_impl x) = None.
Proof.
  intros Hx Hp Ho e. unfold delete_impl. rewrite Hx, Hp, Ho. by destruct e.
Qed.
End handle.
