(* ===== verification/SessionLayer.v ===== *)
(** * base/session and sgp/session: [SessionImpl] and its extensions

    Models the part of a session above its transport:
    [src/include/sne/base/session/impl/SessionImpl.h],
    [src/src/base/session/detail/SessionImpl.cpp] (the streams a session keeps,
    [serialize], [deserialize], the extensions), [MessagingExtension] and
    [RpcingExtension] ([src/src/base/session/extension/MessagingExtension.cpp],
    [src/src/sgp/session/extension/RpcingExtension.cpp]), [Session.cpp] and the
    factory that puts them together ([SgpSessionImplFactory.cpp]).  What the
    session asks of the transport ([sendMessage], [disconnect]) is the list of
    requests that [TcpSession.v] executes; the callback of the marshaller is
    [onMessageArrived]. *)

From S2P Require Import Prelude BitList Bits Unicode StreamBuffer MemoryBlock Stream BitStream.
From S2P Require Import BitStreamSpec ByteStream ByteStreamSpec Streamable FactoryStreams RpcTypes Srpc.
From S2P Require Import Packet Marshaller MemoryPool BandwidthLimit TcpSession.

(** ** The blocks of messages ([MemoryBlockProvider]) *)

Class MemoryBlockProvider (P : Type) := {
  mp_acquireSendBlock : st P block;
  mp_release : Z → st P unit;
}.

(** A block for a packet whose header has [size] bytes: the header is reserved,
    its bytes are what was there. *)
Definition blank_block (size : nat) (b : MemoryBlock) : Prop :=
  send_block size [] b ∧ Forall is_byte (mb_contents b).

(** What a provider promises, in the states [mp_ok]. *)
Class MemoryBlockProviderSpec (P : Type) `{MemoryBlockProvider P} (size : nat) := {
  mp_ok : P → Prop;
  mp_acquire_ok p : mp_ok p → ∃ b p', mp_acquireSendBlock p = (Ok b, p') ∧ mp_ok p' ∧
    blank_block size (b_mem b);
}.

(** [SgpMarshaller::acquireSendBlock]: a block of the manager. *)
Record SendBlocks := mkSendBlocks { sb_manager : MemoryBlockManager; sb_headerSize : nat }.
Definition set_manager (m : MemoryBlockManager) (p : SendBlocks) : SendBlocks :=
  mkSendBlocks m (sb_headerSize p).

Definition SendBlocks_provider (malloc : list Z → Z) : MemoryBlockProvider SendBlocks := {|
  mp_acquireSendBlock :=
    a ← zoom sb_manager set_manager (acquireBlock malloc);
    match a with
    | None => throw (Undefined "null block")
    | Some a =>
        b ← gets (λ p, reserveHeader (sb_headerSize p) (block_at a (sb_manager p)));
        mret (mkBlock a b)
    end;
  mp_release a := zoom sb_manager set_manager (releaseBlock a);
|}.

(** ** The state *)

Inductive ExtensionId := MessagingExtension | RpcingExtension.

#[global] Instance ExtensionId_eq_dec : EqDecision ExtensionId.
Proof. solve_decision. Defined.

(** [P] is the provider of blocks, [A] the application.  [messageCallbackMap_] has
    the message object registered for each type; [extensionMap_] is in the order
    of its iteration. *)
Record SessionImpl (P A : Type) := mkImpl {
  istream_ : AnyIStream MemoryBlock;
  ostream_ : AnyOStream MemoryBlock;
  extensionMap_ : list ExtensionId;
  messageCallbackMap_ : gmap Z (list value);
  rpcNetwork_ : RpcWorld A;
  provider_ : P;
  requests_ : list request;
  recvBlockId_ : Z;                        (* the block the marshaller receives in *)
}.
Arguments mkImpl {P A} _ _ _ _ _ _ _ _.
Arguments istream_ {P A} _.
Arguments ostream_ {P A} _.
Arguments extensionMap_ {P A} _.
Arguments messageCallbackMap_ {P A} _.
Arguments rpcNetwork_ {P A} _.
Arguments provider_ {P A} _.
Arguments requests_ {P A} _.
Arguments recvBlockId_ {P A} _.

(** [streamBuffer_.reset(mblock)] *)
Definition set_obuffer (b : MemoryBlock) (s : AnyOStream MemoryBlock) : AnyOStream MemoryBlock :=
  match s with
  | OBit o => OBit (Build_OBitStream b (ob_shouldUseUtf8ForString o) (ob_holdingBitCount o)
                      (ob_totalBitCount o))
  | OByte o => OByte (Build_ByteStream b (by_shouldUseUtf8ForString o))
  end.
Definition set_ibuffer (b : MemoryBlock) (s : AnyIStream MemoryBlock) : AnyIStream MemoryBlock :=
  match s with
  | IBit i => IBit (Build_IBitStream b (ib_shouldUseUtf8ForString i) (ib_bitReadCount i))
  | IByte i => IByte (Build_ByteStream b (by_shouldUseUtf8ForString i))
  end.

(** [m] in a [try] block whose handler looks at the exception. *)
Definition try_st {S A} (m : st S A) : st S (result A) := λ s, let '(r, s') := m s in (Ok r, s').

Section layer.
Context {P A : Type} `{MemoryBlockProvider P}.
(** The application: the body of a remote method, and of a message callback. *)
Context (method : nat → Z → Z → ∀ ts, denotes ts → st A unit).
Context (on_message : Z → list value → st A unit).

#[local] Abbreviation impl := (SessionImpl P A).

(** *** Members *)

Definition set_istream (i : AnyIStream MemoryBlock) (s : impl) : impl :=
  mkImpl i (ostream_ s) (extensionMap_ s) (messageCallbackMap_ s) (rpcNetwork_ s) (provider_ s)
    (requests_ s) (recvBlockId_ s).
Definition set_ostream (o : AnyOStream MemoryBlock) (s : impl) : impl :=
  mkImpl (istream_ s) o (extensionMap_ s) (messageCallbackMap_ s) (rpcNetwork_ s) (provider_ s)
    (requests_ s) (recvBlockId_ s).
Definition set_callbacks (m : gmap Z (list value)) (s : impl) : impl :=
  mkImpl (istream_ s) (ostream_ s) (extensionMap_ s) m (rpcNetwork_ s) (provider_ s)
    (requests_ s) (recvBlockId_ s).
Definition set_rpc (w : RpcWorld A) (s : impl) : impl :=
  mkImpl (istream_ s) (ostream_ s) (extensionMap_ s) (messageCallbackMap_ s) w (provider_ s)
    (requests_ s) (recvBlockId_ s).
Definition set_provider (p : P) (s : impl) : impl :=
  mkImpl (istream_ s) (ostream_ s) (extensionMap_ s) (messageCallbackMap_ s) (rpcNetwork_ s) p
    (requests_ s) (recvBlockId_ s).
Definition request_more (q : request) (s : impl) : impl :=
  mkImpl (istream_ s) (ostream_ s) (extensionMap_ s) (messageCallbackMap_ s) (rpcNetwork_ s)
    (provider_ s) (requests_ s ++ [q]) (recvBlockId_ s).

Definition on_ostream {B} (m : st (AnyOStream MemoryBlock) B) : st impl B := zoom ostream_ set_ostream m.
Definition on_provider {B} (m : st P B) : st impl B := zoom provider_ set_provider m.
Definition on_app {B} (m : st A B) : st impl B :=
  zoom (λ s, rpc_app (rpcNetwork_ s)) (λ a s, set_rpc (set_rpc_app a (rpcNetwork_ s)) s) m.

(** What the transport is asked for. *)
Definition impl_disconnect : st impl unit := modify (request_more PDisconnect).
Definition impl_disconnectGracefully : st impl unit := modify (request_more PDisconnectGracefully).
Definition impl_sendMessage (b : block) (mt : Z) : st impl unit := modify (request_more (PSend b mt)).

(** *** [SessionImpl] *)

(** [initStream], [registerExtension] of the two extensions. *)
Definition newImpl (f : SneStreamFactory) (exts : list ExtensionId) (a : A) (p : P) (recvId : Z) : impl :=
  mkImpl (createIStream f (mb_new 0)) (createOStream f (mb_new 0)) exts ∅
    (mkRpcWorld ∅ [] [] a) p [] recvId.

Definition getExtension (e : ExtensionId) (s : impl) : option ExtensionId :=
  if decide (e ∈ extensionMap_ s) then Some e else None.

(** [serialize(buffer, bufferSize)] *)
Definition serialize_buffer (buffer : list Z) : st impl (option block) :=
  b ← on_provider mp_acquireSendBlock;
  let '(r, mem) := mb_copyFrom buffer (b_mem b) in
  match r with
  | Ok _ => mret (Some (mkBlock (b_id b) mem))
  | Throw e => throw e
  end.

(** [serialize(to)], [to] being what it writes. *)
Definition session_serialize (to : st (AnyOStream MemoryBlock) unit) : st impl (option block) :=
  b ← on_provider mp_acquireSendBlock;
  on_ostream (os_reset false) ;;
  on_ostream (modify (set_obuffer (b_mem b))) ;;
  r ← try_st (on_ostream (to ;; os_align));
  match r with
  | Ok _ => s ← get_st; mret (Some (mkBlock (b_id b) (ostream_buffer (ostream_ s))))
  | Throw e =>
      if is_core_exception e then
        on_provider (mp_release (b_id b)) ;;
        impl_disconnect ;;
        mret None
      else throw e
  end.

(** *** Receiving: the stream reads the block it is given *)

#[local] Abbreviation received := (st (MemoryBlock * impl)).

Definition on_impl {B} (m : st impl B) : received B := zoom snd (λ i s, (s.1, i)) m.
Definition on_istream_block {B} (m : st (AnyIStream MemoryBlock) B) : received B :=
  zoom (λ s, set_ibuffer s.1 (istream_ s.2)) (λ i s, (istream_buffer i, set_istream i s.2)) m.

(** [deserialize]: [istream_->reset(false)], then the block. *)
Definition deserialize : received unit := on_istream_block (is_reset false).

(** *** [MessagingExtension] *)

Definition registerMessageCallback (mt : Z) (message : list value) (s : impl) : impl :=
  match messageCallbackMap_ s !! mt with
  | Some _ => s
  | None => set_callbacks (<[mt := message]> (messageCallbackMap_ s)) s
  end.

(** A message written by [serialize] of [Streamable.v]. *)
Definition write_message (xs : list value) : st (AnyOStream MemoryBlock) unit := λ o,
  let '(r, s) := serialize (Ist := AnyIStream MemoryBlock) xs (OutStream o) in
  (match r with Ok _ => Ok tt | Throw e => Throw e end,
   match s with OutStream o' => o' | InStream _ => o end).
Definition read_message (xs : list value) : st (AnyIStream MemoryBlock) (list value) := λ i,
  let '(r, s) := serialize (Ost := AnyOStream MemoryBlock) xs (InStream i) in
  (r, match s with InStream i' => i' | OutStream _ => i end).

Definition messaging_sendMessage (mt : Z) (message : list value) : st impl unit :=
  b ← session_serialize (write_message message);
  match b with
  | Some b => impl_sendMessage b mt
  | None => mret tt
  end.

Definition messaging_handleMessage (mt : Z) : received bool :=
  s ← get_st;
  match messageCallbackMap_ s.2 !! mt with
  | None => mret false
  | Some message =>
      deserialize ;;
      r ← try_st (on_istream_block (read_message message));
      match r with
      | Ok message =>
          on_impl (modify (λ i, set_callbacks (<[mt := message]> (messageCallbackMap_ i)) i)) ;;
          on_impl (on_app (on_message mt message)) ;;
          mret true
      | Throw e =>
          if is_core_exception e then
            i ← gets (λ s, recvBlockId_ s.2);
            on_impl (on_provider (mp_release i)) ;;
            on_impl impl_disconnect ;;
            mret false
          else throw e
      end
  end.

(** *** [RpcingExtension] *)

Definition rpc_send (command : RpcCommand) : st impl unit :=
  b ← session_serialize (command_marshal command);
  match b with
  | Some b => impl_sendMessage b csmtRpc
  | None => mret tt
  end.

#[global] Instance SgpRpcNetwork : RpcSender impl := {
  net_send command _ _ := rpc_send command;
}.

(** [SgpRpcNetwork::handleMessage], with a null hint. *)
Definition network_handleMessage : received bool :=
  deserialize ;;
  zoom (λ s, (set_ibuffer s.1 (istream_ s.2), rpcNetwork_ s.2))
    (λ t s, (istream_buffer t.1, set_rpc t.2 (set_istream t.1 s.2)))
    (onReceive method 0) ;;
  mret true.

Definition rpcing_handleMessage (mt : Z) : received bool :=
  if negb (mt =? csmtRpc) then mret false else network_handleMessage.

(** *** The extensions in turn, and [Session] *)

Definition extension_handleMessage (e : ExtensionId) (mt : Z) : received bool :=
  match e with
  | MessagingExtension => messaging_handleMessage mt
  | RpcingExtension => rpcing_handleMessage mt
  end.

Fixpoint handle_extensions (l : list ExtensionId) (mt : Z) : received bool :=
  match l with
  | [] => mret false
  | e :: l =>
      ok ← extension_handleMessage e mt;
      if (ok : bool) then mret true else handle_extensions l mt
  end.

Definition impl_handleMessage (mt : Z) : received bool :=
  l ← gets (λ s, extensionMap_ s.2); handle_extensions l mt.

(** [Session::onMessageArrived] and [Session::sendMessage]. *)
Definition onMessageArrived (mt : Z) : received bool := impl_handleMessage mt.
Definition session_sendMessage (buffer : list Z) (mt : Z) : st impl unit :=
  b ← serialize_buffer buffer;
  match b with
  | Some b => impl_sendMessage b mt
  | None => mret tt
  end.
End layer.

(** ** The streams of a session are as new for every message *)

Lemma reset_obuffer f b o : ostream_ready f o → ∃ o1,
  os_reset false o = (Ok tt, o1) ∧ set_obuffer b o1 = createOStream f b.
Proof.
  destruct o as [o|o]; cbn [ostream_ready].
  - intros (Hf & Hu & Hh). eexists (OBit _). split; [reflexivity|]. cbn. unfold createOStream.
    rewrite Hf, Hu, Hh. done.
  - intros (Hf & Hu). exists (OByte o). split; [done|]. cbn. unfold createOStream. by rewrite Hf, Hu.
Qed.

Lemma reset_ibuffer f b i : istream_ready f i →
  is_reset false (set_ibuffer b i) = (Ok tt, createIStream f b).
Proof.
  destruct i as [i|i]; cbn [istream_ready].
  - intros (Hf & Hu). unfold createIStream. rewrite Hf. unfold newIBitStream. by rewrite <- Hu.
  - intros (Hf & Hu). unfold createIStream. rewrite Hf. by rewrite <- Hu.
Qed.

Lemma set_ibuffer_same f b i i' : istream_ready f i → istream_ready f i' → is_reset false (set_ibuffer b i) = (Ok tt, i') →
  set_ibuffer (istream_buffer i') i' = i'.
Proof. destruct i' as [[]|[]]; done. Qed.

Lemma createIStream_ready f b : istream_ready f (createIStream f b).
Proof. by destruct f as [u []]. Qed.

Section sending.
Context {P A : Type} {size : nat} `{HP : MemoryBlockProviderSpec P size}.
Context {f : SneStreamFactory} {E : Type} `{HT : Transport f E}.
#[local] Abbreviation impl := (SessionImpl P A).
#[local] Abbreviation Os := (AnyOStream MemoryBlock).
#[local] Abbreviation Is := (AnyIStream MemoryBlock).

(** A session that is ready to send. *)
Definition can_serialize (s : impl) : Prop := ostream_ready f (ostream_ s) ∧ mp_ok (size := size) (provider_ s).

(** What a writer makes of a block: the message, then the zeros to the byte. *)
Definition written_block (e : encoding E) (b : MemoryBlock) : Prop :=
  ∃ body, send_block size body b ∧ tr_ok (f := f) body ∧ tr_of (f := f) body = (e +++ enc_pad Os Is E) O.

Lemma session_serialize_ok (to : st Os unit) e (s : impl) :
  writes to e → local (O := Os) (I := Is) e → can_serialize s → ∃ b o' p',
  session_serialize to s = (Ok (Some b), set_ostream o' (set_provider p' s)) ∧
  can_serialize (set_ostream o' (set_provider p' s)) ∧ written_block e (b_mem b).
Proof.
  intros Hto Hloc [Ho Hp]. destruct (mp_acquire_ok _ Hp) as (b & p' & E1 & Hp' & Hblk & Hbytes).
  destruct (reset_obuffer f (b_mem b) _ Ho) as (o1 & E2 & E3).
  destruct Hblk as (Hwf & Hrd & Hwr & Hw).
  assert (Hlen : length (mb_contents (b_mem b)) = size).
  { rewrite mb_contents_length by done. unfold mb_length. rewrite Hrd.
    pose proof (f_equal length Hw) as Hl. unfold mb_written, mb_wf, mb_capacity in *.
    rewrite length_drop, length_take in Hl. cbn in Hl. lia. }
  pose proof (tr_open (f := f) _ Hwf Hrd Hbytes) as Hopen.
  assert (Hall : writes (to ;; os_align) (e +++ enc_pad Os Is E)) by (apply writes_seq; [done|apply writes_align]).
  destruct (Hall _ _ Hopen (tr_room _ _)) as (o2 & E4 & Ho2 & _).
  assert (Hl2 : local (O := Os) (I := Is) (e +++ enc_pad Os Is E))
    by (apply local_app; [done|intros p q; apply enc_pad_mod]).
  pose proof (Hl2 (length (tr_of (f := f) (mb_contents (b_mem b)))) 0%nat
    (aligned_mod _ (tr_whole (f := f) _))) as Hz.
  rewrite Hz in Ho2.
  assert (Hal : aligned (O := Os) (I := Is) (E := E) (length ((e +++ enc_pad Os Is E) 0%nat))).
  { unfold enc_app. rewrite length_app. exact (enc_pad_aligned (0 + length (e 0%nat))). }
  destruct (tr_close _ _ _ Ho2 Hbytes Hal) as (Hready & Hwf2 & Hrd2 & body & Hc & Hok & Hbody).
  exists (mkBlock (b_id b) (ostream_buffer o2)), o2, p'. split_and!.
  - unfold session_serialize, on_provider, on_ostream.
    erewrite bind_ok; [|exact (zoom_run _ _ _ _ _ _ E1)].
    erewrite bind_ok; [|refine (zoom_run _ _ _ _ _ _ _); exact E2].
    erewrite bind_ok; [|refine (zoom_run _ _ _ _ _ _ _); apply modify_run].
    erewrite bind_ok.
    2:{ unfold try_st, zoom. cbn [ostream_ set_ostream set_provider]. rewrite E3, E4. reflexivity. }
    by destruct s.
  - split; [exact Hready|exact Hp'].
  - exists body. split_and!; [|done|done]. unfold send_block. cbn [b_mem].
    assert (Hwl : mb_written (ostream_buffer o2) = mb_contents (b_mem b) ++ body)
      by (rewrite <- Hc, mb_contents_written, Hrd2 by done; done).
    split_and!; [done|done| |rewrite Hwl; by rewrite drop_app_length' by done].
    pose proof (f_equal length Hwl) as Hl. rewrite length_app in Hl. unfold mb_written in Hl.
    rewrite length_take in Hl. lia.
Qed.

(** A writer that fails by an exception of the program: the block is given back,
    and the session asks to be disconnected. *)
Lemma session_serialize_fails (to : st Os unit) (s : impl) b p' o1 e o2 :
  mp_acquireSendBlock (provider_ s) = (Ok b, p') → os_reset false (ostream_ s) = (Ok tt, o1) →
  (to ;; os_align) (set_obuffer (b_mem b) o1) = (Throw e, o2) → is_core_exception e = true →
  session_serialize to s =
    match mp_release (b_id b) p' with
    | (Ok _, p2) => (Ok None, request_more PDisconnect (set_ostream o2 (set_provider p2 s)))
    | (Throw e', p2) => (Throw e', set_ostream o2 (set_provider p2 s))
    end.
Proof.
  intros E1 E2 E3 He. unfold session_serialize, on_provider, on_ostream.
  erewrite bind_ok; [|exact (zoom_run _ _ _ _ _ _ E1)].
  erewrite bind_ok; [|refine (zoom_run _ _ _ _ _ _ _); exact E2].
  erewrite bind_ok; [|refine (zoom_run _ _ _ _ _ _ _); apply modify_run].
  erewrite bind_ok.
  2:{ unfold try_st, zoom. cbn [ostream_ set_ostream set_provider]. rewrite E3. reflexivity. }
  cbn beta iota. rewrite He. destruct (mp_release (b_id b) p') as [[[]|e'] p2] eqn:Er.
  - erewrite bind_ok; [|refine (zoom_run _ _ _ _ _ _ _); exact Er]. by destruct s.
  - erewrite bind_throw; [|refine (zoom_run _ _ _ _ _ _ _); exact Er]. by destruct s.
Qed.

(** *** Commands *)

Definition command_block (c : RpcCommand) (b : MemoryBlock) : Prop :=
  ∃ body, send_block size body b ∧ tr_ok (f := f) body ∧
    tr_of (f := f) body = enc_command c 0%nat.

Lemma rpc_send_ok c s : command_fits c → can_serialize s → ∃ b o' p',
  rpc_send c s = (Ok tt, request_more (PSend b csmtRpc) (set_ostream o' (set_provider p' s))) ∧
  can_serialize (request_more (PSend b csmtRpc) (set_ostream o' (set_provider p' s))) ∧
  command_block c (b_mem b).
Proof.
  intros Hc Hs.
  destruct (session_serialize_ok _ _ _ (command_marshal_writes c Hc) (enc_command_local c) Hs)
    as (b & o' & p' & E1 & Hs' & body & Hb & Hok & Hbody).
  exists b, o', p'. split_and!; [|exact Hs'|].
  - unfold rpc_send. by st_step E1.
  - exists body. split_and!; [done|done|]. rewrite Hbody. unfold enc_app at 1.
    by rewrite (enc_pad_nil _ (command_aligned c 0%nat)), app_nil_r.
Qed.
End sending.

(** ** The extension that answers *)

Section receiving.
Context {P A : Type} `{MemoryBlockProvider P}.
Context (act : nat → Z → Z → ∀ ts, denotes ts → A → A).
Context (hear : Z → list value → A → A).
Context {f : SneStreamFactory} {E : Type} `{HT : Transport f E}.
#[local] Abbreviation impl := (SessionImpl P A).
#[local] Abbreviation world := (RpcWorld A).
#[local] Abbreviation Os := (AnyOStream MemoryBlock).
#[local] Abbreviation Is := (AnyIStream MemoryBlock).

(** Methods that return: what they make of the application. *)
Definition returning : nat → Z → Z → ∀ ts, denotes ts → st A unit :=
  λ r id hint ts ps, modify (act r id hint ts ps).
Definition hearing : Z → list value → st A unit := λ mt xs, modify (hear mt xs).

(** A call that is made by its responder. *)
Definition dispatchable (w : world) (c : RpcCommand) : Prop :=
  ∃ r id, responder (receivers_ w) (receivers w) (cmd_rpcId c) = Some (r, mkEvent id (cmd_params c)).

Definition run_command (w : world) (c : RpcCommand) : world :=
  match responder (receivers_ w) (receivers w) (cmd_rpcId c) with
  | Some (r, ev) =>
      made r (ev_rpcId ev) 0 (cmd_params c) (cmd_marshaler c)
        (act r (ev_rpcId ev) 0 (cmd_params c) (cmd_marshaler c) (rpc_app w)) w
  | None => w
  end.
Definition run_commands (cs : list RpcCommand) (w : world) : world := fold_left run_command cs w.

Lemma run_command_frame w c :
  receivers (run_command w c) = receivers w ∧ receivers_ (run_command w c) = receivers_ w.
Proof. unfold run_command. by destruct (responder _ _ _) as [[r ev]|]. Qed.

Lemma dispatchable_run w c c' : dispatchable w c' → dispatchable (run_command w c) c'.
Proof. unfold dispatchable. by destruct (run_command_frame w c) as [-> ->]. Qed.

Lemma alive_run w c : receivers_alive w → receivers_alive (run_command w c).
Proof. unfold receivers_alive. by destruct (run_command_frame w c) as [-> ->]. Qed.

Lemma alive_equiv (w w' : world) : world_equiv w w' → receivers_alive w → receivers_alive w'.
Proof.
  intros Hw Hl. unfold receivers_alive. rewrite <- (we_list _ _ Hw). eapply Forall_impl; [exact Hl|].
  intros r [x Hx]. pose proof (we_receivers _ _ Hw r) as Hr. rewrite Hx in Hr. by destruct (receivers w' !! r).
Qed.

#[global] Instance run_command_proper : Proper (world_equiv ==> eq ==> world_equiv) run_command.
Proof.
  intros w w' Hw c _ <-. unfold run_command. rewrite <- (we_list _ _ Hw), <- (we_app _ _ Hw).
  rewrite <- (responder_equiv (receivers_ w) w w') by done. destruct (responder _ _ _) as [[r ev]|]; [|done].
  unfold made. by apply set_rpc_app_proper, log_rpc_proper, log_rpc_proper.
Qed.

(** A session that is ready to receive calls. *)
Record receives_calls (s : impl) : Prop := {
  rc_stream : istream_ready f (istream_ s);
  rc_extension : RpcingExtension ∈ extensionMap_ s;
  rc_callbacks : messageCallbackMap_ s !! csmtRpc = None;
  rc_alive : receivers_alive (rpcNetwork_ s);
}.

(** The bytes of a command, as they arrive: the encoding, and the coder's padding. *)
Definition command_bytes (c : RpcCommand) (bytes : list Z) : Prop :=
  ∃ body n, bytes = body ++ replicate n 0 ∧ tr_ok (f := f) body ∧
    tr_of (f := f) body = enc_command c 0%nat.

Lemma network_handleMessage_ok c b s : receives_calls s → command_fits c → command_at c 0%nat →
  dispatchable (rpcNetwork_ s) c → mb_wf b → command_bytes c (mb_contents b) → ∃ b' i' w',
  network_handleMessage returning (b, s) = (Ok true, (b', set_rpc w' (set_istream i' s))) ∧ mb_wf b' ∧
  istream_ready f i' ∧ world_equiv (run_command (rpcNetwork_ s) c) w'.
Proof.
  intros [Hi Hx Hcb Hl] Hc Hat (r & id & Hr) Hwf (body & n & Hb & Hok & Hbody).
  pose proof (tr_read b _ Hwf Hb (tr_pad body n Hok)) as Hrepr. rewrite tr_app, Hbody in Hrepr.
  destruct c as [id0 ts ps]. cbn [cmd_rpcId cmd_params cmd_marshaler] in *.
  destruct (onReceive_command returning r id0 id ts ps 0 _ _ _ (rpcNetwork_ s)
    (act r id 0 ts ps (rpc_app (rpcNetwork_ s))) Hl Hr Hc Hat Hrepr eq_refl) as (i' & (E1 & E2 & E3) & Hi').
  destruct (tr_ready _ _ _ Hi') as [Hready Hwf'].
  set (i0 := createIStream f b) in *.
  destruct (onReceive returning 0 (i0, rpcNetwork_ s)) as [r1 [i1 w1]] eqn:Eo. cbn in E1, E2, E3. subst r1 i1.
  exists (istream_buffer i'), i', w1. split_and!; [|done|done|].
  - unfold network_handleMessage, deserialize, on_istream_block.
    assert (Ei : is_reset false (set_ibuffer b (istream_ s)) = (Ok tt, i0)) by by apply reset_ibuffer.
    erewrite bind_ok; [|refine (zoom_run _ _ _ _ _ _ _); exact Ei]. cbn [fst snd].
    erewrite bind_ok.
    2:{ refine (zoom_run _ _ _ _ _ _ _). cbn [fst snd set_istream istream_ rpcNetwork_].
        rewrite (set_ibuffer_same f b (istream_ s) i0); [exact Eo|done| |done].
        apply createIStream_ready. }
    by destruct s.
  - unfold run_command. cbn [cmd_rpcId cmd_params cmd_marshaler]. rewrite Hr. by symmetry.
Qed.

(** The extensions in any order: only the one for calls answers. *)
Lemma handle_extensions_rpc l b s out : RpcingExtension ∈ l →
  messageCallbackMap_ s !! csmtRpc = None →
  network_handleMessage returning (b, s) = (Ok true, out) →
  handle_extensions returning hearing l csmtRpc (b, s) = (Ok true, out).
Proof.
  intros Hl Hcb E1. induction l as [|e l IH]; [by apply not_elem_of_nil in Hl|]. cbn [handle_extensions].
  destruct e; cbn [extension_handleMessage].
  - assert (Em : messaging_handleMessage hearing csmtRpc (b, s) = (Ok false, (b, s))).
    { unfold messaging_handleMessage. erewrite bind_ok; [|reflexivity]. cbn [snd]. by rewrite Hcb. }
    st_step Em. apply IH. apply elem_of_cons in Hl as [?|?]; done.
  - assert (Er : rpcing_handleMessage returning csmtRpc (b, s) = (Ok true, out)) by exact E1.
    by st_step Er.
Qed.

(** What a session sends with is as it was. *)
Record same_sender (s s' : impl) : Prop := { ss_ostream : ostream_ s' = ostream_ s; ss_provider : provider_ s' = provider_ s }.

Lemma onMessageArrived_rpc c b s : receives_calls s → command_fits c → command_at c 0%nat →
  dispatchable (rpcNetwork_ s) c → mb_wf b → command_bytes c (mb_contents b) → ∃ b' s',
  onMessageArrived returning hearing csmtRpc (b, s) = (Ok true, (b', s')) ∧ mb_wf b' ∧
  receives_calls s' ∧ world_equiv (run_command (rpcNetwork_ s) c) (rpcNetwork_ s') ∧
  extensionMap_ s' = extensionMap_ s ∧ messageCallbackMap_ s' = messageCallbackMap_ s ∧ same_sender s s'.
Proof.
  intros Hs Hc Hat Hd Hwf Hb. pose proof Hs as [_ Hx Hcb Hl].
  destruct (network_handleMessage_ok c b s Hs Hc Hat Hd Hwf Hb) as (b' & i' & w' & E1 & Hwf' & Hi' & Hw').
  exists b', (set_rpc w' (set_istream i' s)). split_and!; [|done| |exact Hw'|done|done|done].
  - unfold onMessageArrived, impl_handleMessage. rewrite (bind_ok _ _ _ _ _ (gets_run _ _)). cbn [snd].
    by apply handle_extensions_rpc.
  - split; [done|done|done|]. cbn. eapply alive_equiv; [exact Hw'|]. by apply alive_run.
Qed.

(** *** A typed message *)

(** The bytes of a message whose [serialize] passes the values [xs]. *)
Definition message_bytes (xs : list value) (bytes : list Z) : Prop :=
  ∃ body n, bytes = body ++ replicate n 0 ∧ tr_ok (f := f) body ∧
    tr_of (f := f) body = (enc_values xs +++ enc_pad Os Is E) 0%nat.

Definition registered (s : impl) (mt : Z) (xs : list value) : Prop :=
  ∃ ys, messageCallbackMap_ s !! mt = Some ys ∧ Forall2 same_type ys xs.

Lemma read_message_ok xs ys b : Forall value_fits xs → values_at 0%nat xs → Forall2 same_type ys xs →
  mb_wf b → message_bytes xs (mb_contents b) → ∃ i',
  read_message ys (createIStream f b) = (Ok xs, i') ∧ istream_ready f i' ∧ mb_wf (istream_buffer i').
Proof.
  intros Hf Hat Ht Hwf (body & n & Hb & Hok & Hbody).
  pose proof (tr_read b _ Hwf Hb (tr_pad body n Hok)) as Hrepr. rewrite tr_app, Hbody in Hrepr.
  unfold enc_app in Hrepr. rewrite <- app_assoc in Hrepr.
  destruct (serialize_in xs ys _ _ _ Hf Ht Hat Hrepr) as (i' & E1 & Hi').
  exists i'. split; [unfold read_message; by rewrite E1|]. by apply (tr_ready _ _ _ Hi').
Qed.

Lemma messaging_handleMessage_ok mt xs b s : istream_ready f (istream_ s) → registered s mt xs →
  Forall value_fits xs → values_at 0%nat xs → mb_wf b → message_bytes xs (mb_contents b) → ∃ b' i',
  messaging_handleMessage hearing mt (b, s) =
    (Ok true, (b', set_rpc (set_rpc_app (hear mt xs (rpc_app (rpcNetwork_ s))) (rpcNetwork_ s))
      (set_callbacks (<[mt := xs]> (messageCallbackMap_ s)) (set_istream i' s)))) ∧
  mb_wf b' ∧ istream_ready f i'.
Proof.
  intros Hi (ys & Hys & Ht) Hf Hat Hwf Hb.
  destruct (read_message_ok xs ys b Hf Hat Ht Hwf Hb) as (i' & E1 & Hi' & Hwf').
  exists (istream_buffer i'), i'. split_and!; [|done|done]. unfold messaging_handleMessage.
  erewrite bind_ok; [|reflexivity]. cbn [snd]. rewrite Hys.
  unfold deserialize, on_istream_block, on_impl, on_app. set (i0 := createIStream f b) in *.
  assert (Ei : is_reset false (set_ibuffer b (istream_ s)) = (Ok tt, i0)) by by apply reset_ibuffer.
  erewrite bind_ok; [|refine (zoom_run _ _ _ _ _ _ _); exact Ei]. cbn [fst snd].
  erewrite bind_ok.
  2:{ unfold try_st, zoom. cbn [fst snd set_istream istream_].
      rewrite (set_ibuffer_same f b (istream_ s) i0); [rewrite E1; reflexivity|done| |done].
      apply createIStream_ready. }
  cbn beta iota.
  erewrite bind_ok; [|refine (zoom_run _ _ _ _ _ _ _); apply modify_run]. cbn [fst snd].
  erewrite bind_ok; [|refine (zoom_run _ _ _ _ _ _ _); refine (zoom_run _ _ _ _ _ _ _); apply modify_run].
  by destruct s.
Qed.

(** The extensions in any order: only the one for messages answers. *)
Lemma handle_extensions_message mt l b s out : MessagingExtension ∈ l → mt ≠ csmtRpc →
  messaging_handleMessage hearing mt (b, s) = (Ok true, out) →
  handle_extensions returning hearing l mt (b, s) = (Ok true, out).
Proof.
  intros Hl Hmt E1. induction l as [|e l IH]; [by apply not_elem_of_nil in Hl|]. cbn [handle_extensions].
  destruct e; cbn [extension_handleMessage]; [by st_step E1|].
  assert (Er : rpcing_handleMessage returning mt (b, s) = (Ok false, (b, s)))
    by (unfold rpcing_handleMessage; rewrite (proj2 (Z.eqb_neq _ _)) by done; done).
  st_step Er. apply IH. apply elem_of_cons in Hl as [?|?]; done.
Qed.

(** *** A sequence of calls and messages, as the marshaller hands them over *)

Inductive item := Call (c : RpcCommand) | Typed (mt : Z) (xs : list value).

Definition item_type (x : item) : Z := match x with Call _ => csmtRpc | Typed mt _ => mt end.
Definition item_fits (x : item) : Prop :=
  match x with
  | Call c => command_fits c ∧ command_at c 0%nat
  | Typed mt xs => mt ≠ csmtRpc ∧ Forall value_fits xs ∧ values_at 0%nat xs
  end.
#[global] Instance item_fits_dec x : Decision (item_fits x).
Proof. destruct x; unfold item_fits; apply _. Defined.

Definition item_bytes (x : item) (bytes : list Z) : Prop :=
  match x with Call c => command_bytes c bytes | Typed _ xs => message_bytes xs bytes end.

(** What the receiver knows of it. *)
Definition item_known (s : impl) (x : item) : Prop :=
  match x with Call c => dispatchable (rpcNetwork_ s) c | Typed mt xs => registered s mt xs end.

(** What it makes of the application. *)
Definition run_item (w : world) (x : item) : world :=
  match x with
  | Call c => run_command w c
  | Typed mt xs => set_rpc_app (hear mt xs (rpc_app w)) w
  end.
Definition run_items (xs : list item) (w : world) : world := fold_left run_item xs w.

#[global] Instance run_item_proper : Proper (world_equiv ==> eq ==> world_equiv) run_item.
Proof.
  intros w w' Hw x _ <-. destruct x as [c|mt xs]; cbn; [by apply run_command_proper|].
  rewrite <- (we_app _ _ Hw). by apply set_rpc_app_proper.
Qed.

Lemma same_type_trans x y z : same_type x y → same_type x z → same_type y z.
Proof. destruct x, y, z; cbn; intros; by subst. Qed.

(** A session ready to receive both. *)
Record receives_all (s : impl) : Prop := {
  ra_calls : receives_calls s;
  ra_messages : MessagingExtension ∈ extensionMap_ s;
}.

Lemma item_arrives x b s : receives_all s → item_fits x → item_known s x → mb_wf b →
  item_bytes x (mb_contents b) → ∃ b' s',
  onMessageArrived returning hearing (item_type x) (b, s) = (Ok true, (b', s')) ∧ mb_wf b' ∧
  receives_all s' ∧ world_equiv (run_item (rpcNetwork_ s) x) (rpcNetwork_ s') ∧ same_sender s s' ∧
  ∀ y, item_known s y → item_known s' y.
Proof.
  intros [Hs Hm] Hfit Hk Hwf Hb. destruct x as [c|mt xs]; cbn [item_type item_fits item_known item_bytes] in *.
  - destruct Hfit as [Hc Hat].
    destruct (onMessageArrived_rpc c b s Hs Hc Hat Hk Hwf Hb) as (b' & s' & E1 & Hwf' & Hs' & Hw' & Hx & Hcb & Hsame).
    exists b', s'. split_and!; [done|done|split; [done|by rewrite Hx]|done|done|].
    intros [c'|mt ys]; cbn; [|unfold registered; by rewrite Hcb].
    intros Hd. destruct (dispatchable_run _ c _ Hd) as (r & id & Er). exists r, id.
    by rewrite <- (we_list _ _ Hw'), <- (responder_equiv _ _ _ _ Hw').
  - destruct Hfit as (Hmt & Hf & Hat). pose proof Hs as [Hi Hx Hcb Hl].
    destruct (messaging_handleMessage_ok mt xs b s Hi Hk Hf Hat Hwf Hb) as (b' & i' & E1 & Hwf' & Hi').
    eexists b', _. split_and!; [|done| | | |].
    + unfold onMessageArrived, impl_handleMessage. rewrite (bind_ok _ _ _ _ _ (gets_run _ _)). cbn [snd].
      by apply handle_extensions_message.
    + split; [split; cbn; [done|done|by rewrite lookup_insert_ne|done]|done].
    + done.
    + done.
    + intros [c'|mt' ys]; cbn; [done|]. intros (zs & Hz & Hzt). unfold registered. cbn.
      destruct (decide (mt = mt')) as [<-|Hne]; [|rewrite lookup_insert_ne by done; by exists zs].
      exists xs. rewrite lookup_insert_eq. split; [done|]. destruct Hk as (zs' & Hz' & Hxt).
      rewrite Hz in Hz'. injection Hz' as <-. clear -Hxt Hzt. revert ys Hzt.
      induction Hxt as [|z x zs xs Hzx _ IH]; intros ys Hzt.
      * apply Forall2_nil_inv_l in Hzt as ->. constructor.
      * apply Forall2_cons_inv_l in Hzt as (y & ys' & Hy & Hys & ->). constructor; [|by apply IH].
        by eapply same_type_trans.
Qed.

Definition items_ready (s0 : impl) (w0 : world) (items : list item) (msgs : list (Z * list Z)) (s : impl) : Prop :=
  ∃ past todo, items = past ++ todo ∧ Forall2 (λ x m, m.1 = item_type x ∧ item_bytes x m.2) todo msgs ∧
    Forall (item_known s) todo ∧ receives_all s ∧ same_sender s0 s ∧ world_equiv (run_items past w0) (rpcNetwork_ s).

Lemma items_takes s0 w0 items : Forall item_fits items →
  takes (onMessageArrived returning hearing) (items_ready s0 w0 items).
Proof.
  intros Hit mt body msgs b s (past & todo & Eit & Hf & Hk & Hs & Hsame & Hw) Hwf Hb.
  apply Forall2_cons_inv_r in Hf as (x & todo' & [Hmt Hx] & Hf & ->). cbn in Hmt, Hx. subst mt body.
  apply Forall_cons in Hk as [Hkx Hk].
  assert (Hfit : item_fits x) by (rewrite Eit in Hit; apply Forall_app in Hit as [_ Hit]; by apply Forall_cons in Hit as [? _]).
  destruct (item_arrives x b s Hs Hfit Hkx Hwf Hx) as (b' & s' & E1 & Hwf' & Hs' & Hw' & Hsame' & Hkn).
  exists b', s'. split_and!; [exact E1|done|]. exists (past ++ [x]), todo'.
  split_and!; [by rewrite <- app_assoc|done| |done| |].
  - eapply Forall_impl; [exact Hk|]. exact Hkn.
  - destruct Hsame, Hsame'. split; congruence.
  - unfold run_items. rewrite fold_left_app. cbn. by rewrite <- Hw', <- Hw.
Qed.
End receiving.

(** ** Sending calls and messages *)

Section forwarding.
Context {P A : Type} {size : nat} `{HP : MemoryBlockProviderSpec P size}.
Context {f : SneStreamFactory} {E : Type} `{HT : Transport f E}.
#[local] Abbreviation impl := (SessionImpl P A).

Lemma forward_ok c fw (s : impl) : fw_network fw = true → command_fits c →
  can_serialize (size := size) (f := f) s → ∃ b s',
  forward c ptReliable 0 (fw, s) = (Ok tt, (mkForwarder true (fw_forwarded fw ++ [cmd_rpcId c]), s')) ∧
  requests_ s' = requests_ s ++ [PSend b csmtRpc] ∧ can_serialize (size := size) (f := f) s' ∧
  command_block (size := size) (f := f) c (b_mem b).
Proof.
  intros Hn Hc Hs. destruct (rpc_send_ok c s Hc Hs) as (b & o' & p' & E1 & Hs' & Hb).
  exists b, (request_more (PSend b csmtRpc) (set_ostream o' (set_provider p' s))).
  split_and!; [|done|exact Hs'|done].
  unfold forward. rewrite (bind_ok _ _ _ _ _ (modify_run _ _)), (bind_ok _ _ _ _ _ (gets_run _ _)).
  cbn [fst snd fw_network fw_forwarded]. rewrite Hn.
  refine (zoom_run _ _ _ _ _ _ _). exact E1.
Qed.

(** Without a network the call is noted and goes nowhere. *)
Lemma forward_no_network c fw (s : impl) : fw_network fw = false →
  forward c ptReliable 0 (fw, s) = (Ok tt, (mkForwarder false (fw_forwarded fw ++ [cmd_rpcId c]), s)).
Proof.
  intros Hn. unfold forward. rewrite (bind_ok _ _ _ _ _ (modify_run _ _)), (bind_ok _ _ _ _ _ (gets_run _ _)).
  cbn [fst snd fw_network fw_forwarded]. by rewrite Hn.
Qed.

Lemma enc_values_local xs :
  local (O := AnyOStream MemoryBlock) (I := AnyIStream MemoryBlock) (enc_values (E := E) xs).
Proof.
  induction xs as [|x xs IH]; [apply local_nil|]. apply local_app; [|done].
  destruct x; [done|done|intros p q; apply enc_string_mod|intros p q; apply enc_wstring_mod].
Qed.

Lemma write_message_writes xs : Forall value_fits xs → writes (write_message xs) (enc_values xs).
Proof.
  intros Hf o es Ho Hr. destruct (serialize_out xs o es Hf Ho Hr) as (o' & E1 & Ho' & Hr').
  exists o'. split_and!; [|done|done]. unfold write_message. by rewrite E1.
Qed.

Definition send_item (x : item) : st (RpcForwarder * impl) unit :=
  match x with
  | Call c => forward c ptReliable 0
  | Typed mt xs => zoom snd (λ i s, (s.1, i)) (messaging_sendMessage mt xs)
  end.
Fixpoint send_items (xs : list item) : st (RpcForwarder * impl) unit :=
  match xs with
  | [] => mret tt
  | x :: xs => send_item x ;; send_items xs
  end.

(** A block that carries an item. *)
Definition item_block (x : item) (b : block) : Prop :=
  ∃ body, send_block size body (b_mem b) ∧ item_bytes (f := f) x body ∧
    (length body * sp_unit (AnyOStream MemoryBlock) (AnyIStream MemoryBlock) E)%nat =
      length (match x with
              | Call c => enc_command c 0%nat
              | Typed _ xs => (enc_values xs +++ enc_pad _ _ _) 0%nat
              end).

Lemma send_item_ok x fw (s : impl) : fw_network fw = true → item_fits x →
  can_serialize (size := size) (f := f) s → ∃ b fw' s',
  send_item x (fw, s) = (Ok tt, (fw', s')) ∧ fw_network fw' = true ∧
  requests_ s' = requests_ s ++ [PSend b (item_type x)] ∧
  can_serialize (size := size) (f := f) s' ∧ item_block x b.
Proof.
  intros Hn Hx Hs. destruct x as [c|mt xs]; cbn [send_item item_type item_fits] in *.
  - destruct Hx as [Hc _]. destruct (forward_ok c fw s Hn Hc Hs) as (b & s' & E1 & Hr & Hs' & body & Hb & Hok & Hbody).
    eexists b, _, s'. split_and!; [exact E1|done|done|done|]. exists body.
    split_and!; [done| |by rewrite <- tr_length, Hbody].
    exists body, 0%nat. by rewrite app_nil_r.
  - destruct Hx as (_ & Hf & _).
    destruct (session_serialize_ok _ _ s (write_message_writes xs Hf) (enc_values_local xs) Hs)
      as (b & o' & p' & E1 & Hs' & body & Hb & Hok & Hbody).
    exists b, fw, (request_more (PSend b mt) (set_ostream o' (set_provider p' s))).
    split_and!; [|done|done|exact Hs'|].
    + refine (zoom_run _ _ _ _ _ _ _). cbn [snd]. unfold messaging_sendMessage. by st_step E1.
    + exists body. split_and!; [done| |by rewrite <- tr_length, Hbody].
      exists body, 0%nat. by rewrite app_nil_r.
Qed.

Lemma send_items_ok xs fw (s : impl) : fw_network fw = true → Forall item_fits xs →
  can_serialize (size := size) (f := f) s → ∃ blocks fw' s',
  send_items xs (fw, s) = (Ok tt, (fw', s')) ∧
  requests_ s' = requests_ s ++ zip_with (λ x b, PSend b (item_type x)) xs blocks ∧
  can_serialize (size := size) (f := f) s' ∧ Forall2 item_block xs blocks.
Proof.
  intros Hn Hxs. revert fw s Hn. induction Hxs as [|x xs Hx _ IH]; intros fw s Hn Hs; cbn [send_items].
  - exists [], fw, s. rewrite app_nil_r. by split_and!.
  - destruct (send_item_ok x fw s Hn Hx Hs) as (b & fw1 & s1 & E1 & Hn1 & Hr1 & Hs1 & Hb).
    destruct (IH fw1 s1 Hn1 Hs1) as (bs & fw2 & s2 & E2 & Hr2 & Hs2 & Hbs).
    exists (b :: bs), fw2, s2. st_step E1. rewrite E2, Hr2, Hr1. cbn [zip_with].
    rewrite <- app_assoc. split_and!; try done. by constructor.
Qed.
End forwarding.

(** ** The marshaller's provider of blocks keeps its promise *)

Section provider.
Context (malloc : list Z → Z) (malloc_fresh : ∀ l, malloc l ∉ l).

(** The blocks of the manager hold bytes, and room for a header. *)
Record send_blocks_ok (size : nat) (p : SendBlocks) : Prop := {
  sbo_pool : pool_inv (memoryBlockPool_ (sb_manager p));
  sbo_growable : growable_ (memoryBlockPool_ (sb_manager p)) = true;
  sbo_size : sb_headerSize p = size ∧ (size ≤ initialBlockSize_ (sb_manager p))%nat;
  sbo_blocks a b : mbm_blocks (sb_manager p) !! a = Some b →
    Forall is_byte (mb_buffer b) ∧ (size ≤ mb_capacity b)%nat;
}.

Lemma block_at_bytes size p a : send_blocks_ok size p →
  Forall is_byte (mb_buffer (block_at a (sb_manager p))) ∧
  (size ≤ mb_capacity (block_at a (sb_manager p)))%nat.
Proof.
  intros [_ _ [_ Hs] Hb]. unfold block_at. destruct (mbm_blocks _ !! a) as [b|] eqn:Ea; [by apply (Hb a)|].
  cbn. unfold mb_new, mb_set_size, mb_capacity. cbn. split; [|by rewrite length_resize].
  apply Forall_resize; [by split|constructor].
Qed.

Lemma reserved_blank size b : Forall is_byte (mb_buffer b) → (size ≤ mb_capacity b)%nat →
  blank_block size (reserveHeader size (mb_reset b)).
Proof.
  intros Hb Hs. unfold blank_block, send_block, reserveHeader, mb_wf, mb_written, mb_contents, mb_length,
    mb_capacity in *. cbn. split_and!; try lia.
  - apply drop_ge. rewrite length_take. lia.
  - by apply Forall_take, Forall_drop.
Qed.

Definition SendBlocks_spec (size : nat) :
  MemoryBlockProviderSpec SendBlocks size (H := SendBlocks_provider malloc).
Proof.
  refine {| mp_ok := send_blocks_ok size : SendBlocks → Prop |}.
  intros p Hp. pose proof Hp as [Hpool Hg [Hhs Hsz] Hb].
  destruct (acquire_growable malloc malloc_fresh _ Hpool Hg) as (a & pool & Ea).
  destruct (acquire_some malloc malloc_fresh _ _ _ Hpool Ea) as (Hpool' & _ & _ & _ & _ & Hg').
  pose proof (block_at_bytes size p a Hp) as [Hby Hcap].
  set (m' := mkManager pool (initialBlockSize_ (sb_manager p))
    (<[a := mb_reset (block_at a (sb_manager p))]> (mbm_blocks (sb_manager p)))
    ({[a]} ∪ mbm_releaser (sb_manager p))).
  assert (E1 : acquireBlock malloc (sb_manager p) = (Ok (Some a), m')) by (unfold acquireBlock; by rewrite Ea).
  assert (Eb : block_at a m' = mb_reset (block_at a (sb_manager p)))
    by (unfold block_at at 1; cbn; by rewrite lookup_insert_eq).
  exists (mkBlock a (reserveHeader size (mb_reset (block_at a (sb_manager p))))), (set_manager m' p).
  split_and!.
  - cbn [mp_acquireSendBlock SendBlocks_provider].
    erewrite bind_ok; [|exact (zoom_run _ _ _ _ _ _ E1)]. cbn beta iota.
    rewrite (bind_ok _ _ _ _ _ (gets_run _ _)). cbn [sb_headerSize sb_manager set_manager].
    by rewrite Eb, Hhs.
  - split; cbn [sb_manager set_manager sb_headerSize].
    + exact Hpool'.
    + exact (eq_trans Hg' Hg).
    + by split.
    + intros a' b. cbn. rewrite lookup_insert_Some. intros [[<- <-]|[_ Hb']]; [by split|by apply (Hb a')].
  - cbn. by apply reserved_blank.
Defined.
End provider.

(** ** A call that nobody answers to *)

Lemma unknown_arrives {P A : Type} `{MemoryBlockProvider P} (f : SneStreamFactory) {E : Type}
  `{HT : Transport f E} method on_message b (s : SessionImpl P A) rpcId body rest :
  receives_calls (f := f) s → is_uint 32 rpcId →
  responder (receivers_ (rpcNetwork_ s)) (receivers (rpcNetwork_ s)) rpcId = None →
  mb_wf b → mb_contents b = body ++ rest → tr_ok (f := f) (body ++ rest) →
  tr_of (f := f) body = enc_rpcId (E := E) rpcId → ∃ b' s',
  onMessageArrived method on_message csmtRpc (b, s) = (Throw UnknownRpcMethodException, (b', s')) ∧
  world_equiv (rpcNetwork_ s) (rpcNetwork_ s') ∧ requests_ s' = requests_ s.
Proof.
  intros [Hi Hx Hcb Hl] Hid Hr Hwf Hb Hok Hbody.
  pose proof (tr_read b _ Hwf Hb Hok) as Hrepr. rewrite tr_app, Hbody in Hrepr.
  destruct (onReceive_unknown method rpcId 0 _ _ _ (rpcNetwork_ s) Hl Hr Hid Hrepr) as (i' & E1 & E2 & E3).
  set (i0 := createIStream f b) in *.
  destruct (onReceive method 0 (i0, rpcNetwork_ s)) as [r1 [i1 w1]] eqn:Eo. cbn in E1, E2, E3. subst r1 i1.
  exists (istream_buffer i'), (set_rpc w1 (set_istream i' s)). split_and!; [|by symmetry|done].
  unfold onMessageArrived, impl_handleMessage. rewrite (bind_ok _ _ _ _ _ (gets_run _ _)). cbn [snd].
  induction (extensionMap_ s) as [|e l IH]; [by apply not_elem_of_nil in Hx|]. cbn [handle_extensions].
  destruct e; cbn [extension_handleMessage].
  - assert (Em : messaging_handleMessage on_message csmtRpc (b, s) = (Ok false, (b, s))).
    { unfold messaging_handleMessage. erewrite bind_ok; [|reflexivity]. cbn [snd]. by rewrite Hcb. }
    st_step Em. apply IH. apply elem_of_cons in Hx as [?|?]; done.
  - erewrite bind_throw; [reflexivity|].
    change (rpcing_handleMessage method csmtRpc) with (network_handleMessage (P := P) method).
    unfold network_handleMessage, deserialize, on_istream_block.
    assert (Ei : is_reset false (set_ibuffer b (istream_ s)) = (Ok tt, i0)) by by apply reset_ibuffer.
    erewrite bind_ok; [|refine (zoom_run _ _ _ _ _ _ _); exact Ei]. cbn [fst snd].
    erewrite bind_throw.
    2:{ refine (zoom_run _ _ _ _ _ _ _). cbn [fst snd set_istream istream_ rpcNetwork_].
        rewrite (set_ibuffer_same f b (istream_ s) i0); [exact Eo|done| |done].
        apply createIStream_ready. }
    by destruct s.
Qed.

(** ** A message that cannot be read *)

Lemma messaging_handleMessage_fails {P A : Type} `{MemoryBlockProvider P} on_message f (s : SessionImpl P A)
  b mt ys e i' : istream_ready f (istream_ s) → messageCallbackMap_ s !! mt = Some ys →
  read_message ys (createIStream f b) = (Throw e, i') → is_core_exception e = true → ∃ b',
  messaging_handleMessage on_message mt (b, s) =
    match mp_release (recvBlockId_ s) (provider_ s) with
    | (Ok _, p) => (Ok false, (b', request_more PDisconnect (set_provider p (set_istream i' s))))
    | (Throw e', p) => (Throw e', (b', set_provider p (set_istream i' s)))
    end.
Proof.
  intros Hi Hys Hr He. exists (istream_buffer i'). unfold messaging_handleMessage.
  erewrite bind_ok; [|reflexivity]. cbn [snd]. rewrite Hys.
  unfold deserialize, on_istream_block, on_impl, on_provider. set (i0 := createIStream f b) in *.
  assert (Ei : is_reset false (set_ibuffer b (istream_ s)) = (Ok tt, i0)) by by apply reset_ibuffer.
  erewrite bind_ok; [|refine (zoom_run _ _ _ _ _ _ _); exact Ei]. cbn [fst snd].
  erewrite bind_ok.
  2:{ unfold try_st, zoom. cbn [fst snd set_istream istream_].
      rewrite (set_ibuffer_same f b (istream_ s) i0); [rewrite Hr; reflexivity|done| |done].
      apply createIStream_ready. }
  cbn beta iota. rewrite He, (bind_ok _ _ _ _ _ (gets_run _ _)). cbn [snd].
  change (recvBlockId_ (set_istream _ (set_istream _ s))) with (recvBlockId_ s).
  destruct (mp_release (recvBlockId_ s) (provider_ s)) as [[[]|e'] p] eqn:Er.
  - erewrite bind_ok; [|refine (zoom_run _ _ _ _ _ _ _); refine (zoom_run _ _ _ _ _ _ _); exact Er]. by destruct s.
  - erewrite bind_throw; [|refine (zoom_run _ _ _ _ _ _ _); refine (zoom_run _ _ _ _ _ _ _); exact Er]. by destruct s.
Qed.
