(* ===== verification/SessionArrival.v ===== *)
(** * What an application sends over its session, at the other end

    The layers put together: the extensions and the stream of [SessionLayer.v], the
    marshaller of [Marshaller.v] with its coder, and the bytes cut in any way. *)

From S2P Require Import Prelude BitList Bits Unicode StreamBuffer MemoryBlock Stream BitStream.
From S2P Require Import BitStreamSpec ByteStream ByteStreamSpec Streamable FactoryStreams RpcTypes Srpc.
From S2P Require Import Packet Marshaller MemoryPool TcpSession SessionLayer.

Section arrival.
Context {P Q A A' C : Type} `{HC : PacketCoderSpec C}.
Context `{HP : !MemoryBlockProvider P, HPS : !MemoryBlockProviderSpec P pc_size, HQ : !MemoryBlockProvider Q}.
Context (f : SneStreamFactory) {E : Type} `{HT : Transport f E}.
Context (act : nat → Z → Z → ∀ ts, denotes ts → A → A) (hear : Z → list value → A → A).

(** The bytes of an item in its packet, padded by the coder. *)
Definition item_size (x : item) : nat :=
  (length (match x with
           | Call c => enc_command (E := E) c 0
           | Typed _ xs => (enc_values (E := E) xs +++ enc_pad _ _ _) 0
           end) / sp_unit (AnyOStream MemoryBlock) (AnyIStream MemoryBlock) E)%nat.
Definition item_sendable (x : item) : Prop :=
  isValidMessage (item_type x) = true ∧ Z.of_nat (item_size x + pc_padding (item_size x)) < 2 ^ 16.

Lemma item_messages items blocks : Forall item_sendable items →
  Forall2 (item_block (size := pc_size) (f := f)) items blocks → ∃ msgs,
  Forall sendable msgs ∧
  Forall2 (λ msg b, msg.1 = b.1 ∧ send_block pc_size msg.2 b.2) msgs
    (zip (item_type <$> items) (b_mem <$> blocks)) ∧
  Forall2 (λ x m, m.1 = item_type x ∧ item_bytes (f := f) x m.2) items (padded <$> msgs).
Proof.
  intros Hs Hb. induction Hb as [|x b items blocks (body & Hb & Hby & Hlen) _ IH].
  { exists []. by repeat constructor. }
  apply Forall_cons in Hs as [[Hv Hsz] Hs]. destruct (IH Hs) as (msgs & H1 & H2 & H3).
  exists ((item_type x, body) :: msgs). cbn [fmap list_fmap zip_with].
  assert (Hn : item_size x = length body) by (unfold item_size; rewrite <- Hlen; by apply Nat.div_mul, tr_unit).
  split_and!; constructor; try done.
  - split; [done|]. unfold padded. cbn [fst snd]. rewrite length_app, length_replicate, <- Hn. done.
  - split; [done|]. cbn. destruct x as [c|mt xs]; destruct Hby as (body' & n & -> & Hok & Hbody);
      exists body', (n + pc_padding (length (body' ++ replicate n 0%Z)))%nat;
      (split; [by rewrite <- app_assoc, <- replicate_add|done]).
Qed.

(** Everything is put on the wire; what has been read of it has been made or heard. *)
Lemma items_arrive (sender : SessionImpl P A') (receiver : SessionImpl Q A)
  (fw : RpcForwarder) (items : list item) (ms mr : SgpMarshaller C) :
  fw_network fw = true → can_serialize (size := pc_size) (f := f) sender → receives_all (f := f) receiver →
  Forall item_fits items → Forall (item_known receiver) items → Forall item_sendable items →
  pc_sync (packetCoder_ ms) (packetCoder_ mr) → marshaller_inv mr [] → (3 ≤ mb_capacity (recvBlock_ mr))%nat →
  ∃ fw' sender' blocks wire ms',
    send_items items (fw, sender) = (Ok tt, (fw', sender')) ∧
    requests_ sender' = requests_ sender ++ zip_with (λ x b, PSend b (item_type x)) items blocks ∧
    length blocks = length items ∧ marshal_all (zip (item_type <$> items) (b_mem <$> blocks)) ms = Some (wire, ms') ∧
    ∀ ks, ∃ now later mr' receiver' wire', items = now ++ later ∧
      receive_all (onMessageArrived (returning act) (hearing hear)) ks wire (mr, receiver) =
        (Ok (true, wire'), (mr', receiver')) ∧
      world_equiv (run_items act hear now (rpcNetwork_ receiver)) (rpcNetwork_ receiver') ∧
      receives_all (f := f) receiver' ∧ same_sender receiver receiver' ∧
      (ks ≠ [] → Forall (λ k, 0 < k)%nat ks → (length wire ≤ length ks)%nat → later = [] ∧ wire' = []).
Proof.
  intros Hfw Hs Hr Hfit Hk Hsz Hsync Hmr Hcap.
  destruct (send_items_ok items fw sender Hfw Hfit Hs) as (blocks & fw' & s' & E1 & Hreq & _ & Hb).
  destruct (item_messages items blocks Hsz Hb) as (msgs & H1 & H2 & H3).
  destruct (marshal_all_ok msgs _ ms (packetCoder_ mr) Hsync H1 H2) as (wire & ms' & E2 & Hd).
  exists fw', s', blocks, wire, ms'. split_and!; [done|done|symmetry; by eapply Forall2_length|done|]. intros ks.
  destruct (receive_all_ready _ _ (items_takes act hear receiver (rpcNetwork_ receiver) items Hfit) ks wire mr
    receiver (padded <$> msgs) [] Hmr Hcap) as (now & later & mr' & r' & c' & wire' & _ &
      (past & todo & Eit & Hf & _ & Hr' & Hsame & Hw) & E3 & _ & _ & Hend).
  - by exists [], items.
  - exact Hd.
  - exists past, todo, mr', r', wire'. split_and!; [done|done|done|done|done|]. intros Hne Hpos Hlen.
    destruct (Hend Hne Hpos Hlen) as [-> ->]. by apply Forall2_nil_inv_r in Hf as ->.
Qed.

(** Enough reads to read everything, each of as many bytes as it likes. *)
Definition reads_all (wire : list Z) (ks : list nat) : Prop := ks ≠ [] ∧ Forall (λ k, 0 < k)%nat ks ∧ (length wire ≤ length ks)%nat.

(** *** What sending and receiving leave alone *)

Record same_receiver {Q' B} (s s' : SessionImpl Q' B) : Prop := {
  sr_istream : istream_ s' = istream_ s;
  sr_extensions : extensionMap_ s' = extensionMap_ s;
  sr_callbacks : messageCallbackMap_ s' = messageCallbackMap_ s;
  sr_rpc : rpcNetwork_ s' = rpcNetwork_ s;
}.

Lemma receives_all_same {Q' B} (s s' : SessionImpl Q' B) : same_receiver s s' → receives_all (f := f) s → receives_all (f := f) s'.
Proof. intros [E1 E2 E3 E4] [[H1 H2 H3 H4] H5]. split; [split|]; rewrite ?E1, ?E2, ?E3, ?E4; done. Qed.
Lemma registered_same {Q' B} (s s' : SessionImpl Q' B) mt xs : same_receiver s s' → registered s mt xs → registered s' mt xs.
Proof. intros [_ _ Hcb _]. unfold registered. by rewrite Hcb. Qed.
Lemma can_serialize_same {B} (s s' : SessionImpl P B) : same_sender s s' →
  can_serialize (size := pc_size) (f := f) s → can_serialize (size := pc_size) (f := f) s'.
Proof. intros [E1 E2] [H1 H2]. split; by rewrite ?E1, ?E2. Qed.

Lemma messaging_sendMessage_same {B} (s : SessionImpl P B) mt xs : Forall (value_fits (E := E)) xs →
  can_serialize (size := pc_size) (f := f) s → ∃ s', messaging_sendMessage mt xs s = (Ok tt, s') ∧ same_receiver s s'.
Proof.
  intros Hf Hs. destruct (session_serialize_ok _ _ s (write_message_writes xs Hf) (enc_values_local xs) Hs)
    as (b & o' & p' & E1 & _). exists (request_more (PSend b mt) (set_ostream o' (set_provider p' s))).
  split; [|done]. unfold messaging_sendMessage. by st_step E1.
Qed.

(** One message, once all of it is read. *)
Lemma message_arrives (sender : SessionImpl P A') (receiver : SessionImpl Q A) mt xs (ms mr : SgpMarshaller C) :
  can_serialize (size := pc_size) (f := f) sender → receives_all (f := f) receiver →
  item_fits (Typed mt xs) → registered receiver mt xs → item_sendable (Typed mt xs) →
  pc_sync (packetCoder_ ms) (packetCoder_ mr) → marshaller_inv mr [] → (3 ≤ mb_capacity (recvBlock_ mr))%nat →
  ∃ sender' b wire ms', messaging_sendMessage mt xs sender = (Ok tt, sender') ∧ same_receiver sender sender' ∧
    requests_ sender' = requests_ sender ++ [PSend b mt] ∧ marshal_all [(mt, b_mem b)] ms = Some (wire, ms') ∧
    ∀ ks, ks ≠ [] → Forall (λ k, 0 < k)%nat ks → (length wire ≤ length ks)%nat → ∃ mr' receiver',
      receive_all (onMessageArrived (returning act) (hearing hear)) ks wire (mr, receiver) = (Ok (true, []), (mr', receiver')) ∧
      rpc_app (rpcNetwork_ receiver') = hear mt xs (rpc_app (rpcNetwork_ receiver)) ∧
      receives_all (f := f) receiver' ∧ same_sender receiver receiver'.
Proof.
  intros Hs Hr Hfit Hk Hsz Hsync Hmr Hcap.
  destruct (items_arrive sender receiver (mkForwarder true []) [Typed mt xs] ms mr eq_refl Hs Hr) as
    (fw' & sender' & blocks & wire & ms' & E1 & Hreq & Hlen & E2 & Harr); [by constructor..|done|done|done|].
  destruct blocks as [|b [|]]; [done| |done]. exists sender', b, wire, ms'.
  assert (Es0 : messaging_sendMessage mt xs sender = (Ok tt, sender')).
  { cbn [send_items send_item] in E1. destruct (messaging_sendMessage mt xs sender) as [[[]|e] s1] eqn:Es.
    + erewrite bind_ok in E1; [|refine (zoom_run _ _ _ _ _ _ _); exact Es]. by injection E1 as _ <-.
    + erewrite bind_throw in E1; [done|refine (zoom_run _ _ _ _ _ _ _); exact Es]. }
  destruct (messaging_sendMessage_same sender mt xs (proj1 (proj2 Hfit)) Hs) as (s2 & E4 & Hsame2).
  rewrite Es0 in E4. injection E4 as <-. split_and!; [exact Es0|exact Hsame2| | |].
  - exact Hreq.
  - exact E2.
  - intros ks Hne Hpos Hks. destruct (Harr ks) as (now & later & mr' & r' & wire' & Eit & E3 & Hw & Hr' & Hsame & Hend).
    destruct (Hend Hne Hpos Hks) as [-> ->]. rewrite app_nil_r in Eit. subst now. exists mr', r'. split_and!; [done| |done|done].
    by rewrite <- (we_app _ _ Hw).
Qed.
End arrival.

(** ** A marshaller and blocks for the witnesses *)

Definition rpc_marshaller : SgpMarshaller CsPacketCoder := newMarshaller tt (mb_new 16) (mb_new 8).

Lemma rpc_marshaller_inv : marshaller_inv rpc_marshaller [].
Proof. split; cbn; try done; split; vm_compute; lia. Qed.

(** The next address above those in use. *)
Definition next_address (l : list Z) : Z := foldr Z.max 0 l + 16.
Lemma next_address_fresh l : next_address l ∉ l.
Proof.
  intros Hin. assert (next_address l ≤ foldr Z.max 0 l); [|unfold next_address in *; lia].
  revert Hin. generalize (next_address l). intros x. induction l as [|y l IH]; [by intros ?%not_elem_of_nil|].
  intros [->|Hx]%elem_of_cons; cbn; [lia|]. specialize (IH Hx). lia.
Qed.

Definition sample_send_blocks : SendBlocks := mkSendBlocks (newMemoryBlockManager next_address 2 16) 3.
Lemma sample_send_blocks_ok : send_blocks_ok 3 sample_send_blocks.
Proof.
  destruct (initialize_pool_of next_address next_address_fresh 2 true) as [Hp _ Hg _]; [done|].
  split; cbn; [done|done|split; [done|lia]|by intros a b Hb].
Qed.
