(* ===== verification/RpcInterface.v ===== *)
(** * srpc: interfaces, and the classes the macros make of them

    Models the macros that declare an interface ([src/include/sne/srpc/RpcInterface.h],
    [RpcPrototype.h]), forward its methods ([RpcForwarder.h]) and receive them
    ([RpcReceiver.h], [detail/RpcReceiverDetail.h]), for every number of parameters, over
    the forwarders, events and networks of [Srpc.v]; and how [RpcingExtension] attaches
    them to a session ([src/src/sgp/session/extension/RpcingExtension.cpp]).  The ids of
    the methods are hashes of their names: what the hash keeps apart is here too. *)

From S2P Require Import Prelude BitList Bits Unicode StreamBuffer MemoryBlock Stream Streamable FactoryStreams RpcTypes Srpc.
From S2P Require Import Packet Marshaller TcpSession SessionLayer SessionArrival.

(** ** What the hash keeps apart *)

(** The five bits shifted out on the left come back on the right. *)
Definition rotl5 (h : Z) : Z := Z.lxor (uint 32 (Z.shiftl h 5)) (Z.shiftr (Z.land h 4160749568) 27).

Lemma hash_step_rotl5 h k : hash_step h k = Z.lxor (rotl5 h) (uint 32 (sint 8 k)).
Proof. done. Qed.

Lemma rotl5_bit h i : 0 ≤ i < 32 → Z.testbit (rotl5 h) i = Z.testbit h ((i + 27) `mod` 32).
Proof.
  intros Hi. unfold rotl5, uint. rewrite Z.lxor_spec, Z.testbit_mod_pow2 by lia. rewrite (proj2 (Z.ltb_lt i 32)) by lia.
  rewrite andb_true_l, Z.shiftl_spec by lia. rewrite Z.shiftr_land, Z.land_spec, Z.shiftr_spec by lia.
  change (Z.shiftr 4160749568 27) with (Z.ones 5). destruct (decide (i < 5)).
  - rewrite (Z.testbit_neg_r h) by lia. rewrite Z.ones_spec_low by lia. rewrite andb_true_r, xorb_false_l.
    f_equal. by rewrite Z.mod_small by lia.
  - rewrite Z.ones_spec_high by lia. rewrite andb_false_r, xorb_false_r. f_equal.
    replace (i + 27) with (i - 5 + 1 * 32) by lia. rewrite Z.mod_add by lia. by rewrite Z.mod_small by lia.
Qed.

Lemma rotl5_inj h h' : is_uint 32 h → is_uint 32 h' → rotl5 h = rotl5 h' → h = h'.
Proof.
  intros Hh Hh' E. rewrite <- (uint_id 32 h Hh), <- (uint_id 32 h' Hh'). unfold uint. apply Z.bits_inj'. intros j Hj.
  rewrite !Z.testbit_mod_pow2 by lia. destruct (Z.ltb_spec j 32) as [Hlt|]; [|done]. rewrite !andb_true_l.
  pose proof (Z.mod_pos_bound (j + 5) 32 ltac:(lia)) as Hi.
  pose proof (f_equal (λ z, Z.testbit z ((j + 5) `mod` 32)) E) as Eb. cbv beta in Eb. rewrite !rotl5_bit in Eb by done.
  rewrite Zplus_mod_idemp_l in Eb. replace (j + 5 + 27) with (j + 1 * 32) in Eb by lia.
  rewrite Z.mod_add, Z.mod_small in Eb by lia. done.
Qed.

Lemma rotl5_lxor a b : rotl5 (Z.lxor a b) = Z.lxor (rotl5 a) (rotl5 b).
Proof.
  assert (Hu : ∀ x y, uint 32 (Z.lxor x y) = Z.lxor (uint 32 x) (uint 32 y)).
  { intros x y. unfold uint. apply Z.bits_inj'. intros i Hi. rewrite Z.lxor_spec, !Z.testbit_mod_pow2, Z.lxor_spec by lia.
    by destruct (i <? 32). }
  assert (Hl : ∀ x y m, Z.land (Z.lxor x y) m = Z.lxor (Z.land x m) (Z.land y m)).
  { intros x y m. apply Z.bits_inj'. intros i Hi. rewrite Z.land_spec, !Z.lxor_spec, !Z.land_spec.
    by destruct (Z.testbit x i), (Z.testbit y i), (Z.testbit m i). }
  unfold rotl5. rewrite Z.shiftl_lxor, Hu, Hl, Z.shiftr_lxor. rewrite !Z.lxor_assoc. f_equal.
  rewrite <- !Z.lxor_assoc. f_equal. apply Z.lxor_comm.
Qed.

(** The characters of identifiers. *)
Abbreviation is_ascii := (is_uint 7).
Lemma ascii_char k : is_ascii k → uint 32 (sint 8 k) = k.
Proof.
  intros Hk. unfold is_uint in Hk. change (2 ^ 7) with 128 in Hk. rewrite sint_id by (unfold is_sint; change (2 ^ (8 - 1)) with 128; lia).
  apply uint_id. unfold is_uint. lia.
Qed.
Lemma ascii_lxor a b : is_ascii a → is_ascii b → is_ascii (Z.lxor a b).
Proof.
  intros Ha Hb. replace (Z.lxor a b) with (uint 7 (Z.lxor a b)); [by apply uint_range|].
  rewrite <- (uint_id 7 a Ha), <- (uint_id 7 b Hb). unfold uint. apply Z.bits_inj'. intros i Hi.
  rewrite Z.lxor_spec, !Z.testbit_mod_pow2, Z.lxor_spec, !Z.testbit_mod_pow2 by lia. by destruct (i <? 7).
Qed.

Lemma hash_fold_range s h : is_uint 32 h → is_uint 32 (fold_left hash_step s h).
Proof. revert h. induction s as [|k s IH]; intros h Hh; [done|]. by apply IH, hash_step_range. Qed.
Lemma hash_fold_inj s h h' : is_uint 32 h → is_uint 32 h' → fold_left hash_step s h = fold_left hash_step s h' → h = h'.
Proof.
  revert h h'. induction s as [|k s IH]; intros h h' Hh Hh' E; [done|]. cbn [fold_left] in E.
  apply IH in E; [|by apply hash_step_range..]. rewrite !hash_step_rotl5 in E.
  apply (f_equal (λ z, Z.lxor z (uint 32 (sint 8 k)))) in E. rewrite !Z.lxor_assoc, Z.lxor_nilpotent, !Z.lxor_0_r in E.
  by apply rotl5_inj.
Qed.

(** Strings that differ in one character have different hashes. *)
Lemma hash_one_character pre x y post : is_ascii x → is_ascii y → x ≠ y →
  hash (pre ++ x :: post) ≠ hash (pre ++ y :: post).
Proof.
  intros Hx Hy Hne E. unfold hash in E. rewrite !fold_left_app in E. cbn [fold_left] in E.
  assert (Hp : is_uint 32 (fold_left hash_step pre 0)) by (apply hash_fold_range; done).
  apply hash_fold_inj in E; [|by apply hash_step_range..]. rewrite !hash_step_rotl5, !ascii_char in E by done.
  apply Hne. apply (f_equal (Z.lxor (rotl5 (fold_left hash_step pre 0)))) in E.
  by rewrite <- !Z.lxor_assoc, !Z.lxor_nilpotent, !Z.lxor_0_l in E.
Qed.

(** Two that follow each other can make up for each other: the last bit of one is the
    bit of upper and lower case of the next. *)
Lemma hash_two_characters pre x y post : is_ascii x → is_ascii y →
  hash (pre ++ Z.lxor x 1 :: Z.lxor y 32 :: post) = hash (pre ++ x :: y :: post).
Proof.
  intros Hx Hy. unfold hash. rewrite !fold_left_app. cbn [fold_left]. f_equal. set (h := fold_left hash_step pre 0).
  rewrite !hash_step_rotl5, !ascii_char by (try done; by apply ascii_lxor).
  rewrite <- (Z.lxor_assoc (rotl5 h) x 1), (rotl5_lxor (Z.lxor _ _) 1). change (rotl5 1) with 32.
  set (a := rotl5 (Z.lxor (rotl5 h) x)). rewrite (Z.lxor_comm y 32), Z.lxor_assoc, <- (Z.lxor_assoc 32 32 y).
  by rewrite Z.lxor_nilpotent, Z.lxor_0_l.
Qed.

(** ** Interfaces *)

(** [DECLARE_SRPC_METHOD_n(rpcInterface, method, T1, p1, ...)] *)
Record srpc_method := mkMethod { sm_interface : list Z; sm_name : list Z; sm_params : list rpc_type }.

#[global] Instance rpc_type_eq_dec : EqDecision rpc_type.
Proof. solve_decision. Defined.
#[global] Instance srpc_method_eq_dec : EqDecision srpc_method.
Proof. solve_decision. Defined.

(** The macros are there for no parameter up to eight. *)
Definition maxParamCount : nat := 8.
Definition DECLARE_SRPC_METHOD (interface name : list Z) (ts : list rpc_type) : option srpc_method :=
  if decide (length ts ≤ maxParamCount)%nat then Some (mkMethod interface name ts) else None.

(** The name of the macro has the number as a digit, which the id has too. *)
Definition paramCount (m : srpc_method) : list Z := [48 + Z.of_nat (length (sm_params m))].
Definition getRpcId (m : srpc_method) : Z := RRpcId (sm_interface m) (sm_name m) (paramCount m).

(** [VIRTUAL_SRPC_METHOD_n]: the parameters, and the hint that comes last. *)
Definition VIRTUAL_SRPC_METHOD (m : srpc_method) (S : Type) : Type := denotes (sm_params m) → Z → st S unit.

(** ** Forwarders and receivers *)

Definition FORWARD_SRPC_METHOD {N : Type} `{RpcSender N} (m : srpc_method) : VIRTUAL_SRPC_METHOD m (RpcForwarder * N) :=
  λ ps rpcHint, forward_method (getRpcId m) (sm_params m) ps ptReliable rpcHint.

(** The event [RECEIVE_SRPC_METHOD_n] defines, and its [EventRegister] for the map that
    the objects of the class have in common. *)
Definition method_event (m : srpc_method) : RpcEvent := mkEvent (getRpcId m) (sm_params m).
Definition RECEIVE_SRPC_METHOD (staticEventMap : RpcEvents) (m : srpc_method) : RpcEvents :=
  eventmap_insert (getRpcId m) (method_event m) staticEventMap.
(** [getStaticEventMap()] when the events were registered in this order. *)
Definition getStaticEventMap (ms : list srpc_method) : RpcEvents := foldl RECEIVE_SRPC_METHOD ∅ ms.
(** A receiver whose [getDefaultEventMap] is that map. *)
Definition newInterfaceReceiver (ms : list srpc_method) : RpcReceiver := newReceiver (getStaticEventMap ms).

Lemma register_lookup ms e id :
  foldl RECEIVE_SRPC_METHOD e ms !! id =
    match e !! id with Some ev => Some ev | None => method_event <$> List.find (λ m, getRpcId m =? id) ms end.
Proof.
  revert e. induction ms as [|m ms IH]; intros e; cbn [foldl List.find]; [by destruct (e !! id)|].
  rewrite IH. unfold RECEIVE_SRPC_METHOD, eventmap_insert. destruct (Z.eqb_spec (getRpcId m) id) as [<-|Hne].
  - destruct (e !! getRpcId m) as [ev|] eqn:Ee; [by rewrite Ee|by rewrite lookup_insert_eq].
  - destruct (e !! getRpcId m) as [ev|] eqn:Ee; [done|by rewrite lookup_insert_ne].
Qed.

(** The event of an id is that of the first method that has it. *)
Lemma static_event_map_lookup ms id :
  getStaticEventMap ms !! id = method_event <$> List.find (λ m, getRpcId m =? id) ms.
Proof. unfold getStaticEventMap. by rewrite register_lookup, lookup_empty. Qed.

Lemma static_event_map_own ms m : NoDup (getRpcId <$> ms) → m ∈ ms → getStaticEventMap ms !! getRpcId m = Some (method_event m).
Proof.
  intros Hnd Hm. rewrite static_event_map_lookup. destruct (List.find _ ms) as [m'|] eqn:Ef.
  - apply List.find_some in Ef as [Hm' E%Z.eqb_eq]. apply list_elem_of_In in Hm'. cbn. do 2 f_equal.
    apply list_elem_of_lookup in Hm as [i Hi]. apply list_elem_of_lookup in Hm' as [j Hj].
    assert (j = i) as ->; [|congruence]. eapply NoDup_lookup; [exact Hnd| |].
    + rewrite list_lookup_fmap, Hj. reflexivity.
    + rewrite list_lookup_fmap, Hi. cbn. by rewrite E.
  - apply list_elem_of_In in Hm. pose proof (List.find_none _ _ Ef m Hm) as Hne. cbn in Hne. by rewrite Z.eqb_refl in Hne.
Qed.

(** Receiver [r] of the world is one of the class, and no receiver registered before it has an
    event of the interface. *)
Definition serves {A} (ms : list srpc_method) (r : nat) (w : RpcWorld A) : Prop :=
  (∃ x, receivers w !! r = Some x ∧ events x = getStaticEventMap ms) ∧
  ∃ before after, receivers_ w = before ++ r :: after ∧
    Forall (λ r', Forall (λ m, receivers w !! r' ≫= (λ x, events x !! getRpcId m) = None) ms) before.

Lemma serves_responder {A} ms r (w : RpcWorld A) m : serves ms r w → NoDup (getRpcId <$> ms) → m ∈ ms →
  responder (receivers_ w) (receivers w) (getRpcId m) = Some (r, method_event m).
Proof.
  intros [(x & Hx & Hev) (before & after & Hl & Hb)] Hnd Hm. rewrite Hl, responder_app.
  assert (Hnone : responder before (receivers w) (getRpcId m) = None).
  { clear Hl. induction Hb as [|r' before Hr' _ IH]; [done|]. cbn [responder].
    rewrite Forall_forall in Hr'. rewrite (Hr' m Hm). exact IH. }
  rewrite Hnone. cbn [responder]. rewrite Hx. cbn [mbind option_bind]. rewrite Hev.
  by rewrite static_event_map_own.
Qed.

(** ** Calls over a session *)

(** A call that an application makes by a forwarder. *)
Record method_call := mkMethodCall { mc_method : srpc_method; mc_args : denotes (sm_params mc_method) }.
Definition call_command (c : method_call) : RpcCommand :=
  mkCommand (getRpcId (mc_method c)) (sm_params (mc_method c)) (mc_args c).

Fixpoint make_calls {N : Type} `{RpcSender N} (cs : list method_call) : st (RpcForwarder * N) unit :=
  match cs with
  | [] => mret tt
  | c :: cs => FORWARD_SRPC_METHOD (mc_method c) (mc_args c) 0 ;; make_calls cs
  end.

(** [RpcingExtension::registerRpcForwarder], [registerRpcReceiver] and what undoes them. *)
Definition registerRpcForwarder : RpcForwarder → RpcForwarder := setForwarderNetwork.
Definition unregisterRpcForwarder : RpcForwarder → RpcForwarder := resetForwarderNetwork.
Definition extension_registerRpcReceiver {P A} (r : nat) (s : SessionImpl P A) : SessionImpl P A :=
  set_rpc (registerRpcReceiver r (rpcNetwork_ s)) s.
Definition extension_unregisterRpcReceiver {P A} (r : nat) (s : SessionImpl P A) : SessionImpl P A :=
  set_rpc (unregisterRpcReceiver r (rpcNetwork_ s)) s.

Section calls.
Context {P Q A A' C : Type} `{HC : PacketCoderSpec C}.
Context `{HP : !MemoryBlockProvider P, HPS : !MemoryBlockProviderSpec P pc_size, HQ : !MemoryBlockProvider Q}.
Context (f : SneStreamFactory) {E : Type} `{HT : Transport f E}.
Context (act : nat → Z → Z → ∀ ts, denotes ts → A → A) (hear : Z → list value → A → A).

Lemma make_calls_items (cs : list method_call) (s : RpcForwarder * SessionImpl P A') :
  make_calls cs s = send_items ((λ c, Call (call_command c)) <$> cs) s.
Proof.
  revert s. induction cs as [|c cs IH]; intros s; [done|]. cbn [make_calls fmap list_fmap send_items].
  change (send_item (Call (call_command c))) with (FORWARD_SRPC_METHOD (N := SessionImpl P A') (mc_method c) (mc_args c) 0).
  destruct (FORWARD_SRPC_METHOD (mc_method c) (mc_args c) 0 s) as [[u|e] s'] eqn:Ef.
  - rewrite !(bind_ok _ _ _ _ _ Ef). apply IH.
  - by rewrite !(bind_throw _ _ _ _ _ Ef).
Qed.

(** What the methods of receiver [r] make of the application. *)
Definition called_by (r : nat) (c : method_call) (a : A) : A :=
  act r (getRpcId (mc_method c)) 0 (sm_params (mc_method c)) (mc_args c) a.
Definition called (r : nat) (cs : list method_call) (a : A) : A := fold_left (λ a c, called_by r c a) cs a.

Lemma serves_made ms r (w : RpcWorld A) r' id hint ts ps a : serves ms r w → serves ms r (made r' id hint ts ps a w).
Proof. done. Qed.

Lemma run_calls ms r cs (w : RpcWorld A) : NoDup (getRpcId <$> ms) → Forall (λ c, mc_method c ∈ ms) cs → serves ms r w →
  rpc_app (run_items act hear ((λ c, Call (call_command c)) <$> cs) w) = called r cs (rpc_app w).
Proof.
  intros Hnd Hcs. revert w. induction Hcs as [|c cs Hc _ IH]; intros w Hw; [done|].
  unfold run_items, called in *. cbn [fmap list_fmap fold_left run_item].
  assert (Er : run_command act w (call_command c) =
    made r (getRpcId (mc_method c)) 0 (sm_params (mc_method c)) (mc_args c) (called_by r c (rpc_app w)) w).
  { unfold run_command. cbn [call_command cmd_rpcId cmd_params cmd_marshaler].
    by rewrite (serves_responder ms r w (mc_method c) Hw Hnd Hc). }
  rewrite Er. by rewrite IH by (by apply serves_made).
Qed.

(** Every call is a message of the type of calls. *)
Lemma zip_calls (cs : list method_call) (blocks : list block) : length blocks = length cs →
  zip_with (λ x b, PSend b (item_type x)) ((λ c, Call (call_command c)) <$> cs) blocks = (λ b, PSend b csmtRpc) <$> blocks.
Proof. revert cs. induction blocks as [|b bs IH]; intros [|c cs]; try done. intros [= Hlen]. cbn. f_equal. by apply IH. Qed.
Lemma zip_call_types (cs : list method_call) (blocks : list block) : length blocks = length cs →
  zip (item_type <$> ((λ c, Call (call_command c)) <$> cs)) (b_mem <$> blocks) = (λ b, (csmtRpc, b_mem b)) <$> blocks.
Proof. revert cs. induction blocks as [|b bs IH]; intros [|c cs]; try done. intros [= Hlen]. cbn. f_equal. by apply IH. Qed.

(** Calls of the methods of an interface, over any session and any coder, are calls of the
    same methods of the receiver at the other end. *)
Lemma calls_arrive (ms : list srpc_method) (r : nat) (cs : list method_call)
  (sender : SessionImpl P A') (receiver : SessionImpl Q A) (fw : RpcForwarder) (mo mi : SgpMarshaller C) :
  NoDup (getRpcId <$> ms) → Forall (λ c, mc_method c ∈ ms) cs → serves ms r (rpcNetwork_ receiver) →
  fw_network fw = true → can_serialize (size := pc_size) (f := f) sender → receives_all (f := f) receiver →
  Forall (λ c, item_fits (E := E) (Call (call_command c)) ∧ item_sendable (C := C) (E := E) (Call (call_command c))) cs →
  pc_sync (packetCoder_ mo) (packetCoder_ mi) → marshaller_inv mi [] → (3 ≤ mb_capacity (recvBlock_ mi))%nat →
  ∃ fw' sender' blocks wire mo',
    make_calls cs (fw, sender) = (Ok tt, (fw', sender')) ∧
    requests_ sender' = requests_ sender ++ ((λ b, PSend b csmtRpc) <$> blocks) ∧
    marshal_all ((λ b, (csmtRpc, b_mem b)) <$> blocks) mo = Some (wire, mo') ∧
    ∀ ks, ∃ now later mi' receiver' wire', cs = now ++ later ∧
      receive_all (onMessageArrived (returning act) (hearing hear)) ks wire (mi, receiver) = (Ok (true, wire'), (mi', receiver')) ∧
      rpc_app (rpcNetwork_ receiver') = called r now (rpc_app (rpcNetwork_ receiver)) ∧
      (reads_all wire ks → later = []).
Proof.
  intros Hnd Hcs Hw Hfw Hs Hr Hfit Hsync Hmi Hcap. set (items := (λ c, Call (call_command c)) <$> cs).
  apply Forall_and in Hfit as [Hfit Hsz].
  destruct (items_arrive f act hear sender receiver fw items mo mi Hfw Hs Hr) as
    (fw' & sender' & blocks & wire & mo' & E1 & Hreq & Hlen & E2 & Harr); [by apply Forall_fmap| |by apply Forall_fmap|done..|].
  { apply Forall_fmap. eapply Forall_impl; [exact Hcs|]. intros c Hc. exists r, (getRpcId (mc_method c)).
    exact (serves_responder ms r _ (mc_method c) Hw Hnd Hc). }
  unfold items in *. rewrite length_fmap in Hlen. rewrite zip_calls in Hreq by done. rewrite zip_call_types in E2 by done.
  exists fw', sender', blocks, wire, mo'. rewrite make_calls_items.
  split_and!; [exact E1|exact Hreq|exact E2|]. intros ks. destruct (Harr ks) as (now & later & mi' & r' & wire' & Eit & E3 & Hw' & _ & _ & Hend).
  apply fmap_app_inv in Eit as (now' & later' & -> & -> & ->).
  apply Forall_app in Hcs as [Hnow _]. exists now', later', mi', r', wire'. split_and!; [done|done| |].
  - rewrite <- (we_app _ _ Hw'). by apply (run_calls ms).
  - intros (H1 & H2 & H3). destruct (Hend H1 H2 H3) as [Hl _]. by destruct later'.
Qed.
End calls.
