(* ===== verification/SeedExchange.v ===== *)
(** * sgp/protocol/security: the exchange of cipher seeds

    Models [PacketSeedExchangerForServer] and [PacketSeedExchangerForClient]
    ([src/src/sgp/protocol/security/PacketSeedExchangerImpl.{h,cpp}]) as a protocol
    of two ends, each with its coder, over a network that keeps the order of the
    packets.  The coder is any that implements [SeedCoder], the seeds' part of
    [PacketCoder] ([CsPacketCoder] and [SecurePacketCoder] here); RSA, a call of
    CryptoPP behind [PacketSeedExchangerCallback], is a parameter.

    A message is written as [MessagingExtension] does ([SessionLayer.v]) and
    posted; the closure that [TcpSessionImpl::sendMessage] posts marshals it.
    The parameter [at_once] says whether the marshalling is done before
    [sendMessage] returns; in [TcpSessionImpl] it is not.  Packets cross whole:
    [Marshaller.v] undoes what the network does to them. *)

From S2P Require Import Prelude BitList StreamBuffer MemoryBlock Stream Streamable FactoryStreams.
From S2P Require Import ByteStream Packet SecurePacket SecurePacketSpec SessionLayer.

(** ** The coder, as the exchanger sees it *)

Class SeedCoder (C : Type) `{PacketCoder C} := {
  sk_hasPacketCipher : C → bool;
  sk_shouldExchange : C → bool;
  sk_isExpired : C → bool;
  sk_extend : C → C;
  sk_generate : Z → C → list Z * list Z;     (* [clock()] *)
  sk_setEncryptSeed : list Z → C → C;
  sk_setDecryptSeed : list Z → C → C;
  sk_advance : Z → C → C;                    (* time passes *)
}.

(** [CsPacketCoder] has no cipher: its seeds are empty and not kept. *)
#[global] Instance CsPacketCoder_seeds : SeedCoder CsPacketCoder := {|
  sk_hasPacketCipher _ := false;
  sk_shouldExchange _ := false;
  sk_isExpired _ := false;
  sk_extend c := c;
  sk_generate _ _ := ([], []);
  sk_setEncryptSeed _ c := c;
  sk_setDecryptSeed _ c := c;
  sk_advance _ c := c;
|}.

Definition advance_clock {R} (d : Z) (c : SecurePacketCoder (R := R)) : SecurePacketCoder :=
  mkSecure (component_ c) (cipherKeyGenerator_ c) (cipher_ c) (cipherKeyPeriod_ c)
    (cipherKeyTimeLimit_ c) (sc_clock c + d).

Definition SecurePacketCoder_seeds {R} (rand48_seed : Z → R) (rand48_next : R → Z * R)
  `{PacketCoder (SecurePacketCoder (R := R))} : SeedCoder (SecurePacketCoder (R := R)) := {|
  sk_hasPacketCipher _ := true;
  sk_shouldExchange := shouldExchangeCipherSeed;
  sk_isExpired := isCipherKeyExpired;
  sk_extend := extendCipherKeyTimeLimit;
  sk_generate clock _ := generateCipherSeed rand48_seed rand48_next clock;
  sk_setEncryptSeed := setEncryptSeed rand48_seed;
  sk_setDecryptSeed := setDecryptSeed rand48_seed;
  sk_advance := advance_clock;
|}.

(** ** A packet of a message *)

(** The bytes of a message, as [session_serialize] leaves them behind the header
    of a block; and its members read from them. *)
Definition body_of (f : SneStreamFactory) (xs : list value) : option (list Z) :=
  let '(r, o) := (write_message xs ;; os_align) (createOStream f (mkMB [] 0 0)) in
  match r with Ok _ => Some (mb_contents (ostream_buffer o)) | Throw _ => None end.
Definition fields_of (f : SneStreamFactory) (xs : list value) (body : list Z) : option (list value) :=
  match (read_message xs (createIStream f (mkMB body 0 (length body)))).1 with
  | Ok ys => Some ys
  | Throw _ => None
  end.

Section packets.
Context {C : Type} `{PacketCoder C}.

(** What [SgpMarshaller::marshal] makes of a body, and [parseMessage] of a packet. *)
Definition seal (mt : Z) (body : list Z) (c : C) : option (list Z) * C :=
  let size := pc_headerSize c in
  let m := mkMB (replicate size 0 ++ body) 0 (size + length body) in
  let '(r, (c', m')) := pc_encode (mkHeader (getBodySize size m) mt) (c, m) in
  (match r with Ok (true, _) => Some (mb_contents m') | _ => None end, c').

Definition open_packet (p : list Z) (c : C) : option (Z * list Z) * C :=
  let '(r, (c', m')) := pc_decode (c, mkMB p 0 (length p)) in
  (match r with
   | Ok true => Some (messageType_ (header_read false p), drop (pc_headerSize c') (mb_written m'))
   | _ => None
   end, c').
End packets.

(** ** An end of the connection *)

Record SeedExchanger := mkExchanger {
  privateKey_ : list Z;
  otherSidePublicKey_ : list Z;
  exchangingDecryptSeed_ : list Z;
}.
Definition newExchanger : SeedExchanger := mkExchanger [] [] [].

Record Peer (C : Type) := mkPeer {
  exchanger_ : SeedExchanger;
  peer_coder : C;
  rsaKeys_ : option (list Z * list Z);       (* of [rsaCipher_]: public and private *)
  posted : list (Z * list Z);                (* messages whose closures have not run *)
  sent : list (list Z);                      (* packets in the network *)
  peer_connected : bool;
  exchanged : nat;                           (* the calls of [seedExchanged] *)
  heard : list (Z * list Z);                 (* messages for the application *)
}.
Arguments mkPeer {C} _ _ _ _ _ _ _ _.
Arguments exchanger_ {C} _.
Arguments peer_coder {C} _.
Arguments rsaKeys_ {C} _.
Arguments posted {C} _.
Arguments sent {C} _.
Arguments peer_connected {C} _.
Arguments exchanged {C} _.
Arguments heard {C} _.

Section exchange.
Context {C : Type} `{SeedCoder C}.
Context (f : SneStreamFactory).
(** [RsaCipher::encrypt(seed, otherPublicKey)] and [decrypt(seed)], with the
    public key of the other side and the private key of this one. *)
Context (rsa_encrypt rsa_decrypt : list Z → list Z → option (list Z)).
Context (at_once : bool).

#[local] Abbreviation peer := (Peer C).

Definition set_exchanger (g : SeedExchanger → SeedExchanger) (p : peer) : peer :=
  mkPeer (g (exchanger_ p)) (peer_coder p) (rsaKeys_ p) (posted p) (sent p) (peer_connected p)
    (exchanged p) (heard p).
Definition on_coder (g : C → C) (p : peer) : peer :=
  mkPeer (exchanger_ p) (g (peer_coder p)) (rsaKeys_ p) (posted p) (sent p) (peer_connected p)
    (exchanged p) (heard p).
Definition set_posted (l : list (Z * list Z)) (p : peer) : peer :=
  mkPeer (exchanger_ p) (peer_coder p) (rsaKeys_ p) l (sent p) (peer_connected p)
    (exchanged p) (heard p).
Definition set_sent (l : list (list Z)) (p : peer) : peer :=
  mkPeer (exchanger_ p) (peer_coder p) (rsaKeys_ p) (posted p) l (peer_connected p)
    (exchanged p) (heard p).
Definition hang_up (p : peer) : peer :=
  mkPeer (exchanger_ p) (peer_coder p) (rsaKeys_ p) (posted p) (sent p) false
    (exchanged p) (heard p).
Definition hear_body (mt : Z) (body : list Z) (p : peer) : peer :=
  mkPeer (exchanger_ p) (peer_coder p) (rsaKeys_ p) (posted p) (sent p) (peer_connected p)
    (exchanged p) (heard p ++ [(mt, body)]).

Definition set_private (k : list Z) : peer → peer :=
  set_exchanger (λ x, mkExchanger k (otherSidePublicKey_ x) (exchangingDecryptSeed_ x)).
Definition set_otherSide (k : list Z) : peer → peer :=
  set_exchanger (λ x, mkExchanger (privateKey_ x) k (exchangingDecryptSeed_ x)).
Definition set_exchanging (s : list Z) : peer → peer :=
  set_exchanger (λ x, mkExchanger (privateKey_ x) (otherSidePublicKey_ x) s).

(** *** Sending *)

(** The closure of the first message posted. *)
Definition run_posted (p : peer) : peer :=
  match posted p with
  | [] => p
  | (mt, body) :: rest =>
      let p := set_posted rest p in
      if negb (peer_connected p) then p
      else
        let '(packet, c) := seal mt body (peer_coder p) in
        let p := on_coder (λ _, c) p in
        match packet with
        | Some packet => set_sent (sent p ++ [packet]) p
        | None => hang_up p
        end
  end.

Definition send_body (mt : Z) (body : list Z) (p : peer) : peer :=
  let p := set_posted (posted p ++ [(mt, body)]) p in
  if at_once then run_posted p else p.

Definition system_type (m : CsSystemMessage) : Z :=
  match m with
  | HeartbeatMessage => csmtSystem_heartbeat
  | ExchangeSeedMessage _ _ _ => csmtSystem_exchangeSeed
  | ExchangePublicKeyMessage _ => csmtSystem_exchangePublicKey
  | ConfirmSeedMessage => csmtSystem_confirmSeed
  end.

(** [getExtension<MessagingExtension>()->sendMessage(message)] *)
Definition send_message (m : CsSystemMessage) (p : peer) : peer :=
  match body_of f (message_fields m) with
  | Some body => send_body (system_type m) body p
  | None => hang_up p
  end.

(** *** [PacketSeedExchangerCallback], as the sessions implement it *)

Definition generatePublicAndPrivateKey (p : peer) : option (list Z * list Z) := rsaKeys_ p.
(** [ServerSideSession::encryptSeed]: a failure is logged, the seed is kept. *)
Definition encryptSeed (seed otherSidePublicKey : list Z) : list Z :=
  default seed (rsa_encrypt otherSidePublicKey seed).
(** [ClientSession::decryptSeed] *)
Definition decryptSeed (p : peer) (seed : list Z) : option (list Z) :=
  k ← rsaKeys_ p; rsa_decrypt k.2 seed.
Definition seedExchanged (p : peer) : peer :=
  mkPeer (exchanger_ p) (peer_coder p) (rsaKeys_ p) (posted p) (sent p) (peer_connected p)
    (S (exchanged p)) (heard p).

(** *** [PacketSeedExchangerForServer] *)

Definition server_exchangePublicKey (p : peer) : peer :=
  if negb (sk_hasPacketCipher (peer_coder p)) then seedExchanged p else p.

Definition exchangeSeed (publicKey : list Z) (clock : Z) (p : peer) : peer :=
  if negb (bool_decide (exchangingDecryptSeed_ (exchanger_ p) = [])) then p
  else
    let '(seedForEncrypt, seedForDecrypt) := sk_generate clock (peer_coder p) in
    let p := set_exchanging seedForDecrypt p in
    let otherSide := otherSidePublicKey_ (exchanger_ p) in
    let p := send_message (ExchangeSeedMessage publicKey (encryptSeed seedForEncrypt otherSide)
      (encryptSeed seedForDecrypt otherSide)) p in
    on_coder (sk_setEncryptSeed seedForEncrypt) p.

Definition exchangeNextSeed (clock : Z) (p : peer) : peer :=
  if negb (sk_shouldExchange (peer_coder p)) || negb (sk_isExpired (peer_coder p)) then p
  else on_coder sk_extend (exchangeSeed [] clock p).

Definition exchangeFirstSeed (publicKey : list Z) (clock : Z) (p : peer) : peer :=
  if negb (sk_shouldExchange (peer_coder p)) then p
  else exchangeSeed publicKey clock (set_exchanging [] p).

Definition onExchangePublicKey (publicKey : list Z) (clock : Z) (p : peer) : peer :=
  if negb (sk_shouldExchange (peer_coder p)) then
    seedExchanged (send_message (ExchangeSeedMessage [] [] []) p)
  else
    let p := set_otherSide publicKey p in
    match generatePublicAndPrivateKey p with
    | None => p
    | Some (myPublicKey, myPrivateKey) =>
        exchangeFirstSeed myPublicKey clock (set_private myPrivateKey p)
    end.

Definition onConfirmSeed (p : peer) : peer :=
  let p := on_coder (sk_setDecryptSeed (exchangingDecryptSeed_ (exchanger_ p))) p in
  seedExchanged (set_exchanging [] p).

(** *** [PacketSeedExchangerForClient] *)

Definition client_exchangePublicKey (p : peer) : peer :=
  if negb (sk_hasPacketCipher (peer_coder p)) then seedExchanged p
  else
    match generatePublicAndPrivateKey p with
    | None => seedExchanged p
    | Some (publicKey, privateKey) =>
        send_message (ExchangePublicKeyMessage publicKey) (set_private privateKey p)
    end.

Definition onExchangeSeed (publicKey seedForEncrypt seedForDecrypt : list Z) (p : peer) : peer :=
  if isEmpty (ExchangeSeedMessage publicKey seedForEncrypt seedForDecrypt) then seedExchanged p
  else
    let p := set_otherSide publicKey p in
    match decryptSeed p seedForEncrypt, decryptSeed p seedForDecrypt with
    | Some decryptedSeedForEncrypt, Some decryptedSeedForDecrypt =>
        let p := on_coder (sk_setDecryptSeed decryptedSeedForEncrypt) p in
        let p := send_message ConfirmSeedMessage p in
        seedExchanged (on_coder (sk_setEncryptSeed decryptedSeedForDecrypt) p)
    | _, _ => p
    end.

(** *** Receiving: the callbacks [registerMessageCallbacks] registers; any other
    message is for the application *)

Definition server_handle (clock : Z) (mt : Z) (body : list Z) (p : peer) : peer :=
  if mt =? csmtSystem_exchangePublicKey then
    match fields_of f [VString []] body with
    | Some [VString publicKey] => onExchangePublicKey publicKey clock p
    | _ => hang_up p
    end
  else if mt =? csmtSystem_confirmSeed then
    match fields_of f [] body with
    | Some _ => onConfirmSeed p
    | None => hang_up p
    end
  else hear_body mt body p.

Definition client_handle (mt : Z) (body : list Z) (p : peer) : peer :=
  if mt =? csmtSystem_exchangeSeed then
    match fields_of f [VString []; VString []; VString []] body with
    | Some [VString publicKey; VString e; VString d] => onExchangeSeed publicKey e d p
    | _ => hang_up p
    end
  else hear_body mt body p.

(** A packet arrives: one that is refused ends the connection. *)
Definition receive_packet (handle : Z → list Z → peer → peer) (packet : list Z) (p : peer) : peer :=
  if negb (peer_connected p) then p
  else
    let '(r, c) := open_packet packet (peer_coder p) in
    let p := on_coder (λ _, c) p in
    match r with
    | Some (mt, body) => if isValidMessage mt then handle mt body p else hang_up p
    | None => hang_up p
    end.

(** ** The two ends and the network *)

Record Exchange := mkExchange {
  server : peer;
  client : peer;
  server_told : list (Z * list Z);     (* what the applications sent *)
  client_told : list (Z * list Z);
}.

Inductive exchange_event :=
| ServerReads (clock : Z)
| ClientReads
| ServerRuns
| ClientRuns
| ServerSends (mt : Z) (body : list Z)
| ClientSends (mt : Z) (body : list Z)
| NextSeed (clock : Z)                 (* the session calls [exchangeNextSeed] *)
| TimePasses (d : Z).

Definition set_server (p : peer) (s : Exchange) : Exchange :=
  mkExchange p (client s) (server_told s) (client_told s).
Definition set_client (p : peer) (s : Exchange) : Exchange :=
  mkExchange (server s) p (server_told s) (client_told s).

Definition exchange_exec (e : exchange_event) (s : Exchange) : option Exchange :=
  match e with
  | ServerReads clock =>
      match sent (client s) with
      | [] => None
      | packet :: rest =>
          Some (set_server (receive_packet (server_handle clock) packet (server s))
            (set_client (set_sent rest (client s)) s))
      end
  | ClientReads =>
      match sent (server s) with
      | [] => None
      | packet :: rest =>
          Some (set_client (receive_packet client_handle packet (client s))
            (set_server (set_sent rest (server s)) s))
      end
  | ServerRuns =>
      match posted (server s) with
      | [] => None
      | _ :: _ => Some (set_server (run_posted (server s)) s)
      end
  | ClientRuns =>
      match posted (client s) with
      | [] => None
      | _ :: _ => Some (set_client (run_posted (client s)) s)
      end
  | ServerSends mt body =>
      Some (mkExchange (send_body mt body (server s)) (client s)
        (server_told s ++ [(mt, body)]) (client_told s))
  | ClientSends mt body =>
      Some (mkExchange (server s) (send_body mt body (client s))
        (server_told s) (client_told s ++ [(mt, body)]))
  | NextSeed clock =>
      if bool_decide (exchanged (server s) = O) then None
      else Some (set_server (exchangeNextSeed clock (server s)) s)
  | TimePasses d =>
      Some (set_client (on_coder (sk_advance d) (client s))
        (set_server (on_coder (sk_advance d) (server s)) s))
  end.

Fixpoint exchange_run (es : list exchange_event) (s : Exchange) : option Exchange :=
  match es with
  | [] => Some s
  | e :: es => s ← exchange_exec e s; exchange_run es s
  end.

(** Both ends have just connected, and their sessions call [exchangePublicKey]. *)
Definition newPeer (keys : option (list Z * list Z)) (c : C) : peer :=
  mkPeer newExchanger c keys [] [] true 0 [].
Definition connect_ends (serverKeys clientKeys : option (list Z * list Z)) (cs cc : C) : Exchange :=
  mkExchange (server_exchangePublicKey (newPeer serverKeys cs))
    (client_exchangePublicKey (newPeer clientKeys cc)) [] [].
End exchange.
Arguments mkExchange {C} _ _ _ _.
Arguments server {C} _.
Arguments client {C} _.
Arguments server_told {C} _.
Arguments client_told {C} _.
