(* ===== verification/SeedExchangeSpec.v ===== *)
(** * sgp/protocol/security: the keys stay in step

    The contract [SeedCoderSpec] of a coder whose seeds are exchanged, proved for
    [CsPacketCoder] and [SecurePacketCoder], and the invariant of every state that
    the two ends of [SeedExchange.v] reach: the packets in the network are sealed
    with the keys the other end will open them with. *)

From S2P Require Import Prelude BitList StreamBuffer MemoryBlock Stream Streamable FactoryStreams.
From S2P Require Import ByteStream Packet SecurePacket SecurePacketSpec MarshallerSafety SessionLayer SeedExchange.

(** ** The contract *)

(** What a seed must be for RSA and for a message. *)
Definition seed_ok (s : list Z) : Prop := s ≠ [] ∧ (length s ≤ 16)%nat ∧ Forall is_byte s.

(** [sk_enc] and [sk_dec] are where the two key generators stand; [sk_sealed k mt
    body p]: the packet [p] carries [body] under the key at [k]. *)
Class SeedCoderSpec (C : Type) `{SeedCoder C} := {
  sk_key : Type;
  sk_ok : C → Prop;
  sk_enc : C → sk_key;
  sk_dec : C → sk_key;
  sk_next : sk_key → sk_key;
  sk_seed : list Z → sk_key → sk_key;
  sk_print : sk_key → Z;
  sk_pad : nat → nat;
  sk_sealed : sk_key → Z → list Z → list Z → Prop;
  sk_moved (c c' : C) (enc dec : sk_key) : Prop :=
    sk_ok c' ∧ sk_enc c' = enc ∧ sk_dec c' = dec ∧
    sk_hasPacketCipher c' = sk_hasPacketCipher c ∧ sk_shouldExchange c' = sk_shouldExchange c;
  sk_seal_ok c mt body : sk_ok c → isValidMessage mt = true →
    Z.of_nat (length body + sk_pad (length body)) < 2 ^ 16 → ∃ p c',
    seal mt body c = (Some p, c') ∧ sk_moved c c' (sk_next (sk_enc c)) (sk_dec c) ∧
    sk_sealed (sk_enc c) mt body p;
  sk_open_ok c mt body p : sk_ok c → sk_sealed (sk_dec c) mt body p → ∃ c',
    open_packet p c = (Some (mt, body ++ replicate (sk_pad (length body)) 0), c') ∧
    sk_moved c c' (sk_enc c) (sk_next (sk_dec c));
  sk_open_refused c k mt body p : sk_ok c → sk_sealed k mt body p → sk_print k ≠ sk_print (sk_dec c) →
    (open_packet p c).1 = None;
  sk_setEncrypt_ok s c : sk_ok c →
    sk_moved c (sk_setEncryptSeed s c) (sk_seed s (sk_enc c)) (sk_dec c);
  sk_setDecrypt_ok s c : sk_ok c →
    sk_moved c (sk_setDecryptSeed s c) (sk_enc c) (sk_seed s (sk_dec c));
  sk_extend_ok c : sk_ok c → sk_moved c (sk_extend c) (sk_enc c) (sk_dec c);
  sk_advance_ok d c : sk_ok c → sk_moved c (sk_advance d c) (sk_enc c) (sk_dec c);
  sk_generate_ok clock c : sk_shouldExchange c = true →
    seed_ok (sk_generate clock c).1 ∧ seed_ok (sk_generate clock c).2;
  sk_cipher_ok c : sk_shouldExchange c = true → sk_hasPacketCipher c = true;
  sk_pad_fits n : (n ≤ 2 ^ 14)%nat → Z.of_nat (n + sk_pad n) < 2 ^ 16;
}.

(** The block [seal] encodes, and the one [open_packet] decodes. *)
Lemma seal_block size body :
  send_block size body (mkMB (replicate size 0 ++ body) 0 (size + length body)).
Proof.
  unfold send_block, mb_wf, mb_capacity, mb_written; cbn. rewrite length_app, length_replicate.
  split_and!; try lia. rewrite take_ge by (rewrite length_app, length_replicate; lia).
  by rewrite drop_app_length' by (by rewrite length_replicate).
Qed.

Lemma packet_mb p : let b := mkMB p 0 (length p) in mb_wf b ∧ mb_rd b = O ∧ mb_written b = p.
Proof. cbn. split_and!; [split; cbn; unfold mb_capacity; cbn; lia|done|]. by unfold mb_written; cbn; rewrite take_ge. Qed.

Lemma written_contents b : mb_wf b → mb_rd b = O → mb_contents b = mb_written b.
Proof. intros Hwf Hrd. by rewrite mb_contents_written, Hrd by done. Qed.

(** ** [CsPacketCoder] *)

#[global, program] Instance CsPacketCoder_seedspec : SeedCoderSpec CsPacketCoder := {|
  sk_key := unit;
  sk_ok _ := True;
  sk_enc _ := tt;
  sk_dec _ := tt;
  sk_next k := k;
  sk_seed _ k := k;
  sk_print _ := 0;
  sk_pad _ := O;
  sk_sealed _ mt body p := isValidMessage mt = true ∧ Z.of_nat (length body) < 2 ^ 16 ∧
    p = header_write false (mkHeader (Z.of_nat (length body)) mt) ++ body;
|}.
Next Obligation.
  intros [] mt body _ Hmt Hl. rewrite Nat.add_0_r in Hl. unfold seal. cbn [pc_headerSize CsPacketCoder_coder pc_encode].
  set (m := mkMB _ _ _). pose proof (seal_block CsPacketHeader_size body) as Hm. fold m in Hm.
  rewrite (getBodySize_ok _ body) by done.
  destruct (base_encode_ok false CsPacketHeader_size (Z.of_nat (length body)) mt body m)
    as (m' & E & (Hwf' & Hrd' & _) & Hw'); [done|done|unfold is_uint; lia|done|].
  cbn [pc_encode CsPacketCoder_coder].
  rewrite (on_block_run (C := CsPacketCoder) _ tt _ _ _ E). exists (mb_contents m'), tt. split_and!; try done.
  rewrite written_contents, Hw' by done. f_equal. apply Hm.
Qed.
Next Obligation.
  intros [] mt body p _ (Hmt & Hl & ->). exists tt. split; [|done].
  unfold open_packet. cbn -[header_read header_write drop mb_written]. rewrite app_nil_r. rewrite header_write_read by
    (by apply isValidMessage_uint || (unfold is_uint; lia)). cbn [messageType_].
  rewrite (proj2 (proj2 (packet_mb _))). do 3 f_equal.
Qed.
Next Obligation. done. Qed.
Next Obligation. done. Qed.
Next Obligation. done. Qed.
Next Obligation. done. Qed.
Next Obligation. done. Qed.
Next Obligation. done. Qed.
Next Obligation. done. Qed.
Next Obligation. intros n Hn. rewrite Nat.add_0_r. apply Nat2Z.inj_le in Hn. change (2 ^ 16) with 65536. lia. Qed.

(** ** [SecurePacketCoder] *)

(** Seeds are short. *)
Lemma decimal_loop_length fuel n acc k : 0 ≤ n < 10 ^ Z.of_nat (S k) →
  (length (decimal_loop fuel n acc) ≤ S k + length acc)%nat.
Proof.
  revert n acc k. induction fuel as [|fuel IH]; intros n acc k Hn; cbn [decimal_loop]; [lia|].
  destruct (Z.ltb_spec n 10); [cbn; lia|]. destruct k as [|k]; [change (10 ^ Z.of_nat 1) with 10 in Hn; lia|].
  etrans; [apply (IH _ _ k)|cbn; lia]. split; [apply Z.div_pos; lia|]. apply Z.div_lt_upper_bound; [lia|].
  rewrite Nat2Z.inj_succ, Z.pow_succ_r in Hn by lia. lia.
Qed.

Lemma digits_bytes ds : Forall is_digit ds → Forall is_byte ds.
Proof.
  intros Hd. eapply Forall_impl; [exact Hd|]. unfold is_digit, is_uint. intros x Hx. change (2 ^ 8) with 256. lia.
Qed.

Lemma format_d_seed n : - 2 ^ 31 ≤ n < 2 ^ 31 → seed_ok (format_d n).
Proof.
  intros Hn. unfold format_d, seed_ok. destruct (Z.ltb_spec n 0).
  - destruct (decimal_loop_ok (Z.to_nat (- n + 1)) (- n) []) as (ds & E & Hd & Hne & _); [lia|].
    pose proof (decimal_loop_length (Z.to_nat (- n + 1)) (- n) [] 9) as Hl.
    rewrite E, app_nil_r in *. split_and!; [done|cbn in *; change (10 ^ 10) with 10000000000 in Hl; lia|].
    constructor; [done|by apply digits_bytes].
  - destruct (decimal_loop_ok (Z.to_nat (n + 1)) n []) as (ds & E & Hd & Hne & _); [lia|].
    pose proof (decimal_loop_length (Z.to_nat (n + 1)) n [] 9) as Hl.
    rewrite E, app_nil_r in *. split_and!; [done|cbn in *; change (10 ^ 10) with 10000000000 in Hl; lia|].
    by apply digits_bytes.
Qed.

Section secure.
Context (BLOCKSIZE DEFAULT_KEYLENGTH : nat).
Context (encryptBlock decryptBlock : list Z → list Z → list Z).
Context (crc_32 : list Z → Z).
Context {R : Type} (rand48_seed : Z → R) (rand48_next : R → Z * R).
(** What is assumed of the engine, and of the random numbers. *)
Hypothesis BLOCKSIZE_pos : (0 < BLOCKSIZE)%nat.
Hypothesis BLOCKSIZE_small : (BLOCKSIZE ≤ 2 ^ 14)%nat.
Hypothesis encryptBlock_length : ∀ k b, length b = BLOCKSIZE → length (encryptBlock k b) = BLOCKSIZE.
Hypothesis decryptBlock_length : ∀ k b, length b = BLOCKSIZE → length (decryptBlock k b) = BLOCKSIZE.
Hypothesis decryptBlock_encryptBlock : ∀ k b, length b = BLOCKSIZE → decryptBlock k (encryptBlock k b) = b.
Hypothesis rand48_range : ∀ g, - 2 ^ 31 ≤ (rand48_next g).1 < 2 ^ 31.

#[local] Abbreviation coder := (SecurePacketCoder (R := R)).
#[local] Instance secure_coder : PacketCoder coder := SecurePacketCoder_coder BLOCKSIZE DEFAULT_KEYLENGTH
  encryptBlock decryptBlock crc_32 rand48_seed rand48_next.
#[local] Instance secure_seeds : SeedCoder coder := SecurePacketCoder_seeds rand48_seed rand48_next.
#[local] Abbreviation encrypt := (encrypt BLOCKSIZE DEFAULT_KEYLENGTH encryptBlock).
#[local] Abbreviation decrypt := (decrypt BLOCKSIZE DEFAULT_KEYLENGTH decryptBlock).

(** Where a generator stands in one direction. *)
Definition key_state : Type := Z + R.
Definition enc_state (g : CipherKeyGenerator (R := R)) : key_state :=
  match g with StaticCipherKeyGenerator e _ => inl e | DynamicCipherKeyGenerator e _ => inr e end.
Definition dec_state (g : CipherKeyGenerator (R := R)) : key_state :=
  match g with StaticCipherKeyGenerator _ d => inl d | DynamicCipherKeyGenerator _ d => inr d end.
Definition key_next (k : key_state) : key_state :=
  match k with inl e => inl e | inr g => inr (rand48_next g).2 end.
Definition key_of (k : key_state) : Z :=
  match k with inl e => e | inr g => uint 32 (rand48_next g).1 end.
Definition key_seed (s : list Z) (k : key_state) : key_state :=
  match k with
  | inl _ => inl (toCipherKey s)
  | inr _ => inr (rand48_seed (sint 32 (toCipherKey s)))
  end.

Lemma getEncrypt_state g : ∃ g', getEncryptCipherKey rand48_next g = (key_of (enc_state g), g') ∧
  enc_state g' = key_next (enc_state g) ∧ dec_state g' = dec_state g.
Proof. destruct g as [e d|e d]; cbn; [by eexists|]. destruct (rand48_next e). by eexists. Qed.
Lemma getDecrypt_state g : ∃ g', getDecryptCipherKey rand48_next g = (key_of (dec_state g), g') ∧
  enc_state g' = enc_state g ∧ dec_state g' = key_next (dec_state g).
Proof. destruct g as [e d|e d]; cbn; [by eexists|]. destruct (rand48_next d). by eexists. Qed.

Definition cipher_ok (x : BlockCipherImpl) : Prop :=
  algorithm_ok DEFAULT_KEYLENGTH (encryptor_ x) ∧ algorithm_ok DEFAULT_KEYLENGTH (decryptor_ x).

(** Whatever its cipher was used for before, a receiver decrypts [out] to [body]
    with the key. *)
Definition decrypts (key : Z) (out body : list Z) : Prop :=
  length out = length body ∧ ∀ d, cipher_ok d → ∃ d', cipher_ok d' ∧
  ((0 < length out)%nat → decrypt out key d = (Some body, d')) ∧ (length out = O → body = [] ∧ d' = d).

Definition secure_sealed (k : key_state) (mt : Z) (body p : list Z) : Prop :=
  let pb := body ++ replicate (align_delta BLOCKSIZE (length body)) 0 in
  isValidMessage mt = true ∧ Z.of_nat (length pb) < 2 ^ 16 ∧ ∃ out, decrypts (key_of k) out pb ∧
  p = secure_packet mt out (key_of k) (getCheckSum crc_32 pb (getFingerPrint (key_of k))).

Lemma encrypt_keeps_decryptor b key c out c' : encrypt b key c = (out, c') → decryptor_ c' = decryptor_ c.
Proof. unfold SecurePacket.encrypt. case_match; by intros [= <- <-]. Qed.
Lemma decrypt_keeps_encryptor b key c out c' : decrypt b key c = (out, c') → encryptor_ c' = encryptor_ c.
Proof. unfold SecurePacket.decrypt. case_match; by intros [= <- <-]. Qed.

Lemma encrypt_decrypts body key c : cipher_ok c → (length body mod BLOCKSIZE = 0)%nat → ∃ out c',
  ((0 < length body)%nat → encrypt body key c = (Some out, c')) ∧ (length body = O → out = [] ∧ c' = c) ∧
  cipher_ok c' ∧ decrypts key out body.
Proof.
  intros Hc Hmod. destruct (decide (0 < length body)%nat) as [Hp|Hz].
  - destruct (decrypt_encrypt BLOCKSIZE DEFAULT_KEYLENGTH encryptBlock decryptBlock crc_32
      rand48_seed rand48_next BLOCKSIZE_pos encryptBlock_length decryptBlock_encryptBlock body key c c) as (out & c' & d' & E & Hl & _ & Hc' & _);
      [apply Hc..|done|done|].
    exists out, c'. split; [done|]. split; [intros; lia|]. split.
    + split; [done|]. rewrite (encrypt_keeps_decryptor _ _ _ _ _ E). apply Hc.
    + split; [done|]. intros d Hd.
      destruct (decrypt_encrypt BLOCKSIZE DEFAULT_KEYLENGTH encryptBlock decryptBlock crc_32
        rand48_seed rand48_next BLOCKSIZE_pos encryptBlock_length decryptBlock_encryptBlock body key c d) as (out2 & c2 & d2 & E2 & _ & Ed & _ & Hd2);
        [apply Hc|apply Hd|done|done|].
      rewrite E in E2. injection E2 as <- <-. exists d2. split_and!; [|done|intros; lia].
      split; [|done]. rewrite (decrypt_keeps_encryptor _ _ _ _ _ Ed). apply Hd.
  - assert (body = []) as -> by (apply nil_length_inv; lia).
    exists [], c. split_and!; try done. split; [done|]. intros d Hd. by exists d.
Qed.

#[local] Abbreviation padded body := (body ++ replicate (align_delta BLOCKSIZE (length body)) 0).

Lemma padded_whole body : (length (padded body) mod BLOCKSIZE = 0)%nat.
Proof. rewrite length_app, length_replicate. by apply (align_delta_mod BLOCKSIZE rand48_seed rand48_next). Qed.

Lemma secure_seal_ok (c : coder) mt body : cipher_ok (cipher_ c) → isValidMessage mt = true →
  Z.of_nat (length (padded body)) < 2 ^ 16 → ∃ p x g,
  seal mt body c = (Some p, set_cipher x (set_keygen g c)) ∧ cipher_ok x ∧
  enc_state g = key_next (enc_state (cipherKeyGenerator_ c)) ∧
  dec_state g = dec_state (cipherKeyGenerator_ c) ∧
  secure_sealed (enc_state (cipherKeyGenerator_ c)) mt body p.
Proof.
  intros Hc Hmt Hl. destruct (getEncrypt_state (cipherKeyGenerator_ c)) as (g & Eg & Hg1 & Hg2).
  destruct (encrypt_decrypts (padded body) (key_of (enc_state (cipherKeyGenerator_ c))) _ Hc
    (padded_whole body)) as (out & x & E1 & E2 & Hx & Hd).
  pose proof (seal_block securePacketHeaderSize_ body) as Hm.
  destruct (secure_encode_ok BLOCKSIZE DEFAULT_KEYLENGTH encryptBlock crc_32 rand48_seed rand48_next
    BLOCKSIZE_pos c mt body (padded body) _ _ g out x Hmt Hm eq_refl Hl Eg E1 E2) as (h' & m' & E & Hwf & Hrd & Hw);
    [apply Hd|].
  exists (mb_written m'), x, g. split_and!; try done.
  - unfold seal. cbn [pc_headerSize pc_encode secure_coder SecurePacketCoder_coder]. rewrite E.
    by rewrite written_contents.
  - rewrite Hw. split_and!; try done. by exists out.
Qed.

Lemma secure_open_ok (c : coder) mt body p : cipher_ok (cipher_ c) →
  secure_sealed (dec_state (cipherKeyGenerator_ c)) mt body p → ∃ x g,
  open_packet p c = (Some (mt, padded body), set_cipher x (set_keygen g c)) ∧ cipher_ok x ∧
  enc_state g = enc_state (cipherKeyGenerator_ c) ∧
  dec_state g = key_next (dec_state (cipherKeyGenerator_ c)).
Proof.
  intros Hc (Hmt & Hl & out & [Hlo Hd] & ->).
  destruct (getDecrypt_state (cipherKeyGenerator_ c)) as (g & Eg & Hg1 & Hg2).
  destruct (Hd _ Hc) as (x & Hx & E1 & E2). set (p := secure_packet _ _ _ _) in *.
  destruct (packet_mb p) as (Hwf & Hrd & Hw).
  destruct (secure_decode_ok BLOCKSIZE DEFAULT_KEYLENGTH decryptBlock crc_32 rand48_seed rand48_next
    BLOCKSIZE_pos c mt (padded body) _ _ g out x Hwf Hrd E1 Hlo E2 Hw Eg) as (b' & E & Hb').
  exists x, g. split_and!; try done. unfold open_packet. cbn [pc_decode secure_coder SecurePacketCoder_coder].
  rewrite E. do 3 f_equal; [|apply Hb']. unfold p, secure_packet.
  rewrite Hlo, header_write_read; [done|unfold is_uint; lia|by apply isValidMessage_uint].
Qed.

Lemma secure_open_refused (c : coder) k mt body p : secure_sealed k mt body p →
  getFingerPrint (key_of k) ≠ getFingerPrint (key_of (dec_state (cipherKeyGenerator_ c))) →
  (open_packet p c).1 = None.
Proof.
  intros (Hmt & Hl & out & [Hlo Hd] & ->) Hne. set (p := secure_packet _ _ _ _).
  destruct (packet_mb p) as (Hwf & Hrd & Hw).
  destruct (secure_packet_drop mt out (key_of k) (getCheckSum crc_32 (padded body) (getFingerPrint (key_of k))))
    as [_ Hlen].
  destruct (secure_decode_cases BLOCKSIZE DEFAULT_KEYLENGTH encryptBlock decryptBlock crc_32 rand48_seed
    rand48_next BLOCKSIZE_pos decryptBlock_length c (mkMB p 0 (length p))) as (ok & c' & b' & E & _ & Hok).
  { split_and!; [done|done|]. cbn [mb_wr]. unfold p. rewrite Hlen. lia. }
  unfold open_packet. cbn [pc_decode secure_coder SecurePacketCoder_coder]. rewrite E.
  destruct ok; [|done]. destruct (Hok eq_refl) as [Ha _]. exfalso. apply Hne.
  destruct (getDecrypt_state (cipherKeyGenerator_ c)) as (g & Eg & _). rewrite Eg in Ha. cbn [fst mb_buffer] in Ha.
  unfold p, secure_packet in Ha. rewrite drop_app_length' in Ha by (by rewrite length_header_write).
  rewrite take_app_length' in Ha by (by rewrite length_additional).
  rewrite <- (app_nil_r (additional_write _ _)), additional_roundtrip in Ha;
    [by injection Ha|by apply uint_range|by apply (getCheckSum_range BLOCKSIZE crc_32 rand48_seed rand48_next)].
Qed.

Definition SecurePacketCoder_seedspec : SeedCoderSpec coder.
Proof.
  refine {|
    sk_key := key_state;
    sk_ok c := cipher_ok (cipher_ c);
    sk_enc c := enc_state (cipherKeyGenerator_ c);
    sk_dec c := dec_state (cipherKeyGenerator_ c);
    sk_next := key_next;
    sk_seed := key_seed;
    sk_print k := getFingerPrint (key_of k);
    sk_pad n := align_delta BLOCKSIZE n;
    sk_sealed := secure_sealed;
  |}.
  - intros c mt body Hc Hmt Hl.
    destruct (secure_seal_ok c mt body Hc Hmt) as (p & x & g & E & ? & ? & ? & ?);
      [by rewrite length_app, length_replicate|]. by exists p, (set_cipher x (set_keygen g c)).
  - intros c mt body p Hc Hp. destruct (secure_open_ok c mt body p Hc Hp) as (x & g & E & ? & ? & ?).
    by exists (set_cipher x (set_keygen g c)).
  - intros c k mt body p _. apply secure_open_refused.
  - intros s [? [e d|e d] ? ? ? ?] Hc; by split_and!.
  - intros s [? [e d|e d] ? ? ? ?] Hc; by split_and!.
  - intros c Hc. by split_and!.
  - intros d c Hc. by split_and!.
  - intros clock c _. cbn [sk_generate secure_seeds SecurePacketCoder_seeds]. unfold generateCipherSeed.
    pose proof (rand48_range (rand48_seed (sint 32 clock))) as H1. destruct (rand48_next _) as [a g].
    pose proof (rand48_range g) as H2. destruct (rand48_next g) as [b ?].
    split; by apply format_d_seed.
  - done.
  - intros n Hn. pose proof (Nat.mod_upper_bound n BLOCKSIZE). apply Nat2Z.inj_le in Hn, BLOCKSIZE_small.
    unfold align_delta. change (2 ^ 16) with 65536. case_decide; lia.
Defined.
End secure.

(** ** The messages of the exchange are read back *)

Section messages.
Context {f : SneStreamFactory} {E : Type} `{HT : Transport f E}.

#[local] Abbreviation Os := (AnyOStream MemoryBlock).
#[local] Abbreviation Is := (AnyIStream MemoryBlock).
#[local] Abbreviation unit_ := (sp_unit Os Is E).
#[local] Abbreviation whole := (aligned (O := Os) (I := Is) (E := E)).

(** A string the exchanger sends: a key or an encrypted seed. *)
Definition short_string (s : list Z) : Prop := Forall is_byte s ∧ (length s ≤ 4096)%nat.
Definition short_message (m : CsSystemMessage) : Prop :=
  match m with
  | ExchangeSeedMessage k e d => short_string k ∧ short_string e ∧ short_string d
  | ExchangePublicKeyMessage k => short_string k
  | HeartbeatMessage | ConfirmSeedMessage => True
  end.
Definition message_strings (m : CsSystemMessage) : list (list Z) :=
  match m with
  | ExchangeSeedMessage k e d => [k; e; d]
  | ExchangePublicKeyMessage k => [k]
  | HeartbeatMessage | ConfirmSeedMessage => []
  end.

Lemma message_fields_strings m : message_fields m = VString <$> message_strings m.
Proof. by destruct m. Qed.
Lemma message_strings_short m : short_message m → Forall short_string (message_strings m).
Proof.
  destruct m as [|k e d|k|]; cbn; intros Hm; rewrite ?Forall_cons, ?Forall_nil; [done| |done|done].
  by destruct Hm as (? & ? & ?).
Qed.

Lemma short_max s : short_string s → (length s ≤ USHRT_MAX)%nat.
Proof. intros [_ Hs]. apply Nat2Z.inj_le in Hs. unfold USHRT_MAX. lia. Qed.

Lemma short_fits s : short_string s → value_fits (Ost := Os) (Ist := Is) (E := E) (VString s).
Proof.
  intros Hs. pose proof (short_max _ Hs). destruct Hs as [Hb Hl]. apply Nat2Z.inj_le in Hl.
  split; [|done]. split_and!; [by right|done|]. rewrite take_ge by done. change (2 ^ 16) with 65536. lia.
Qed.

Lemma whole_add pos n : whole pos → whole (pos + n * unit_).
Proof. unfold aligned. intros Hp. by rewrite Nat.Div0.mod_add. Qed.

Lemma strings_at ss pos : Forall short_string ss → whole pos →
  values_at (Ost := Os) (Ist := Is) (E := E) pos (VString <$> ss) ∧
  ∃ n, length (enc_values (Ost := Os) (Ist := Is) (E := E) (VString <$> ss) pos) = (n * unit_)%nat ∧
    (n ≤ length ss * 4098)%nat.
Proof.
  intros Hss. revert pos. induction Hss as [|s ss Hs _ IH]; intros pos Hpos.
  { split; [done|]. by exists O. }
  pose proof (tr_string (f := f) s pos (short_max _ Hs) Hpos) as El.
  destruct (IH (pos + (2 + length s) * unit_)%nat (whole_add _ _ Hpos)) as (Hat & n & En & Hn).
  change (VString <$> s :: ss) with (VString s :: (VString <$> ss)). cbn [values_at enc_values]. split.
  - split; [by right|]. cbn [enc_value]. rewrite El. exact Hat.
  - exists (2 + length s + n)%nat. unfold enc_app. rewrite length_app. cbn [enc_value]. rewrite El.
    rewrite En. destruct Hs as [_ Hl]. cbn [length]. split; lia.
Qed.

Lemma strings_length m : (length (message_strings m) ≤ 3)%nat.
Proof. destruct m; cbn; lia. Qed.

(** What is written is short and is read back, whatever zeroes the cipher padded it
    with. *)
Lemma body_of_ok m : short_message m → ∃ body, body_of f (message_fields m) = Some body ∧
  (length body ≤ 2 ^ 14)%nat ∧
  ∀ ys n, Forall2 same_type ys (message_fields m) →
    fields_of f ys (body ++ replicate n 0) = Some (message_fields m).
Proof.
  intros Hm. pose proof (message_strings_short m Hm) as Hss. pose proof (strings_length m) as Hn3.
  rewrite message_fields_strings. set (ss := message_strings m) in *. clearbody ss.
  assert (H0 : whole 0) by (unfold aligned; apply Nat.Div0.mod_0_l).
  destruct (strings_at ss 0 Hss H0) as (Hat & k & Ek & Hk).
  assert (Hfits : Forall (value_fits (Ost := Os) (Ist := Is) (E := E)) (VString <$> ss)).
  { apply Forall_fmap. eapply Forall_impl; [exact Hss|]. intros s. apply short_fits. }
  set (b0 := mkMB [] 0 0). assert (Hb0 : mb_wf b0) by (split; cbn; lia).
  pose proof (tr_open (f := f) b0 Hb0 eq_refl (Forall_nil_2 _)) as Hopen.
  change (mb_contents b0) with (@nil Z) in Hopen.
  assert (Hnil : tr_of (f := f) [] = []) by (apply nil_length_inv; by rewrite tr_length).
  rewrite Hnil in Hopen.
  destruct (writes_seq _ _ _ _ (write_message_writes _ Hfits) (writes_align) _ _ Hopen (tr_room _ _))
    as (o & Eo & Ho & _).
  set (e := (enc_values (VString <$> ss) +++ enc_pad Os Is E) 0%nat) in *.
  assert (Ho' : os_repr o (tr_of (f := f) [] ++ e)) by (rewrite Hnil; exact Ho).
  assert (Hend : whole (length e)).
  { unfold e, enc_app. rewrite length_app. apply enc_pad_aligned. }
  destruct (tr_close _ _ _ Ho' (Forall_nil_2 _) Hend) as (_ & Hwf & Hrd & body & Hc & Hok & Hbody).
  cbn [app] in Hc. exists body. split_and!.
  - unfold body_of. fold b0. by rewrite Eo, Hc.
  - assert (Hl : (length body * unit_ = k * unit_)%nat).
    { rewrite <- tr_length, Hbody. unfold e, enc_app. rewrite length_app, Ek, enc_pad_nil; [cbn; lia|].
      rewrite <- (Nat.add_0_l (k * unit_)). by apply whole_add. }
    assert (Hu : unit_ ≠ O) by exact tr_unit. change (2 ^ 14)%nat with (4 * 4096)%nat. nia.
  - intros ys n Ht. unfold fields_of. set (b := mkMB _ _ _).
    destruct (packet_mb (body ++ replicate n 0)) as (Hwb & Hrb & Hcb). fold b in Hwb, Hrb, Hcb.
    destruct (read_message_ok (f := f) (VString <$> ss) ys b Hfits Hat Ht Hwb) as (i & Ei & _).
    { exists body, n. by rewrite written_contents. }
    by rewrite Ei.
Qed.
End messages.

(** ** What is on its way *)

Inductive carried := Sys (m : CsSystemMessage) | App (mt : Z) (body : list Z).

Definition controls (ws : list carried) : list CsSystemMessage :=
  omap (λ w, match w with Sys m => Some m | App _ _ => None end) ws.
Definition apps (ws : list carried) : list (Z * list Z) :=
  omap (λ w, match w with App mt body => Some (mt, body) | Sys _ => None end) ws.

(** How many deliveries a message on its way can still cause. *)
Definition weight (w : carried) : nat :=
  match w with
  | Sys (ExchangePublicKeyMessage _) => 5
  | Sys (ExchangeSeedMessage _ _ _) => 3
  | _ => 1
  end.
Definition weights (ws : list carried) : nat := sum_list_with weight ws.

Lemma controls_app ws ws' : controls (ws ++ ws') = controls ws ++ controls ws'.
Proof. apply omap_app. Qed.
Lemma apps_app ws ws' : apps (ws ++ ws') = apps ws ++ apps ws'.
Proof. apply omap_app. Qed.

Section flow.
Context {C : Type} `{HC : SeedCoderSpec C}.
Context (f : SneStreamFactory).

#[local] Abbreviation key := (sk_key (C := C)).

(** A message of the application: its type is not one of the exchanger's, and it
    fits a packet. *)
Definition app_ok (mt : Z) (body : list Z) : Prop :=
  csmtRpc ≤ mt ∧ isValidMessage mt = true ∧
  Z.of_nat (length body + sk_pad (C := C) (length body)) < 2 ^ 16.
#[global] Instance app_ok_dec mt body : Decision (app_ok mt body).
Proof. unfold app_ok. apply _. Defined.

(** [w] has the type [mt] and the bytes [body]. *)
Definition carries_as (w : carried) (mt : Z) (body : list Z) : Prop :=
  match w with
  | Sys m => mt = system_type m ∧ short_message m ∧ body_of f (message_fields m) = Some body ∧
             Z.of_nat (length body + sk_pad (C := C) (length body)) < 2 ^ 16
  | App mt' body' => mt = mt' ∧ body = body' ∧ app_ok mt body
  end.

Lemma carries_as_sendable w mt body : carries_as w mt body →
  isValidMessage mt = true ∧ Z.of_nat (length body + sk_pad (C := C) (length body)) < 2 ^ 16.
Proof. destruct w as [m|mt' body']; [intros (-> & _ & _ & ?); by destruct m|by intros (_ & _ & _ & ?)]. Qed.

(** What handling a message does to the key the receiver decrypts with. *)
Context (eff : carried → key → key).

(** The packets [ps] carry [ws] to a receiver whose key is at [k]; it ends at [k']. *)
Inductive carries : key → list (list Z) → list carried → key → Prop :=
| carries_nil k : carries k [] [] k
| carries_cons k k' p ps w mt body ws :
    carries_as w mt body → sk_sealed k mt body p → carries (eff w (sk_next k)) ps ws k' →
    carries k (p :: ps) (w :: ws) k'.

Lemma carries_snoc k ps ws k' w mt body p : carries k ps ws k' →
  carries_as w mt body → sk_sealed k' mt body p → carries k (ps ++ [p]) (ws ++ [w]) (eff w (sk_next k')).
Proof. induction 1; intros Hw Hp; cbn [app]; econstructor; eauto using carries_nil. Qed.

(** A direction of the connection: [ws] is in the packets and, behind them, posted. *)
Definition flow (at_once : bool) (k : key) (sent : list (list Z)) (posted : list (Z * list Z))
    (ws : list carried) (k' : key) : Prop :=
  ∃ fly wait, ws = fly ++ wait ∧ carries k sent fly k' ∧
  Forall2 (λ w x, carries_as w x.1 x.2) wait posted ∧ (at_once = true → posted = []).

Lemma flow_nil at_once k : flow at_once k [] [] [] k.
Proof. exists [], []. by split_and!; [|constructor| |]. Qed.

(** The receiver takes the first packet. *)
Lemma flow_take at_once k p ps posted ws k' : flow at_once k (p :: ps) posted ws k' →
  ∃ w ws' mt body, ws = w :: ws' ∧ carries_as w mt body ∧ sk_sealed k mt body p ∧
  flow at_once (eff w (sk_next k)) ps posted ws' k'.
Proof.
  intros (fly & wait & -> & Hc & Hw & Ha). inversion Hc as [|? ? ? ? w mt body fly' Hb Hs Hc']; subst.
  exists w, (fly' ++ wait), mt, body. split_and!; try done. by exists fly', wait.
Qed.

Lemma flow_empty at_once k ws k' : flow at_once k [] [] ws k' → ws = [] ∧ k' = k.
Proof.
  intros (fly & wait & -> & Hc & Hw & _). inversion Hw; subst. inversion Hc; subst. done.
Qed.

(** A message is posted; when it is marshalled at once, the sender's key moves on. *)
Lemma flow_post k sent posted ws k' w mt body : flow false k sent posted ws k' → carries_as w mt body →
  flow false k sent (posted ++ [(mt, body)]) (ws ++ [w]) k'.
Proof.
  intros (fly & wait & -> & Hc & Hw & _) Hb. exists fly, (wait ++ [w]). split_and!; [by rewrite app_assoc|done| |done].
  apply Forall2_app; [done|]. by repeat constructor.
Qed.

Lemma flow_seal k sent posted ws k' w mt body p : flow true k sent posted ws k' → carries_as w mt body →
  sk_sealed k' mt body p → flow true k (sent ++ [p]) posted (ws ++ [w]) (eff w (sk_next k')).
Proof.
  intros (fly & wait & -> & Hc & Hw & Ha) Hb Hp. rewrite (Ha eq_refl) in *. inversion Hw; subst.
  rewrite app_nil_r. exists (fly ++ [w]), []. split_and!; [by rewrite app_nil_r| |done|done].
  by eapply carries_snoc.
Qed.

(** The first message posted is marshalled. *)
Lemma flow_run k sent mt body rest ws k' p : flow false k sent ((mt, body) :: rest) ws k' →
  (∀ w k0, w ∈ ws → eff w k0 = k0) → sk_sealed k' mt body p →
  flow false k (sent ++ [p]) rest ws (sk_next k').
Proof.
  intros (fly & wait & -> & Hc & Hw & _) Heff Hp. apply Forall2_cons_inv_r in Hw as (w & wait' & Hb & Hw & ->).
  exists (fly ++ [w]), wait'. split_and!; [by rewrite <- app_assoc| |done|done].
  rewrite <- (Heff w (sk_next k')) by set_solver. by eapply carries_snoc.
Qed.
End flow.

(** Only what is carried matters of [eff]. *)
Lemma flow_ext {C : Type} `{HC : SeedCoderSpec C} f eff eff' at_once k sent posted ws k' :
  (∀ w k0, w ∈ ws → eff w k0 = eff' w k0) → flow f eff at_once k sent posted ws k' →
  flow f eff' at_once k sent posted ws k'.
Proof.
  intros Heff (fly & wait & -> & Hc & Hw & Ha). exists fly, wait. split_and!; try done.
  clear Hw Ha. induction Hc as [|k k' p ps w mt body fly Hb Hp _ IH]; econstructor; eauto.
  rewrite <- Heff by (by left). apply IH. intros w' k0 Hw. apply Heff. by right.
Qed.

Lemma not_carried (ws : list carried) m : m ∉ controls ws → Sys m ∉ ws.
Proof. intros Hm Hw. apply Hm. apply list_elem_of_omap. by exists (Sys m). Qed.

(** ** The invariant *)

(** What is assumed of RSA: a seed encrypted with the public key of a pair is
    decrypted with its private key, and is short. *)
Record rsa_pair (rsa_encrypt rsa_decrypt : list Z → list Z → option (list Z)) (keys : list Z * list Z) : Prop := {
  rsa_public : short_string keys.1;
  rsa_inverse seed : seed_ok seed → ∃ x, rsa_encrypt keys.1 seed = Some x ∧ x ≠ [] ∧ short_string x ∧
    rsa_decrypt keys.2 x = Some seed;
}.

Section invariant.
Context {C : Type} `{HC : SeedCoderSpec C}.
Context {f : SneStreamFactory} {E : Type} `{HT : Transport f E}.
Context (rsa_encrypt rsa_decrypt : list Z → list Z → option (list Z)).
Context (at_once : bool).
Context (serverKeys clientKeys : list Z * list Z) (cipher change : bool).
Hypothesis Hrsa : rsa_pair rsa_encrypt rsa_decrypt clientKeys.
Hypothesis Hserver : short_string serverKeys.1.
(** Keys are only changed when messages are marshalled at once. *)
Hypothesis Hmode : at_once = true ∨ change = false.

#[local] Abbreviation peer := (Peer C).
#[local] Abbreviation enc p := (sk_enc (peer_coder p)).
#[local] Abbreviation dec p := (sk_dec (peer_coder p)).

Record alive (keys : list Z * list Z) (p : peer) : Prop := {
  al_coder : sk_ok (peer_coder p);
  al_connected : peer_connected p = true;
  al_keys : rsaKeys_ p = Some keys;
  al_cipher : sk_hasPacketCipher (peer_coder p) = cipher;
  al_change : sk_shouldExchange (peer_coder p) = change;
  al_posted : at_once = true → posted p = [];
}.

(** Nothing but the coder and what is to be sent differs. *)
Record same_end (p p' : peer) : Prop := {
  se_exchanger : exchanger_ p' = exchanger_ p;
  se_exchanged : exchanged p' = exchanged p;
  se_heard : heard p' = heard p;
}.

Lemma alive_coder keys p g enc' dec' : alive keys p → sk_moved (peer_coder p) (g (peer_coder p)) enc' dec' →
  alive keys (on_coder g p) ∧ enc (on_coder g p) = enc' ∧ dec (on_coder g p) = dec'.
Proof.
  intros [Hc Hn Hk Hx Hy Hp] (H1 & H2 & H3 & H4 & H5). split; [|done].
  split; cbn; try done; [by rewrite H4|by rewrite H5].
Qed.

(** *** A message is sent *)

Lemma run_posted_le p : (length (posted (run_posted p)) ≤ length (posted p))%nat.
Proof.
  unfold run_posted. destruct (posted p) as [|[mt body] rest] eqn:Ep; [by rewrite Ep|].
  case_match; cbn; [lia|]. destruct (seal _ _ _) as [[pkt|] c]; cbn; lia.
Qed.

Lemma send_message_le m p : (length (posted (send_message f at_once m p)) ≤ S (length (posted p)))%nat.
Proof.
  unfold send_message, send_body. destruct (body_of f _) as [body|]; [|cbn; lia].
  assert (Hl : length (posted (set_posted (posted p ++ [(system_type m, body)]) p)) = S (length (posted p)))
    by (cbn; rewrite length_app; cbn; lia).
  case_match; [|lia]. rewrite <- Hl. apply run_posted_le.
Qed.

Lemma send_body_ok keys p w mt body : alive keys p → carries_as f w mt body →
  let p' := send_body at_once mt body p in
  alive keys p' ∧ same_end p p' ∧ dec p' = dec p ∧
  ∀ eff k ws, flow f eff at_once k (sent p) (posted p) ws (enc p) →
    (at_once = false → ∀ k0, eff w k0 = k0) →
    flow f eff at_once k (sent p') (posted p') (ws ++ [w]) (eff w (enc p')).
Proof.
  intros Ha Hb. pose proof Ha as [Hc Hn Hk Hx Hy Hp]. destruct (carries_as_sendable f w mt body Hb) as [Hmt Hl].
  unfold send_body. destruct at_once eqn:Eo.
  - unfold run_posted. cbn [posted set_posted]. rewrite (Hp eq_refl). cbn [app negb peer_connected set_posted].
    rewrite Hn. cbn [negb peer_coder set_posted].
    destruct (sk_seal_ok (peer_coder p) mt body Hc Hmt Hl) as (pkt & c & -> & (H1 & H2 & H3 & H4 & H5) & Hs).
    cbn. split_and!; [|done|done|].
    + split; cbn; try done; [by rewrite H4|by rewrite H5].
    + intros eff k ws Hf _. rewrite H2. by eapply flow_seal.
  - cbn. split_and!; [|done|done|].
    + split; cbn; try done. intros; congruence.
    + intros eff k ws Hf He. rewrite He by done. by apply flow_post.
Qed.

Lemma carries_sys m body : short_message m → body_of f (message_fields m) = Some body →
  (length body ≤ 2 ^ 14)%nat → carries_as f (Sys m) (system_type m) body.
Proof. intros Hm Hb Hl. split_and!; try done. by apply sk_pad_fits. Qed.

Lemma send_message_ok keys p m : alive keys p → short_message m →
  let p' := send_message f at_once m p in
  alive keys p' ∧ same_end p p' ∧ dec p' = dec p ∧
  ∀ eff k ws, flow f eff at_once k (sent p) (posted p) ws (enc p) →
    (at_once = false → ∀ k0, eff (Sys m) k0 = k0) →
    flow f eff at_once k (sent p') (posted p') (ws ++ [Sys m]) (eff (Sys m) (enc p')).
Proof.
  intros Ha Hm. destruct (body_of_ok (f := f) m Hm) as (body & Eb & Hl & _).
  unfold send_message. rewrite Eb. apply (send_body_ok keys p (Sys m)); [done|]. by apply carries_sys.
Qed.

(** *** A packet is received *)

Lemma receive_packet_ok keys handle p w mt body pkt : alive keys p → carries_as f w mt body →
  sk_sealed (dec p) mt body pkt → ∃ c,
  receive_packet handle pkt p =
    handle mt (body ++ replicate (sk_pad (C := C) (length body)) 0) (on_coder (λ _, c) p) ∧
  alive keys (on_coder (λ _, c) p) ∧ sk_enc c = enc p ∧ sk_dec c = sk_next (dec p).
Proof.
  intros Ha Hb Hs. pose proof Ha as [Hc Hn Hk Hx Hy Hp].
  destruct (carries_as_sendable f w mt body Hb) as [Hmt _].
  destruct (sk_open_ok (peer_coder p) mt body pkt Hc Hs) as (c & E1 & Hm). exists c.
  destruct (alive_coder keys p (λ _, c) _ _ Ha Hm) as (Ha' & He & Hd).
  split_and!; try done. unfold receive_packet. rewrite Hn, E1, Hmt. done.
Qed.

(** The members of a message of the exchanger. *)
Lemma fields_ok m mt body n ys : carries_as f (Sys m) mt body → Forall2 same_type ys (message_fields m) →
  fields_of f ys (body ++ replicate n 0) = Some (message_fields m).
Proof.
  intros (-> & Hm & Eb & _) Ht. destruct (body_of_ok (f := f) m Hm) as (body' & Eb' & _ & Hr).
  rewrite Eb in Eb'. injection Eb' as <-. by apply Hr.
Qed.

(** *** Where the exchange stands *)

(** A seed message makes the client change the key it decrypts with, a confirmation
    the server. *)
Definition client_eff (w : carried) (k : sk_key (C := C)) : sk_key (C := C) :=
  match w with
  | Sys (ExchangeSeedMessage pk e d) =>
      if isEmpty (ExchangeSeedMessage pk e d) then k
      else match rsa_decrypt clientKeys.2 e with Some s => sk_seed s k | None => k end
  | _ => k
  end.
Definition server_eff (exchanging : list Z) (w : carried) (k : sk_key (C := C)) : sk_key (C := C) :=
  match w with Sys ConfirmSeedMessage => sk_seed exchanging k | _ => k end.

(** The seeds, encrypted, are [e] and [d]; the server will decrypt with [b]. *)
Definition seeds_for (x : SeedExchanger) (e d a : list Z) : Prop :=
  e ≠ [] ∧ rsa_decrypt clientKeys.2 e = Some a ∧
  rsa_decrypt clientKeys.2 d = Some (exchangingDecryptSeed_ x).

(** [phase up down x n m]: the messages of the exchange on their way to the server
    and to the client, the server's exchanger, and how often each end has called
    [seedExchanged]. *)
Inductive phase : list CsSystemMessage → list CsSystemMessage → SeedExchanger → nat → nat → Prop :=
| ph_asked x : cipher = true → exchangingDecryptSeed_ x = [] →
    phase [ExchangePublicKeyMessage clientKeys.1] [] x 0 0
| ph_empty x n : change = false → (0 < n)%nat → exchangingDecryptSeed_ x = [] →
    phase [] [ExchangeSeedMessage [] [] []] x n 0
| ph_seeds x k e d a n m : change = true → otherSidePublicKey_ x = clientKeys.1 →
    exchangingDecryptSeed_ x ≠ [] → seeds_for x e d a → phase [] [ExchangeSeedMessage k e d] x n m
| ph_confirm x n m : change = true → otherSidePublicKey_ x = clientKeys.1 →
    exchangingDecryptSeed_ x ≠ [] → (0 < m)%nat → phase [ConfirmSeedMessage] [] x n m
| ph_done x n m : exchangingDecryptSeed_ x = [] → (change = true → otherSidePublicKey_ x = clientKeys.1) →
    (0 < n)%nat → (0 < m)%nat → phase [] [] x n m.

Definition padded_app (x : Z * list Z) : Z * list Z :=
  (x.1, x.2 ++ replicate (sk_pad (C := C) (length x.2)) 0).

Record inv (up down : list carried) (s : Exchange (C := C)) : Prop := {
  in_server : alive serverKeys (server s);
  in_client : alive clientKeys (client s);
  in_up : flow f (server_eff (exchangingDecryptSeed_ (exchanger_ (server s)))) at_once (dec (server s))
    (sent (client s)) (posted (client s)) up (enc (client s));
  in_down : flow f client_eff at_once (dec (client s)) (sent (server s)) (posted (server s)) down
    (enc (server s));
  in_server_told : padded_app <$> server_told s = heard (client s) ++ (padded_app <$> apps down);
  in_client_told : padded_app <$> client_told s = heard (server s) ++ (padded_app <$> apps up);
  in_phase : phase (controls up) (controls down) (exchanger_ (server s)) (exchanged (server s))
    (exchanged (client s));
}.

(** Without a change of keys no message has an effect. *)
Lemma server_eff_plain exchanging w k : Sys ConfirmSeedMessage ≠ w → server_eff exchanging w k = k.
Proof. by destruct w as [[]|]. Qed.

(** *** The server's steps *)

(** The seeds the server makes, as the client will find them. *)
Lemma encryptSeed_ok seed : seed_ok seed → let x := encryptSeed rsa_encrypt seed clientKeys.1 in
  x ≠ [] ∧ short_string x ∧ rsa_decrypt clientKeys.2 x = Some seed.
Proof.
  intros Hs. destruct (rsa_inverse _ _ _ Hrsa seed Hs) as (x & E1 & Hx). unfold encryptSeed.
  by rewrite E1.
Qed.

Lemma exchangeSeed_ok pk clock p k down : alive serverKeys p → change = true → short_string pk →
  exchangingDecryptSeed_ (exchanger_ p) = [] → otherSidePublicKey_ (exchanger_ p) = clientKeys.1 →
  flow f client_eff at_once k (sent p) (posted p) down (enc p) →
  let p' := exchangeSeed f rsa_encrypt at_once pk clock p in
  alive serverKeys p' ∧ dec p' = dec p ∧ exchanged p' = exchanged p ∧ heard p' = heard p ∧
  otherSidePublicKey_ (exchanger_ p') = clientKeys.1 ∧ exchangingDecryptSeed_ (exchanger_ p') ≠ [] ∧
  ∃ e d a, seeds_for (exchanger_ p') e d a ∧
  flow f client_eff at_once k (sent p') (posted p') (down ++ [Sys (ExchangeSeedMessage pk e d)]) (enc p').
Proof.
  intros Ha Hch Hpk Hx Hother Hflow. unfold exchangeSeed. rewrite bool_decide_true by done. cbn [negb].
  destruct (sk_generate_ok clock (peer_coder p)) as [Hse Hsd]; [by rewrite (al_change _ _ Ha)|].
  destruct (sk_generate clock (peer_coder p)) as [se sd]. cbn [fst snd] in *.
  cbn [exchanger_ set_exchanging set_exchanger otherSidePublicKey_]. rewrite Hother.
  destruct (encryptSeed_ok se Hse) as (He1 & He2 & He3). destruct (encryptSeed_ok sd Hsd) as (Hd1 & Hd2 & Hd3).
  set (e := encryptSeed _ se _) in *. set (d := encryptSeed _ sd _) in *. set (p1 := set_exchanging sd p).
  set (m := ExchangeSeedMessage pk e d).
  assert (Ha1 : alive serverKeys p1) by by destruct Ha.
  destruct (send_message_ok serverKeys p1 m Ha1) as (Ha2 & [Hs1 Hs2 Hs3] & Hd & Hf2); [done|].
  assert (Heff : ∀ k0, client_eff (Sys m) k0 = sk_seed se k0).
  { intros k0. cbn [client_eff m]. unfold isEmpty. rewrite (bool_decide_false (e = [])) by done.
    rewrite andb_false_r, andb_false_l, He3. done. }
  destruct (alive_coder _ _ (sk_setEncryptSeed se) _ _ Ha2 (sk_setEncrypt_ok se _ (al_coder _ _ Ha2)))
    as (Ha3 & He4 & Hd4).
  split; [exact Ha3|]. split; [by rewrite Hd4|].
  split; [by cbn; rewrite Hs2|]. split; [by cbn; rewrite Hs3|].
  split; [by cbn; rewrite Hs1|]. split; [cbn; rewrite Hs1; by destruct Hsd|].
  exists e, d, se. split; [by cbn; rewrite Hs1; split_and!|].
  rewrite He4, <- Heff. apply Hf2; [exact Hflow|]. intros Ho. destruct Hmode; congruence.
Qed.

Lemma onExchangePublicKey_ok clock p k down : alive serverKeys p →
  exchangingDecryptSeed_ (exchanger_ p) = [] →
  flow f client_eff at_once k (sent p) (posted p) down (enc p) → controls down = [] → ∃ m,
  let p' := onExchangePublicKey f rsa_encrypt at_once clientKeys.1 clock p in
  alive serverKeys p' ∧ dec p' = dec p ∧ heard p' = heard p ∧
  phase [] [m] (exchanger_ p') (exchanged p') 0 ∧
  flow f client_eff at_once k (sent p') (posted p') (down ++ [Sys m]) (enc p').
Proof.
  intros Ha Hx Hflow Hdown. unfold onExchangePublicKey. rewrite (al_change _ _ Ha).
  assert (Hcase : change = true ∨ change = false) by (case change; auto).
  destruct Hcase as [Ech|Ech]; rewrite Ech; cbn [negb].
  - unfold generatePublicAndPrivateKey. cbn [rsaKeys_ set_otherSide set_exchanger].
    pose proof (surjective_pairing serverKeys) as Ek. rewrite (al_keys _ _ Ha), Ek. rewrite <- Ek.
    unfold exchangeFirstSeed. cbn [peer_coder set_private set_otherSide set_exchanger].
    rewrite (al_change _ _ Ha), Ech. cbn [negb].
    set (p1 := set_exchanging [] _). assert (Ha1 : alive serverKeys p1) by (destruct Ha; by split).
    destruct (exchangeSeed_ok serverKeys.1 clock p1 k down Ha1 Ech Hserver eq_refl eq_refl Hflow) as
      (Ha' & Hd & Hn & Hh & Ho & Hne & e & d & a & Hs & Hf).
    exists (ExchangeSeedMessage serverKeys.1 e d). split_and!; try done. by eapply ph_seeds.
  - destruct (send_message_ok serverKeys p (ExchangeSeedMessage [] [] []) Ha) as (Ha' & [H1 H2 H3] & Hd & Hf).
    { split_and!; split; cbn; done || lia. }
    exists (ExchangeSeedMessage [] [] []). split_and!; [by destruct Ha'|done|done| |].
    + cbn. apply ph_empty; [done|lia|by rewrite H1].
    + exact (Hf _ _ _ Hflow (λ _ _, eq_refl)).
Qed.

Lemma phase_up_inv w up down x n m : phase (controls (w :: up)) down x n m →
  (∃ mt body, w = App mt body) ∨
  (w = Sys (ExchangePublicKeyMessage clientKeys.1) ∧ controls up = [] ∧ down = [] ∧
   exchangingDecryptSeed_ x = [] ∧ n = 0%nat ∧ m = 0%nat) ∨
  (w = Sys ConfirmSeedMessage ∧ controls up = [] ∧ down = [] ∧ change = true ∧
   otherSidePublicKey_ x = clientKeys.1 ∧ (0 < m)%nat).
Proof.
  destruct w as [c|mt body]; [|by left; exists mt, body]. cbn. intros Hp. right.
  inversion Hp; subst; [left|right]; by split_and!.
Qed.

Lemma onExchangePublicKey_le k clock p :
  (length (posted (onExchangePublicKey f rsa_encrypt at_once k clock p)) ≤ S (length (posted p)))%nat.
Proof.
  unfold onExchangePublicKey. case_match; [apply send_message_le|].
  case_match; [|cbn; lia]. case_match. unfold exchangeFirstSeed, exchangeSeed. case_match; [cbn; lia|].
  case_match; [cbn; lia|]. case_match. cbn [posted on_coder]. etrans; [apply send_message_le|done].
Qed.

Lemma server_reads clock pkt rest up down s : inv up down s → sent (client s) = pkt :: rest → ∃ up' down',
  let p := receive_packet (server_handle f rsa_encrypt at_once clock) pkt (server s) in
  inv up' down' (set_server p (set_client (set_sent rest (client s)) s)) ∧
  (weights up' + weights down' + length (posted p) < weights up + weights down + length (posted (server s)))%nat.
Proof.
  intros [Hs Hc Hup Hdown Hst Hct Hp] Hsent. rewrite Hsent in Hup.
  destruct (flow_take _ _ _ _ _ _ _ _ _ Hup) as (w & up' & mt & body & -> & Hw & Hseal & Hup').
  destruct (receive_packet_ok serverKeys (server_handle f rsa_encrypt at_once clock) (server s) w mt body pkt Hs Hw Hseal)
    as (c & -> & Ha & He & Hd).
  set (p := on_coder (λ _, c) (server s)) in *. set (s' := set_client (set_sent rest (client s)) s).
  assert (Hdown' : flow f client_eff at_once (dec (client s)) (sent p) (posted p) down (enc p))
    by (cbn; by rewrite He).
  assert (Hc' : alive clientKeys (set_sent rest (client s))) by (destruct Hc; by split).
  destruct (phase_up_inv _ _ _ _ _ _ Hp) as
    [(mt' & body' & ->)|[(-> & Hup0 & Hdown0 & Hx & Hn & Hm)|(-> & Hup0 & Hdown0 & Hch & Ho & Hm)]].
  - destruct Hw as (<- & <- & (Hr & _)). exists up', down. unfold server_handle.
    rewrite !(proj2 (Z.eqb_neq _ _)) by (unfold csmtRpc, csmtSystem_exchangePublicKey, csmtSystem_confirmSeed in *; lia).
    split; [|unfold weights; cbn; lia]. split; [by destruct Ha|done| |exact Hdown'|done| |exact Hp].
    + cbn. rewrite Hd. exact Hup'.
    + cbn. rewrite Hct. cbn. by rewrite <- app_assoc.
  - pose proof Hw as (-> & _). unfold server_handle. cbn [system_type]. rewrite Z.eqb_refl.
    rewrite (fields_ok (ExchangePublicKeyMessage clientKeys.1) _ _ _ [VString []] Hw) by by repeat constructor.
    cbn [message_fields].
    destruct (onExchangePublicKey_ok clock p (dec (client s)) down Ha Hx Hdown' Hdown0) as
      (m & Ha' & Hd' & Hh & Hph & Hf).
    exists up', (down ++ [Sys m]). split.
    2:{ pose proof (onExchangePublicKey_le clientKeys.1 clock p) as Hle. unfold weights.
        rewrite sum_list_with_app. destruct m; try by inversion Hph. cbn in *. lia. }
    split; [exact Ha'|done| | | | |].
    + cbn. rewrite Hd'. cbn. rewrite Hd. eapply flow_ext; [|exact Hup'].
      intros w0 k0 Hw0. rewrite !server_eff_plain; [done|..]; intros <-;
        eapply (not_carried up' ConfirmSeedMessage); rewrite ?Hup0; try done; by apply not_elem_of_nil.
    + exact Hf.
    + cbn. rewrite apps_app, app_nil_r. exact Hst.
    + cbn. rewrite Hh. exact Hct.
    + cbn. rewrite Hup0, controls_app, Hdown0, Hm. exact Hph.
  - pose proof Hw as (-> & _). unfold server_handle. cbn [system_type].
    change (csmtSystem_confirmSeed =? csmtSystem_exchangePublicKey) with false. rewrite Z.eqb_refl.
    rewrite (fields_ok ConfirmSeedMessage _ _ _ [] Hw) by constructor.
    unfold onConfirmSeed. set (seed := exchangingDecryptSeed_ (exchanger_ p)).
    destruct (alive_coder serverKeys p (sk_setDecryptSeed seed) _ _ Ha (sk_setDecrypt_ok seed c (al_coder _ _ Ha)))
      as (Ha' & He' & Hd'). cbn [message_fields].
    exists up', down. split; [|unfold weights; cbn; lia]. split; [by destruct Ha'|done| | |done|exact Hct|].
    + cbn. cbn in Hd'. rewrite Hd', Hd. eapply flow_ext; [|exact Hup'].
      intros w0 k0 Hw0. rewrite !server_eff_plain; [done|..]; intros <-;
        eapply (not_carried up' ConfirmSeedMessage); rewrite ?Hup0; try done; by apply not_elem_of_nil.
    + cbn. cbn in He'. rewrite He'. exact Hdown'.
    + cbn. rewrite Hup0, Hdown0. apply ph_done; [done|by intros|lia|done].
Qed.

Lemma phase_down_inv w up down x n m : phase up (controls (w :: down)) x n m →
  (∃ mt body, w = App mt body) ∨
  (w = Sys (ExchangeSeedMessage [] [] []) ∧ up = [] ∧ controls down = [] ∧ change = false ∧
   exchangingDecryptSeed_ x = [] ∧ (0 < n)%nat) ∨
  (∃ k e d a, w = Sys (ExchangeSeedMessage k e d) ∧ up = [] ∧ controls down = [] ∧ change = true ∧
   otherSidePublicKey_ x = clientKeys.1 ∧ exchangingDecryptSeed_ x ≠ [] ∧ seeds_for x e d a).
Proof.
  destruct w as [c|mt body]; [|by left; exists mt, body]. cbn. intros Hp. right.
  inversion Hp; subst; [left; by split_and!|right]. eexists _, _, _, _. by split_and!.
Qed.

Lemma isEmpty_seeds k e d : e ≠ [] → isEmpty (ExchangeSeedMessage k e d) = false.
Proof. intros He. unfold isEmpty. by rewrite (bool_decide_false (e = [])), andb_false_r, andb_false_l by done. Qed.

(** *** The client's steps *)

Lemma onExchangeSeed_ok k0 e d a p k up x : alive clientKeys p → change = true → seeds_for x e d a →
  let eff := server_eff (exchangingDecryptSeed_ x) in
  flow f eff at_once k (sent p) (posted p) up (enc p) →
  let p' := onExchangeSeed f rsa_decrypt at_once k0 e d p in
  alive clientKeys p' ∧ dec p' = sk_seed a (dec p) ∧ heard p' = heard p ∧ (0 < exchanged p')%nat ∧
  flow f eff at_once k (sent p') (posted p') (up ++ [Sys ConfirmSeedMessage]) (enc p').
Proof.
  intros Ha Hch (He & H1 & H2) eff Hflow. unfold onExchangeSeed. rewrite isEmpty_seeds by done.
  unfold decryptSeed. cbn [rsaKeys_ set_otherSide set_exchanger]. rewrite (al_keys _ _ Ha).
  cbn [mbind option_bind]. rewrite H1, H2. set (p1 := set_otherSide k0 p).
  assert (Ha1 : alive clientKeys p1) by by destruct Ha.
  destruct (alive_coder clientKeys p1 (sk_setDecryptSeed a) _ _ Ha1 (sk_setDecrypt_ok a _ (al_coder _ _ Ha1)))
    as (Ha2 & He2 & Hd2). set (p2 := on_coder (sk_setDecryptSeed a) p1) in *.
  destruct (send_message_ok clientKeys p2 ConfirmSeedMessage Ha2 I) as (Ha3 & [Hs1 Hs2 Hs3] & Hd3 & Hf3).
  set (p3 := send_message f at_once ConfirmSeedMessage p2) in *.
  destruct (alive_coder clientKeys p3 (sk_setEncryptSeed (exchangingDecryptSeed_ x)) _ _ Ha3
    (sk_setEncrypt_ok _ _ (al_coder _ _ Ha3))) as (Ha4 & He4 & Hd4).
  split; [by destruct Ha4|]. split; [cbn in *; by rewrite Hd4, Hd3, Hd2|].
  split; [by cbn; rewrite Hs3|]. split; [cbn; lia|].
  cbn. cbn in He4. rewrite He4. apply (Hf3 eff).
  - rewrite He2. exact Hflow.
  - intros Ho. destruct Hmode; congruence.
Qed.

Lemma onExchangeSeed_le k e d p :
  (length (posted (onExchangeSeed f rsa_decrypt at_once k e d p)) ≤ S (length (posted p)))%nat.
Proof.
  unfold onExchangeSeed. case_match; [cbn; lia|]. do 2 (case_match; [|cbn; lia]).
  cbn [posted on_coder seedExchanged]. etrans; [apply send_message_le|done].
Qed.

Lemma client_reads pkt rest up down s : inv up down s → sent (server s) = pkt :: rest → ∃ up' down',
  let p := receive_packet (client_handle f rsa_decrypt at_once) pkt (client s) in
  inv up' down' (set_client p (set_server (set_sent rest (server s)) s)) ∧
  (weights up' + weights down' + length (posted p) < weights up + weights down + length (posted (client s)))%nat.
Proof.
  intros [Hs Hc Hup Hdown Hst Hct Hp] Hsent. rewrite Hsent in Hdown.
  destruct (flow_take _ _ _ _ _ _ _ _ _ Hdown) as (w & down' & mt & body & -> & Hw & Hseal & Hdown').
  destruct (receive_packet_ok clientKeys (client_handle f rsa_decrypt at_once) (client s) w mt body pkt Hc Hw Hseal)
    as (c & -> & Ha & He & Hd).
  set (p := on_coder (λ _, c) (client s)) in *. set (s' := set_server (set_sent rest (server s)) s).
  set (x := exchanger_ (server s)) in *.
  assert (Hup' : flow f (server_eff (exchangingDecryptSeed_ x)) at_once (dec (server s)) (sent p) (posted p) up (enc p))
    by (cbn; by rewrite He).
  assert (Hs' : alive serverKeys (set_sent rest (server s))) by (destruct Hs; by split).
  destruct (phase_down_inv _ _ _ _ _ _ Hp) as
    [(mt' & body' & ->)|[(-> & Hup0 & Hdown0 & Hch & Hx & Hn)|(k & e & d & a & -> & Hup0 & Hdown0 & Hch & Ho & Hx & Hse)]].
  - destruct Hw as (<- & <- & (Hr & _)). exists up, down'. unfold client_handle.
    rewrite !(proj2 (Z.eqb_neq _ _)) by (unfold csmtRpc, csmtSystem_exchangeSeed in *; lia).
    split; [|unfold weights; cbn; lia]. split; [done|by destruct Ha|exact Hup'| | |done|exact Hp].
    + cbn. rewrite Hd. exact Hdown'.
    + cbn. rewrite Hst. cbn. by rewrite <- app_assoc.
  - pose proof Hw as (-> & _). unfold client_handle. cbn [system_type]. rewrite Z.eqb_refl.
    rewrite (fields_ok (ExchangeSeedMessage [] [] []) _ _ _ [VString []; VString []; VString []] Hw)
      by by repeat constructor.
    cbn [message_fields]. exists up, down'. split; [|unfold weights; cbn; lia].
    split; [done|by destruct Ha|exact Hup'| | |done|].
    + cbn. rewrite Hd. exact Hdown'.
    + exact Hst.
    + cbn. rewrite Hup0, Hdown0. apply ph_done; [done|congruence|done|lia].
  - pose proof Hw as (-> & _). unfold client_handle. cbn [system_type]. rewrite Z.eqb_refl.
    rewrite (fields_ok (ExchangeSeedMessage k e d) _ _ _ [VString []; VString []; VString []] Hw)
      by by repeat constructor.
    cbn [message_fields].
    destruct (onExchangeSeed_ok k e d a p (dec (server s)) up x Ha Hch Hse Hup')
      as (Ha' & Hd' & Hh & Hm & Hf).
    exists (up ++ [Sys ConfirmSeedMessage]), down'. split.
    2:{ pose proof (onExchangeSeed_le k e d p) as Hle. unfold weights. rewrite sum_list_with_app. cbn in *. lia. }
    split; [done|exact Ha'|exact Hf| | | |].
    + cbn. rewrite Hd'. cbn. rewrite Hd. cbn [client_eff] in Hdown'. destruct Hse as (Hne & E1 & E2).
      rewrite isEmpty_seeds, E1 in Hdown' by done. exact Hdown'.
    + cbn. rewrite Hh. exact Hst.
    + cbn. rewrite apps_app, app_nil_r. exact Hct.
    + cbn. rewrite controls_app, Hup0, Hdown0. by apply ph_confirm.
Qed.

(** *** The steps of either end *)

(** Without a change of keys no message has an effect. *)
Lemma plain_down up down x n m w k : change = false → phase up (controls down) x n m → w ∈ down →
  client_eff w k = k.
Proof.
  intros Hch Hp Hw. destruct w as [c|]; [|done].
  assert (Hc : c ∈ controls down) by (apply list_elem_of_omap; by exists (Sys c)).
  inversion Hp as [| |? k1 e d ? ? ? Hc1| |]; subst; match goal with E : _ = controls down |- _ => rewrite <- E in Hc end;
    try (by apply not_elem_of_nil in Hc); [|congruence].
  by apply list_elem_of_singleton in Hc as ->.
Qed.
Lemma plain_up up down x n m w k : change = false → phase (controls up) down x n m → w ∈ up →
  server_eff (exchangingDecryptSeed_ x) w k = k.
Proof.
  intros Hch Hp Hw. apply server_eff_plain. intros <-.
  assert (Hc : ConfirmSeedMessage ∈ controls up) by (apply list_elem_of_omap; by exists (Sys ConfirmSeedMessage)).
  inversion Hp; subst; match goal with E : _ = controls up |- _ => rewrite <- E in Hc end;
    try (by apply not_elem_of_nil in Hc); [|congruence].
  by apply list_elem_of_singleton in Hc.
Qed.

Lemma run_posted_ok keys p eff k ws : alive keys p → posted p ≠ [] →
  flow f eff at_once k (sent p) (posted p) ws (enc p) → (∀ w k0, w ∈ ws → eff w k0 = k0) →
  let p' := run_posted p in
  alive keys p' ∧ same_end p p' ∧ dec p' = dec p ∧
  flow f eff at_once k (sent p') (posted p') ws (enc p').
Proof.
  intros Ha Hp Hf Heff. pose proof Ha as [Hc Hn Hk Hx Hy Ho].
  assert (Eo : at_once = false) by (destruct at_once; [by rewrite Ho in Hp|done]). rewrite Eo in Hf |- *.
  unfold run_posted. destruct (posted p) as [|[mt body] rest] eqn:Epo; [done|].
  cbn [peer_connected set_posted]. rewrite Hn. cbn [negb peer_coder set_posted].
  assert (Hw : ∃ w, carries_as f w mt body).
  { destruct Hf as (fly & wait & _ & _ & Hw & _). apply Forall2_cons_inv_r in Hw as (w & ? & Hw & _). by exists w. }
  destruct Hw as [w Hw]. destruct (carries_as_sendable f w mt body Hw) as [Hmt Hl].
  destruct (sk_seal_ok (peer_coder p) mt body Hc Hmt Hl) as (pkt & c & -> & (H1 & H2 & H3 & H4 & H5) & Hs).
  cbn. split_and!; [|done|done|].
  - split; cbn; try done; [by rewrite H4|by rewrite H5|congruence].
  - rewrite H2. by eapply flow_run.
Qed.

(** *** Every step *)

#[local] Abbreviation exec := (exchange_exec f rsa_encrypt rsa_decrypt at_once).

(** What the applications may send. *)
Definition event_ok (e : exchange_event) : Prop :=
  match e with ServerSends mt body | ClientSends mt body => app_ok (C := C) mt body | _ => True end.
#[global] Instance event_ok_dec e : Decision (event_ok e).
Proof. destruct e; unfold event_ok; apply _. Defined.

Lemma server_runs up down s : inv up down s → posted (server s) ≠ [] →
  inv up down (set_server (run_posted (server s)) s).
Proof.
  intros [Hs Hc Hup Hdown Hst Hct Hp] Hpo.
  assert (Hch : change = false).
  { destruct Hmode as [Ho|]; [|done]. by destruct (Hpo (al_posted _ _ Hs Ho)). }
  destruct (run_posted_ok serverKeys _ _ _ _ Hs Hpo Hdown) as (Ha & [H1 H2 H3] & Hd & Hf).
  { intros w k. by eapply plain_down. }
  split; cbn; rewrite ?H1, ?H2, ?H3, ?Hd; done.
Qed.

Lemma client_runs up down s : inv up down s → posted (client s) ≠ [] →
  inv up down (set_client (run_posted (client s)) s).
Proof.
  intros [Hs Hc Hup Hdown Hst Hct Hp] Hpo.
  assert (Hch : change = false).
  { destruct Hmode as [Ho|]; [|done]. by destruct (Hpo (al_posted _ _ Hc Ho)). }
  destruct (run_posted_ok clientKeys _ _ _ _ Hc Hpo Hup) as (Ha & [H1 H2 H3] & Hd & Hf).
  { intros w k. by eapply plain_up. }
  split; cbn; rewrite ?H1, ?H2, ?H3, ?Hd; done.
Qed.

Lemma server_sends mt body up down s : inv up down s → app_ok (C := C) mt body → ∃ down',
  inv up down' (mkExchange (send_body at_once mt body (server s)) (client s)
    (server_told s ++ [(mt, body)]) (client_told s)).
Proof.
  intros [Hs Hc Hup Hdown Hst Hct Hp] Hok.
  destruct (send_body_ok serverKeys (server s) (App mt body) mt body Hs) as (Ha & [H1 H2 H3] & Hd & Hf); [by split_and!|].
  exists (down ++ [App mt body]). split; cbn; rewrite ?H1, ?H2, ?H3, ?Hd; try done.
  - exact (Hf _ _ _ Hdown (λ _ _, eq_refl)).
  - rewrite fmap_app, Hst, apps_app, fmap_app. by rewrite app_assoc.
  - by rewrite controls_app, app_nil_r.
Qed.

Lemma client_sends mt body up down s : inv up down s → app_ok (C := C) mt body → ∃ up',
  inv up' down (mkExchange (server s) (send_body at_once mt body (client s))
    (server_told s) (client_told s ++ [(mt, body)])).
Proof.
  intros [Hs Hc Hup Hdown Hst Hct Hp] Hok.
  destruct (send_body_ok clientKeys (client s) (App mt body) mt body Hc) as (Ha & [H1 H2 H3] & Hd & Hf); [by split_and!|].
  exists (up ++ [App mt body]). split; cbn; rewrite ?H1, ?H2, ?H3, ?Hd; try done.
  - exact (Hf _ _ _ Hup (λ _ _, eq_refl)).
  - rewrite fmap_app, Hct, apps_app, fmap_app. by rewrite app_assoc.
  - by rewrite controls_app, app_nil_r.
Qed.

(** A coder that only learns the time keeps its keys. *)
Lemma server_coder g up down s : inv up down s →
  sk_moved (peer_coder (server s)) (g (peer_coder (server s))) (enc (server s)) (dec (server s)) →
  inv up down (set_server (on_coder g (server s)) s).
Proof.
  intros [Hs Hc Hup Hdown Hst Hct Hp] Hm.
  destruct (alive_coder _ _ _ _ _ Hs Hm) as (Ha & He & Hd). cbn in He, Hd.
  split; cbn; rewrite ?He, ?Hd; done.
Qed.
Lemma client_coder g up down s : inv up down s →
  sk_moved (peer_coder (client s)) (g (peer_coder (client s))) (enc (client s)) (dec (client s)) →
  inv up down (set_client (on_coder g (client s)) s).
Proof.
  intros [Hs Hc Hup Hdown Hst Hct Hp] Hm.
  destruct (alive_coder _ _ _ _ _ Hc Hm) as (Ha & He & Hd). cbn in He, Hd.
  split; cbn; rewrite ?He, ?Hd; done.
Qed.

Lemma next_seed clock up down s : inv up down s → exchanged (server s) ≠ 0%nat → ∃ down',
  inv up down' (set_server (exchangeNextSeed f rsa_encrypt at_once clock (server s)) s).
Proof.
  intros Hi Hn. pose proof Hi as [Hs Hc Hup Hdown Hst Hct Hp]. unfold exchangeNextSeed.
  rewrite (al_change _ _ Hs).
  assert (Hcase : change = true ∨ change = false) by (case change; auto).
  destruct Hcase as [Hch|Hch]; rewrite Hch; cbn [negb orb]; [|by exists down; destruct s].
  destruct (sk_isExpired _); cbn [negb]; [|by exists down; destruct s].
  destruct (decide (exchangingDecryptSeed_ (exchanger_ (server s)) = [])) as [Hx|Hx].
  - assert (Hph : controls up = [] ∧ controls down = [] ∧
      otherSidePublicKey_ (exchanger_ (server s)) = clientKeys.1 ∧ (0 < exchanged (client s))%nat)
      by (inversion Hp; subst; try done; try congruence; by auto).
    destruct Hph as (Hup0 & Hdown0 & Ho & Hm).
    destruct (exchangeSeed_ok [] clock (server s) (dec (client s)) down Hs Hch) as
      (Ha & Hd & He & Hh & Ho' & Hx' & e & d & a & Hse & Hf); [by split; cbn; [|lia]|done|done|done|].
    set (p := exchangeSeed f rsa_encrypt at_once [] clock (server s)) in *.
    exists (down ++ [Sys (ExchangeSeedMessage [] e d)]).
    apply (server_coder sk_extend _ _ (set_server p s)); [|exact (sk_extend_ok _ (al_coder _ _ Ha))].
    split; cbn; try done.
    + rewrite Hd. eapply flow_ext; [|exact Hup]. intros w0 k0 Hw0. rewrite !server_eff_plain; [done|..];
        intros <-; eapply (not_carried up ConfirmSeedMessage); rewrite ?Hup0; try done; by apply not_elem_of_nil.
    + rewrite apps_app, app_nil_r. exact Hst.
    + rewrite Hh. exact Hct.
    + rewrite Hup0, controls_app, Hdown0. by eapply ph_seeds.
  - exists down. unfold exchangeSeed. rewrite bool_decide_false by done. cbn [negb].
    apply server_coder; [done|]. apply sk_extend_ok, Hs.
Qed.

Lemma exec_inv e s s' : (∃ up down, inv up down s) → event_ok e → exec e s = Some s' →
  ∃ up down, inv up down s'.
Proof.
  intros (up & down & Hi) Hok He. destruct e as [clock| | | |mt body|mt body|clock|d]; cbn [exchange_exec] in He.
  - destruct (sent (client s)) as [|pkt rest] eqn:Es; [done|]. injection He as <-.
    destruct (server_reads clock pkt rest up down s Hi Es) as (? & ? & ? & _). by eexists _, _.
  - destruct (sent (server s)) as [|pkt rest] eqn:Es; [done|]. injection He as <-.
    destruct (client_reads pkt rest up down s Hi Es) as (? & ? & ? & _). by eexists _, _.
  - destruct (posted (server s)) eqn:Es; [done|]. injection He as <-. exists up, down. apply server_runs; by rewrite ?Es.
  - destruct (posted (client s)) eqn:Es; [done|]. injection He as <-. exists up, down. apply client_runs; by rewrite ?Es.
  - injection He as <-. exists up. by apply (server_sends mt body up down).
  - injection He as <-. destruct (client_sends mt body up down s Hi Hok) as [up' ?]. by exists up', down.
  - case_bool_decide; [done|]. injection He as <-. exists up. by apply (next_seed clock up down).
  - injection He as <-. exists up, down.
    apply (client_coder (sk_advance d) up down (set_server (on_coder (sk_advance d) (server s)) s)).
    + apply server_coder; [done|]. apply (sk_advance_ok d), (al_coder serverKeys _ (in_server _ _ _ Hi)).
    + apply (sk_advance_ok d), (al_coder clientKeys _ (in_client _ _ _ Hi)).
Qed.

Lemma run_inv es s s' : (∃ up down, inv up down s) → Forall event_ok es →
  exchange_run f rsa_encrypt rsa_decrypt at_once es s = Some s' → ∃ up down, inv up down s'.
Proof.
  intros Hi Hes. revert s Hi. induction Hes as [|e es He _ IH]; intros s Hi; cbn; [by intros [= <-]|].
  destruct (exec e s) as [s1|] eqn:E1; [|done]. cbn. apply IH. by eapply exec_inv.
Qed.

(** *** Deliveries come to an end *)

(** The events by which what was sent so far is delivered. *)
Definition delivers (e : exchange_event) : Prop :=
  match e with ServerReads _ | ClientReads | ServerRuns | ClientRuns => True | _ => False end.

Definition pending (up down : list carried) (s : Exchange (C := C)) : nat :=
  weights up + weights down + length (posted (server s)) + length (posted (client s)).

Lemma run_posted_lt p : posted p ≠ [] → (length (posted (run_posted p)) < length (posted p))%nat.
Proof.
  unfold run_posted. destruct (posted p) as [|[mt body] rest] eqn:Ep; [done|]. intros _.
  case_match; cbn; [lia|]. destruct (seal _ _ _) as [[pkt|] c]; cbn; lia.
Qed.

Lemma delivery_decreases e up down s s' : inv up down s → delivers e → exec e s = Some s' →
  ∃ up' down', inv up' down' s' ∧ (pending up' down' s' < pending up down s)%nat.
Proof.
  unfold pending. intros Hi Hd He. destruct e as [clock| | | |mt body|mt body|clock|d]; try done; cbn [exchange_exec] in He.
  - destruct (sent (client s)) as [|pkt rest] eqn:Es; [done|]. injection He as <-.
    destruct (server_reads clock pkt rest up down s Hi Es) as (up' & down' & Hi' & Hlt).
    exists up', down'. split; [done|]. cbn in *. lia.
  - destruct (sent (server s)) as [|pkt rest] eqn:Es; [done|]. injection He as <-.
    destruct (client_reads pkt rest up down s Hi Es) as (up' & down' & Hi' & Hlt).
    exists up', down'. split; [done|]. cbn in *. lia.
  - destruct (posted (server s)) as [|x l] eqn:Es; [done|]. injection He as <-. exists up, down.
    assert (Hne : posted (server s) ≠ []) by by rewrite Es.
    split; [by apply server_runs|]. pose proof (run_posted_lt _ Hne). rewrite <- Es. cbn. lia.
  - destruct (posted (client s)) as [|x l] eqn:Es; [done|]. injection He as <-. exists up, down.
    assert (Hne : posted (client s) ≠ []) by by rewrite Es.
    split; [by apply client_runs|]. pose proof (run_posted_lt _ Hne). rewrite <- Es. cbn. lia.
Qed.

Lemma deliveries_bounded es up down s s' : inv up down s → Forall delivers es →
  exchange_run f rsa_encrypt rsa_decrypt at_once es s = Some s' → (length es ≤ pending up down s)%nat.
Proof.
  intros Hi Hes. revert up down s Hi. induction Hes as [|e es He _ IH]; intros up down s Hi; cbn; [lia|].
  destruct (exec e s) as [s1|] eqn:E1; [|done]. cbn. intros Hr.
  destruct (delivery_decreases _ _ _ _ _ Hi He E1) as (up' & down' & Hi' & Hlt).
  specialize (IH _ _ _ Hi' Hr). lia.
Qed.

(** Nothing is on its way: the exchange is over, and every message was delivered. *)
Lemma inv_quiet up down s : inv up down s →
  sent (server s) = [] → sent (client s) = [] → posted (server s) = [] → posted (client s) = [] →
  (0 < exchanged (server s))%nat ∧ (0 < exchanged (client s))%nat ∧
  exchangingDecryptSeed_ (exchanger_ (server s)) = [] ∧
  enc (client s) = dec (server s) ∧ enc (server s) = dec (client s) ∧
  heard (client s) = padded_app <$> server_told s ∧ heard (server s) = padded_app <$> client_told s.
Proof.
  intros [Hs Hc Hup Hdown Hst Hct Hp] E1 E2 E3 E4. rewrite E2, E4 in Hup. rewrite E1, E3 in Hdown.
  destruct (flow_empty _ _ _ _ _ _ Hup) as [-> Hku]. destruct (flow_empty _ _ _ _ _ _ Hdown) as [-> Hkd].
  rewrite app_nil_r in Hst, Hct. inversion Hp; subst. by split_and!.
Qed.

(** Something is on its way: it can be delivered. *)
Lemma delivery_enabled s :
  sent (server s) ≠ [] ∨ sent (client s) ≠ [] ∨ posted (server s) ≠ [] ∨ posted (client s) ≠ [] →
  ∃ e, delivers e ∧ is_Some (exec e s).
Proof.
  intros [H1|[H1|[H1|H1]]].
  - exists ClientReads. cbn. destruct (sent (server s)); [done|]. by split.
  - exists (ServerReads 0). cbn. destruct (sent (client s)); [done|]. by split.
  - exists ServerRuns. cbn. destruct (posted (server s)); [done|]. by split.
  - exists ClientRuns. cbn. destruct (posted (client s)); [done|]. by split.
Qed.

(** *** The start *)

(** Two ends whose coders are configured alike and in step. *)
Record paired (cs cc : C) : Prop := {
  pa_server : sk_ok cs;
  pa_client : sk_ok cc;
  pa_up : sk_enc cc = sk_dec cs;
  pa_down : sk_enc cs = sk_dec cc;
  pa_cipher : sk_hasPacketCipher cs = cipher ∧ sk_hasPacketCipher cc = cipher;
  pa_change : sk_shouldExchange cs = change ∧ sk_shouldExchange cc = change;
}.

Lemma connect_inv cs cc : paired cs cc → ∃ up down,
  inv up down (connect_ends f at_once (Some serverKeys) (Some clientKeys) cs cc).
Proof.
  intros [Hs Hc Hup Hdown [Hx1 Hx2] [Hy1 Hy2]]. unfold connect_ends, server_exchangePublicKey, client_exchangePublicKey.
  cbn [peer_coder newPeer]. rewrite Hx1, Hx2.
  assert (Hcase : cipher = true ∨ cipher = false) by (case cipher; auto).
  destruct Hcase as [Hci|Hci]; rewrite Hci; cbn [negb].
  - unfold generatePublicAndPrivateKey. cbn [rsaKeys_ newPeer].
    pose proof (surjective_pairing clientKeys) as Ek. rewrite Ek. rewrite <- Ek.
    set (p := set_private clientKeys.2 _). assert (Ha : alive clientKeys p) by by split.
    destruct (send_message_ok clientKeys p (ExchangePublicKeyMessage clientKeys.1) Ha (rsa_public _ _ _ Hrsa))
      as (Ha' & [H1 H2 H3] & Hd & Hf).
    exists ([] ++ [Sys (ExchangePublicKeyMessage clientKeys.1)]), [].
    split; cbn; try (rewrite ?H2, ?H3; done).
    3: { rewrite H2. apply (ph_asked newExchanger Hci eq_refl). }
    + apply (Hf (server_eff []) (sk_dec cs) []); [|done]. cbn. rewrite Hup. apply flow_nil.
    + rewrite Hd. cbn. rewrite Hdown. apply flow_nil.
  - assert (Hch : change = false).
    { destruct (sk_shouldExchange cs) eqn:Ey; [|done]. pose proof (sk_cipher_ok cs Ey). congruence. }
    exists [], []. split; cbn; try done.
    + rewrite Hup. apply flow_nil.
    + rewrite Hdown. apply flow_nil.
    + apply ph_done; [done|congruence|lia|lia].
Qed.
End invariant.

(** ** Messages marshalled later: the first exchange fails *)

Section posted.
Context {C : Type} `{HC : SeedCoderSpec C}.
Context {f : SneStreamFactory} {E : Type} `{HT : Transport f E}.
Context (rsa_encrypt rsa_decrypt : list Z → list Z → option (list Z)).
Context (serverKeys clientKeys : list Z * list Z).
Hypothesis Hrsa : rsa_pair rsa_encrypt rsa_decrypt clientKeys.
Hypothesis Hserver : short_string serverKeys.1.

#[local] Abbreviation alive := (alive false true true).
#[local] Abbreviation enc p := (sk_enc (peer_coder p)).
#[local] Abbreviation dec p := (sk_dec (peer_coder p)).

(** The closure of a message marshals it with the key of the moment. *)
Lemma run_posted_one keys (p : Peer C) w mt body : alive keys p → posted p = [(mt, body)] → sent p = [] →
  carries_as f w mt body → ∃ pkt c,
  run_posted p = set_sent [pkt] (on_coder (λ _, c) (set_posted [] p)) ∧
  sk_sealed (enc p) mt body pkt ∧ sk_moved (peer_coder p) c (sk_next (enc p)) (dec p).
Proof.
  intros [Hc Hn Hk Hx Hy Ho] Hp Hs Hw. destruct (carries_as_sendable f w mt body Hw) as [Hmt Hl].
  destruct (sk_seal_ok (peer_coder p) mt body Hc Hmt Hl) as (pkt & c & E1 & Hm & Hseal).
  exists pkt, c. split_and!; [|done|apply Hm..]. unfold run_posted. rewrite Hp.
  cbn [peer_connected set_posted]. rewrite Hn. cbn [negb peer_coder set_posted]. rewrite E1. cbn. by rewrite Hs.
Qed.

Lemma send_posted m (p : Peer C) : short_message m → ∃ body, carries_as f (Sys m) (system_type m) body ∧
  send_message f false m p = set_posted (posted p ++ [(system_type m, body)]) p.
Proof.
  intros Hm. destruct (body_of_ok (f := f) m Hm) as (body & Eb & Hl & _). exists body.
  split; [by apply carries_sys|]. unfold send_message. by rewrite Eb.
Qed.

Context (clock : Z) (cs cc : C).
Hypothesis Hpaired : paired true true cs cc.
(** The seed leads to another key than the client expects. *)
Hypothesis Hprint : ∀ c,
  sk_print (sk_seed (sk_generate clock c).1 (sk_enc cs)) ≠ sk_print (sk_dec cc).

(** The server answers with its seeds, and its key has changed. *)
Lemma first_seed_posted (p : Peer C) : alive serverKeys p → posted p = [] → sent p = [] →
  exists m body p', onExchangePublicKey f rsa_encrypt false clientKeys.1 clock p = p' ∧
  posted p' = [(system_type m, body)] ∧ carries_as f (Sys m) (system_type m) body ∧ sent p' = [] ∧
  exchanged p' = exchanged p ∧ alive serverKeys p' ∧ enc p' = sk_seed (sk_generate clock (peer_coder p)).1 (enc p).
Proof.
  intros Ha Hpo Hse. unfold onExchangePublicKey. rewrite (al_change _ _ _ _ _ Ha). cbn [negb].
  unfold generatePublicAndPrivateKey. cbn [rsaKeys_ set_otherSide set_exchanger].
  pose proof (surjective_pairing serverKeys) as Ek. rewrite (al_keys _ _ _ _ _ Ha), Ek. rewrite <- Ek.
  unfold exchangeFirstSeed, exchangeSeed. cbn [peer_coder set_private set_otherSide set_exchanger].
  rewrite (al_change _ _ _ _ _ Ha). cbn [negb]. rewrite bool_decide_true by done. cbn [negb].
  cbn [peer_coder set_exchanging set_private set_otherSide set_exchanger].
  destruct (sk_generate_ok clock (peer_coder p)) as [Hg1 Hg2]; [by rewrite (al_change _ _ _ _ _ Ha)|].
  destruct (sk_generate clock (peer_coder p)) as [se sd]. cbn [fst snd] in *.
  cbn [exchanger_ otherSidePublicKey_ set_exchanging set_exchanger set_private set_otherSide].
  destruct (encryptSeed_ok rsa_encrypt rsa_decrypt clientKeys Hrsa se Hg1) as (_ & He2 & _).
  destruct (encryptSeed_ok rsa_encrypt rsa_decrypt clientKeys Hrsa sd Hg2) as (_ & Hd2 & _).
  set (m := ExchangeSeedMessage _ _ _). set (p1 := set_exchanging sd _).
  destruct (send_posted m p1) as (body & Hb & E1); [by split_and!|].
  rewrite E1. exists m, body. eexists. split; [reflexivity|]. cbn. rewrite Hpo.
  destruct Ha as [Hc Hn Hk Hx Hy Ho]. destruct (sk_setEncrypt_ok se _ Hc) as (H1 & H2 & H3 & H4 & H5).
  split_and!; try done; try apply Hb. split; cbn; try done; congruence.
Qed.

Lemma posted_handshake : ∃ s,
  exchange_run f rsa_encrypt rsa_decrypt false [ClientRuns; ServerReads clock; ServerRuns; ClientReads]
    (connect_ends f false (Some serverKeys) (Some clientKeys) cs cc) = Some s ∧
  peer_connected (client s) = false ∧ exchanged (client s) = 0%nat ∧ exchanged (server s) = 0%nat.
Proof.
  destruct Hpaired as [Hs Hc Hup Hdown [Hx1 Hx2] [Hy1 Hy2]].
  unfold connect_ends, server_exchangePublicKey, client_exchangePublicKey.
  cbn [peer_coder newPeer]. rewrite Hx1, Hx2. cbn [negb]. unfold generatePublicAndPrivateKey. cbn [rsaKeys_ newPeer].
  pose proof (surjective_pairing clientKeys) as Ek. rewrite Ek. rewrite <- Ek.
  set (p0 := set_private clientKeys.2 _). assert (Ha0 : alive clientKeys p0) by by split.
  destruct (send_posted (ExchangePublicKeyMessage clientKeys.1) p0 (rsa_public _ _ _ Hrsa)) as (body & Hb & ->).
  set (p1 := set_posted _ p0). assert (Ha1 : alive clientKeys p1) by by split.
  destruct (run_posted_one clientKeys p1 _ _ _ Ha1 eq_refl eq_refl Hb) as (pkt & c1 & E1 & Hs1 & Hm1).
  cbn [exchange_run exchange_exec client posted p1 set_posted app p0 set_private set_exchanger newPeer].
  cbn [mbind option_bind]. fold p0. fold p1. rewrite E1.
  cbn [exchange_run exchange_exec client server posted sent p1 set_posted set_sent set_client set_server on_coder].
  cbn [mbind option_bind]. set (q0 := newPeer (Some serverKeys) cs).
  assert (Hq0 : alive serverKeys q0) by by split.
  destruct (receive_packet_ok (f := f) false true true serverKeys (server_handle f rsa_encrypt false clock) q0 _ _ _ pkt Hq0 Hb)
    as (c2 & E2 & Hq1 & He2 & Hd2); [cbn; rewrite <- Hup; exact Hs1|]. rewrite E2.
  set (q1 := on_coder (λ _, c2) q0) in *.
  destruct (first_seed_posted q1 Hq1 eq_refl eq_refl) as (m & body2 & q2 & E3 & Hp2 & Hb2 & Hs2 & Hn2 & Hq2 & He3).
  set (got := body ++ _).
  assert (Eh : server_handle f rsa_encrypt false clock (system_type (ExchangePublicKeyMessage clientKeys.1)) got q1 = q2).
  { unfold server_handle. cbn [system_type]. rewrite Z.eqb_refl. unfold got.
    rewrite (fields_ok (f := f) (ExchangePublicKeyMessage clientKeys.1) _ _ _ [VString []] Hb) by by repeat constructor.
    exact E3. }
  rewrite Eh. clear Eh E3.
  destruct (run_posted_one serverKeys q2 _ _ _ Hq2 Hp2 Hs2 Hb2) as (pkt2 & c3 & E4 & Hs4 & _).
  cbn [exchange_exec server client set_server set_client]. rewrite Hp2. cbn [mbind option_bind].
  rewrite E4. cbn [exchange_exec server client set_server set_client sent set_sent on_coder set_posted].
  cbn [mbind option_bind]. eexists. split; [reflexivity|].
  unfold receive_packet. cbn [peer_connected client server set_client set_server set_sent on_coder set_posted p1 p0
    set_private set_exchanger newPeer negb peer_coder exchanged].
  destruct Hm1 as (Hc1 & He1 & Hd1 & _). assert (Er : (open_packet pkt2 c1).1 = None).
  { eapply sk_open_refused; [exact Hc1|exact Hs4|]. rewrite He3, Hd1. cbn. rewrite He2. apply Hprint. }
  destruct (open_packet pkt2 c1) as [r c4]. cbn [fst] in Er. subst r. cbn. by rewrite Hn2.
Qed.
End posted.
