(* ===== verification/RsaCipher.v ===== *)
(** * security/cipher: RSA

    Models [RsaCipher] and [RsaCipherImpl] ([src/src/security/cipher/RsaCipher.cpp],
    [src/include/sne/security/cipher/RsaCipher.h]) over CryptoPP, which is a parameter:
    the class [CryptoPP] has the operations that the source calls and [CryptoPPSpec] what
    its documentation says of them.

    The output buffer is an array of [maxBufferLength] bytes at the end of the object; a
    write beyond it is undefined.  The [assert]s of the source are not there in a release
    build.  The keys that a cipher makes are what the exchange of seeds needs
    ([rsa_pair] of [SeedExchangeSpec.v]). *)

From S2P Require Import Prelude BitList Stream SeedExchange SeedExchangeSpec.

(** ** CryptoPP *)

(** [DecodingResult], or an exception. *)
Inductive decoding := Decoded (message : list Z) | InvalidCoding | DecryptError (what : string).

(** [RSAES_OAEP_SHA] and [RSASSA_PKCS1v15_SHA]; an operation answers [None] where it
    throws. *)
Class CryptoPP (Pool PublicKey PrivateKey : Type) := {
  newRandomPool : Pool;
  IncorporateEntropy : list Z → Pool → Pool;
  generate_key : nat → Pool → option (PrivateKey * Pool);       (* of a length in bits *)
  public_of : PrivateKey → PublicKey;
  DEREncode_private : PrivateKey → list Z;
  DEREncode_public : PublicKey → list Z;
  BERDecode_private : list Z → option PrivateKey;
  BERDecode_public : list Z → option PublicKey;
  FixedCiphertextLength : PublicKey → nat;
  FixedMaxPlaintextLength : PublicKey → nat;
  oaep_Encrypt : PublicKey → list Z → Pool → option (list Z) * Pool;
  oaep_Decrypt : PrivateKey → list Z → Pool → decoding * Pool;
  SignatureLength : PublicKey → nat;
  pkcs_Sign : PrivateKey → list Z → Pool → option (list Z) * Pool;
  pkcs_Verify : PublicKey → list Z → list Z → bool;
}.

(** A plaintext is padded with two digests of 20 bytes and two more bytes. *)
Class CryptoPPSpec (Pool PublicKey PrivateKey : Type) `{CryptoPP Pool PublicKey PrivateKey} := {
  decode_private k : BERDecode_private (DEREncode_private k) = Some k;
  decode_public k : BERDecode_public (DEREncode_public k) = Some k;
  generated_length n p k p' : generate_key n p = Some (k, p') →
    FixedCiphertextLength (public_of k) = ((n + 7) / 8)%nat ∧
    FixedMaxPlaintextLength (public_of k) = ((n - 1) / 8 - 41)%nat;
  public_encoding n p k p' : generate_key n p = Some (k, p') → (n ≤ 4096)%nat →
    Forall is_byte (DEREncode_public (public_of k)) ∧ (length (DEREncode_public (public_of k)) ≤ 4096)%nat;
  Encrypt_fits k m p : (length m ≤ FixedMaxPlaintextLength k)%nat → Forall is_byte m →
    ∃ x p', oaep_Encrypt k m p = (Some x, p') ∧ Forall is_byte x;
  Encrypt_length k m p x p' : oaep_Encrypt k m p = (Some x, p') → length x = FixedCiphertextLength k;
  Decrypt_Encrypt k m p x p' q : oaep_Encrypt (public_of k) m p = (Some x, p') → (oaep_Decrypt k x q).1 = Decoded m;
  Decrypt_length k x p m p' : oaep_Decrypt k x p = (Decoded m, p') → (length m ≤ FixedCiphertextLength (public_of k))%nat;
}.

Definition maxBufferLength : nat := 128.
Definition defaultPrivateKeyLength : nat := 512.
Definition defaultPrivateKeySeedLength : nat := 64.

Section cipher.
Context {Pool PublicKey PrivateKey : Type} `{CryptoPP Pool PublicKey PrivateKey}.

(** ** [RsaCipherImpl] *)

Record RsaCipherImpl := mkRsaImpl {
  randomPool_ : Pool;
  publicKey_ : list Z;
  privateKey_ : list Z;
  outputBuffer_ : list Z;
}.

Definition set_pool (p : Pool) (c : RsaCipherImpl) : RsaCipherImpl := mkRsaImpl p (publicKey_ c) (privateKey_ c) (outputBuffer_ c).
Definition set_output (l : list Z) (c : RsaCipherImpl) : RsaCipherImpl := mkRsaImpl (randomPool_ c) (publicKey_ c) (privateKey_ c) l.

Definition initRandomPool (seed : list Z) : Pool := IncorporateEntropy seed newRandomPool.
(** [buffer]: what is in the memory of the array. *)
Definition newRsaImpl_generate (buffer : list Z) (privateKeyLength : nat) (seed : list Z) : option RsaCipherImpl :=
  '(k, p) ← generate_key privateKeyLength (initRandomPool seed);
  Some (mkRsaImpl p (DEREncode_public (public_of k)) (DEREncode_private k) buffer).
Definition newRsaImpl_keys (buffer publicKey privateKey seed : list Z) : RsaCipherImpl :=
  mkRsaImpl (initRandomPool seed) publicKey privateKey buffer.

(** [l] at the start of the array. *)
Definition put_output (l : list Z) : st RsaCipherImpl unit :=
  if decide (length l ≤ maxBufferLength)%nat then modify (λ c, set_output (l ++ drop (length l) (outputBuffer_ c)) c)
  else throw (Undefined "a write beyond outputBuffer_").
Definition run_pool {A} (f : Pool → A * Pool) : st RsaCipherImpl A := λ c,
  let '(a, p) := f (randomPool_ c) in (Ok a, set_pool p c).
Definition decode_key {K} (k : option K) : st RsaCipherImpl K :=
  match k with Some k => mret k | None => throw (RuntimeError "BER decode error") end.

Definition impl_encryptOtherPublic (message otherPublicKey : list Z) : st RsaCipherImpl nat :=
  k ← decode_key (BERDecode_public otherPublicKey);
  x ← run_pool (oaep_Encrypt k message);
  match x with
  | None => throw (RuntimeError "message too long for this public key")
  | Some x => put_output x ;; mret (FixedCiphertextLength k)
  end.
Definition impl_encrypt (message : list Z) : st RsaCipherImpl nat :=
  c ← get_st; impl_encryptOtherPublic message (publicKey_ c).

Definition impl_decrypt (encrypted : list Z) : st RsaCipherImpl nat :=
  c ← get_st;
  k ← decode_key (BERDecode_private (privateKey_ c));
  if decide (length encrypted < FixedCiphertextLength (public_of k))%nat then mret 0%nat
  else
    r ← run_pool (oaep_Decrypt k (take (FixedCiphertextLength (public_of k)) encrypted));
    match r with
    | Decoded m => put_output m ;; mret (length m)
    | InvalidCoding => mret 0%nat
    | DecryptError what => throw (RuntimeError what)
    end.

(** An [ArraySink] drops what does not fit. *)
Definition impl_sign (message : list Z) : st RsaCipherImpl nat :=
  c ← get_st;
  k ← decode_key (BERDecode_private (privateKey_ c));
  s ← run_pool (pkcs_Sign k message);
  match s with
  | None => throw (RuntimeError "key too short for this signature scheme")
  | Some s => put_output (take maxBufferLength s) ;; mret (SignatureLength (public_of k))
  end.
Definition impl_verifyOtherPublic (message signature otherPublicKey : list Z) : st RsaCipherImpl bool :=
  k ← decode_key (BERDecode_public otherPublicKey);
  if decide (length signature ≠ SignatureLength k) then mret false else mret (pkcs_Verify k message signature).
Definition impl_verify (message signature : list Z) : st RsaCipherImpl bool :=
  c ← get_st; impl_verifyOtherPublic message signature (publicKey_ c).

(** ** [RsaCipher] *)

Record RsaCipher := mkRsa { impl_ : RsaCipherImpl; lastErrorMessage_ : string }.

Definition newRsaCipher (buffer : list Z) (privateKeyLength : nat) (seed : list Z) : option RsaCipher :=
  i ← newRsaImpl_generate buffer privateKeyLength seed; Some (mkRsa i "").
Definition newRsaCipher_keys (buffer publicKey privateKey seed : list Z) : RsaCipher :=
  mkRsa (newRsaImpl_keys buffer publicKey privateKey seed) "".

(** [try { return impl_->m; } catch (const std::exception& e) { ... } return failed;] *)
Definition guarded {A} (failed : A) (m : st RsaCipherImpl A) : st RsaCipher A := λ c,
  match m (impl_ c) with
  | (Ok a, i) => (Ok a, mkRsa i (lastErrorMessage_ c))
  | (Throw (RuntimeError what), i) => (Ok failed, mkRsa i what)
  | (Throw e, i) => (Throw e, mkRsa i (lastErrorMessage_ c))
  end.

Definition rsa_encrypt (message : list Z) : st RsaCipher nat := guarded 0%nat (impl_encrypt message).
Definition rsa_encryptOtherPublic (message otherPublicKey : list Z) : st RsaCipher nat :=
  guarded 0%nat (impl_encryptOtherPublic message otherPublicKey).
Definition rsa_decrypt (encrypted : list Z) : st RsaCipher nat := guarded 0%nat (impl_decrypt encrypted).
Definition rsa_sign (message : list Z) : st RsaCipher nat := guarded 0%nat (impl_sign message).
Definition rsa_verify (message signature : list Z) : st RsaCipher bool := guarded false (impl_verify message signature).
Definition rsa_verifyOtherPublic (message signature otherPublicKey : list Z) : st RsaCipher bool :=
  guarded false (impl_verifyOtherPublic message signature otherPublicKey).
Definition getPublicKey (c : RsaCipher) : list Z := publicKey_ (impl_ c).
Definition getPrivateKey (c : RsaCipher) : list Z := privateKey_ (impl_ c).
Definition getOutputBuffer (c : RsaCipher) : list Z := outputBuffer_ (impl_ c).

(** [message.assign(getOutputBuffer(), length)]: a read beyond the array is undefined. *)
Definition assign_output (len : nat) : st RsaCipher (bool * list Z) :=
  c ← get_st;
  if decide (len ≤ length (getOutputBuffer c))%nat then mret (true, take len (getOutputBuffer c))
  else throw (Undefined "a read beyond outputBuffer_").
(** [bool encrypt(std::string&, const std::string&)], [bool decrypt(std::string&)]: the
    result and the string. *)
Definition encrypt_string (message otherPublicKey : list Z) : st RsaCipher (bool * list Z) :=
  encryptedLen ← rsa_encryptOtherPublic message otherPublicKey;
  if decide (encryptedLen ≤ 0)%nat then mret (false, message) else assign_output encryptedLen.
Definition decrypt_string (message : list Z) : st RsaCipher (bool * list Z) :=
  decryptedLen ← rsa_decrypt message;
  if decide (decryptedLen ≤ 0)%nat then mret (false, message) else assign_output decryptedLen.
End cipher.
Arguments RsaCipherImpl : clear implicits.
Arguments RsaCipher : clear implicits.

(** ** What a cipher does *)

Section spec.
Context {Pool PublicKey PrivateKey : Type} `{HC : CryptoPPSpec Pool PublicKey PrivateKey}.
#[local] Abbreviation cipher := (RsaCipher Pool).

Definition cipher_wf (c : cipher) : Prop := length (getOutputBuffer c) = maxBufferLength.

Lemma put_output_ok l (i : RsaCipherImpl Pool) : (length l ≤ maxBufferLength)%nat → length (outputBuffer_ i) = maxBufferLength → ∃ i',
  put_output l i = (Ok tt, i') ∧ length (outputBuffer_ i') = maxBufferLength ∧ take (length l) (outputBuffer_ i') = l ∧
  publicKey_ i' = publicKey_ i ∧ privateKey_ i' = privateKey_ i.
Proof.
  intros Hl Hi. unfold put_output. rewrite decide_True by done. eexists. split; [done|]. cbn.
  rewrite length_app, length_drop, take_app_length. split_and!; [lia|done|done|done].
Qed.

(** A message sealed for a key that fits the buffer. *)
Lemma encrypt_string_ok (c : cipher) key k m : cipher_wf c → BERDecode_public key = Some k →
  (length m ≤ FixedMaxPlaintextLength k)%nat → Forall is_byte m → (0 < FixedCiphertextLength k ≤ maxBufferLength)%nat →
  ∃ x p p' c', encrypt_string m key c = (Ok (true, x), c') ∧ oaep_Encrypt k m p = (Some x, p') ∧ cipher_wf c' ∧
    Forall is_byte x ∧ length x = FixedCiphertextLength k.
Proof.
  intros Hc Hk Hm Hb Hl. destruct c as [i e]. unfold cipher_wf, getOutputBuffer in Hc. cbn in Hc.
  destruct (Encrypt_fits k m (randomPool_ i) Hm Hb) as (x & p' & Ex & Hx). pose proof (Encrypt_length _ _ _ _ _ Ex) as Hlx.
  destruct (put_output_ok x (set_pool p' i)) as (i' & Ei & Hi' & Ht & _ & _); [lia|done|].
  exists x, (randomPool_ i), p', (mkRsa i' e).
  assert (Em : impl_encryptOtherPublic m key i = (Ok (FixedCiphertextLength k), i')).
  { unfold impl_encryptOtherPublic. rewrite Hk. cbn [decode_key].
    assert (E1 : run_pool (oaep_Encrypt k m) i = (Ok (Some x), set_pool p' i)) by (unfold run_pool; by rewrite Ex).
    cbv beta iota delta [mbind st_bind mret st_ret] in *. rewrite E1, Ei. done. }
  assert (E2 : rsa_encryptOtherPublic m key (mkRsa i e) = (Ok (FixedCiphertextLength k), mkRsa i' e))
    by (unfold rsa_encryptOtherPublic, guarded; cbn [impl_]; by rewrite Em).
  split_and!; [|done|done|done|done]. unfold encrypt_string. st_step E2. rewrite decide_False by lia.
  unfold assign_output. cbv beta iota delta [mbind st_bind get_st]. unfold getOutputBuffer. cbn [impl_]. rewrite decide_True by lia.
  by rewrite <- Hlx, Ht.
Qed.

Lemma decrypt_string_ok (c : cipher) k m p p' x : cipher_wf c → BERDecode_private (getPrivateKey c) = Some k →
  oaep_Encrypt (public_of k) m p = (Some x, p') → (FixedCiphertextLength (public_of k) ≤ maxBufferLength)%nat → m ≠ [] →
  ∃ c', decrypt_string x c = (Ok (true, m), c') ∧ cipher_wf c'.
Proof.
  intros Hc Hk Ex Hl Hm. destruct c as [i e]. unfold cipher_wf, getOutputBuffer, getPrivateKey in *. cbn in *.
  pose proof (Encrypt_length _ _ _ _ _ Ex) as Hlx. pose proof (Decrypt_Encrypt k m p x p' (randomPool_ i) Ex) as Hd.
  destruct (oaep_Decrypt k x (randomPool_ i)) as [r q] eqn:Ed. cbn in Hd. subst r. pose proof (Decrypt_length _ _ _ _ _ Ed) as Hlm.
  destruct (put_output_ok m (set_pool q i)) as (i' & Ei & Hi' & Ht & _ & _); [lia|done|].
  assert (Em : impl_decrypt x i = (Ok (length m), i')).
  { unfold impl_decrypt. cbv beta iota delta [mbind st_bind get_st]. rewrite Hk. cbn [decode_key]. cbv beta iota delta [mret st_ret].
    rewrite decide_False by lia. assert (E1 : run_pool (oaep_Decrypt k (take (FixedCiphertextLength (public_of k)) x)) i = (Ok (Decoded m), set_pool q i)).
    { unfold run_pool. rewrite take_ge by lia. by rewrite Ed. }
    rewrite E1, Ei. done. }
  assert (E2 : rsa_decrypt x (mkRsa i e) = (Ok (length m), mkRsa i' e)) by (unfold rsa_decrypt, guarded; cbn [impl_]; by rewrite Em).
  exists (mkRsa i' e). split; [|done]. unfold decrypt_string. st_step E2. rewrite decide_False by (destruct m; cbn; [done|lia]).
  unfold assign_output. cbv beta iota delta [mbind st_bind get_st]. unfold getOutputBuffer. cbn [impl_].
  assert (length m ≤ length (outputBuffer_ i'))%nat by lia. rewrite decide_True by done. by rewrite Ht.
Qed.

(** What a cipher answers, as the functions of the exchange of seeds. *)
Definition seal_with (c : cipher) (key seed : list Z) : option (list Z) :=
  match (encrypt_string seed key c).1 with Ok (true, x) => Some x | _ => None end.
Definition open_with (c : cipher) (key x : list Z) : option (list Z) :=
  match (decrypt_string x (mkRsa (mkRsaImpl (randomPool_ (impl_ c)) (publicKey_ (impl_ c)) key (outputBuffer_ (impl_ c))) (lastErrorMessage_ c))).1 with
  | Ok (true, m) => Some m | _ => None end.

(** A cipher with the keys it made opens what is sealed for it. *)
Lemma new_cipher_opens buffer seed c (sender : cipher) m : length buffer = maxBufferLength →
  newRsaCipher buffer defaultPrivateKeyLength seed = Some c → cipher_wf sender →
  m ≠ [] → (length m ≤ 22)%nat → Forall is_byte m → ∃ x sender' c',
  encrypt_string m (getPublicKey c) sender = (Ok (true, x), sender') ∧ cipher_wf sender' ∧ length x = 64%nat ∧
  decrypt_string x c = (Ok (true, m), c') ∧ cipher_wf c' ∧ Forall is_byte x.
Proof.
  intros Hb. unfold newRsaCipher, newRsaImpl_generate.
  destruct (generate_key defaultPrivateKeyLength (initRandomPool seed)) as [[k p]|] eqn:Eg; [|done]. intros [= <-] Hs Hne Hlen Hmb.
  destruct (generated_length _ _ _ _ Eg) as [Hl Hm].
  change ((defaultPrivateKeyLength + 7) / 8)%nat with 64%nat in Hl. change ((defaultPrivateKeyLength - 1) / 8 - 41)%nat with 22%nat in Hm.
  destruct (encrypt_string_ok sender _ (public_of k) m Hs (decode_public _)) as (x & q & q' & s' & E1 & Ex & Hs' & Hx & Hlx);
    [lia|done|unfold maxBufferLength; lia|].
  set (c := mkRsa (mkRsaImpl p (DEREncode_public (public_of k)) (DEREncode_private k) buffer) "").
  destruct (decrypt_string_ok c k m q q' x) as (c' & E2 & Hc'); [exact Hb|apply decode_private|exact Ex|unfold maxBufferLength; lia|done|].
  exists x, s', c'. split_and!; [exact E1|done|lia|exact E2|done|done].
Qed.

(** The keys a session makes are those the exchange of seeds needs. *)
Lemma generated_pair buffer seed c (sender : cipher) : length buffer = maxBufferLength → cipher_wf sender →
  newRsaCipher buffer defaultPrivateKeyLength seed = Some c →
  rsa_pair (seal_with sender) (open_with c) (getPublicKey c, getPrivateKey c).
Proof.
  intros Hb Hs Hn. split.
  - unfold newRsaCipher, newRsaImpl_generate in Hn.
    destruct (generate_key defaultPrivateKeyLength (initRandomPool seed)) as [[k p]|] eqn:Eg; [|done]. injection Hn as <-.
    exact (public_encoding _ _ _ _ Eg ltac:(unfold defaultPrivateKeyLength; lia)).
  - intros m (Hne & Hlen & Hmb).
    destruct (new_cipher_opens buffer seed c sender m Hb Hn Hs Hne ltac:(lia) Hmb) as (x & s' & c' & E1 & _ & Hlx & E2 & _ & Hx).
    exists x. unfold seal_with. cbn [fst snd]. rewrite E1. split_and!; [done|by intros ->|split; [done|lia]|].
    destruct c as [[pool pub priv out] err].
    change (open_with _ _ x) with (match (decrypt_string x (mkRsa (mkRsaImpl pool pub priv out) err)).1 with Ok (true, m) => Some m | _ => None end).
    by rewrite E2.
Qed.

(** A public key whose modulus is longer than the buffer. *)
Lemma encrypt_overflows (c : cipher) key k m : BERDecode_public key = Some k → Forall is_byte m →
  (length m ≤ FixedMaxPlaintextLength k)%nat → (maxBufferLength < FixedCiphertextLength k)%nat →
  (encrypt_string m key c).1 = Throw (Undefined "a write beyond outputBuffer_").
Proof.
  intros Hk Hb Hm Hl. destruct c as [i e]. destruct (Encrypt_fits k m (randomPool_ i) Hm Hb) as (x & p' & Ex & Hx).
  pose proof (Encrypt_length _ _ _ _ _ Ex) as Hlx.
  unfold encrypt_string, rsa_encryptOtherPublic, guarded, impl_encryptOtherPublic, run_pool. cbv beta iota delta [mbind st_bind mret st_ret].
  cbn [impl_]. rewrite Hk. cbn [decode_key]. cbv beta iota delta [mret st_ret]. rewrite Ex. unfold put_output. by rewrite decide_False by lia.
Qed.
End spec.
