(* ===== verification/Timers.v ===== *)
(** * base/io_context: a timer on a clock

    Models [AsioTimer] ([src/src/base/io_context/AsioTimer.h]) with the times and the
    repetitions that [TcpSession.v] leaves out.  The [deadline_timer] of boost is
    modelled after its documentation: [expires_from_now] and [cancel] abort the wait
    in progress, whose handler is queued with an error; a wait that ends at its
    expiry queues its handler without one; the [io_context] runs the handlers of a
    timer in the order they were queued.  Nothing runs before it is due, and no more
    than a [latency] after, which is what the theorems on times depend on.

    A session with timers is a [TimedObject]: its operations are the calls of its
    methods by the engine and the application; the machine of this file runs them,
    the timers and the clock. *)

From S2P Require Import Prelude.

Inductive wait := OnceWait | RepeatWait (timeout : Z).

(** [tm_queue]: handlers to run, without an error or with one, since when. *)
Record Timer := mkTimer {
  tm_running : bool;
  tm_expiry : Z;
  tm_wait : option wait;
  tm_queue : list (wait * bool * Z);
}.
Definition createTimer : Timer := mkTimer false 0 None [].

Definition set_running (b : bool) (t : Timer) : Timer :=
  mkTimer b (tm_expiry t) (tm_wait t) (tm_queue t).

(** *** [boost::asio::deadline_timer] *)

Definition abort_wait (now : Z) (t : Timer) : Timer :=
  match tm_wait t with
  | Some w => mkTimer (tm_running t) (tm_expiry t) None (tm_queue t ++ [(w, false, now)])
  | None => t
  end.
Definition expires_from_now (now timeout : Z) (t : Timer) : Timer :=
  let t := abort_wait now t in mkTimer (tm_running t) (now + timeout) (tm_wait t) (tm_queue t).
Definition async_wait (w : wait) (t : Timer) : Timer :=
  mkTimer (tm_running t) (tm_expiry t) (Some w) (tm_queue t).

(** *** [AsioTimer] *)

Definition timer_once (now timeout : Z) (t : Timer) : Timer :=
  set_running true (async_wait OnceWait (expires_from_now now timeout t)).
Definition timer_repeat (now timeout : Z) (t : Timer) : Timer :=
  set_running true (async_wait (RepeatWait timeout) (expires_from_now now timeout t)).
Definition timer_cancel (now : Z) (t : Timer) : Timer :=
  set_running false (if tm_running t then abort_wait now t else t).

Section handlers.
Context {S : Type} (get : S → Timer) (upd : (Timer → Timer) → S → S) (timedOut : S → S).

Definition timer_handle_timeout (ok : bool) (s : S) : S :=
  let s :=
    if ok then
      if tm_running (get s) then timedOut (upd (set_running false) s) else s
    else s in
  upd (set_running false) s.

Definition handle_repeat_timeout (now : Z) (ok : bool) (timeout : Z) (s : S) : S :=
  if ok then
    if tm_running (get s) then timedOut (upd (timer_repeat now timeout) s) else s
  else upd (set_running false) s.

Definition run_wait (now : Z) (w : wait) (ok : bool) (s : S) : S :=
  match w with
  | OnceWait => timer_handle_timeout ok s
  | RepeatWait timeout => handle_repeat_timeout now ok timeout s
  end.
End handlers.

(** The wait ends at its expiry. *)
Definition timer_expires (t : Timer) : Timer :=
  match tm_wait t with
  | Some w => mkTimer (tm_running t) (tm_expiry t) None (tm_queue t ++ [(w, true, tm_expiry t)])
  | None => t
  end.
Definition dequeue (t : Timer) : Timer := mkTimer (tm_running t) (tm_expiry t) (tm_wait t) (drop 1 (tm_queue t)).

(** At [when], nothing is later than the latency allows. *)
Definition on_time (latency when : Z) (t : Timer) : Prop :=
  (tm_wait t ≠ None → when ≤ tm_expiry t + latency) ∧ Forall (λ x, when ≤ x.2 + latency) (tm_queue t).
#[global] Instance on_time_dec latency when t : Decision (on_time latency when t).
Proof. unfold on_time. apply _. Defined.

(** ** An object with timers *)

Class TimedObject (S W Op : Type) := {
  ob_timers : list W;
  ob_timer : W → S → option Timer;
  ob_update : W → (Timer → Timer) → S → S;
  ob_handler : W → Z → wait → bool → S → S; (* of a wait, run at a time, without an error or with one *)
  ob_call : Z → Op → S → option S;          (* [None]: not called in this state *)
  ob_due : Z → S → bool;                    (* what else must happen in time does *)
}.

Inductive timed_event (W Op : Type) :=
| Passes (d : Z)
| Expires (w : W)
| Runs (w : W)
| Calls (op : Op).
Arguments Passes {W Op} _.
Arguments Expires {W Op} _.
Arguments Runs {W Op} _.
Arguments Calls {W Op} _.

Section machine.
Context {S W Op : Type} `{TimedObject S W Op}.
Context (latency : Z).

Definition all_on_time (when : Z) (s : S) : Prop :=
  Forall (λ w, on_time latency when (default createTimer (ob_timer w s))) ob_timers.
#[global] Instance all_on_time_dec when s : Decision (all_on_time when s).
Proof. unfold all_on_time. apply _. Defined.

Definition timed_exec (e : timed_event W Op) (x : Z * S) : option (Z * S) :=
  let '(now, s) := x in
  match e with
  | Passes d => if decide (0 ≤ d ∧ all_on_time (now + d) s ∧ ob_due (now + d) s = true) then Some (now + d, s) else None
  | Expires w =>
      t ← ob_timer w s;
      if decide (tm_wait t ≠ None ∧ tm_expiry t ≤ now) then Some (now, ob_update w timer_expires s) else None
  | Runs w =>
      t ← ob_timer w s;
      match tm_queue t with
      | [] => None
      | (k, ok, _) :: _ =>
          let s := ob_update w dequeue s in
          Some (now, ob_handler w now k ok s)
      end
  | Calls op => s' ← ob_call now op s; Some (now, s')
  end.

Fixpoint timed_run (es : list (timed_event W Op)) (x : Z * S) : option (Z * S) :=
  match es with
  | [] => Some x
  | e :: es => x ← timed_exec e x; timed_run es x
  end.

(** Every state of a run has an invariant that every event keeps. *)
Lemma timed_run_inv (I : Z * S → Prop) (P : timed_event W Op → Prop) es x y :
  (∀ e x y, P e → I x → timed_exec e x = Some y → I y) →
  Forall P es → I x → timed_run es x = Some y → I y.
Proof.
  intros Hstep Hes. revert x. induction Hes as [|e es He _ IH]; intros x Hx; cbn; [by intros [= <-]|].
  destruct (timed_exec e x) as [x'|] eqn:E; [|done]. cbn. apply IH. by eapply Hstep.
Qed.

Lemma timed_run_app es es' x y : timed_run (es ++ es') x = Some y ↔
  ∃ z, timed_run es x = Some z ∧ timed_run es' z = Some y.
Proof.
  revert x. induction es as [|e es IH]; intros x; cbn.
  { split; [by intros; exists x|by intros (z & [= <-] & ?)]. }
  destruct (timed_exec e x) as [x'|]; cbn; [apply IH|]. split; [done|by intros (z & ? & _)].
Qed.

(** *** The machine is never stuck: what is due can happen *)

Definition by_itself (e : timed_event W Op) : Prop := match e with Calls _ => False | _ => True end.

Lemma not_on_time when t : 0 ≤ latency → ¬ on_time latency (when + 1) t →
  (tm_wait t ≠ None ∧ tm_expiry t ≤ when) ∨ tm_queue t ≠ [].
Proof.
  intros Hl Hn. destruct (decide (tm_queue t = [])) as [Hq|Hq]; [left|by right].
  destruct (decide (tm_wait t = None)) as [Hw|Hw].
  { destruct Hn. split; [by rewrite Hw|]. rewrite Hq. constructor. }
  split; [done|]. destruct (decide (tm_expiry t ≤ when)) as [|Hgt]; [done|]. destruct Hn.
  split; [lia|]. rewrite Hq. constructor.
Qed.

Lemma machine_moves x : 0 ≤ latency → (∀ when s, ob_due when s = true) →
  ∃ e y, by_itself e ∧ timed_exec e x = Some y.
Proof.
  intros Hl Hdue. destruct x as [now s].
  destruct (decide (all_on_time (now + 1) s)) as [Hon|Hoff].
  { exists (Passes 1), (now + 1, s). split; [done|]. cbn [timed_exec]. rewrite decide_True; [done|].
    split_and!; [lia|done|apply Hdue]. }
  apply not_Forall_Exists, Exists_exists in Hoff as (w & _ & Hw); [|apply _].
  cbn in Hw. destruct (ob_timer w s) as [t|] eqn:Et; cbn in Hw.
  2: { destruct Hw. split; [done|constructor]. }
  apply not_on_time in Hw as [Hw|Hq]; [| |done].
  - eexists (Expires w), _. split; [done|]. cbn [timed_exec]. rewrite Et. cbn. by rewrite decide_True.
  - destruct (tm_queue t) as [|[[k ok] since] rest] eqn:Eq; [done|].
    eexists (Runs w), _. split; [done|]. cbn [timed_exec]. rewrite Et. cbn [mbind option_bind]. by rewrite Eq.
Qed.
End machine.

(** ** A timer that repeats, undisturbed *)

(** The wait is in progress, or has ended and its handler is queued. *)
Definition awaiting (k : wait) (t : Timer) : Prop :=
  (tm_wait t = Some k ∧ tm_queue t = []) ∨ (tm_wait t = None ∧ tm_queue t = [(k, true, tm_expiry t)]).
Definition repeating (period : Z) (t : Timer) : Prop := tm_running t = true ∧ awaiting (RepeatWait period) t.
Definition waiting_once (t : Timer) : Prop := tm_running t = true ∧ awaiting OnceWait t.
(** No wait, and no handler to run. *)
Definition idle (t : Timer) : Prop := tm_running t = false ∧ tm_wait t = None ∧ tm_queue t = [].

Lemma createTimer_idle : idle createTimer.
Proof. done. Qed.

Lemma cancel_idle now t : idle t → idle (timer_cancel now t).
Proof. intros (Hr & Hw & Hq). unfold timer_cancel. by rewrite Hr. Qed.

Lemma awaiting_expires k t : awaiting k t → tm_wait t ≠ None →
  awaiting k (timer_expires t) ∧ tm_expiry (timer_expires t) = tm_expiry t ∧ tm_running (timer_expires t) = tm_running t.
Proof.
  intros [[Hw Hq]|[Hw _]] Hne; [|done]. unfold timer_expires. rewrite Hw, Hq. cbn.
  split_and!; [|done|done]. by right.
Qed.
(** Its handler is the one queued. *)
Lemma awaiting_runs k t k' ok since rest : awaiting k t → tm_queue t = (k', ok, since) :: rest →
  k' = k ∧ ok = true ∧ tm_wait (dequeue t) = None ∧ tm_queue (dequeue t) = [] ∧ tm_expiry t = since.
Proof.
  intros [[_ Hq]|[Hw Hq]] Hk; rewrite Hq in Hk; [done|]. injection Hk as <- <- <- <-.
  unfold dequeue. cbn. by rewrite Hw, Hq.
Qed.
Lemma awaiting_on_time latency k t when : awaiting k t → on_time latency when t → when ≤ tm_expiry t + latency.
Proof.
  intros [[Hw _]|[_ Hq]] [H1 H2]; [apply H1; by rewrite Hw|].
  rewrite Hq in H2. by apply Forall_cons in H2 as [? _].
Qed.
(** A wait that starts when none is in progress. *)
Lemma async_wait_awaiting now timeout k t : tm_wait t = None → tm_queue t = [] →
  awaiting k (async_wait k (expires_from_now now timeout t)) ∧
  tm_expiry (async_wait k (expires_from_now now timeout t)) = now + timeout.
Proof. intros Hw Hq. unfold expires_from_now, abort_wait. rewrite Hw. cbn. split; [|done]. by left. Qed.

Lemma repeat_idle now period t : idle t →
  repeating period (timer_repeat now period t) ∧ tm_expiry (timer_repeat now period t) = now + period.
Proof.
  intros (_ & Hw & Hq). destruct (async_wait_awaiting now period (RepeatWait period) t Hw Hq) as [H1 H2].
  split; [|done]. by split.
Qed.
Lemma once_idle now timeout t : idle t →
  waiting_once (timer_once now timeout t) ∧ tm_expiry (timer_once now timeout t) = now + timeout.
Proof.
  intros (_ & Hw & Hq). destruct (async_wait_awaiting now timeout OnceWait t Hw Hq) as [H1 H2].
  split; [|done]. by split.
Qed.
Lemma repeating_expires period t : repeating period t → tm_wait t ≠ None →
  repeating period (timer_expires t) ∧ tm_expiry (timer_expires t) = tm_expiry t.
Proof.
  intros [Hr Ha] Hne. destruct (awaiting_expires _ _ Ha Hne) as (Ha' & He & Hr').
  split; [|done]. split; [by rewrite Hr'|done].
Qed.
Lemma waiting_expires t : waiting_once t → tm_wait t ≠ None →
  waiting_once (timer_expires t) ∧ tm_expiry (timer_expires t) = tm_expiry t.
Proof.
  intros [Hr Ha] Hne. destruct (awaiting_expires _ _ Ha Hne) as (Ha' & He & Hr').
  split; [|done]. split; [by rewrite Hr'|done].
Qed.

(** The handler finds the timer running. *)
Lemma repeating_runs period t k ok since rest : repeating period t → tm_queue t = (k, ok, since) :: rest →
  k = RepeatWait period ∧ ok = true ∧ tm_running t = true ∧
  ∀ now, repeating period (timer_repeat now period (dequeue t)) ∧
    tm_expiry (timer_repeat now period (dequeue t)) = now + period.
Proof.
  intros [Hr Ha] Hk. destruct (awaiting_runs _ _ _ _ _ _ Ha Hk) as (-> & -> & Hw & Hq & _).
  split_and!; [done|done|done|]. intros now. unfold timer_repeat.
  destruct (async_wait_awaiting now period (RepeatWait period) _ Hw Hq) as [H1 H2]. split; [|done]. by split.
Qed.
Lemma waiting_runs t k ok since rest : waiting_once t → tm_queue t = (k, ok, since) :: rest →
  k = OnceWait ∧ ok = true ∧ tm_running t = true ∧ idle (set_running false (dequeue t)).
Proof.
  intros [Hr Ha] Hk. by destruct (awaiting_runs _ _ _ _ _ _ Ha Hk) as (-> & -> & Hw & Hq & _).
Qed.

Lemma repeating_on_time latency period t when : repeating period t → on_time latency when t →
  when ≤ tm_expiry t + latency.
Proof. intros [_ Ha]. by apply (awaiting_on_time _ (RepeatWait period)). Qed.
Lemma waiting_on_time latency t when : waiting_once t → on_time latency when t →
  when ≤ tm_expiry t + latency.
Proof. intros [_ Ha]. by apply (awaiting_on_time _ OnceWait). Qed.
