(* ===== verification/Heartbeat.v ===== *)
(** * server/session and sgp/session: heartbeats

    Models [HeartBeatReceiver] ([src/src/server/session/heartbeater/HeartbeatReceiver.
    {h,cpp}]), which disconnects a session that hears nothing for too long, and
    [Heartbeater] ([src/include/sne/sgp/session/detail/Heartbeater.h]) with its
    derived [HeartbeatSender] and [ClientHeartbeater], which sends a message when
    nothing else was sent.  What they ask of their session is a list of requests. *)

From S2P Require Import Prelude Timers.

(** [getElapsedTime]: milliseconds in a [msec_t], a [uint32_t]. *)
Definition getElapsedTime (now past : Z) : Z := uint 32 (now - past).

Inductive session_request :=
| AskDisconnect
| AskDisconnectGracefully
| AskHeartbeat             (* [sendMessage] of a heartbeat *)
| AskNextSeed              (* [exchangeNextSeed] *)
| TellValidated            (* [onValidated] *)
| TellDisconnected.        (* [ClientSessionCallback::onDisconnected] *)
#[global] Instance session_request_eq_dec : EqDecision session_request.
Proof. solve_decision. Defined.

(** ** [HeartBeatReceiver] *)

Record HeartBeatReceiver := mkReceiver {
  validHeartbeatInterval_ : Z;
  receiverTimer_ : Timer;                (* [heartbeatTimer_] *)
  lastHeartbeatedTime_ : Z;
}.

Definition newHeartBeatReceiver (heartbeatTimeout : Z) : HeartBeatReceiver := mkReceiver heartbeatTimeout createTimer 0.
Definition on_receiverTimer (g : Timer → Timer) (r : HeartBeatReceiver) : HeartBeatReceiver :=
  mkReceiver (validHeartbeatInterval_ r) (g (receiverTimer_ r)) (lastHeartbeatedTime_ r).

Definition heartbeated (now : Z) (r : HeartBeatReceiver) : HeartBeatReceiver :=
  mkReceiver (validHeartbeatInterval_ r) (receiverTimer_ r) now.
(** [SNE_ASSERT(! isRunning())] only reports. *)
Definition setupTimer (now : Z) (r : HeartBeatReceiver) : HeartBeatReceiver :=
  if validHeartbeatInterval_ r <=? 0 then r
  else on_receiverTimer (timer_repeat now (validHeartbeatInterval_ r)) (heartbeated now r).
Definition cancelTimer (now : Z) (r : HeartBeatReceiver) : HeartBeatReceiver :=
  on_receiverTimer (timer_cancel now) r.

Definition isZombie (elapsed : Z) (r : HeartBeatReceiver) : bool := validHeartbeatInterval_ r <=? elapsed.
(** The new state and what the session is asked for. *)
Definition receiver_timedOut (now : Z) (r : HeartBeatReceiver) : HeartBeatReceiver * list session_request :=
  if isZombie (getElapsedTime now (lastHeartbeatedTime_ r)) r then (cancelTimer now r, [AskDisconnect])
  else (r, []).

(** ** [Heartbeater] *)

Record Heartbeater := mkHeartbeater {
  heartbeatInterval_ : Z;
  lastSentTime_ : Z;
  heartbeaterTimer_ : option Timer;      (* [heartbeatTimer_] *)
}.

Definition newHeartbeater (heartbeatInterval : Z) : Heartbeater := mkHeartbeater heartbeatInterval 0 None.
Definition on_heartbeaterTimer (g : Timer → Timer) (h : Heartbeater) : Heartbeater :=
  mkHeartbeater (heartbeatInterval_ h) (lastSentTime_ h) (g <$> heartbeaterTimer_ h).

Definition start (now : Z) (h : Heartbeater) : Heartbeater :=
  let timer := timer_cancel now (default createTimer (heartbeaterTimer_ h)) in
  mkHeartbeater (heartbeatInterval_ h) (lastSentTime_ h)
    (Some (if 0 <? heartbeatInterval_ h then timer_repeat now (heartbeatInterval_ h) timer else timer)).
Definition stop (now : Z) (h : Heartbeater) : Heartbeater := on_heartbeaterTimer (timer_cancel now) h.
Definition heartbeat_sent (now : Z) (h : Heartbeater) : Heartbeater :=
  mkHeartbeater (heartbeatInterval_ h) now (heartbeaterTimer_ h).
Definition sendHeartbeat (now : Z) (h : Heartbeater) : list session_request :=
  if heartbeatInterval_ h <=? getElapsedTime now (lastSentTime_ h) then [AskHeartbeat] else [].

(** ** The heartbeats of one end and the receiver of the other

    [lk_posted]: when [sendMessage] was called for heartbeats whose closures have not
    run; [lk_flight]: when the messages in the network were sent. *)
Record HeartbeatLink := mkLink {
  lk_sender : Heartbeater;
  lk_receiver : HeartBeatReceiver;
  lk_posted : list Z;
  lk_flight : list Z;
  lk_asked : list session_request;         (* what the receiver asked its session for *)
}.

Inductive link_timer := SenderTimer | ReceiverTimer.
Inductive link_call :=
| MessageSent          (* a message of the application, or a posted reply, is transferred *)
| HeartbeatSent        (* the closure of a heartbeat runs: it is transferred *)
| MessageArrives.

Definition link_update (w : link_timer) (g : Timer → Timer) (s : HeartbeatLink) : HeartbeatLink :=
  match w with
  | SenderTimer => mkLink (on_heartbeaterTimer g (lk_sender s)) (lk_receiver s) (lk_posted s) (lk_flight s) (lk_asked s)
  | ReceiverTimer => mkLink (lk_sender s) (on_receiverTimer g (lk_receiver s)) (lk_posted s) (lk_flight s) (lk_asked s)
  end.

(** [HeartbeatSender::timedOut], [ClientHeartbeater::timedOut]; [HeartBeatReceiver::timedOut]. *)
Definition link_timedOut (w : link_timer) (now : Z) (s : HeartbeatLink) : HeartbeatLink :=
  match w with
  | SenderTimer =>
      mkLink (lk_sender s) (lk_receiver s)
        (lk_posted s ++ (match sendHeartbeat now (lk_sender s) with [] => [] | _ => [now] end))
        (lk_flight s) (lk_asked s)
  | ReceiverTimer =>
      let '(r, l) := receiver_timedOut now (lk_receiver s) in
      mkLink (lk_sender s) r (lk_posted s) (lk_flight s) (lk_asked s ++ l)
  end.

Definition link_send (now : Z) (posted : list Z) (s : HeartbeatLink) : HeartbeatLink :=
  mkLink (heartbeat_sent now (lk_sender s)) (lk_receiver s) posted (lk_flight s ++ [now]) (lk_asked s).

Definition link_do (now : Z) (c : link_call) (s : HeartbeatLink) : option HeartbeatLink :=
  match c with
  | MessageSent => Some (link_send now (lk_posted s) s)
  | HeartbeatSent => match lk_posted s with [] => None | _ :: l => Some (link_send now l s) end
  | MessageArrives =>
      match lk_flight s with
      | [] => None
      | _ :: l => Some (mkLink (lk_sender s) (heartbeated now (lk_receiver s)) (lk_posted s) l (lk_asked s))
      end
  end.

(** Closures run within [latency], messages arrive within [delay]. *)
Definition link_due (latency delay when : Z) (s : HeartbeatLink) : bool :=
  bool_decide (Forall (λ x, when ≤ x + latency) (lk_posted s) ∧ Forall (λ x, when ≤ x + delay) (lk_flight s)).

Definition HeartbeatLink_timed (latency delay : Z) : TimedObject HeartbeatLink link_timer link_call :=
  let timer (w : link_timer) (s : HeartbeatLink) : option Timer :=
    match w with
    | SenderTimer => heartbeaterTimer_ (lk_sender s)
    | ReceiverTimer => Some (receiverTimer_ (lk_receiver s))
    end in
  {|
  ob_timers := [SenderTimer; ReceiverTimer];
  ob_timer := timer;
  ob_update := link_update;
  ob_handler w now := run_wait (λ s, default createTimer (timer w s)) (link_update w) (link_timedOut w now) now;
  ob_call := link_do;
  ob_due := link_due latency delay;
|}.

(** Both ends start at [now], the sender having sent a message that the receiver has
    just got. *)
Definition newLink (now heartbeatInterval heartbeatTimeout : Z) : HeartbeatLink :=
  mkLink (start now (heartbeat_sent now (newHeartbeater heartbeatInterval)))
    (setupTimer now (newHeartBeatReceiver heartbeatTimeout)) [] [] [].

Section link.
Context (latency delay interval timeout : Z).
Hypothesis Hlatency : 0 ≤ latency.
Hypothesis Hdelay : 0 ≤ delay.
Hypothesis Hinterval : 0 < interval.
(** The receiver waits for two intervals, and for what the handlers, the closures
    and the network may take. *)
Hypothesis Htimeout : 2 * interval + 2 * latency + delay ≤ timeout < 2 ^ 32.

#[local] Instance link_object : TimedObject HeartbeatLink link_timer link_call := HeartbeatLink_timed latency delay.

(** The longest time between two messages. *)
Definition gap : Z := 2 * interval + 2 * latency.

(** The messages in the network were sent one after the other, after [a], and the
    last of them at [last]. *)
Inductive sent_in_turn : Z → list Z → Z → Prop :=
| sent_last a : sent_in_turn a [] a
| sent_next a x l last : a ≤ x < a + gap → sent_in_turn x l last → sent_in_turn a (x :: l) last.

Lemma sent_in_turn_snoc a l last now : sent_in_turn a l last → last ≤ now < last + gap →
  sent_in_turn a (l ++ [now]) now.
Proof. induction 1; intros; cbn; econstructor; eauto using sent_in_turn. Qed.

Lemma sent_in_turn_le a l last : sent_in_turn a l last → a ≤ last.
Proof. induction 1; lia. Qed.

Record link_inv (x : Z * HeartbeatLink) : Prop := {
  li_interval : heartbeatInterval_ (lk_sender x.2) = interval;
  li_valid : validHeartbeatInterval_ (lk_receiver x.2) = timeout;
  li_sender : ∃ t, heartbeaterTimer_ (lk_sender x.2) = Some t ∧ repeating interval t ∧
    x.1 ≤ tm_expiry t + latency ∧ tm_expiry t ≤ x.1 + interval ∧
    (lk_posted x.2 = [] → tm_expiry t < lastSentTime_ (lk_sender x.2) + 2 * interval);
  li_posted : Forall (λ p, p ≤ x.1 ≤ p + latency) (lk_posted x.2);
  li_first p l : lk_posted x.2 = p :: l → p < lastSentTime_ (lk_sender x.2) + 2 * interval + latency;
  li_sent : lastSentTime_ (lk_sender x.2) ≤ x.1;
  li_receiver : repeating timeout (receiverTimer_ (lk_receiver x.2));
  li_heard : ∃ a, a ≤ lastHeartbeatedTime_ (lk_receiver x.2) ≤ x.1 ∧
    sent_in_turn a (lk_flight x.2) (lastSentTime_ (lk_sender x.2));
  li_flight : Forall (λ p, x.1 ≤ p + delay) (lk_flight x.2);
  li_asked : lk_asked x.2 = [];
}.

Lemma link_gap x : link_inv x → x.1 < lastSentTime_ (lk_sender x.2) + gap.
Proof.
  intros [_ _ (t & _ & _ & H1 & _ & H2) Hp Hf _ _ _ _ _]. unfold gap.
  destruct (lk_posted x.2) as [|p l]; [specialize (H2 eq_refl); lia|].
  specialize (Hf p l eq_refl). apply Forall_cons in Hp as [? _]. lia.
Qed.

Lemma link_elapsed x : link_inv x →
  0 ≤ x.1 - lastHeartbeatedTime_ (lk_receiver x.2) < timeout.
Proof.
  intros Hi. pose proof (link_gap x Hi) as Hg. destruct Hi as [_ _ _ _ _ _ _ (a & Ha & Hs) Hfl _].
  unfold gap in *. remember (lk_flight x.2) as l eqn:El. destruct Hs as [|a y l last Hy Hs']; [lia|].
  apply Forall_cons in Hfl as [? _]. unfold gap in *. lia.
Qed.

Lemma getElapsedTime_id now past : 0 ≤ now - past < 2 ^ 32 → getElapsedTime now past = now - past.
Proof. intros. by apply uint_id. Qed.

Lemma link_send_inv now s l : link_inv (now, s) → Forall (λ p, p ≤ now ≤ p + latency) l →
  link_inv (now, link_send now l s).
Proof.
  intros Hi Hl. pose proof (link_gap _ Hi) as Hg. destruct Hi as [H1 H2 (t & H3 & H4 & H5 & H6 & _) _ _ H9 H10 (a & Ha & Hs) Hf Hk].
  cbn in *. split; cbn; try done.
  - exists t. split_and!; try done. lia.
  - intros p l' E. rewrite E in Hl. apply Forall_cons in Hl as [? _]. lia.
  - exists a. split; [lia|]. eapply sent_in_turn_snoc; [exact Hs|]. lia.
  - apply Forall_app. split; [done|]. apply Forall_cons. split; [lia|done].
Qed.

Lemma link_step e x y : link_inv x → timed_exec latency e x = Some y → link_inv y.
Proof.
  intros Hi He. pose proof (link_gap x Hi) as Hg. pose proof (link_elapsed x Hi) as Hz.
  destruct x as [now s]. pose proof Hi as [H1 H2 (t & H3 & H4 & H5 & H6 & H7) Hp Hfirst H9 H10 (a & Ha & Hs) Hf Hk].
  cbn [fst snd] in *. destruct e as [d|[|]|[|]|c]; cbn [timed_exec] in He.
  - case_decide as Hd; [|done]. injection He as <-. destruct Hd as (Hd0 & Hot & Hdue).
    unfold ob_due, link_object, HeartbeatLink_timed, link_due in Hdue. apply bool_decide_eq_true in Hdue as [Hd1 Hd2].
    unfold all_on_time in Hot. cbn in Hot. apply Forall_cons in Hot as [Ho1 Hot]. rewrite H3 in Ho1. cbn in Ho1.
    pose proof (repeating_on_time _ _ _ _ H4 Ho1). split; cbn; try done; try lia.
    + exists t. split_and!; try done. lia.
    + apply Forall_forall. intros p Hpin. rewrite Forall_forall in Hp, Hd1. specialize (Hp p Hpin). specialize (Hd1 p Hpin). lia.
    + exists a. split; [lia|done].
  - cbn in He. rewrite H3 in He. cbn in He. case_decide as Hd; [|done]. injection He as <-.
    destruct (repeating_expires interval t H4 (proj1 Hd)) as [H4' E]. split; cbn; try done; [|by exists a].
    rewrite H3. exists (timer_expires t). cbn. by rewrite E.
  - cbn in He. case_decide as Hd; [|done]. injection He as <-.
    destruct (repeating_expires timeout _ H10 (proj1 Hd)) as [H10' E]. split; cbn; try done; [by exists t|by exists a].
  - cbn in He. rewrite H3 in He. cbn in He. destruct (tm_queue t) as [|[[k ok] since] rest] eqn:Eq; [done|].
    injection He as <-. destruct (repeating_runs interval t k ok since rest H4 Eq) as (-> & -> & Hrun & Hrep).
    destruct (Hrep now) as [Hr1 Hr2]. cbn [run_wait]. unfold handle_repeat_timeout. cbn. rewrite H3. cbn. rewrite Hrun.
    unfold link_timedOut, sendHeartbeat. cbn. rewrite H1, getElapsedTime_id by (unfold gap in *; lia).
    destruct (Z.leb_spec interval (now - lastSentTime_ (lk_sender s))) as [Hle|Hlt]; split; cbn; try done.
    + rewrite H3. eexists. split_and!; [reflexivity|exact Hr1|rewrite Hr2; lia|rewrite Hr2; lia|by destruct (lk_posted s)].
    + apply Forall_app. split; [done|]. apply Forall_cons. split; [lia|done].
    + intros p l. destruct (lk_posted s) as [|p' l'] eqn:Ep; cbn; intros [= <- <-]; [specialize (H7 eq_refl); lia|].
      by eapply Hfirst.
    + by exists a.
    + rewrite H3. eexists. split_and!; [reflexivity|exact Hr1|rewrite Hr2; lia|rewrite Hr2; lia|]. rewrite Hr2, app_nil_r. intros. lia.
    + by rewrite app_nil_r.
    + rewrite app_nil_r. done.
    + by exists a.
  - cbn in He. destruct (tm_queue (receiverTimer_ (lk_receiver s))) as [|[[k ok] since] rest] eqn:Eq; [done|].
    injection He as <-. destruct (repeating_runs timeout _ k ok since rest H10 Eq) as (-> & -> & Hrun & Hrep).
    destruct (Hrep now) as [Hr1 Hr2]. cbn [run_wait]. unfold handle_repeat_timeout. cbn. rewrite Hrun.
    unfold receiver_timedOut, isZombie. cbn. rewrite H2, getElapsedTime_id by lia.
    rewrite (proj2 (Z.leb_gt _ _)) by lia. split; cbn; rewrite ?app_nil_r; try done; [by exists t|by exists a].
  - destruct c; cbn in He.
    + injection He as <-. by apply link_send_inv.
    + destruct (lk_posted s) as [|p l] eqn:Ep; [done|]. injection He as <-. apply link_send_inv; [done|].
      by apply Forall_cons in Hp as [_ ?].
    + destruct (lk_flight s) as [|p l] eqn:Ef; [done|]. injection He as <-. split; cbn; try done.
      * by exists t.
      * inversion Hs as [|? ? ? ? Hx Hs']; subst. exists p. split; [|done]. pose proof (sent_in_turn_le _ _ _ Hs'). lia.
      * by apply Forall_cons in Hf as [_ ?].
Qed.

Lemma newLink_inv now : link_inv (now, newLink now interval timeout).
Proof.
  destruct (repeat_idle now interval createTimer createTimer_idle) as [H1 H2].
  destruct (repeat_idle now timeout createTimer createTimer_idle) as [H3 H4].
  unfold newLink, start, setupTimer. cbn [heartbeaterTimer_ heartbeat_sent newHeartbeater default heartbeatInterval_].
  rewrite (proj2 (Z.ltb_lt _ _)) by done. cbn [validHeartbeatInterval_ newHeartBeatReceiver].
  rewrite (proj2 (Z.leb_gt _ _)) by lia. split; cbn; try done; try lia.
  - eexists. split_and!; [reflexivity|exact H1|cbn; lia..|intros; cbn; lia].
  - exists now. split; [lia|]. constructor.
Qed.
End link.
