(* ===== verification/ServerSession.v ===== *)
(** * server/session and client/session: sessions with timers

    Models the sessions an application derives its own from: [ServerSideSession] and
    [ClientSideSession] ([src/src/server/session/{ServerSideSession,ClientSideSession}.
    cpp]) and [ClientSession] ([src/src/client/session/ClientSession.cpp]): the calls
    that the engine makes ([SessionCallback], [PacketSeedExchangerCallback],
    [TimerCallback]) and the ones of the application, over the timers of [Timers.v]
    and the heartbeats of [Heartbeat.v].  What a session asks the engine for, or tells
    the application, is a list of requests.  Logging is left out. *)

From S2P Require Import Prelude Timers Heartbeat.

(** ** [ServerSideSession] *)

Record ServerSideSession := mkServerSide {
  authenticationTimeout_ : Z;            (* of [serverSpec_], a [uint16_t] *)
  heartbeatTimeout_ : Z;
  heartBeatReceiver_ : option HeartBeatReceiver;
  heartbeater_ : option Heartbeater;
  authenticationTimer_ : Timer;
  clientId_ : Z;
  isSeedExchanged_ : bool;
  ss_connected : bool;                   (* [isConnected()] *)
  ss_asked : list session_request;
}.

Definition newServerSide (authenticationTimeout heartbeatTimeout : Z) : ServerSideSession :=
  mkServerSide authenticationTimeout heartbeatTimeout None None createTimer 0 false false [].

Section server.
#[local] Abbreviation session := ServerSideSession.

Definition on_ssReceiver (g : HeartBeatReceiver → HeartBeatReceiver) (s : session) : session :=
  mkServerSide (authenticationTimeout_ s) (heartbeatTimeout_ s) (g <$> heartBeatReceiver_ s) (heartbeater_ s)
    (authenticationTimer_ s) (clientId_ s) (isSeedExchanged_ s) (ss_connected s) (ss_asked s).
Definition on_ssHeartbeater (g : Heartbeater → Heartbeater) (s : session) : session :=
  mkServerSide (authenticationTimeout_ s) (heartbeatTimeout_ s) (heartBeatReceiver_ s) (g <$> heartbeater_ s)
    (authenticationTimer_ s) (clientId_ s) (isSeedExchanged_ s) (ss_connected s) (ss_asked s).
Definition on_authenticationTimer (g : Timer → Timer) (s : session) : session :=
  mkServerSide (authenticationTimeout_ s) (heartbeatTimeout_ s) (heartBeatReceiver_ s) (heartbeater_ s)
    (g (authenticationTimer_ s)) (clientId_ s) (isSeedExchanged_ s) (ss_connected s) (ss_asked s).
Definition set_clientId (i : Z) (s : session) : session :=
  mkServerSide (authenticationTimeout_ s) (heartbeatTimeout_ s) (heartBeatReceiver_ s) (heartbeater_ s)
    (authenticationTimer_ s) i (isSeedExchanged_ s) (ss_connected s) (ss_asked s).
Definition set_seedExchanged (b : bool) (s : session) : session :=
  mkServerSide (authenticationTimeout_ s) (heartbeatTimeout_ s) (heartBeatReceiver_ s) (heartbeater_ s)
    (authenticationTimer_ s) (clientId_ s) b (ss_connected s) (ss_asked s).
Definition set_ssConnected (b : bool) (s : session) : session :=
  mkServerSide (authenticationTimeout_ s) (heartbeatTimeout_ s) (heartBeatReceiver_ s) (heartbeater_ s)
    (authenticationTimer_ s) (clientId_ s) (isSeedExchanged_ s) b (ss_asked s).
Definition ss_ask (l : list session_request) (s : session) : session :=
  mkServerSide (authenticationTimeout_ s) (heartbeatTimeout_ s) (heartBeatReceiver_ s) (heartbeater_ s)
    (authenticationTimer_ s) (clientId_ s) (isSeedExchanged_ s) (ss_connected s) (ss_asked s ++ l).

(** [++globalClientId], an atomic [uint32_t] shared by the sessions. *)
Definition getNextClientId (globalClientId : Z) : Z := uint 32 (globalClientId + 1).

Definition setupAuthenticationTimer (now : Z) (s : session) : session :=
  if 0 <? authenticationTimeout_ s then
    on_authenticationTimer (timer_once now (authenticationTimeout_ s)) s
  else s.
Definition cancelAuthenticationTimer (now : Z) : session → session := on_authenticationTimer (timer_cancel now).

Definition authenticated (now : Z) (s : session) : session :=
  let s := cancelAuthenticationTimer now s in
  let s := on_ssReceiver (setupTimer now) s in
  on_ssHeartbeater (start now) s.
Definition extendAuthenticationTimeout (now : Z) (s : session) : session :=
  setupAuthenticationTimer now (cancelAuthenticationTimer now s).
Definition unauthenticated : session → session := set_clientId 0.

(** The objects are made at the first connection and kept. *)
Definition initHeartbeater (s : session) : session :=
  mkServerSide (authenticationTimeout_ s) (heartbeatTimeout_ s)
    (Some (default (newHeartBeatReceiver (heartbeatTimeout_ s)) (heartBeatReceiver_ s)))
    (Some (default (newHeartbeater (heartbeatTimeout_ s / 3)) (heartbeater_ s)))
    (authenticationTimer_ s) (clientId_ s) (isSeedExchanged_ s) (ss_connected s) (ss_asked s).

Definition ss_seedExchanged : session → session := set_seedExchanged true.

(** [hasPacketCipher] decides what [exchangePublicKey] does ([SeedExchange.v]). *)
Definition ss_onConnected (now globalClientId : Z) (hasPacketCipher : bool) (s : session) : session :=
  let s := set_seedExchanged false s in
  let s := if negb hasPacketCipher then ss_seedExchanged s else s in
  let s := initHeartbeater s in
  let s := set_clientId (getNextClientId globalClientId) s in
  setupAuthenticationTimer now s.

Definition ss_onMessageTransfered (now : Z) (s : session) : session :=
  if ss_connected s then on_ssHeartbeater (heartbeat_sent now) s else s.

(** [handled] is what [Session::onMessageArrived] returns, which asks the
    extensions; a result of [false] makes the engine disconnect. *)
Definition ss_onMessageArrived (now : Z) (handled : bool) (s : session) : bool * session :=
  let s := on_ssReceiver (heartbeated now) s in
  if handled then (true, s)
  else if negb (isSeedExchanged_ s) then (false, s)
  else (false, ss_ask [AskNextSeed] s).

Definition ss_onDisconnected (now : Z) (s : session) : session :=
  let s := cancelAuthenticationTimer now s in
  let s := on_ssReceiver (cancelTimer now) s in
  on_ssHeartbeater (stop now) s.

(** [ServerSideSession::timedOut], of the authentication timer. *)
Definition ss_timedOut (now : Z) (s : session) : session :=
  ss_ask [AskDisconnectGracefully] (cancelAuthenticationTimer now s).

Inductive ss_timer := AuthenticationTimer | HeartbeatReceiverTimer | HeartbeaterTimer.
Inductive ss_call :=
| Connected (globalClientId : Z) (hasPacketCipher : bool)
| MessageTransfered
| MessageArrived (handled : bool)
| Disconnected
| Authenticated
| ExtendAuthentication
| Unauthenticated
| SeedExchanged.

Definition ss_update (w : ss_timer) (g : Timer → Timer) : session → session :=
  match w with
  | AuthenticationTimer => on_authenticationTimer g
  | HeartbeatReceiverTimer => on_ssReceiver (on_receiverTimer g)
  | HeartbeaterTimer => on_ssHeartbeater (on_heartbeaterTimer g)
  end.

Definition ss_timerEnds (w : ss_timer) (now : Z) (s : session) : session :=
  match w with
  | AuthenticationTimer => ss_timedOut now s
  | HeartbeatReceiverTimer =>
      match heartBeatReceiver_ s with
      | None => s
      | Some r =>
          let '(r, l) := receiver_timedOut now r in ss_ask l (on_ssReceiver (λ _, r) s)
      end
  | HeartbeaterTimer => ss_ask (match heartbeater_ s with None => [] | Some h => sendHeartbeat now h end) s
  end.

(** The engine calls [onConnected] of a session that is not connected, the rest of
    one that is; the application may call any time. *)
Definition ss_do (now : Z) (c : ss_call) (s : session) : option session :=
  match c with
  | Connected g hasCipher =>
      if ss_connected s then None else Some (ss_onConnected now g hasCipher (set_ssConnected true s))
  | MessageTransfered => Some (ss_onMessageTransfered now s)
  | MessageArrived handled => if ss_connected s then Some (ss_onMessageArrived now handled s).2 else None
  | Disconnected => if ss_connected s then Some (ss_onDisconnected now (set_ssConnected false s)) else None
  | Authenticated => if ss_connected s then Some (authenticated now s) else None
  | ExtendAuthentication => if ss_connected s then Some (extendAuthenticationTimeout now s) else None
  | Unauthenticated => Some (unauthenticated s)
  | SeedExchanged => if ss_connected s then Some (ss_seedExchanged s) else None
  end.

#[global] Instance ServerSideSession_timed : TimedObject session ss_timer ss_call :=
  let timer (w : ss_timer) (s : session) : option Timer :=
    match w with
    | AuthenticationTimer => Some (authenticationTimer_ s)
    | HeartbeatReceiverTimer => receiverTimer_ <$> heartBeatReceiver_ s
    | HeartbeaterTimer => heartbeater_ s ≫= heartbeaterTimer_
    end in
  {|
  ob_timers := [AuthenticationTimer; HeartbeatReceiverTimer; HeartbeaterTimer];
  ob_timer := timer;
  ob_update := ss_update;
  ob_handler w now := run_wait (λ s, default createTimer (timer w s)) (ss_update w) (ss_timerEnds w now) now;
  ob_call := ss_do;
  ob_due _ _ := true;
|}.
End server.

(** ** [ClientSideSession]: a server's session to another server *)

Record ClientSideSession := mkClientSide {
  cs_heartbeater : Heartbeater;
  cs_receiver : HeartBeatReceiver;
  cs_connected : bool;
  cs_asked : list session_request;
}.

Section client_side.
#[local] Abbreviation session := ClientSideSession.

Definition newClientSide (heartbeatInterval : Z) : session :=
  mkClientSide (newHeartbeater heartbeatInterval) (newHeartBeatReceiver (uint 32 (heartbeatInterval * 3))) false [].

Definition on_csHeartbeater (g : Heartbeater → Heartbeater) (s : session) : session :=
  mkClientSide (g (cs_heartbeater s)) (cs_receiver s) (cs_connected s) (cs_asked s).
Definition on_csReceiver (g : HeartBeatReceiver → HeartBeatReceiver) (s : session) : session :=
  mkClientSide (cs_heartbeater s) (g (cs_receiver s)) (cs_connected s) (cs_asked s).
Definition set_csConnected (b : bool) (s : session) : session :=
  mkClientSide (cs_heartbeater s) (cs_receiver s) b (cs_asked s).
Definition cs_ask (l : list session_request) (s : session) : session :=
  mkClientSide (cs_heartbeater s) (cs_receiver s) (cs_connected s) (cs_asked s ++ l).

Definition cs_seedExchanged (now : Z) (s : session) : session :=
  cs_ask [TellValidated] (on_csHeartbeater (start now) s).
Definition cs_onConnected (now : Z) (hasPacketCipher : bool) (s : session) : session :=
  let s := if negb hasPacketCipher then cs_seedExchanged now s else s in
  on_csReceiver (setupTimer now) s.
Definition cs_onDisconnected (now : Z) (s : session) : session :=
  on_csReceiver (cancelTimer now) (on_csHeartbeater (stop now) s).
Definition cs_onMessageTransfered (now : Z) (s : session) : session :=
  if cs_connected s then on_csHeartbeater (heartbeat_sent now) s else s.
(** [Session::onMessageArrived], which [ClientSideSession] does not override. *)
Definition cs_onMessageArrived (handled : bool) (s : session) : bool * session := (handled, s).

Inductive cs_call :=
| CsConnected (hasPacketCipher : bool)
| CsMessageTransfered
| CsMessageArrived (handled : bool)
| CsSeedExchanged
| CsDisconnected.

Definition cs_update (w : link_timer) (g : Timer → Timer) : session → session :=
  match w with
  | SenderTimer => on_csHeartbeater (on_heartbeaterTimer g)
  | ReceiverTimer => on_csReceiver (on_receiverTimer g)
  end.
Definition cs_timerEnds (w : link_timer) (now : Z) (s : session) : session :=
  match w with
  | SenderTimer => cs_ask (sendHeartbeat now (cs_heartbeater s)) s
  | ReceiverTimer =>
      let '(r, l) := receiver_timedOut now (cs_receiver s) in cs_ask l (on_csReceiver (λ _, r) s)
  end.
Definition cs_do (now : Z) (c : cs_call) (s : session) : option session :=
  match c with
  | CsConnected hasCipher => if cs_connected s then None else Some (cs_onConnected now hasCipher (set_csConnected true s))
  | CsMessageTransfered => Some (cs_onMessageTransfered now s)
  | CsMessageArrived handled => if cs_connected s then Some (cs_onMessageArrived handled s).2 else None
  | CsSeedExchanged => if cs_connected s then Some (cs_seedExchanged now s) else None
  | CsDisconnected => if cs_connected s then Some (cs_onDisconnected now (set_csConnected false s)) else None
  end.

#[global] Instance ClientSideSession_timed : TimedObject session link_timer cs_call :=
  let timer (w : link_timer) (s : session) : option Timer :=
    match w with
    | SenderTimer => heartbeaterTimer_ (cs_heartbeater s)
    | ReceiverTimer => Some (receiverTimer_ (cs_receiver s))
    end in
  {|
  ob_timers := [SenderTimer; ReceiverTimer];
  ob_timer := timer;
  ob_update := cs_update;
  ob_handler w now := run_wait (λ s, default createTimer (timer w s)) (cs_update w) (cs_timerEnds w now) now;
  ob_call := cs_do;
  ob_due _ _ := true;
|}.
End client_side.

(** ** [ClientSession]: a client's session to a server *)

Record ClientSession := mkClientSession {
  callback_ : bool;                     (* whether there is a [ClientSessionCallback] *)
  packetSeedExchanged_ : bool;
  cl_heartbeater : Heartbeater;
  cl_told : list session_request;
}.

Section client.
#[local] Abbreviation session := (st ClientSession).

Definition newClientSession (callback : bool) (heartbeatInterval : Z) : ClientSession :=
  mkClientSession callback false (newHeartbeater heartbeatInterval) [].
Definition set_packetSeedExchanged (b : bool) (s : ClientSession) : ClientSession :=
  mkClientSession (callback_ s) b (cl_heartbeater s) (cl_told s).
Definition on_clHeartbeater (g : Heartbeater → Heartbeater) (s : ClientSession) : ClientSession :=
  mkClientSession (callback_ s) (packetSeedExchanged_ s) (g (cl_heartbeater s)) (cl_told s).
Definition cl_tell (r : session_request) (s : ClientSession) : ClientSession :=
  mkClientSession (callback_ s) (packetSeedExchanged_ s) (cl_heartbeater s) (cl_told s ++ [r]).

Definition cl_seedExchanged (now : Z) : session unit :=
  s ← get_st;
  if packetSeedExchanged_ s then mret tt
  else
    modify (set_packetSeedExchanged true) ;;
    (if callback_ s then modify (cl_tell TellValidated) else throw (Undefined "a null callback")) ;;
    modify (on_clHeartbeater (start now)).
Definition cl_onConnected (now : Z) (hasPacketCipher : bool) : session bool :=
  modify (set_packetSeedExchanged false) ;;
  (if hasPacketCipher then mret tt else cl_seedExchanged now) ;;
  modify (on_clHeartbeater (stop now)) ;;
  mret true.
Definition cl_onMessageTransfered (now : Z) : session unit := modify (on_clHeartbeater (heartbeat_sent now)).
Definition cl_onDisconnected (now : Z) : session unit :=
  modify (on_clHeartbeater (stop now)) ;;
  s ← get_st;
  (if callback_ s then modify (cl_tell TellDisconnected) else mret tt) ;;
  modify (set_packetSeedExchanged false).
End client.
