(* ===== verification/ServerSessionSpec.v ===== *)
(** * server/session: what the timers of the sessions do

    Lemmas on the machines of [ServerSession.v]: how long a session that is not
    authenticated, or that hears nothing, lives; and what becomes of a timer that is
    set again while it waits. *)

From S2P Require Import Prelude Timers Heartbeat ServerSession.

(** ** A timer set again while it waits

    The aborted handler of the first wait is queued before that of the second, and
    clears [isRunning_]: the second one finds the timer stopped. *)

Definition dead (t : Timer) : Prop :=
  tm_running t = false ∨ ∃ k since rest, tm_queue t = (k, false, since) :: rest.

Lemma dead_stopped t : tm_running t = false → dead t.
Proof. by left. Qed.

Lemma dead_cancel now t : dead (timer_cancel now t).
Proof. by left. Qed.

Lemma abort_dead now w t : tm_wait t = Some w → tm_queue t = [] →
  ∃ since, tm_queue (abort_wait now t) = [(w, false, since)].
Proof. intros Hw Hq. unfold abort_wait. rewrite Hw, Hq. by exists now. Qed.

Lemma once_dead now timeout w t : tm_wait t = Some w → tm_queue t = [] →
  dead (timer_once now timeout t) ∧ dead (timer_once now timeout (timer_cancel now t)).
Proof.
  intros Hw Hq. unfold timer_once, timer_cancel, expires_from_now, abort_wait. rewrite Hw. split; right.
  - cbn. rewrite Hq. by eexists _, _, _.
  - destruct (tm_running t); cbn; rewrite ?Hw; cbn; rewrite Hq; by eexists _, _, _.
Qed.
Lemma repeat_dead now period w t : tm_wait t = Some w → tm_queue t = [] →
  dead (timer_repeat now period t) ∧ dead (timer_repeat now period (timer_cancel now t)).
Proof.
  intros Hw Hq. unfold timer_repeat, timer_cancel, expires_from_now, abort_wait. rewrite Hw. split; right.
  - cbn. rewrite Hq. by eexists _, _, _.
  - destruct (tm_running t); cbn; rewrite ?Hw; cbn; rewrite Hq; by eexists _, _, _.
Qed.

Lemma dead_expires t : dead t → dead (timer_expires t).
Proof.
  intros [Hr|(k & since & rest & Hq)]; unfold timer_expires; destruct (tm_wait t); [by left|by left|right..].
  - cbn. rewrite Hq. by eexists _, _, _.
  - by eexists _, _, _.
Qed.

(** Running a handler of a dead timer only stops it. *)
Lemma dead_runs {S} (get : S → Timer) upd timedOut now k ok since rest t (s : S) :
  dead t → tm_queue t = (k, ok, since) :: rest → get s = dequeue t →
  (run_wait get upd timedOut now k ok s = upd (set_running false) s ∨
   (run_wait get upd timedOut now k ok s = s ∧ tm_running t = false)).
Proof.
  intros Hd Hq Hg. assert (Hok : ok = true → tm_running t = false).
  { intros ->. destruct Hd as [|(k' & since' & rest' & E)]; [done|]. rewrite Hq in E. done. }
  unfold run_wait, timer_handle_timeout, handle_repeat_timeout. rewrite Hg. unfold dequeue. cbn [tm_running].
  destruct k, ok; try (rewrite (Hok eq_refl)); auto.
Qed.

(** What running a handler can lead to. *)
Lemma run_wait_cases {S} (P : S → Prop) (get : S → Timer) upd timedOut now k ok s :
  P s → (∀ s, P s → P (upd (set_running false) s)) → (∀ s p, P s → P (upd (timer_repeat now p) s)) →
  (∀ s, P s → P (timedOut s)) → P (run_wait get upd timedOut now k ok s).
Proof.
  intros H0 H1 H2 H3. unfold run_wait, timer_handle_timeout, handle_repeat_timeout.
  repeat case_match; auto.
Qed.

(** ** [ServerSideSession] *)

#[local] Abbreviation server_exec latency := (timed_exec (S := ServerSideSession) (W := ss_timer) (Op := ss_call) latency).
#[local] Abbreviation server_event := (timed_event ss_timer ss_call).

(** *** The authentication timer *)

(** Nothing happened to the authentication timer, nor on its account. *)
Definition leaves_authentication (s s' : ServerSideSession) : Prop :=
  authenticationTimer_ s' = authenticationTimer_ s ∧ ss_connected s' = ss_connected s ∧
  authenticationTimeout_ s' = authenticationTimeout_ s ∧
  ∃ l, ss_asked s' = ss_asked s ++ l ∧ AskDisconnectGracefully ∉ l.

#[local] Instance leaves_authentication_preorder : PreOrder leaves_authentication.
Proof.
  split.
  - intros s. split_and!; [done..|]. exists []. by rewrite app_nil_r; split; [|apply not_elem_of_nil].
  - intros s s1 s2 (E1 & E2 & E3 & l & El & Hl) (E1' & E2' & E3' & l' & El' & Hl').
    split_and!; [congruence..|]. exists (l ++ l'). rewrite El', El, <- app_assoc. split; [done|].
    by rewrite not_elem_of_app.
Qed.

Lemma leaves_ask l s : AskDisconnectGracefully ∉ l → leaves_authentication s (ss_ask l s).
Proof. intros Hl. split_and!; [done..|]. by exists l. Qed.
Lemma leaves_same s s' : authenticationTimer_ s' = authenticationTimer_ s → ss_connected s' = ss_connected s →
  authenticationTimeout_ s' = authenticationTimeout_ s → ss_asked s' = ss_asked s → leaves_authentication s s'.
Proof.
  intros E1 E2 E3 E4. split_and!; [done..|]. exists []. rewrite app_nil_r. split; [done|apply not_elem_of_nil].
Qed.

Lemma receiver_asks now r x : x ≠ AskDisconnect → x ∉ (receiver_timedOut now r).2.
Proof.
  intros Hne. unfold receiver_timedOut. case_match; cbn; [|apply not_elem_of_nil].
  by intros Hx%list_elem_of_singleton.
Qed.
Lemma heartbeater_asks now h : AskDisconnectGracefully ∉ sendHeartbeat now h.
Proof. unfold sendHeartbeat. case_match; [|apply not_elem_of_nil]. intros Hx%list_elem_of_singleton. done. Qed.

Lemma update_leaves w g s : w ≠ AuthenticationTimer → leaves_authentication s (ss_update w g s).
Proof. by destruct w; intros; [done|apply leaves_same..]. Qed.

Lemma timerEnds_leaves w now s : w ≠ AuthenticationTimer → leaves_authentication s (ss_timerEnds w now s).
Proof.
  destruct w; intros Hw; [done|..]; cbn.
  - destruct (heartBeatReceiver_ s) as [r|]; [|done]. pose proof (receiver_asks now r AskDisconnectGracefully ltac:(done)) as Hr.
    destruct (receiver_timedOut now r) as [r' l]. etrans; [|by apply leaves_ask]. by apply leaves_same.
  - apply leaves_ask. destruct (heartbeater_ s); [apply heartbeater_asks|apply not_elem_of_nil].
Qed.

Lemma runs_leaves w get now k ok g s : w ≠ AuthenticationTimer →
  leaves_authentication s (run_wait get (ss_update w) (ss_timerEnds w now) now k ok (ss_update w g s)).
Proof.
  intros Hw. apply run_wait_cases.
  - by apply update_leaves.
  - intros s' Hs. etrans; [exact Hs|]. by apply update_leaves.
  - intros s' p Hs. etrans; [exact Hs|]. by apply update_leaves.
  - intros s' Hs. etrans; [exact Hs|]. by apply timerEnds_leaves.
Qed.

(** The calls that have nothing to do with authentication. *)
Definition minds_own (c : ss_call) : Prop :=
  match c with MessageTransfered | MessageArrived _ | Unauthenticated | SeedExchanged => True | _ => False end.
Lemma call_leaves now c s s' : minds_own c → ss_do now c s = Some s' → leaves_authentication s s'.
Proof.
  destruct c as [| |handled| | | | |]; try done; intros _; cbn; intros E.
  - injection E as <-. unfold ss_onMessageTransfered. case_match; by apply leaves_same.
  - destruct (ss_connected s) eqn:Ec; [|done]. injection E as <-. unfold ss_onMessageArrived.
    destruct handled; [by apply leaves_same|]. cbn. destruct (isSeedExchanged_ s); cbn; [|by apply leaves_same].
    split_and!; [done..|]. exists [AskNextSeed]. split; [done|]. by intros Hx%list_elem_of_singleton.
  - injection E as <-. by apply leaves_same.
  - destruct (ss_connected s); [|done]. injection E as <-. by apply leaves_same.
Qed.

(** An event of the machine, as far as authentication is concerned. *)
Inductive authentication_step (latency : Z) : server_event → Z * ServerSideSession → Z * ServerSideSession → Prop :=
| as_passes d now s : 0 ≤ d → on_time latency (now + d) (authenticationTimer_ s) →
    authentication_step latency (Passes d) (now, s) (now + d, s)
| as_leaves e now s s' : leaves_authentication s s' → e ≠ Calls Disconnected →
    e ≠ Calls Authenticated → e ≠ Calls ExtendAuthentication → authentication_step latency e (now, s) (now, s')
| as_expires now s : tm_wait (authenticationTimer_ s) ≠ None → tm_expiry (authenticationTimer_ s) ≤ now →
    authentication_step latency (Expires AuthenticationTimer) (now, s) (now, on_authenticationTimer timer_expires s)
| as_runs now s k ok since rest : tm_queue (authenticationTimer_ s) = (k, ok, since) :: rest →
    authentication_step latency (Runs AuthenticationTimer) (now, s)
      (now, run_wait authenticationTimer_ on_authenticationTimer (ss_timedOut now) now k ok
        (on_authenticationTimer dequeue s))
| as_calls c now s s' : ¬ minds_own c → ss_do now c s = Some s' →
    authentication_step latency (Calls c) (now, s) (now, s').

Lemma server_authentication latency e x y : server_exec latency e x = Some y → authentication_step latency e x y.
Proof.
  destruct x as [now s], e as [d|w|w|c]; cbn [timed_exec]; intros E.
  - case_decide as Hd; [|done]. injection E as <-. destruct Hd as (Hd & Ho & _).
    unfold all_on_time in Ho. cbn in Ho. apply Forall_cons in Ho as [Ho _]. by apply as_passes.
  - destruct (ob_timer w s) as [t|] eqn:Et; [|done]. cbn in E. case_decide as Hd; [|done]. injection E as <-.
    destruct w; [injection Et as <-; by apply as_expires; apply Hd|apply as_leaves; try done; by apply (update_leaves _ timer_expires)..].
  - destruct (ob_timer w s) as [t|] eqn:Et; [|done]. cbn [mbind option_bind] in E.
    destruct (tm_queue t) as [|[[k ok] since] rest] eqn:Eq; [done|]. injection E as <-.
    destruct w; [injection Et as <-; by eapply as_runs|apply as_leaves; try done; by apply runs_leaves..].
  - destruct (ob_call now c s) as [s'|] eqn:Ec; [|done]. injection E as <-. cbn in Ec.
    assert (Hm : minds_own c ∨ ¬ minds_own c) by (destruct c; cbn; auto).
    destruct Hm as [Hm|Hm]; [|by apply as_calls]. apply as_leaves; [by eapply call_leaves|..]; by intros [= ->].
Qed.

(** A dead timer asks for nothing, whatever else happens, until it is set. *)
Definition sets_no_authentication (e : server_event) : Prop :=
  match e with Calls (Connected _ _) | Calls ExtendAuthentication => False | _ => True end.

Definition no_authentication (asked : list session_request) (x : Z * ServerSideSession) : Prop :=
  dead (authenticationTimer_ x.2) ∧ ∃ l, ss_asked x.2 = asked ++ l ∧ AskDisconnectGracefully ∉ l.

Lemma no_authentication_step latency asked e x y : sets_no_authentication e → no_authentication asked x →
  server_exec latency e x = Some y → no_authentication asked y.
Proof.
  intros He [Hd (l & Hl & Hn)] E%server_authentication. destruct E as
    [d now s _ _|e now s s' (E1 & _ & _ & l' & El & Hn') _ _ _|now s _ _|now s k ok since rest Hq|c now s s' Hc Hs];
    cbn [fst snd] in *.
  - split; [done|by exists l].
  - split; [by cbn; rewrite E1|]. exists (l ++ l'). cbn. rewrite El, Hl, app_assoc. split; [done|].
    by rewrite not_elem_of_app.
  - split; [by apply dead_expires|by exists l].
  - destruct (dead_runs authenticationTimer_ on_authenticationTimer (ss_timedOut now) now k ok since rest _
      (on_authenticationTimer dequeue s) Hd Hq eq_refl) as [->|[-> Hr]]; (split; [by left|by exists l]).
  - destruct c; try done; cbn in Hs; try (by destruct Hc); destruct (ss_connected s); try done; injection Hs as <-.
    + split; [apply dead_cancel|by exists l].
    + split; [apply dead_cancel|by exists l].
Qed.

(** A timer that waits undisturbed ends, and the session asks to be disconnected. *)
Definition keeps_authentication (e : server_event) : Prop :=
  match e with
  | Calls Disconnected | Calls Authenticated | Calls ExtendAuthentication => False
  | _ => True
  end.

Definition awaits_authentication (latency deadline : Z) (x : Z * ServerSideSession) : Prop :=
  AskDisconnectGracefully ∈ ss_asked x.2 ∨
  (ss_connected x.2 = true ∧ waiting_once (authenticationTimer_ x.2) ∧
   tm_expiry (authenticationTimer_ x.2) = deadline ∧ x.1 ≤ deadline + latency).

Lemma awaits_authentication_step latency deadline e x y : keeps_authentication e →
  awaits_authentication latency deadline x → server_exec latency e x = Some y →
  awaits_authentication latency deadline y.
Proof.
  intros He Hx E%server_authentication.
  assert (Hgrow : ∀ asked l : list session_request, AskDisconnectGracefully ∈ asked → AskDisconnectGracefully ∈ asked ++ l).
  { intros asked l Ha. apply elem_of_app. by left. }
  destruct E as
    [d now s Hd Ho|e now s s' (E1 & E2 & _ & l' & El & _) _ _ _|now s Hw Hexp|now s k ok since rest Hq|c now s s' Hc Hs];
    unfold awaits_authentication in *; cbn [fst snd] in *.
  - destruct Hx as [Ha|(Hc & Hw & He' & Hl)]; [by left|right]. split_and!; try done.
    rewrite <- He'. by apply waiting_on_time.
  - rewrite El, E1, E2. destruct Hx as [Ha|Hx]; [left; by apply Hgrow|by right].
  - destruct Hx as [Ha|(Hc & Hwt & He' & Hl)]; [by left|right]. cbn.
    destruct (waiting_expires _ Hwt Hw) as [Hwt' ->]. by split_and!.
  - destruct Hx as [Ha|(Hc & Hwt & He' & Hl)].
    + left. apply (run_wait_cases (λ s, AskDisconnectGracefully ∈ ss_asked s)); try done.
      intros s' Hs'. cbn. by apply Hgrow.
    + destruct (waiting_runs _ _ _ _ _ Hwt Hq) as (-> & -> & Hr & _). left. cbn. rewrite Hr. cbn.
      apply elem_of_app. right. by apply list_elem_of_singleton.
  - destruct c; try done; try (by destruct Hc). cbn in Hs. destruct Hx as [Ha|(Hcn & _)].
    + destruct (ss_connected s); [done|]. injection Hs as <-. left.
      unfold ss_onConnected, setupAuthenticationTimer. destruct hasPacketCipher; cbn; by case_match.
    + by rewrite Hcn in Hs.
Qed.

(** *** The receiver of heartbeats *)

Definition leaves_receiver (s s' : ServerSideSession) : Prop :=
  heartBeatReceiver_ s' = heartBeatReceiver_ s ∧ ss_connected s' = ss_connected s ∧
  ∃ l, ss_asked s' = ss_asked s ++ l.
#[local] Instance leaves_receiver_preorder : PreOrder leaves_receiver.
Proof.
  split.
  - intros s. split_and!; [done..|]. exists []. by rewrite app_nil_r.
  - intros s s1 s2 (E1 & E2 & l & El) (E1' & E2' & l' & El').
    split_and!; [congruence..|]. exists (l ++ l'). by rewrite El', El, <- app_assoc.
Qed.
Lemma leaves_receiver_ask l s : leaves_receiver s (ss_ask l s).
Proof. split_and!; [done..|]. by exists l. Qed.
Lemma leaves_receiver_same s s' : heartBeatReceiver_ s' = heartBeatReceiver_ s → ss_connected s' = ss_connected s →
  ss_asked s' = ss_asked s → leaves_receiver s s'.
Proof. intros E1 E2 E3. split_and!; [done..|]. exists []. by rewrite app_nil_r. Qed.

Lemma update_leaves_receiver w g s : w ≠ HeartbeatReceiverTimer → leaves_receiver s (ss_update w g s).
Proof. destruct w; intros; [by apply leaves_receiver_same|done|by apply leaves_receiver_same]. Qed.
Lemma runs_leaves_receiver w get now k ok g s : w ≠ HeartbeatReceiverTimer →
  leaves_receiver s (run_wait get (ss_update w) (ss_timerEnds w now) now k ok (ss_update w g s)).
Proof.
  intros Hw. apply run_wait_cases.
  - by apply update_leaves_receiver.
  - intros s' Hs. etrans; [exact Hs|]. by apply update_leaves_receiver.
  - intros s' p Hs. etrans; [exact Hs|]. by apply update_leaves_receiver.
  - intros s' Hs. etrans; [exact Hs|]. destruct w; try done; cbn; [|apply leaves_receiver_ask].
    unfold ss_timedOut. etrans; [|apply leaves_receiver_ask]. by apply leaves_receiver_same.
Qed.

Definition keeps_receiver (e : server_event) : Prop :=
  match e with Calls Disconnected | Calls Authenticated => False | _ => True end.

(** What a receiver's timer does: nothing for its own, or the next turn. *)
Inductive receiver_step (latency : Z) : server_event → Z * ServerSideSession → Z * ServerSideSession → Prop :=
| rs_passes d now s : 0 ≤ d →
    on_time latency (now + d) (default createTimer (receiverTimer_ <$> heartBeatReceiver_ s)) →
    receiver_step latency (Passes d) (now, s) (now + d, s)
| rs_leaves e now s s' : leaves_receiver s s' → receiver_step latency e (now, s) (now, s')
| rs_expires now s r : heartBeatReceiver_ s = Some r → tm_wait (receiverTimer_ r) ≠ None →
    receiver_step latency (Expires HeartbeatReceiverTimer) (now, s)
      (now, on_ssReceiver (on_receiverTimer timer_expires) s)
| rs_runs now s r k ok since rest : heartBeatReceiver_ s = Some r → tm_queue (receiverTimer_ r) = (k, ok, since) :: rest →
    receiver_step latency (Runs HeartbeatReceiverTimer) (now, s)
      (now, run_wait (λ s, default createTimer (receiverTimer_ <$> heartBeatReceiver_ s))
        (λ g, on_ssReceiver (on_receiverTimer g)) (ss_timerEnds HeartbeatReceiverTimer now) now k ok
        (on_ssReceiver (on_receiverTimer dequeue) s))
| rs_arrives now s s' : heartBeatReceiver_ s' = heartbeated now <$> heartBeatReceiver_ s →
    ss_connected s' = ss_connected s → (∃ l, ss_asked s' = ss_asked s ++ l) →
    receiver_step latency (Calls (MessageArrived true)) (now, s) (now, s').

Lemma server_receiver latency e x y : keeps_receiver e → ss_connected x.2 = true →
  server_exec latency e x = Some y → ∃ e', receiver_step latency e' x y.
Proof.
  destruct x as [now s], e as [d|w|w|c]; cbn [timed_exec fst snd]; intros He Hcon E.
  - case_decide as Hd; [|done]. injection E as <-. destruct Hd as (Hd & Ho & _).
    unfold all_on_time in Ho. cbn in Ho. apply Forall_cons in Ho as [_ Ho]. apply Forall_cons in Ho as [Ho _].
    exists (Passes d). by apply rs_passes.
  - destruct (ob_timer w s) as [t|] eqn:Et; [|done]. cbn in E. case_decide as Hd; [|done]. injection E as <-.
    destruct w; [|cbn in Et; destruct (heartBeatReceiver_ s) as [r|] eqn:Er; [|done]; injection Et as <-|].
    + exists (Expires AuthenticationTimer). apply rs_leaves. by apply (update_leaves_receiver _ timer_expires).
    + exists (Expires HeartbeatReceiverTimer). eapply rs_expires; [exact Er|apply Hd].
    + exists (Expires AuthenticationTimer). apply rs_leaves. by apply (update_leaves_receiver _ timer_expires).
  - destruct (ob_timer w s) as [t|] eqn:Et; [|done]. cbn [mbind option_bind] in E.
    destruct (tm_queue t) as [|[[k ok] since] rest] eqn:Eq; [done|]. injection E as <-.
    destruct w; [|cbn in Et; destruct (heartBeatReceiver_ s) as [r|] eqn:Er; [|done]; injection Et as <-|].
    + exists (Runs AuthenticationTimer). apply rs_leaves. by apply runs_leaves_receiver.
    + exists (Runs HeartbeatReceiverTimer). eapply rs_runs; [exact Er|exact Eq].
    + exists (Runs AuthenticationTimer). apply rs_leaves. by apply runs_leaves_receiver.
  - destruct (ob_call now c s) as [s'|] eqn:Ec; [|done]. injection E as <-. cbn in Ec. rewrite ?Hcon in Ec.
    destruct c as [| |handled| | | | |]; try done; cbn in Ec; rewrite ?Hcon in Ec; try done; injection Ec as <-.
    + exists (Calls MessageTransfered). apply rs_leaves. unfold ss_onMessageTransfered. case_match; by apply leaves_receiver_same.
    + exists (Calls (MessageArrived true)). unfold ss_onMessageArrived.
      destruct handled; cbn; [apply rs_arrives; try done; exists []; by rewrite app_nil_r|].
      destruct (isSeedExchanged_ s); cbn; apply rs_arrives; try done; [by exists [AskNextSeed]|exists []; by rewrite app_nil_r].
    + exists (Calls ExtendAuthentication). apply rs_leaves. unfold extendAuthenticationTimeout, setupAuthenticationTimer.
      case_match; by apply leaves_receiver_same.
    + exists (Calls Unauthenticated). apply rs_leaves. by apply leaves_receiver_same.
    + exists (Calls SeedExchanged). apply rs_leaves. by apply leaves_receiver_same.
Qed.

(** Until it asks to be disconnected, a session has heard something not too long ago. *)
Definition hears (latency timeout : Z) (x : Z * ServerSideSession) : Prop :=
  ss_connected x.2 = true ∧
  (AskDisconnect ∈ ss_asked x.2 ∨
   ∃ r, heartBeatReceiver_ x.2 = Some r ∧ validHeartbeatInterval_ r = timeout ∧ repeating timeout (receiverTimer_ r) ∧
   tm_expiry (receiverTimer_ r) < lastHeartbeatedTime_ r + 2 * timeout ∧ lastHeartbeatedTime_ r ≤ x.1 ∧
   x.1 ≤ tm_expiry (receiverTimer_ r) + latency).

Lemma hears_step latency timeout e x y : 0 ≤ latency → 0 < timeout → 2 * timeout + latency < 2 ^ 32 → keeps_receiver e →
  hears latency timeout x → server_exec latency e x = Some y → hears latency timeout y.
Proof.
  intros Hlat Ht Hb He [Hcon Hx] E. destruct (server_receiver _ _ _ _ He Hcon E) as [e' Hst]. clear E He.
  assert (Hgrow : ∀ asked l : list session_request, AskDisconnect ∈ asked → AskDisconnect ∈ asked ++ l).
  { intros asked l Ha. apply elem_of_app. by left. }
  destruct Hst as [d now s Hd Ho|e' now s s' (E1 & E2 & l' & El)|now s r Er Hw|now s r k ok since rest Er Hq|now s s' E1 E2 [l El]];
    unfold hears in *; cbn [fst snd] in *.
  - split; [done|]. destruct Hx as [Ha|(r & Hr & Hv & Hrep & H1 & H2 & H3)]; [by left|right].
    exists r. rewrite Hr in Ho. cbn in Ho. split_and!; try done; [lia|]. by apply (repeating_on_time latency timeout).
  - rewrite E1, E2, El. split; [done|]. destruct Hx as [Ha|Hx]; [left; by apply Hgrow|by right].
  - split; [done|]. destruct Hx as [Ha|(r' & Hr & Hv & Hrep & H1 & H2 & H3)]; [by left|right].
    rewrite Hr in Er. injection Er as ->. cbn. rewrite Hr. cbn. eexists. split; [done|]. cbn.
    destruct (repeating_expires _ _ Hrep Hw) as [Hrep' ->]. by split_and!.
  - destruct Hx as [Ha|(r' & Hr & Hv & Hrep & H1 & H2 & H3)].
    + match goal with |- ss_connected ?s' = _ ∧ _ =>
        assert (Hs : ss_connected s' = true ∧ AskDisconnect ∈ ss_asked s') end; [|by destruct Hs; split; [|left]].
      apply (run_wait_cases (λ s, ss_connected s = true ∧ AskDisconnect ∈ ss_asked s)); try done.
      intros s' [Hc' Ha']. cbn. destruct (heartBeatReceiver_ s') as [r0|]; [|done].
      destruct (receiver_timedOut now r0) as [r1 l1]. cbn. split; [done|]. by apply Hgrow.
    + rewrite Hr in Er. injection Er as ->. destruct (repeating_runs _ _ _ _ _ _ Hrep Hq) as (-> & -> & Hrun & Hnext).
      destruct (Hnext now) as [Hn1 Hn2]. cbn [run_wait]. unfold handle_repeat_timeout. cbn. rewrite Hr. cbn.
      rewrite Hrun. cbn. rewrite ?Hr. cbn. unfold receiver_timedOut, isZombie. cbn. rewrite Hv.
      rewrite getElapsedTime_id by lia.
      destruct (Z.leb_spec timeout (now - lastHeartbeatedTime_ r)) as [Hz|Hz]; cbn; (split; [done|]).
      * left. apply elem_of_app. right. by apply list_elem_of_singleton.
      * right. rewrite ?Hr. cbn. eexists. split; [done|]. cbn. split_and!; try done; lia.
  - rewrite E1, E2, El. split; [done|]. destruct Hx as [Ha|(r & Hr & Hv & Hrep & H1 & H2 & H3)]; [left; by apply Hgrow|right].
    rewrite Hr. cbn. eexists. split; [done|]. cbn. split_and!; try done; lia.
Qed.

(** ** [ClientSideSession] *)

#[local] Abbreviation client_exec latency := (timed_exec (S := ClientSideSession) (W := link_timer) (Op := cs_call) latency).
#[local] Abbreviation client_event := (timed_event link_timer cs_call).

(** What leaves the receiver alone. *)
Definition leaves_csReceiver (s s' : ClientSideSession) : Prop :=
  cs_receiver s' = cs_receiver s ∧ cs_connected s' = cs_connected s ∧ ∃ l, cs_asked s' = cs_asked s ++ l.
Lemma leaves_csReceiver_same s s' : cs_receiver s' = cs_receiver s → cs_connected s' = cs_connected s →
  cs_asked s' = cs_asked s → leaves_csReceiver s s'.
Proof. intros E1 E2 E3. split_and!; [done..|]. exists []. by rewrite app_nil_r. Qed.
Lemma leaves_csReceiver_ask l s s' : leaves_csReceiver s s' → leaves_csReceiver s (cs_ask l s').
Proof. intros (E1 & E2 & l' & El). split_and!; [done..|]. exists (l' ++ l). cbn. by rewrite El, app_assoc. Qed.

(** Connected at [since], it has not been told since that a message arrived. *)
Definition deaf (latency since timeout : Z) (x : Z * ClientSideSession) : Prop :=
  cs_connected x.2 = true ∧
  (AskDisconnect ∈ cs_asked x.2 ∨
   let r := cs_receiver x.2 in
   validHeartbeatInterval_ r = timeout ∧ repeating timeout (receiverTimer_ r) ∧
   lastHeartbeatedTime_ r = since ∧ tm_expiry (receiverTimer_ r) = since + timeout ∧
   x.1 ≤ tm_expiry (receiverTimer_ r) + latency ∧ (tm_wait (receiverTimer_ r) = None → since + timeout ≤ x.1)).

Lemma deaf_leaves latency since timeout now s s' : deaf latency since timeout (now, s) → leaves_csReceiver s s' →
  deaf latency since timeout (now, s').
Proof.
  intros [Hc Hx] (E1 & E2 & l & El). unfold deaf in *. cbn [fst snd] in *. rewrite E1, E2, El. split; [done|].
  destruct Hx as [Ha|Hx]; [left; apply elem_of_app; by left|by right].
Qed.

Lemma deaf_step latency since timeout e x y : 0 ≤ timeout → timeout + latency < 2 ^ 32 → e ≠ Calls CsDisconnected →
  deaf latency since timeout x → client_exec latency e x = Some y → deaf latency since timeout y.
Proof.
  destruct x as [now s]. intros Ht Hb He Hx E. destruct e as [d|[|]|[|]|c]; cbn [timed_exec] in E.
  - case_decide as Hd; [|done]. injection E as <-. destruct Hd as (Hd & Ho & _). destruct Hx as [Hc Hx].
    split; [done|]. cbn [fst snd] in *. destruct Hx as [Ha|(Hv & Hrep & Hl & He' & Hn & Hw)]; [by left|right].
    unfold all_on_time in Ho. cbn in Ho. apply Forall_cons in Ho as [_ Ho]. apply Forall_cons in Ho as [Ho _].
    split_and!; try done; [by apply (repeating_on_time latency timeout)|]. intros Hno. specialize (Hw Hno). lia.
  - destruct (ob_timer SenderTimer s); [|done]. cbn in E. case_decide; [|done]. injection E as <-.
    eapply deaf_leaves; [exact Hx|]. by apply leaves_csReceiver_same.
  - cbn in E. case_decide as Hd; [|done]. injection E as <-. destruct Hx as [Hc Hx].
    split; [done|]. cbn [fst snd] in *. destruct Hx as [Ha|(Hv & Hrep & Hl & He' & Hn & Hw)]; [by left|right]. cbn.
    destruct (repeating_expires _ _ Hrep (proj1 Hd)) as [Hrep' ->]. split_and!; try done. intros. lia.
  - destruct (ob_timer SenderTimer s) as [t|]; [|done]. cbn [mbind option_bind] in E.
    destruct (tm_queue t) as [|[[k ok] q] rest]; [done|]. injection E as <-.
    eapply deaf_leaves; [exact Hx|]. cbn. apply run_wait_cases.
    + by apply leaves_csReceiver_same.
    + intros s' (E1 & E2 & l & El). split_and!; [done..|by exists l].
    + intros s' p (E1 & E2 & l & El). split_and!; [done..|by exists l].
    + intros s' Hs'. by apply leaves_csReceiver_ask.
  - cbn in E. destruct (tm_queue (receiverTimer_ (cs_receiver s))) as [|[[k ok] q] rest] eqn:Eq; [done|].
    injection E as <-. destruct Hx as [Hc Hx]. cbn [fst snd] in *.
    destruct Hx as [Ha|(Hv & Hrep & Hl & He' & Hn & Hw)].
    + match goal with |- deaf _ _ _ (_, ?s') =>
        assert (Hs : cs_connected s' = true ∧ AskDisconnect ∈ cs_asked s') end; [|by destruct Hs; split; [|left]].
      apply (run_wait_cases (λ s, cs_connected s = true ∧ AskDisconnect ∈ cs_asked s)); try done.
      intros s' [Hc' Ha']. cbn. destruct (receiver_timedOut now (cs_receiver s')) as [r1 l1]. cbn. split; [done|].
      apply elem_of_app. by left.
    + destruct (repeating_runs _ _ _ _ _ _ Hrep Eq) as (-> & -> & Hrun & Hnext).
      assert (Hwn : tm_wait (receiverTimer_ (cs_receiver s)) = None) by (destruct Hrep as (_ & [[_ Hq]|[? _]]); [by rewrite Hq in Eq|done]).
      specialize (Hw Hwn). cbn [run_wait]. unfold handle_repeat_timeout. cbn. rewrite Hrun.
      unfold receiver_timedOut, isZombie. cbn. rewrite Hv, Hl, getElapsedTime_id by lia.
      rewrite (proj2 (Z.leb_le _ _)) by lia. cbn. split; [done|left]. apply elem_of_app. right. by apply list_elem_of_singleton.
  - cbn in E. pose proof (proj1 Hx) as Hc. cbn in Hc. destruct c as [b| |handled| |]; cbn in E; rewrite ?Hc in E; try done; injection E as <-.
    + unfold cs_onMessageTransfered. rewrite Hc. eapply deaf_leaves; [exact Hx|]. by apply leaves_csReceiver_same.
    + done.
    + eapply deaf_leaves; [exact Hx|]. apply leaves_csReceiver_ask. by apply leaves_csReceiver_same.
Qed.

Lemma connected_deaf latency now interval hasCipher s : 0 ≤ latency → 0 < interval → interval * 3 < 2 ^ 32 →
  cs_receiver s = cs_receiver (newClientSide interval) →
  deaf latency now (interval * 3) (now, cs_onConnected now hasCipher (set_csConnected true s)).
Proof.
  intros Hlat Hi Hb Hr.
  assert (Ht : uint 32 (interval * 3) = interval * 3) by (apply uint_id; unfold is_uint; lia).
  destruct (repeat_idle now (interval * 3) createTimer createTimer_idle) as [H1 H2].
  unfold cs_onConnected. set (s1 := if negb hasCipher then _ else _).
  assert (E1 : cs_receiver s1 = newHeartBeatReceiver (interval * 3) ∧ cs_connected s1 = true).
  { subst s1. destruct hasCipher; cbn; rewrite Hr; cbn; by rewrite Ht. }
  destruct E1 as [E1 E2]. split; [done|right]. cbn [fst snd on_csReceiver cs_receiver]. rewrite E1.
  unfold setupTimer. cbn [validHeartbeatInterval_ newHeartBeatReceiver]. rewrite (proj2 (Z.leb_gt _ _)) by lia.
  split_and!; try done; cbn; lia.
Qed.

(** A heartbeater that is started while it waits sends no more heartbeats. *)
Definition starts_no_heartbeater (e : client_event) : Prop :=
  match e with Calls (CsConnected _) | Calls CsSeedExchanged => False | _ => True end.
Definition no_heartbeats (asked : list session_request) (x : Z * ClientSideSession) : Prop :=
  dead (default createTimer (heartbeaterTimer_ (cs_heartbeater x.2))) ∧
  ∃ l, cs_asked x.2 = asked ++ l ∧ AskHeartbeat ∉ l.

Lemma no_heartbeats_step latency asked e x y : starts_no_heartbeater e → no_heartbeats asked x →
  client_exec latency e x = Some y → no_heartbeats asked y.
Proof.
  destruct x as [now s]. intros He [Hd (l & Hl & Hn)] E. cbn [fst snd] in *.
  destruct e as [d|[|]|[|]|c]; cbn [timed_exec] in E.
  - case_decide; [|done]. injection E as <-. split; [done|by exists l].
  - cbn in E. destruct (heartbeaterTimer_ (cs_heartbeater s)) as [t|] eqn:Et; [|done]. cbn in E. case_decide; [|done].
    injection E as <-. split; [|by exists l]. cbn. rewrite Et. by apply dead_expires.
  - cbn in E. case_decide; [|done]. injection E as <-. split; [done|by exists l].
  - cbn in E. destruct (heartbeaterTimer_ (cs_heartbeater s)) as [t|] eqn:Et; [|done]. cbn [mbind option_bind] in E.
    destruct (tm_queue t) as [|[[k ok] since] rest] eqn:Eq; [done|]. injection E as <-. cbn in Hd.
    assert (Eg : default createTimer (heartbeaterTimer_ (cs_heartbeater
      (on_csHeartbeater (on_heartbeaterTimer dequeue) s))) = dequeue t) by (cbn; by rewrite Et).
    match goal with |- context [run_wait ?g ?u ?f ?n ?k ?o ?s0] =>
      pose proof (dead_runs g u f n k o since rest t s0 Hd Eq Eg) as Hcase end.
    destruct Hcase as [E1|[E1 Hr]]; rewrite E1.
    + split; [|by exists l]. cbn. rewrite Et. by left.
    + split; [|by exists l]. cbn. rewrite Et. by left.
  - cbn in E. destruct (tm_queue (receiverTimer_ (cs_receiver s))) as [|[[k ok] since] rest]; [done|].
    injection E as <-. cbn. apply (run_wait_cases (λ s', no_heartbeats asked (now, s'))); try done.
    + split; [done|by exists l].
    + intros s' (Hd' & l' & Hl' & Hn'). unfold no_heartbeats in *. cbn in *.
      pose proof (receiver_asks now (cs_receiver s') AskHeartbeat ltac:(done)) as Hr. destruct (receiver_timedOut _ _) as [r1 l1].
      split; [done|]. exists (l' ++ l1). cbn. rewrite Hl', <- app_assoc. split; [done|]. by rewrite not_elem_of_app.
  - cbn in E. destruct c as [b| |handled| |]; try done; cbn in E;
      try (destruct (cs_connected s) eqn:Ec; [|done]); simplify_eq/=.
    + unfold cs_onMessageTransfered. case_match; (split; [done|by exists l]).
    + split; [done|by exists l].
    + split; [|by exists l]. cbn. destruct (heartbeaterTimer_ (cs_heartbeater s)); [apply dead_cancel|by left].
Qed.
