(* ===== verification/Monitors.v ===== *)
(** * Threads, a mutex and a condition variable

    Some objects of the program are monitors: every access of their members is made
    with a mutex held, and threads wait on a [std::condition_variable].  What a thread
    does from taking the mutex to giving it up, or to waiting, is one step of a
    machine; the order of the steps is any.  A thread that waits is blocked until it
    is notified, or wakes up by itself, which the standard allows; then it is awake:
    it takes the mutex again and goes on from the wait.

    This file has the condition variable over a list of threads, whose states are
    those of the machine at hand. *)

From S2P Require Import Prelude.

Class Thread (T : Type) := {
  is_blocked : T → bool;       (* in [wait] *)
  is_awake : T → bool;         (* notified, about to take the mutex again *)
  awaken : T → T;              (* from blocked to awake *)
}.

(** What a monitor relies on. *)
Class ThreadSpec (T : Type) `{Thread T} := {
  blocked_not_awake t : is_blocked t = true → is_awake t = false;
  awaken_awake t : is_blocked t = true → is_awake (awaken t) = true ∧ is_blocked (awaken t) = false;
}.

#[local] Arguments Nat.b2n : simpl never.

(** How many elements have a property. *)
Fixpoint count {A} (p : A → bool) (l : list A) : nat :=
  match l with [] => 0 | x :: l => Nat.b2n (p x) + count p l end.

Section count.
Context {A : Type} (p : A → bool).

Lemma count_insert l i x y : l !! i = Some x →
  (count p (<[i := y]> l) + Nat.b2n (p x) = count p l + Nat.b2n (p y))%nat.
Proof.
  revert i. induction l as [|z l IH]; intros [|i] Hi; cbn in Hi; [done|done|..].
  - injection Hi as ->. cbn. lia.
  - specialize (IH i Hi). change (<[S i := y]> (z :: l)) with (z :: <[i := y]> l). cbn [count]. lia.
Qed.
Lemma count_app l l' : count p (l ++ l') = (count p l + count p l')%nat.
Proof. induction l as [|x l IH]; cbn; lia. Qed.
Lemma count_pos l : (0 < count p l)%nat ↔ ∃ i x, l !! i = Some x ∧ p x = true.
Proof.
  induction l as [|x l IH]; cbn; [split; [lia|intros (i & x & ? & _); done]|].
  destruct (p x) eqn:E; unfold Nat.b2n; cbn.
  - split; [|lia]. intros _. by exists 0%nat, x.
  - rewrite IH. split.
    + intros (i & y & Hi & Hy). by exists (S i), y.
    + intros ([|i] & y & Hi & Hy); [cbn in Hi; congruence|]. by exists i, y.
Qed.
Lemma count_none l : count p l = 0%nat ↔ ∀ i x, l !! i = Some x → p x = false.
Proof.
  split.
  - intros H i x Hi. destruct (p x) eqn:E; [|done]. exfalso.
    assert (0 < count p l)%nat; [|lia]. apply count_pos. by exists i, x.
  - intros H. destruct (decide (0 < count p l)%nat) as [Hc|]; [|lia].
    apply count_pos in Hc as (i & x & Hi & Hx). by rewrite (H i x Hi) in Hx.
Qed.
Lemma count_le_length l : (count p l ≤ length l)%nat.
Proof. induction l as [|x l IH]; cbn; [lia|]. destruct (p x); unfold Nat.b2n; lia. Qed.
End count.

Lemma count_ext {A} (p q : A → bool) l : (∀ x, p x = q x) → count p l = count q l.
Proof. intros H. induction l as [|x l IH]; cbn; by rewrite ?H, ?IH. Qed.
Lemma count_map {A B} (p : B → bool) (f : A → B) l : count p (map f l) = count (λ x, p (f x)) l.
Proof. induction l as [|x l IH]; cbn; by rewrite ?IH. Qed.

(** ** The condition variable *)

Section condition.
Context {T : Type} `{ThreadSpec T}.

Definition blocked (ts : list T) : nat := count is_blocked ts.
Definition awake (ts : list T) : nat := count is_awake ts.

Definition notify_all (ts : list T) : list T := map (λ t, if is_blocked t then awaken t else t) ts.
(** It wakes any thread, if one is blocked. *)
Definition notify_one (choice : option nat) (ts : list T) : option (list T) :=
  match choice with
  | None => if decide (blocked ts = 0%nat) then Some ts else None
  | Some i => t ← ts !! i; if is_blocked t then Some (<[i := awaken t]> ts) else None
  end.

Lemma notify_all_blocked ts : blocked (notify_all ts) = 0%nat.
Proof.
  unfold blocked, notify_all. rewrite count_map. apply count_none. intros i t _.
  destruct (is_blocked t) eqn:E; [|done]. by apply awaken_awake.
Qed.
Lemma notify_all_length ts : length (notify_all ts) = length ts.
Proof. unfold notify_all. by rewrite length_map. Qed.

Lemma awaken_counts ts i t : ts !! i = Some t → is_blocked t = true →
  (S (blocked (<[i := awaken t]> ts)) = blocked ts ∧ awake (<[i := awaken t]> ts) = S (awake ts))%nat.
Proof.
  intros Hi Hb. destruct (awaken_awake t Hb) as [Ha Hb'].
  pose proof (count_insert is_blocked ts i t (awaken t) Hi) as H1. pose proof (count_insert is_awake ts i t (awaken t) Hi) as H2.
  rewrite Hb, Hb' in H1. rewrite Ha, (blocked_not_awake t Hb) in H2. unfold blocked, awake. unfold Nat.b2n in *. lia.
Qed.

(** A thread that steps and does not wait adds nothing to those that do. *)
Lemma blocked_insert ts t p p' : ts !! t = Some p → is_blocked p' = false →
  (blocked (<[t := p']> ts) ≤ blocked ts)%nat.
Proof.
  intros Ht Hb. pose proof (count_insert is_blocked ts t p p' Ht) as Hc. rewrite Hb in Hc.
  unfold blocked, Nat.b2n in *. destruct (is_blocked p); lia.
Qed.

Lemma blocked_same ts t p p' : ts !! t = Some p → is_blocked p = false → is_blocked p' = false →
  blocked (<[t := p']> ts) = blocked ts.
Proof.
  intros Ht Hb Hb'. pose proof (count_insert is_blocked ts t p p' Ht) as Hc. rewrite Hb, Hb' in Hc. unfold blocked. lia.
Qed.

(** Either nobody waits, or one that waits is woken. *)
Lemma notify_one_counts choice ts ts' : notify_one choice ts = Some ts' →
  (ts' = ts ∧ blocked ts = 0%nat) ∨
  (S (blocked ts') = blocked ts ∧ awake ts' = S (awake ts))%nat.
Proof.
  destruct choice as [i|]; cbn.
  - destruct (ts !! i) as [t|] eqn:Et; [|done]. cbn. destruct (is_blocked t) eqn:Eb; [|done]. intros [= <-].
    right. by apply awaken_counts.
  - case_decide; [|done]. intros [= <-]. by left.
Qed.

(** Somebody can always be chosen. *)
Lemma notify_one_total ts : ∃ choice ts', notify_one choice ts = Some ts'.
Proof.
  destruct (decide (blocked ts = 0%nat)) as [E|E].
  - exists None, ts. cbn. by rewrite decide_True.
  - assert (0 < blocked ts)%nat as (i & t & Hi & Ht)%count_pos by lia. exists (Some i). cbn. rewrite Hi. cbn.
    rewrite Ht. by eexists.
Qed.
End condition.

(** ** Runs of a machine *)

Section runs.
Context {S E : Type} (exec : E → S → option S).

Fixpoint runs_exec (es : list E) (s : S) : option S :=
  match es with
  | [] => Some s
  | e :: es => s' ← exec e s; runs_exec es s'
  end.

Lemma runs_inv (I : S → Prop) (P : E → Prop) es s s' :
  (∀ e s s', P e → I s → exec e s = Some s' → I s') →
  Forall P es → I s → runs_exec es s = Some s' → I s'.
Proof.
  intros Hstep Hes. revert s. induction Hes as [|e es He _ IH]; intros s Hs; cbn; [by intros [= <-]|].
  destruct (exec e s) as [s1|] eqn:E1; [|done]. cbn. apply IH. by eapply Hstep.
Qed.

Lemma runs_inv_all (I : S → Prop) es s s' :
  (∀ e s s', I s → exec e s = Some s' → I s') → I s → runs_exec es s = Some s' → I s'.
Proof. intros Hstep. apply (runs_inv I (λ _, True)); [by intros e s1 s2 _; apply Hstep|by apply Forall_true]. Qed.

Lemma runs_app es es' s s' : runs_exec (es ++ es') s = Some s' ↔
  ∃ s1, runs_exec es s = Some s1 ∧ runs_exec es' s1 = Some s'.
Proof.
  revert s. induction es as [|e es IH]; intros s; cbn.
  { split; [by intros; exists s|by intros (? & [= <-] & ?)]. }
  destruct (exec e s) as [s1|]; cbn; [apply IH|]. split; [done|by intros (? & ? & _)].
Qed.

(** Steps that a measure counts down are bounded by it. *)
Lemma runs_bounded (I : S → Prop) (m : S → nat) es s s' :
  (∀ e s s', I s → exec e s = Some s' → I s' ∧ (m s' < m s)%nat) →
  I s → runs_exec es s = Some s' → (length es + m s' ≤ m s)%nat.
Proof.
  intros Hstep. revert s. induction es as [|e es IH]; intros s Hs; cbn; [intros [= <-]; lia|].
  destruct (exec e s) as [s1|] eqn:E1; [|done]. cbn. intros Hr. destruct (Hstep _ _ _ Hs E1) as [Hs1 Hm].
  specialize (IH s1 Hs1 Hr). lia.
Qed.
End runs.
