(* ===== verification/DatabasePool.v ===== *)
(** * database: the pool of connections

    Models [DatabasePool] ([src/src/database/DatabasePool.{h,cpp}]), the interface
    [DatabaseManager] with its [Guard] ([src/include/sne/database/DatabaseManager.h])
    and its two implementations ([src/src/database/DirectDatabaseManager.h],
    [ProxyDatabaseManager.h]).  A [Database] is known by its address; opening, closing
    and pinging it is the database's own business.  [acquire] and [release] are called
    by any number of threads: the machine of this file. *)

From S2P Require Import Prelude Monitors.

Record Item := mkItem { database_ : nat; isIdle_ : bool }.

Record DatabasePool := mkDatabasePool {
  databases_ : list Item;
  idleDatabase_ : Z;                 (* a [size_t] *)
}.

Definition newDatabasePool : DatabasePool := mkDatabasePool [] 0.

(** What the factory creates, one after the other, and whether it can be opened. *)
Fixpoint open_databases (created : list (nat * bool)) (databases : list Item) : bool * list Item :=
  match created with
  | [] => (true, databases)
  | (db, ok) :: created => if ok then open_databases created (databases ++ [mkItem db true]) else (false, databases)
  end.
(** [connectionCount] is the length of [created]. *)
Definition open_pool (created : list (nat * bool)) (p : DatabasePool) : bool * DatabasePool :=
  let '(ok, l) := open_databases created (databases_ p) in
  if ok then (true, mkDatabasePool l (Z.of_nat (length created)))
  else (false, mkDatabasePool l (idleDatabase_ p)).

(** The loop of [acquire]: the first idle item is taken; [None] is the null pointer. *)
Fixpoint take_idle (l : list Item) : option nat * list Item :=
  match l with
  | [] => (None, [])
  | item :: l =>
      if isIdle_ item then (Some (database_ item), mkItem (database_ item) false :: l)
      else let '(r, l) := take_idle l in (r, item :: l)
  end.

(** From the test of the loop of [wait] on; [None]: it waits. *)
Definition pool_acquire (p : DatabasePool) : option (option nat * DatabasePool) :=
  if idleDatabase_ p <=? 0 then None
  else
    let '(r, l) := take_idle (databases_ p) in
    Some (r, mkDatabasePool l (uint 64 (idleDatabase_ p - 1))).

(** The loop of [release]: the item of the database becomes idle. *)
Fixpoint give_back (db : option nat) (l : list Item) : option (list Item) :=
  match l with
  | [] => None
  | item :: l =>
      if decide (Some (database_ item) = db) then Some (mkItem (database_ item) true :: l)
      else (item ::.) <$> give_back db l
  end.
(** The new pool, and whether a thread is notified. *)
Definition pool_release (db : option nat) (p : DatabasePool) : DatabasePool * bool :=
  match give_back db (databases_ p) with
  | Some l => (mkDatabasePool l (uint 64 (idleDatabase_ p + 1)), true)
  | None => (p, false)
  end.

(** [enumerate] and [enumerateIdleDatabases]: the databases the task is run on, with
    the mutex held. *)
Definition enumerate (p : DatabasePool) : list nat := database_ <$> databases_ p.
Definition enumerateIdleDatabases (p : DatabasePool) : list nat :=
  database_ <$> filter (λ item, isIdle_ item = true) (databases_ p).

(** ** [DatabaseManager] *)

Class DatabaseManager (M : Type) := {
  dbm_acquire : M → option (option nat * M);
  dbm_release : option nat → M → M * bool;
  dbm_enumerate : M → list nat;
}.

#[global] Instance DirectDatabaseManager : DatabaseManager DatabasePool := {|
  dbm_acquire := pool_acquire;
  dbm_release := pool_release;
  dbm_enumerate := enumerate;
|}.

(** All share one database; [release] only checks. *)
Record ProxyDatabaseManager := mkProxyManager { pdm_database : nat }.
#[global] Instance ProxyDatabaseManager_manager : DatabaseManager ProxyDatabaseManager := {|
  dbm_acquire m := Some (Some (pdm_database m), m);
  dbm_release _ m := (m, false);
  dbm_enumerate m := [pdm_database m];
|}.

(** ** The threads that use a manager *)

Inductive phase := Running | Blocked | Awake.
#[global] Instance phase_eq_dec : EqDecision phase.
Proof. solve_decision. Defined.

(** [dt_held]: the pointers its [Guard]s hold. *)
Record db_thread := mkThread { dt_phase : phase; dt_held : list (option nat) }.

#[global] Instance db_thread_thread : Thread db_thread := {|
  is_blocked t := bool_decide (dt_phase t = Blocked);
  is_awake t := bool_decide (dt_phase t = Awake);
  awaken t := mkThread Awake (dt_held t);
|}.
#[global] Instance db_thread_spec : ThreadSpec db_thread.
Proof.
  split; intros t; cbn; rewrite ?bool_decide_eq_true; [by intros ->|]. intros _. by split.
Qed.

Section system.
Context {M : Type} `{DatabaseManager M}.

Record DatabaseSystem := mkSystem {
  sys_manager : M;
  sys_threads : list db_thread;
}.

Inductive db_event :=
| Acquire (t : nat)                              (* a [Guard] is made *)
| Resume (t : nat)                               (* goes on from [wait] *)
| WakeUp (t : nat)                               (* without being notified *)
| Release (t : nat) (db : option nat) (choice : option nat).   (* a [Guard] ends *)

(** The thread takes the mutex, and leaves it with a database or waiting. *)
Definition acquire_turn (t : nat) (th : db_thread) (s : DatabaseSystem) : DatabaseSystem :=
  match dbm_acquire (sys_manager s) with
  | None => mkSystem (sys_manager s) (<[t := mkThread Blocked (dt_held th)]> (sys_threads s))
  | Some (r, m) => mkSystem m (<[t := mkThread Running (r :: dt_held th)]> (sys_threads s))
  end.

Fixpoint remove_held (db : option nat) (l : list (option nat)) : option (list (option nat)) :=
  match l with
  | [] => None
  | x :: l => if decide (x = db) then Some l else (x ::.) <$> remove_held db l
  end.

Definition db_exec (e : db_event) (s : DatabaseSystem) : option DatabaseSystem :=
  match e with
  | Acquire t =>
      th ← sys_threads s !! t;
      if decide (dt_phase th = Running) then Some (acquire_turn t th s) else None
  | Resume t =>
      th ← sys_threads s !! t;
      if decide (dt_phase th = Awake) then Some (acquire_turn t th s) else None
  | WakeUp t =>
      th ← sys_threads s !! t;
      if is_blocked th then Some (mkSystem (sys_manager s) (<[t := awaken th]> (sys_threads s))) else None
  | Release t db choice =>
      th ← sys_threads s !! t;
      if decide (dt_phase th = Running) then
        held ← remove_held db (dt_held th);
        let '(m, notified) := dbm_release db (sys_manager s) in
        let threads := <[t := mkThread Running held]> (sys_threads s) in
        threads ← if notified : bool then notify_one choice threads else Some threads;
        Some (mkSystem m threads)
      else None
  end.

Definition held (s : DatabaseSystem) : list (option nat) := concat (dt_held <$> sys_threads s).
Definition idle_threads (n : nat) : list db_thread := replicate n (mkThread Running []).
End system.
Arguments DatabaseSystem M : clear implicits.

(** ** The loops *)

Lemma take_idle_ok l : (0 < count isIdle_ l)%nat → ∃ l1 x l2, l = l1 ++ mkItem x true :: l2 ∧
  take_idle l = (Some x, l1 ++ mkItem x false :: l2).
Proof.
  induction l as [|[x b] l IH]; cbn; [lia|]. destruct b; cbn.
  - intros _. by exists [], x, l.
  - intros (l1 & y & l2 & -> & E)%IH. exists (mkItem x false :: l1), y, l2. split; [done|]. by rewrite E.
Qed.

Lemma give_back_ok x l : x ∈ database_ <$> filter (λ item, isIdle_ item = false) l → NoDup (database_ <$> l) →
  ∃ l1 l2, l = l1 ++ mkItem x false :: l2 ∧ give_back (Some x) l = Some (l1 ++ mkItem x true :: l2).
Proof.
  induction l as [|[y b] l IH]; intros Hx Hnd; [by apply elem_of_nil in Hx|].
  rewrite fmap_cons in Hnd. apply NoDup_cons in Hnd as [Hy Hnd]. cbn in Hy. rewrite filter_cons in Hx. cbn [give_back database_].
  assert (Hin : x ∈ database_ <$> filter (λ item, isIdle_ item = false) l → x ∈ database_ <$> l).
  { rewrite !list_elem_of_fmap. intros (i & -> & [_ Hi]%list_elem_of_filter). exists i. by split. }
  destruct (decide (Some y = Some x)) as [Ed|Ed].
  - injection Ed as ->. destruct b; cbn in Hx; [by destruct Hy; apply Hin|]. by exists [], l.
  - assert (Hx' : x ∈ database_ <$> filter (λ item, isIdle_ item = false) l).
    { destruct b; cbn in Hx; [exact Hx|]. apply elem_of_cons in Hx as [->|]; [by destruct Ed|done]. }
    destruct (IH Hx' Hnd) as (l1 & l2 & -> & E). exists (mkItem y b :: l1), l2. split; [done|]. by rewrite E.
Qed.

Lemma remove_held_perm db l l' : remove_held db l = Some l' → l ≡ₚ db :: l'.
Proof.
  revert l'. induction l as [|x l IH]; intros l'; cbn; [done|]. case_decide as E; [by intros [= <-]; rewrite E|].
  destruct (remove_held db l) as [l1|]; [|done]. cbn. intros [= <-]. rewrite (IH l1 eq_refl). apply Permutation_swap.
Qed.

Lemma held_insert (ts : list db_thread) t th th' : ts !! t = Some th →
  concat (dt_held <$> <[t := th']> ts) ++ dt_held th ≡ₚ concat (dt_held <$> ts) ++ dt_held th'.
Proof.
  intros Ht. pose proof (lookup_lt_Some _ _ _ Ht) as Hlt. rewrite insert_take_drop by done.
  rewrite <- (take_drop_middle ts t th Ht) at 3. rewrite !fmap_app, !fmap_cons, !concat_app. cbn.
  rewrite <- !app_assoc. apply Permutation_app_head.
  rewrite (Permutation_app_comm (dt_held th')), (Permutation_app_comm (dt_held th)), <- !app_assoc.
  by rewrite (Permutation_app_comm (dt_held th')).
Qed.
Lemma held_same (ts : list db_thread) t th th' : ts !! t = Some th → dt_held th' = dt_held th →
  concat (dt_held <$> <[t := th']> ts) = concat (dt_held <$> ts).
Proof.
  intros Ht E. by rewrite list_fmap_insert, E, list_insert_id by (by rewrite list_lookup_fmap, Ht).
Qed.
Lemma notify_one_held choice (ts ts' : list db_thread) : notify_one choice ts = Some ts' →
  concat (dt_held <$> ts') = concat (dt_held <$> ts).
Proof.
  destruct choice as [i|]; cbn; [|case_decide; congruence].
  destruct (ts !! i) as [th|] eqn:Et; [|done]. cbn. destruct (bool_decide _); [|done]. intros [= <-]. by apply (held_same _ _ th).
Qed.

(** ** The pool under any use by threads *)

Definition busy (p : DatabasePool) : list nat := database_ <$> filter (λ item, isIdle_ item = false) (databases_ p).

Record db_inv (s : DatabaseSystem DatabasePool) : Prop := {
  di_nodup : NoDup (enumerate (sys_manager s));
  di_small : Z.of_nat (length (databases_ (sys_manager s))) < 2 ^ 64;
  di_idle : idleDatabase_ (sys_manager s) = Z.of_nat (count isIdle_ (databases_ (sys_manager s)));
  di_held : held s ≡ₚ Some <$> busy (sys_manager s);
  di_woken : blocked (sys_threads s) ≠ 0%nat → (count isIdle_ (databases_ (sys_manager s)) ≤ awake (sys_threads s))%nat;
}.

Lemma count_idle_middle l1 x b l2 : count isIdle_ (l1 ++ mkItem x b :: l2) = (Nat.b2n b + count isIdle_ (l1 ++ l2))%nat.
Proof. rewrite !count_app. cbn [count]. cbn [isIdle_]. lia. Qed.
Lemma busy_middle l1 x b l2 i : busy (mkDatabasePool (l1 ++ mkItem x b :: l2) i) ≡ₚ
  (if b then [] else [x]) ++ busy (mkDatabasePool (l1 ++ l2) i).
Proof.
  unfold busy. cbn [databases_]. rewrite !filter_app, filter_cons, !fmap_app. cbn [isIdle_].
  destruct b; cbn; [done|]. by rewrite Permutation_middle.
Qed.

Definition phase_blocked (ph : phase) : bool := bool_decide (ph = Blocked).
Definition phase_awake (ph : phase) : bool := bool_decide (ph = Awake).

(** The counts of blocked and awake threads when one changes its phase. *)
Lemma phase_insert (ts : list db_thread) t th th' : ts !! t = Some th →
  (blocked (<[t := th']> ts) + Nat.b2n (phase_blocked (dt_phase th)) = blocked ts + Nat.b2n (phase_blocked (dt_phase th')) ∧
   awake (<[t := th']> ts) + Nat.b2n (phase_awake (dt_phase th)) = awake ts + Nat.b2n (phase_awake (dt_phase th')))%nat.
Proof. intros Ht. exact (conj (count_insert is_blocked ts t th th' Ht) (count_insert is_awake ts t th th' Ht)). Qed.

Lemma acquire_turn_inv t th s : db_inv s → sys_threads s !! t = Some th → dt_phase th ≠ Blocked →
  db_inv (acquire_turn t th s).
Proof.
  intros [Hnd Hs Hi Hh Hw] Ht Hph. unfold acquire_turn, dbm_acquire, DirectDatabaseManager, pool_acquire.
  assert (Hb : phase_blocked (dt_phase th) = false) by (unfold phase_blocked; by apply bool_decide_eq_false).
  destruct (Z.leb_spec (idleDatabase_ (sys_manager s)) 0) as [H0|H0].
  - destruct (phase_insert _ t th (mkThread Blocked (dt_held th)) Ht) as [H1 H2].
    split; try done; cbn [sys_manager sys_threads].
    + unfold held. cbn [sys_threads]. by rewrite (held_same _ t th).
    + intros _. lia.
  - destruct (take_idle_ok (databases_ (sys_manager s))) as (l1 & x & l2 & El & E); [lia|]. rewrite E.
    destruct (phase_insert _ t th (mkThread Running (Some x :: dt_held th)) Ht) as [H1 H2].
    unfold enumerate in Hnd. rewrite El in Hnd, Hs, Hi, Hw. rewrite count_idle_middle in Hi, Hw. cbn [Nat.b2n] in Hi, Hw.
    split; unfold enumerate in *; cbn [sys_manager sys_threads databases_ idleDatabase_].
    + rewrite fmap_app, fmap_cons in Hnd |- *. done.
    + rewrite length_app in *. done.
    + rewrite count_idle_middle. cbn [Nat.b2n]. rewrite length_app in Hs. cbn [length] in Hs.
      pose proof (count_le_length isIdle_ (l1 ++ l2)) as Hc. rewrite length_app in Hc. rewrite uint_id by (unfold is_uint; lia). lia.
    + apply (Permutation_app_inv_r (dt_held th)). unfold held in *. cbn [sys_threads].
      rewrite (held_insert _ t th _ Ht). cbn [dt_held]. rewrite Hh, busy_middle. cbn [app].
      rewrite fmap_cons. rewrite <- Permutation_middle. apply Permutation_cons; [done|]. apply Permutation_app_tail.
      destruct (sys_manager s) as [l i]. cbn [databases_] in El. subst l. by rewrite busy_middle.
    + rewrite count_idle_middle. cbn [Nat.b2n dt_phase] in *. rewrite Hb in H1. cbn [Nat.b2n] in H1.
      change (Nat.b2n (phase_blocked Running)) with 0%nat in H1. change (Nat.b2n (phase_awake Running)) with 0%nat in H2.
      intros Hne. specialize (Hw ltac:(lia)). destruct (phase_awake (dt_phase th)); cbn [Nat.b2n] in H2; lia.
Qed.

Lemma db_step e s s' : db_inv s → db_exec e s = Some s' → db_inv s'.
Proof.
  intros Hinv. destruct e as [t|t|t|t db choice]; cbn [db_exec];
    destruct (sys_threads s !! t) as [th|] eqn:Ht; try done; cbn [mbind option_bind].
  - destruct (decide (dt_phase th = Running)) as [Hr|]; [|done]. intros [= <-]. apply acquire_turn_inv; [done..|by rewrite Hr].
  - destruct (decide (dt_phase th = Awake)) as [Hr|]; [|done]. intros [= <-]. apply acquire_turn_inv; [done..|by rewrite Hr].
  - destruct (is_blocked th) eqn:Eb; [|done]. intros [= <-]. destruct (awaken_counts _ _ _ Ht Eb) as [H1 H2].
    destruct Hinv as [Hnd Hs Hi Hh Hw]. split; try done; cbn [sys_manager sys_threads].
    + unfold held. cbn [sys_threads]. by rewrite (held_same _ t th).
    + intros _. specialize (Hw ltac:(lia)). unfold awaken in *. cbn in H2. lia.
  - destruct (decide (dt_phase th = Running)) as [Hr|]; [|done].
    destruct (remove_held db (dt_held th)) as [hl|] eqn:Er; [|done]. cbn [mbind option_bind].
    pose proof (remove_held_perm _ _ _ Er) as Hperm. destruct Hinv as [Hnd Hs Hi Hh Hw].
    pose proof (held_insert _ t th (mkThread Running hl) Ht) as Hheld. cbn [dt_held] in Hheld.
    rewrite Hperm in Hheld. change (concat (dt_held <$> sys_threads s)) with (held s) in Hheld. rewrite Hh in Hheld.
    rewrite <- Permutation_middle in Hheld.
    assert (Hin : ∃ x, db = Some x ∧ x ∈ busy (sys_manager s)).
    { assert (Hx : db ∈ Some <$> busy (sys_manager s)).
      { assert (Hx : db ∈ held s); [|by rewrite Hh in Hx]. apply list_elem_of_In, in_concat. exists (dt_held th).
        split.
        - apply list_elem_of_In. apply list_elem_of_fmap. exists th. split; [done|]. by eapply list_elem_of_lookup_2.
        - apply list_elem_of_In. rewrite Hperm. apply elem_of_cons. by left. }
      apply list_elem_of_fmap in Hx as (x & -> & Hx). by exists x. }
    destruct Hin as (x & -> & Hx).
    destruct (give_back_ok x (databases_ (sys_manager s)) Hx Hnd) as (l1 & l2 & El & E).
    unfold dbm_release, DirectDatabaseManager, pool_release. rewrite E.
    destruct (notify_one choice _) as [ts'|] eqn:En; [|done]. cbn [mbind option_bind]. intros [= <-].
    destruct (phase_insert _ t th (mkThread Running hl) Ht) as [H1 H2].
    unfold enumerate in Hnd. rewrite El in Hnd, Hs, Hi, Hw. rewrite count_idle_middle in Hi, Hw. cbn [Nat.b2n] in Hi, Hw.
    split; unfold enumerate in *; cbn [sys_manager sys_threads databases_ idleDatabase_].
    + rewrite fmap_app, fmap_cons in Hnd |- *. done.
    + rewrite length_app in *. done.
    + rewrite count_idle_middle. cbn [Nat.b2n]. rewrite length_app in Hs. cbn [length] in Hs.
      pose proof (count_le_length isIdle_ (l1 ++ l2)) as Hc. rewrite length_app in Hc. rewrite uint_id by (unfold is_uint; lia). lia.
    + unfold held. cbn [sys_threads]. rewrite (notify_one_held _ _ _ En).
      destruct (sys_manager s) as [l i]. cbn [databases_] in El. subst l.
      rewrite busy_middle in Hheld |- *. cbn [app] in *. rewrite fmap_cons in Hheld.
      apply (Permutation_app_inv_r hl). apply (Permutation_cons_inv (a := Some x)). by rewrite Hheld.
    + rewrite count_idle_middle. cbn [Nat.b2n]. intros Hne. rewrite Hr in H1, H2. cbn in H1, H2.
      destruct (notify_one_counts _ _ _ En) as [[-> H0]|[H3 H4]]; [lia|]. specialize (Hw ltac:(lia)). lia.
Qed.

(** *** From the start *)

Lemma open_databases_all created l : Forall (λ d, d.2 = true) created →
  open_databases created l = (true, l ++ ((λ d, mkItem d.1 true) <$> created)).
Proof.
  intros Hall. revert l. induction Hall as [|[db ok] created Hok _ IH]; intros l; cbn; [by rewrite app_nil_r|].
  cbn in Hok. subst ok. rewrite IH, <- app_assoc. done.
Qed.

Lemma open_pool_inv created p n : NoDup created.*1 → Forall (λ d, d.2 = true) created → Z.of_nat (length created) < 2 ^ 64 →
  open_pool created newDatabasePool = (true, p) → db_inv (mkSystem p (idle_threads n)).
Proof.
  intros Hnd Hall Hlen. unfold open_pool. rewrite open_databases_all by done. cbn [databases_ newDatabasePool app]. intros [= <-].
  assert (Hc : count isIdle_ ((λ d : nat * bool, mkItem d.1 true) <$> created) = length created).
  { clear. induction created as [|d l IH]; cbn; [done|]. by rewrite <- IH. }
  assert (Hb : filter (λ item, isIdle_ item = false) ((λ d : nat * bool, mkItem d.1 true) <$> created) = []).
  { clear. induction created as [|d l IH]; [done|]. rewrite fmap_cons, filter_cons. by rewrite IH. }
  split; unfold enumerate, held, busy; cbn [sys_manager sys_threads databases_ idleDatabase_].
  - rewrite <- list_fmap_compose. exact Hnd.
  - by rewrite length_fmap.
  - by rewrite Hc.
  - rewrite Hb. unfold idle_threads. by induction n.
  - intros Hne. exfalso. apply Hne. apply count_none. intros i t Hi. unfold idle_threads in Hi.
    apply lookup_replicate in Hi as [-> _]. done.
Qed.

Lemma count_filter_idle l : count isIdle_ l = length (filter (λ item, isIdle_ item = true) l).
Proof.
  induction l as [|[x b] l IH]; [done|]. rewrite filter_cons. cbn [count isIdle_]. rewrite IH. by destruct b.
Qed.

Lemma busy_and_idle p : busy p ++ enumerateIdleDatabases p ≡ₚ enumerate p.
Proof.
  unfold busy, enumerateIdleDatabases, enumerate. rewrite <- fmap_app. apply fmap_Permutation.
  induction (databases_ p) as [|[x b] l IH]; [done|]. rewrite !filter_cons. cbn [isIdle_]. destruct b.
  - rewrite decide_False, decide_True by done. etrans; [symmetry; apply Permutation_middle|]. by apply perm_skip.
  - rewrite decide_True, decide_False by done. by apply perm_skip.
Qed.
