(* ===== verification/DatabaseRequest.v ===== *)
(** * database/proxy: requests

    Models [Param] and [ModifyRequest] ([src/include/sne/database/proxy/DatabaseRequest.
    h]), which a client sends to a proxy of the database in a [DbpDelegateMessage]
    ([DatabaseProxyMessage.h]), over any pair of streams; and [SqlServerProxyDatabase::
    call] ([src/src/database/proxy/server/mssql/SqlServerProxyDatabase.cpp]), which
    turns one into a command of ADO, a parameter of the model.  [SNE_ASSERT] only
    reports; texts for the log are left out. *)

From S2P Require Import Prelude BitList Bits Unicode Stream RpcTypes ReadSafety.

(** ** [ParamType], [RequestPriority], [RequestType] *)

Definition ptUnknown : Z := 0.
Definition ptInt32 : Z := 1.
Definition ptUInt32 : Z := 2.
Definition ptInt64 : Z := 3.
Definition ptUInt64 : Z := 4.
Definition ptString : Z := 5.
Definition ptWString : Z := 6.
Definition isValidParamType (pt : Z) : bool := negb (ptUnknown =? pt).

Definition rpLowest : Z := 0.
Definition rpLow : Z := 1.
Definition rpNormal : Z := 2.
Definition rpHigh : Z := 3.
Definition rpHighest : Z := 4.
Definition isValidPriority (rp : Z) : bool := (rpLowest <=? rp) && (rp <=? rpHighest).

Definition rtUnknown : Z := 0.
Definition rtStoredProcedure : Z := 1.
Definition rtSelect : Z := 2.
Definition isValidRequestType (rt : Z) : bool := negb (rtUnknown =? rt).

(** ** [Param]: [type_] says which value is used *)

Record Param := mkParam {
  type_ : Z;
  int32Value_ : Z;
  uint32Value_ : Z;
  int64Value_ : Z;
  uint64Value_ : Z;
  stringValue_ : list Z;         (* an [RString] *)
  wstringValue_ : list Z;        (* an [RWString] *)
}.

(** The default constructor leaves [uint32Value_] and [uint64Value_] as they are in
    memory. *)
Definition newParam (memory : Z * Z) : Param := mkParam ptUnknown 0 memory.1 0 memory.2 [] [].
Definition Param_int32 (value : Z) : Param := mkParam ptInt32 value 0 0 0 [] [].
Definition Param_uint32 (value : Z) : Param := mkParam ptUInt32 0 value 0 0 [] [].
Definition Param_int64 (value : Z) : Param := mkParam ptInt64 0 0 value 0 [] [].
Definition Param_uint64 (value : Z) : Param := mkParam ptUInt64 0 0 0 value [] [].
Definition Param_string (value : list Z) : Param := mkParam ptString 0 0 0 0 value [].
Definition Param_wstring (value : list Z) : Param := mkParam ptWString 0 0 0 0 [] value.

Definition set_type (t : Z) (p : Param) : Param :=
  mkParam t (int32Value_ p) (uint32Value_ p) (int64Value_ p) (uint64Value_ p) (stringValue_ p) (wstringValue_ p).
Definition set_int32 (v : Z) (p : Param) : Param :=
  mkParam (type_ p) v (uint32Value_ p) (int64Value_ p) (uint64Value_ p) (stringValue_ p) (wstringValue_ p).
Definition set_uint32 (v : Z) (p : Param) : Param :=
  mkParam (type_ p) (int32Value_ p) v (int64Value_ p) (uint64Value_ p) (stringValue_ p) (wstringValue_ p).
Definition set_int64 (v : Z) (p : Param) : Param :=
  mkParam (type_ p) (int32Value_ p) (uint32Value_ p) v (uint64Value_ p) (stringValue_ p) (wstringValue_ p).
Definition set_uint64 (v : Z) (p : Param) : Param :=
  mkParam (type_ p) (int32Value_ p) (uint32Value_ p) (int64Value_ p) v (stringValue_ p) (wstringValue_ p).
Definition set_string (v : list Z) (p : Param) : Param :=
  mkParam (type_ p) (int32Value_ p) (uint32Value_ p) (int64Value_ p) (uint64Value_ p) v (wstringValue_ p).
Definition set_wstring (v : list Z) (p : Param) : Param :=
  mkParam (type_ p) (int32Value_ p) (uint32Value_ p) (int64Value_ p) (uint64Value_ p) (stringValue_ p) v.

(** The types of [DatabaseRequest.h]: [RString], [RWString], [RShortString], [Params]. *)
Definition RString_maxLength : nat := USHRT_MAX.
Definition RShortString_maxLength : nat := UCHAR_MAX.

Record ModifyRequest := mkRequest {
  request_priority : Z;          (* [priority_] *)
  request_type : Z;              (* [type_] *)
  command_ : list Z;
  params_ : list Param;
}.

(** [ModifyRequest::isValid] *)
Definition isValidRequest (r : ModifyRequest) : bool :=
  isValidPriority (request_priority r) && isValidRequestType (request_type r) &&
  negb (bool_decide (command_ r = [])) && negb (bool_decide (params_ r = [])).

(** [ModifyRequest::operator<<] *)
Definition add_param (r : ModifyRequest) (p : Param) : ModifyRequest :=
  mkRequest (request_priority r) (request_type r) (command_ r) (params_ r ++ [p]).

(** *** [serialize] *)

Section serialize.
Context {Ost Ist : Type} `{OStream Ost, IStream Ist}.

Definition RString_size : Z := default_sizeBits RString_maxLength.
Definition RShortString_size : Z := default_sizeBits RShortString_maxLength.

(** The [switch] on [type_]. *)
Definition write_param_value (p : Param) : st Ost unit :=
  let t := type_ p in
  if t =? ptInt32 then put PS32 (int32Value_ p)
  else if t =? ptUInt32 then put PU32 (uint32Value_ p)
  else if t =? ptInt64 then put PS64 (int64Value_ p)
  else if t =? ptUInt64 then put PU64 (uint64Value_ p)
  else if t =? ptString then RpcStringType_write RString_maxLength RString_size (stringValue_ p)
  else if t =? ptWString then RpcWStringType_write RString_maxLength RString_size (wstringValue_ p)
  else mret tt.
Definition read_param_value (p : Param) : st Ist Param :=
  let t := type_ p in
  if t =? ptInt32 then v ← get PS32; mret (set_int32 v p)
  else if t =? ptUInt32 then v ← get PU32; mret (set_uint32 v p)
  else if t =? ptInt64 then v ← get PS64; mret (set_int64 v p)
  else if t =? ptUInt64 then v ← get PU64; mret (set_uint64 v p)
  else if t =? ptString then v ← RpcStringType_read RString_maxLength RString_size; mret (set_string v p)
  else if t =? ptWString then v ← RpcWStringType_read RString_maxLength RString_size; mret (set_wstring v p)
  else mret p.

Definition Param_write (p : Param) : st Ost unit := put PU8 (uint 8 (type_ p)) ;; write_param_value p.
Definition Param_read (p : Param) : st Ist Param := paramType ← get PU8; read_param_value (set_type paramType p).

Definition Params_write : list Param → st Ost unit := RpcContainer_write Param_write SNE_DEFAULT_CONTAILER_SIZE_BITS.
Definition Params_read (memory : Z * Z) : st Ist (list Param) :=
  RpcContainer_read (Param_read (newParam memory)) SNE_DEFAULT_CONTAILER_SIZE_BITS.

Definition ModifyRequest_write (r : ModifyRequest) : st Ost unit :=
  put PU8 (uint 8 (request_priority r)) ;;
  put PU8 (uint 8 (request_type r)) ;;
  RpcStringType_write RShortString_maxLength RShortString_size (command_ r) ;;
  Params_write (params_ r).
Definition ModifyRequest_read (memory : Z * Z) : st Ist ModifyRequest :=
  priority ← get PU8;
  type ← get PU8;
  command ← RpcStringType_read RShortString_maxLength RShortString_size;
  params ← Params_read memory;
  mret (mkRequest priority type command params).
End serialize.

(** *** Two parameters that mean the same *)

Inductive param_value := IntValue (v : Z) | StringValue (s : list Z) | WStringValue (s : list Z) | NoValue.
Definition value_of (p : Param) : param_value :=
  let t := type_ p in
  if t =? ptInt32 then IntValue (int32Value_ p)
  else if t =? ptUInt32 then IntValue (uint32Value_ p)
  else if t =? ptInt64 then IntValue (int64Value_ p)
  else if t =? ptUInt64 then IntValue (uint64Value_ p)
  else if t =? ptString then StringValue (stringValue_ p)
  else if t =? ptWString then WStringValue (wstringValue_ p)
  else NoValue.

#[global] Instance Param_equiv : Equiv Param := λ p q, type_ p = type_ q ∧ value_of p = value_of q.
#[global] Instance Param_equivalence : Equivalence (≡@{Param}).
Proof.
  split.
  - by intros p.
  - intros p q [H1 H2]. by split.
  - intros p q r [H1 H2] [H3 H4]. split; congruence.
Qed.
#[global] Instance ModifyRequest_equiv : Equiv ModifyRequest := λ r s,
  request_priority r = request_priority s ∧ request_type r = request_type s ∧ command_ r = command_ s ∧
  params_ r ≡ params_ s.

(** ** [SqlServerProxyDatabase::call] *)

Inductive AdoParameter :=
| AdoInteger (v : Z)
| AdoUnsignedInt (v : Z)
| AdoBigInt (v : Z)            (* [setValue] takes an [int64_t] *)
| AdoVarChar (size : nat) (s : list Z)
| AdoVarWChar (size : nat) (s : list Z).

Definition createAdoParameter (p : Param) : option AdoParameter :=
  let t := type_ p in
  if ptInt32 =? t then Some (AdoInteger (int32Value_ p))
  else if ptUInt32 =? t then Some (AdoUnsignedInt (uint32Value_ p))
  else if ptInt64 =? t then Some (AdoBigInt (int64Value_ p))
  else if ptUInt64 =? t then Some (AdoBigInt (sint 64 (uint64Value_ p)))
  else if ptString =? t then Some (AdoVarChar (length (stringValue_ p)) (stringValue_ p))
  else if ptWString =? t then Some (AdoVarWChar (length (wstringValue_ p)) (wstringValue_ p))
  else None.

(** [executeNoRecords] of a command with its parameters: whether it ends without an
    [AdoException], and what becomes of the database. *)
Definition sql_call {D : Type} (executeNoRecords : list Z → list AdoParameter → D → bool * D)
    (request : ModifyRequest) (db : D) : bool * D :=
  if negb (isValidRequest request) then (false, db)
  else if negb (request_type request =? rtStoredProcedure) then (false, db)
  else
    match mapM createAdoParameter (params_ request) with
    | None => (false, db)
    | Some adoParams => executeNoRecords (command_ request) adoParams db
    end.

#[global] Instance createAdoParameter_proper : Proper ((≡) ==> (=)) createAdoParameter.
Proof.
  intros p q [Ht Hv]. unfold createAdoParameter, value_of in *. rewrite <- Ht in *.
  rewrite !(Z.eqb_sym _ (type_ p)). repeat (case_match; [congruence|]). done.
Qed.

Lemma mapM_equiv (ps qs : list Param) : ps ≡ qs → mapM createAdoParameter ps = mapM createAdoParameter qs.
Proof.
  induction 1 as [|p q ps qs Hpq _ IH]; [done|]. cbn. by rewrite (createAdoParameter_proper p q Hpq), IH.
Qed.

(** The database does not tell equivalent requests apart. *)
Lemma sql_call_equiv {D} (execute : list Z → list AdoParameter → D → bool * D) r s db :
  r ≡ s → sql_call execute r db = sql_call execute s db.
Proof.
  intros (Hp & Ht & Hc & Hps). unfold sql_call, isValidRequest. rewrite Hp, Ht, Hc, (mapM_equiv _ _ Hps).
  assert (bool_decide (params_ r = []) = bool_decide (params_ s = [])) as ->; [|done].
  apply bool_decide_ext. destruct Hps; split; done.
Qed.

(** ** What is written is read back *)

Section roundtrip.
Context {O I E : Type} `{HSP : StreamPair O I E} (memory : Z * Z).

#[local] Abbreviation at_byte := (aligned (O := O) (I := I) (E := E)).

Definition fits_value (p : Param) : Prop :=
  let t := type_ p in
  if t =? ptInt32 then is_sint 32 (int32Value_ p)
  else if t =? ptUInt32 then is_uint 32 (uint32Value_ p)
  else if t =? ptInt64 then is_sint 64 (int64Value_ p)
  else if t =? ptUInt64 then is_uint 64 (uint64Value_ p)
  else if t =? ptString then
    string_fits (stringValue_ p) RString_maxLength RString_size ∧ (length (stringValue_ p) ≤ RString_maxLength)%nat
  else if t =? ptWString then
    wstring_fits (sp_utf8 O I E) (wstringValue_ p) RString_maxLength RString_size ∧
    (length (wstringValue_ p) ≤ RString_maxLength)%nat
  else True.
Definition param_fits (p : Param) : Prop := is_uint 8 (type_ p) ∧ fits_value p.

Definition enc_param_value (p : Param) : encoding E :=
  let t := type_ p in
  if t =? ptInt32 then λ _, enc_prim O I E PS32 (int32Value_ p) 32
  else if t =? ptUInt32 then λ _, enc_prim O I E PU32 (uint32Value_ p) 32
  else if t =? ptInt64 then λ _, enc_prim O I E PS64 (int64Value_ p) 64
  else if t =? ptUInt64 then λ _, enc_prim O I E PU64 (uint64Value_ p) 64
  else if t =? ptString then enc_string O I E (stringValue_ p) RString_maxLength RString_size
  else if t =? ptWString then enc_wstring O I E (wstringValue_ p) RString_maxLength RString_size
  else enc_nil.
Definition enc_param (p : Param) : encoding E := (λ _, enc_prim O I E PU8 (type_ p) 8) +++ enc_param_value p.

(** [q] with the value of [p]. *)
Definition with_value (p q : Param) : Param :=
  let t := type_ p in
  if t =? ptInt32 then set_int32 (int32Value_ p) q
  else if t =? ptUInt32 then set_uint32 (uint32Value_ p) q
  else if t =? ptInt64 then set_int64 (int64Value_ p) q
  else if t =? ptUInt64 then set_uint64 (uint64Value_ p) q
  else if t =? ptString then set_string (stringValue_ p) q
  else if t =? ptWString then set_wstring (wstringValue_ p) q
  else q.
(** What the reader makes of [p]. *)
Definition received (p : Param) : Param := with_value p (set_type (type_ p) (newParam memory)).

Lemma with_value_type p q : type_ (with_value p q) = type_ q.
Proof. unfold with_value. by repeat case_match. Qed.

Lemma received_equiv p : received p ≡ p.
Proof.
  split; [by unfold received; rewrite with_value_type|].
  unfold received, value_of. rewrite with_value_type. cbn [type_ set_type]. unfold with_value.
  by repeat (case_match; [done|]).
Qed.
Lemma received_write p : Param_write (Ost := O) (received p) = Param_write p.
Proof.
  unfold Param_write, write_param_value, received. rewrite with_value_type. cbn [type_ set_type]. unfold with_value.
  by repeat (case_match; [done|]).
Qed.
Lemma received_idem p : received (received p) = received p.
Proof.
  unfold received at 1. rewrite (proj1 (received_equiv p)). unfold with_value at 1.
  rewrite (proj1 (received_equiv p)). unfold received, with_value. by repeat case_match.
Qed.

Lemma RString_size_eq : RString_size = 16.
Proof. done. Qed.
Lemma RShortString_size_eq : RShortString_size = 16.
Proof. done. Qed.

Lemma write_param_value_writes p : fits_value p → writes (write_param_value p) (enc_param_value p).
Proof.
  unfold fits_value, write_param_value, enc_param_value. intros Hf. repeat case_match.
  - by apply (writes_put PS32).
  - by apply (writes_put PU32).
  - by apply (writes_put PS64).
  - by apply (writes_put PU64).
  - apply writes_string, Hf.
  - apply writes_wstring, Hf.
  - apply writes_ret.
Qed.

(** A value read into [q], which has the type. *)
Lemma read_then {A} (m : st I A) (f : A → Param) e a : reads at_byte m e a →
  reads at_byte (v ← m; mret (f v)) e (f a).
Proof.
  intros Hm i pos rest HP Hi. destruct (Hm i pos rest HP Hi) as (i' & E1 & Hi'). exists i'. by st_step E1.
Qed.

Lemma read_param_value_reads p q : fits_value p → type_ q = type_ p →
  reads at_byte (read_param_value q) (enc_param_value p) (with_value p q).
Proof.
  intros Hf Ht. unfold fits_value, read_param_value, enc_param_value, with_value in *. rewrite Ht. repeat case_match.
  - by apply (read_then (get PS32) (λ v, set_int32 v q)), (reads_get _ PS32).
  - by apply (read_then (get PU32) (λ v, set_uint32 v q)), (reads_get _ PU32).
  - by apply (read_then (get PS64) (λ v, set_int64 v q)), (reads_get _ PS64).
  - by apply (read_then (get PU64) (λ v, set_uint64 v q)), (reads_get _ PU64).
  - apply (read_then _ (λ v, set_string v q)). by apply (codec_reads _ _ _ _ _ (string_codec RString_maxLength RString_size)).
  - apply (read_then _ (λ v, set_wstring v q)). by apply (codec_reads _ _ _ _ _ (wstring_codec RString_maxLength RString_size)).
  - apply reads_ret.
Qed.

Lemma enc_value_aligned p pos : at_byte pos →
  at_byte (pos + length (enc_param_value p pos)).
Proof.
  intros Hp. unfold enc_param_value. repeat case_match; try (by apply enc_prim_aligned).
  - apply enc_string_aligned.
  - apply enc_wstring_aligned.
  - by rewrite Nat.add_0_r.
Qed.

(** The parameters that a reader makes, as elements of a container. *)
Lemma param_codec : codec Param_write (Param_read (newParam memory)) (λ p, param_fits p ∧ received p = p)
  at_byte enc_param.
Proof.
  split.
  - intros p [[Ht Hf] _]. unfold Param_write, enc_param. rewrite uint_id by done.
    apply writes_seq; [by apply (writes_put PU8)|by apply write_param_value_writes].
  - intros p [[Ht Hf] Hr]. unfold Param_read, enc_param. eapply reads_bind; [by apply (reads_get _ PU8)| |].
    + pose proof (read_param_value_reads p (set_type (type_ p) (newParam memory)) Hf eq_refl) as Hv.
      unfold received in Hr. rewrite Hr in Hv. exact Hv.
    + intros pos Hp. by apply enc_prim_aligned.
  - intros p pos _ Hp. unfold enc_param, enc_app. rewrite length_app, Nat.add_assoc. apply enc_value_aligned.
    by apply enc_prim_aligned.
Qed.

Lemma received_fits p : param_fits p → param_fits (received p) ∧ received (received p) = received p.
Proof.
  intros [Ht Hf]. split; [|apply received_idem]. split; [by rewrite (proj1 (received_equiv p))|].
  unfold fits_value. rewrite (proj1 (received_equiv p)). unfold received, with_value, fits_value in *. by repeat case_match.
Qed.

Lemma write_elements_map {A} (put_elt : A → st O unit) (f : A → A) m l :
  (∀ x, put_elt (f x) = put_elt x) → write_elements put_elt m (map f l) = write_elements put_elt m l.
Proof. intros Hf. revert m. induction l as [|x l IH]; intros [|m]; cbn; [done..|]. by rewrite Hf, IH. Qed.

Lemma Params_write_received ps : Params_write (Ost := O) (map received ps) = Params_write ps.
Proof.
  unfold Params_write, RpcContainer_write, container_write. rewrite length_map.
  by rewrite (write_elements_map Param_write received) by apply received_write.
Qed.

Definition request_fits (r : ModifyRequest) : Prop :=
  is_uint 8 (request_priority r) ∧ is_uint 8 (request_type r) ∧ Forall is_byte (command_ r) ∧
  (length (command_ r) ≤ RShortString_maxLength)%nat ∧ Forall param_fits (params_ r) ∧
  Z.of_nat (length (params_ r)) ≤ MaxNumber SNE_DEFAULT_CONTAILER_SIZE_BITS.

Lemma command_fits_string s : Forall is_byte s → (length s ≤ RShortString_maxLength)%nat →
  string_fits s RShortString_maxLength RShortString_size.
Proof.
  intros Hs Hl. rewrite RShortString_size_eq. split; [by right|]. split; [done|]. rewrite take_ge by done.
  unfold RShortString_maxLength, UCHAR_MAX in Hl. lia.
Qed.

Definition enc_request (r : ModifyRequest) : encoding E :=
  (λ _, enc_prim O I E PU8 (request_priority r) 8) +++ (λ _, enc_prim O I E PU8 (request_type r) 8) +++
  enc_string O I E (command_ r) RShortString_maxLength RShortString_size +++
  enc_container (enc := enc_param) PU16 SNE_DEFAULT_CONTAILER_SIZE_BITS (map received (params_ r)).
Definition received_request (r : ModifyRequest) : ModifyRequest :=
  mkRequest (request_priority r) (request_type r) (command_ r) (map received (params_ r)).

Lemma request_count_ok : count_ok PU16 SNE_DEFAULT_CONTAILER_SIZE_BITS.
Proof. split; [by left|by right]. Qed.

Lemma received_all ps : Forall param_fits ps → Forall (λ p, param_fits p ∧ received p = p) (map received ps).
Proof. induction 1 as [|p ps Hp _ IH]; constructor; [by apply received_fits|done]. Qed.

Lemma request_writes r : request_fits r → writes (ModifyRequest_write r) (enc_request r).
Proof.
  intros (Hp & Ht & Hc & Hl & Hps & Hn). unfold ModifyRequest_write, enc_request. rewrite !uint_id by done.
  apply writes_seq; [by apply (writes_put PU8)|]. apply writes_seq; [by apply (writes_put PU8)|].
  apply writes_seq; [apply writes_string; by apply command_fits_string|].
  rewrite <- Params_write_received. apply (container_writes param_codec); [apply request_count_ok|by apply received_all|].
  by rewrite length_map.
Qed.

Lemma request_reads r : request_fits r →
  reads at_byte (ModifyRequest_read memory) (enc_request r) (received_request r).
Proof.
  intros (Hp & Ht & Hc & Hl & Hps & Hn). unfold ModifyRequest_read, enc_request.
  eapply (reads_bind _ at_byte); [by apply (reads_get _ PU8)| |intros pos Hpos; by apply enc_prim_aligned].
  eapply (reads_bind _ at_byte); [by apply (reads_get _ PU8)| |intros pos Hpos; by apply enc_prim_aligned].
  eapply (reads_bind _ at_byte).
  - apply (codec_reads _ _ _ _ _ (string_codec RShortString_maxLength RShortString_size)). split; [by apply command_fits_string|done].
  - assert (Hr : reads at_byte (Params_read memory)
      (enc_container (enc := enc_param) PU16 SNE_DEFAULT_CONTAILER_SIZE_BITS (map received (params_ r))) (map received (params_ r))).
    { pose proof (container_reads param_codec PU16 SNE_DEFAULT_CONTAILER_SIZE_BITS push_back [] (map received (params_ r))
        request_count_ok (received_all _ Hps)) as Hr. rewrite length_map in Hr. specialize (Hr Hn).
      rewrite fold_push_back in Hr. eapply reads_weaken; [|exact Hr]. intros pos Hpos. by apply enc_prim_aligned. }
    intros i pos rest HP Hi. destruct (Hr i pos rest HP Hi) as (i' & E1 & Hi'). exists i'. by st_step E1.
  - intros pos _. apply enc_string_aligned.
Qed.

Lemma received_request_equiv r : received_request r ≡ r.
Proof.
  split_and!; try done. cbn. induction (params_ r) as [|p ps IH]; constructor; [apply received_equiv|done].
Qed.
End roundtrip.

(** ** Requests that anyone may have sent *)

(** The value a parameter stands for is of its type. *)
Definition param_typed (p : Param) : Prop :=
  let t := type_ p in
  if t =? ptInt32 then is_sint 32 (int32Value_ p)
  else if t =? ptUInt32 then is_uint 32 (uint32Value_ p)
  else if t =? ptInt64 then is_sint 64 (int64Value_ p)
  else if t =? ptUInt64 then is_uint 64 (uint64Value_ p)
  else if t =? ptString then text_of RString_maxLength (stringValue_ p)
  else if t =? ptWString then (length (wstringValue_ p) ≤ RString_maxLength)%nat
  else True.

Record request_typed (r : ModifyRequest) : Prop := {
  rt_priority : is_uint 8 (request_priority r);
  rt_type : is_uint 8 (request_type r);
  rt_command : text_of RShortString_maxLength (command_ r);
  rt_params : Forall (λ p, is_uint 8 (type_ p) ∧ param_typed p) (params_ r);
  rt_count : (length (params_ r) ≤ USHRT_MAX)%nat;
}.

(** What the database is given is of its type. *)
Definition ado_typed (a : AdoParameter) : Prop :=
  match a with
  | AdoInteger v => is_sint 32 v
  | AdoUnsignedInt v => is_uint 32 v
  | AdoBigInt v => is_sint 64 v
  | AdoVarChar size s => size = length s ∧ text_of RString_maxLength s
  | AdoVarWChar size s => size = length s ∧ (size ≤ RString_maxLength)%nat
  end.

Lemma createAdoParameter_typed p a : param_typed p → createAdoParameter p = Some a → ado_typed a.
Proof.
  unfold param_typed, createAdoParameter. rewrite !(Z.eqb_sym _ (type_ p)).
  intros Hp Ha. repeat case_match; simplify_eq; cbn; try done. by apply sint_range.
Qed.

Section safety.
Context {Ist : Type} `{HS : SafeIStream Ist} (memory : Z * Z).

Lemma RString_ok : RString_size = 8 ∨ RString_size = 16.
Proof. by right. Qed.
Lemma RShortString_ok : RShortString_size = 8 ∨ RShortString_size = 16.
Proof. by right. Qed.

#[local] Ltac typed_as v Hv :=
  apply safe_ret; split; [done|]; unfold param_typed; cbn;
  repeat match goal with E : (_ =? _) = _ |- _ => rewrite E end; exact Hv.
#[local] Ltac read_case :=
  match goal with |- safe _ (if ?b then _ else _) _ => destruct b eqn:? end;
  [eapply safe_bind; [first [apply get_safe|apply (safe_readString _ _ RString_ok)|apply (safe_readWString _ _ RString_ok)]|];
   let v := fresh in let Hv := fresh in intros v Hv; typed_as v Hv|].

Lemma read_param_value_safe p : safe is_wf (read_param_value p) (λ q, type_ q = type_ p ∧ param_typed q).
Proof.
  destruct p as [t v1 v2 v3 v4 s w]. unfold read_param_value. cbn [type_].
  do 6 read_case. typed_as t I.
Qed.

Lemma ModifyRequest_safe : safe is_wf (ModifyRequest_read memory) request_typed.
Proof.
  unfold ModifyRequest_read. eapply safe_bind; [apply get_safe|]. intros priority Hp.
  eapply safe_bind; [apply get_safe|]. intros type Ht.
  eapply safe_bind; [apply (safe_readString _ _ RShortString_ok)|]. intros command Hc.
  eapply safe_bind.
  - apply (RpcContainer_safe _ (λ p, is_uint 8 (type_ p) ∧ param_typed p)); [by right|]. unfold Param_read.
    eapply safe_bind; [apply get_safe|]. intros t Ht'. eapply safe_weaken; [apply read_param_value_safe|].
    intros q [Hq1 Hq2]. split; [|done]. rewrite Hq1. exact Ht'.
  - intros params [Hps Hn]. apply safe_ret. split; try done. cbn.
    change (MaxNumber SNE_DEFAULT_CONTAILER_SIZE_BITS) with 65535 in Hn. change USHRT_MAX with (Z.to_nat 65535). lia.
Qed.
End safety.
