(* ===== verification/ProxyScheduler.v ===== *)
(** * database/proxy: the scheduler of requests

    Models [ProxyScheduler] ([src/src/database/proxy/server/scheduler/ProxyScheduler.
    {h,cpp}]) with [RequestMethod] ([RequestMethod.h]): requests are queued by any
    thread and called by the threads of the scheduler.  A request is a parameter: what
    the scheduler reads of it is its priority.

    The [std::priority_queue] of the standard library hands out an element that no
    other is less than; which of the equal ones is unspecified, and is a choice of the
    step here.  The machine has a phase for every point of [svc] and [fetchRequest] where another
    thread may run. *)

From S2P Require Import Prelude Monitors.

Section scheduler.
Context {R : Type} (priority_of : R → Z).

Record RequestMethod := mkMethod { id_ : Z; priority_ : Z; request_ : R }.

(** [RequestMethod::less] *)
Definition less (a b : RequestMethod) : bool := priority_ a <? priority_ b.

(** [std::priority_queue::top] and [pop] of the element at [i]. *)
Definition is_top (q : list RequestMethod) (m : RequestMethod) : bool := forallb (λ m', negb (less m m')) q.
Definition pop (i : nat) (q : list RequestMethod) : option (RequestMethod * list RequestMethod) :=
  m ← q !! i; if is_top q m then Some (m, delete i q) else None.

(** Where a thread of the scheduler is. *)
Inductive svc_phase :=
| Testing                       (* about to test [stop_] *)
| Fetching                      (* about to take the mutex in [fetchRequest] *)
| BlockedInFetch | AwakeInFetch
| Calling (m : RequestMethod)   (* [call], then [deleteRequestMethod] *)
| Returned.

#[export] Instance svc_thread : Thread svc_phase := {|
  is_blocked p := match p with BlockedInFetch => true | _ => false end;
  is_awake p := match p with AwakeInFetch => true | _ => false end;
  awaken _ := AwakeInFetch;
|}.
#[export] Instance svc_thread_spec : ThreadSpec svc_phase.
Proof. split; by intros []. Qed.

Record ProxyScheduler := mkScheduler {
  requestQueue_ : list RequestMethod;
  requestId_ : Z;                (* a [RequestId], [uint32_t] *)
  stop_ : bool;
  queuedCount_ : Z;              (* [uint64_t] *)
  processedCount_ : Z;
  threads_ : list svc_phase;
  called : list RequestMethod;   (* the calls that have ended, in order *)
}.

Definition set_threads (l : list svc_phase) (s : ProxyScheduler) : ProxyScheduler :=
  mkScheduler (requestQueue_ s) (requestId_ s) (stop_ s) (queuedCount_ s) (processedCount_ s) l (called s).

Definition newScheduler : ProxyScheduler := mkScheduler [] 0 false 0 0 [] [].
(** [create_thread] does not fail: it throws. *)
Definition start_scheduler (threadCount : nat) (s : ProxyScheduler) : ProxyScheduler :=
  set_threads (threads_ s ++ replicate threadCount Testing)
    (mkScheduler (requestQueue_ s) (requestId_ s) false (queuedCount_ s) (processedCount_ s) (threads_ s) (called s)).

Definition schedule (request : R) (s : ProxyScheduler) : ProxyScheduler :=
  let currentRequestId := uint 32 (requestId_ s + 1) in
  let method := mkMethod currentRequestId (priority_of request) request in
  mkScheduler (requestQueue_ s ++ [method]) currentRequestId (stop_ s) (uint 64 (queuedCount_ s + 1)) (processedCount_ s)
    (notify_all (threads_ s)) (called s).

(** [stop] up to [join_all]; it may only return when every thread has. *)
Definition stop_scheduler (s : ProxyScheduler) : ProxyScheduler :=
  mkScheduler (requestQueue_ s) (requestId_ s) true (queuedCount_ s) (processedCount_ s)
    (notify_all (threads_ s)) (called s).
Definition join_all (s : ProxyScheduler) : bool :=
  forallb (λ p, match p with Returned => true | _ => false end) (threads_ s).

(** The loop of [fetchRequest], with the mutex held; [choice] is the element that the
    queue hands out. *)
Definition fetchRequest (t : nat) (choice : nat) (s : ProxyScheduler) : option ProxyScheduler :=
  match requestQueue_ s with
  | [] => Some (set_threads (<[t := if stop_ s then Testing else BlockedInFetch]> (threads_ s)) s)
  | _ =>
      '(m, q) ← pop choice (requestQueue_ s);
      Some (mkScheduler q (requestId_ s) (stop_ s) (queuedCount_ s) (uint 64 (processedCount_ s + 1))
        (<[t := Calling m]> (threads_ s)) (called s))
  end.

(** A step of [svc] in thread [t]. *)
Definition svc (t : nat) (choice : nat) (s : ProxyScheduler) : option ProxyScheduler :=
  p ← threads_ s !! t;
  match p with
  | Testing => Some (set_threads (<[t := if stop_ s then Returned else Fetching]> (threads_ s)) s)
  | Fetching | AwakeInFetch => fetchRequest t choice s
  | Calling m =>
      Some (mkScheduler (requestQueue_ s) (requestId_ s) (stop_ s) (queuedCount_ s) (processedCount_ s)
        (<[t := Testing]> (threads_ s)) (called s ++ [m]))
  | BlockedInFetch | Returned => None
  end.

Inductive scheduler_event :=
| Schedule (request : R)
| Stop
| Svc (t : nat) (choice : nat)
| Wake (t : nat).                  (* without being notified *)

Definition scheduler_exec (e : scheduler_event) (s : ProxyScheduler) : option ProxyScheduler :=
  match e with
  | Schedule request => Some (schedule request s)
  | Stop => Some (stop_scheduler s)
  | Svc t choice => svc t choice s
  | Wake t => p ← threads_ s !! t; if is_blocked p then Some (set_threads (<[t := awaken p]> (threads_ s)) s) else None
  end.

(** What was scheduled by a run. *)
Definition scheduled (es : list scheduler_event) : list R :=
  omap (λ e, match e with Schedule r => Some r | _ => None end) es.
Definition calling (s : ProxyScheduler) : list RequestMethod :=
  omap (λ p, match p with Calling m => Some m | _ => None end) (threads_ s).
Definition getQueueCount (s : ProxyScheduler) : Z := Z.of_nat (length (requestQueue_ s)).
Definition running_threads (n : nat) : ProxyScheduler := start_scheduler n newScheduler.
End scheduler.

(** ** The queue *)

Section queue.
Context {R : Type}.
#[local] Abbreviation method := (@RequestMethod R).

Lemma pop_perm i (q : list method) m q' : pop i q = Some (m, q') →
  q ≡ₚ m :: q' ∧ Forall (λ m', priority_ m' ≤ priority_ m) q.
Proof.
  unfold pop. destruct (q !! i) as [m0|] eqn:Ei; [|done]. cbn. destruct (is_top q m0) eqn:Et; [|done].
  intros [= -> <-]. split; [by apply delete_Permutation|]. unfold is_top in Et.
  rewrite forallb_forall in Et. apply Forall_forall. intros m' Hm'. apply list_elem_of_In in Hm'.
  specialize (Et m' Hm'). unfold less in Et. destruct (Z.ltb_spec (priority_ m) (priority_ m')); [done|lia].
Qed.

(** A queue that is not empty has an element to hand out. *)
Lemma has_top (q : list method) : q ≠ [] → ∃ i m, q !! i = Some m ∧ ∀ m', m' ∈ q → priority_ m' ≤ priority_ m.
Proof.
  induction q as [|m q IH]; [done|]. intros _. destruct (decide (q = [])) as [->|Hq].
  { exists 0%nat, m. split; [done|]. intros m' ->%list_elem_of_singleton. lia. }
  destruct (IH Hq) as (i & m1 & Hi & Hmax). destruct (Z.leb_spec (priority_ m1) (priority_ m)) as [Hle|Hlt].
  - exists 0%nat, m. split; [done|]. intros m' [->|Hm']%elem_of_cons; [lia|]. specialize (Hmax m' Hm'). lia.
  - exists (S i), m1. split; [done|]. intros m' [->|Hm']%elem_of_cons; [lia|]. by apply Hmax.
Qed.
Lemma pop_total (q : list method) : q ≠ [] → ∃ i m q', pop i q = Some (m, q').
Proof.
  intros (i & m & Hi & Hmax)%has_top. exists i, m, (delete i q). unfold pop. rewrite Hi. cbn.
  assert (is_top q m = true) as ->; [|done]. unfold is_top. apply forallb_forall. intros m' Hm'%list_elem_of_In.
  specialize (Hmax m' Hm'). unfold less. destruct (Z.ltb_spec (priority_ m) (priority_ m')); [lia|done].
Qed.
End queue.

(** ** The phases of the threads *)

Section phases.
Context {R : Type} (priority_of : R → Z).
#[local] Abbreviation method := (@RequestMethod R).
#[local] Abbreviation scheduler := (@ProxyScheduler R).

Definition call_of (p : @svc_phase R) : list method := match p with Calling m => [m] | _ => [] end.

Lemma calling_concat (s : scheduler) : calling s = concat (map call_of (threads_ s)).
Proof. unfold calling. induction (threads_ s) as [|p l IH]; [done|]. destruct p; cbn; by rewrite <- ?IH. Qed.

Lemma calling_insert (l : list svc_phase) t p p' : l !! t = Some p →
  concat (map call_of (<[t := p']> l)) ++ call_of p ≡ₚ concat (map call_of l) ++ call_of p'.
Proof.
  intros Ht. pose proof (lookup_lt_Some _ _ _ Ht) as Hlt. rewrite insert_take_drop by done.
  rewrite <- (take_drop_middle l t p Ht) at 3. rewrite !map_app, !concat_app. cbn [map concat].
  rewrite <- !app_assoc. apply Permutation_app_head.
  rewrite (Permutation_app_comm (call_of p')), (Permutation_app_comm (call_of p)), <- !app_assoc.
  by rewrite (Permutation_app_comm (call_of p')).
Qed.
Lemma calling_notify (l : list svc_phase) : concat (map call_of (notify_all l)) = concat (map call_of l).
Proof. unfold notify_all. rewrite map_map. f_equal. apply map_ext. by intros []. Qed.

(** Each thread steps by itself. *)
Fixpoint total (w : @svc_phase R → nat) (l : list svc_phase) : nat :=
  match l with [] => 0 | p :: l => w p + total w l end.
Lemma total_insert w l t p p' : l !! t = Some p → (total w (<[t := p']> l) + w p = total w l + w p')%nat.
Proof.
  revert t. induction l as [|q l IH]; intros [|t] Ht; cbn in Ht; [done|done|..].
  - injection Ht as ->. cbn. lia.
  - specialize (IH t Ht). change (<[S t := p']> (q :: l)) with (q :: <[t := p']> l). cbn [total]. lia.
Qed.
Lemma total_bound w n l : (∀ p, w p ≤ n)%nat → (total w l ≤ n * length l)%nat.
Proof. intros Hw. induction l as [|p l IH]; cbn; [lia|]. specialize (Hw p). lia. Qed.

(** *** Every request is in one place *)

Definition methods_of (rs : list R) : list method :=
  imap (λ i r, mkMethod (uint 32 (Z.of_nat i + 1)) (priority_of r) r) rs.

Record scheduler_inv (rs : list R) (s : scheduler) : Prop := {
  si_places : requestQueue_ s ++ calling s ++ called s ≡ₚ methods_of rs;
  si_id : requestId_ s = uint 32 (Z.of_nat (length rs));
  si_queued : queuedCount_ s = uint 64 (Z.of_nat (length rs));
  si_processed : processedCount_ s = uint 64 (Z.of_nat (length (calling s) + length (called s)));
  si_blocked : blocked (threads_ s) ≠ 0%nat → requestQueue_ s = [] ∧ stop_ s = false;
  si_alive : stop_ s = false → ∀ t, threads_ s !! t ≠ Some Returned;
}.

Lemma uint_succ w a : 0 ≤ w → uint w (uint w a + 1) = uint w (a + 1).
Proof. intros. unfold uint. by rewrite Zplus_mod_idemp_l. Qed.

Lemma methods_of_snoc rs r :
  methods_of (rs ++ [r]) = methods_of rs ++ [mkMethod (uint 32 (Z.of_nat (length rs) + 1)) (priority_of r) r].
Proof. unfold methods_of. rewrite imap_app. cbn. by rewrite Nat.add_0_r. Qed.

(** A thread that steps without calling or ending a call. *)
Lemma set_threads_inv rs s t p p' : scheduler_inv rs s → threads_ s !! t = Some p → call_of p' = call_of p →
  (is_blocked p' = true → requestQueue_ s = [] ∧ stop_ s = false) → (p' = Returned → stop_ s = true) →
  scheduler_inv rs (set_threads (<[t := p']> (threads_ s)) s).
Proof.
  intros [Hp Hi Hq Hd Hb Ha] Ht Ec Hbp Hr.
  assert (Ecall : calling (set_threads (<[t := p']> (threads_ s)) s) ≡ₚ calling s).
  { rewrite !calling_concat. apply (Permutation_app_inv_r (call_of p)). cbn [set_threads threads_].
    rewrite (calling_insert _ _ _ _ Ht). by rewrite Ec. }
  split; try done.
  - rewrite Ecall. done.
  - by rewrite (Permutation_length Ecall).
  - cbn [set_threads threads_ requestQueue_ stop_]. intros Hne.
    destruct (is_blocked p') eqn:Eb; [by apply Hbp|]. apply Hb.
    pose proof (blocked_insert _ _ _ p' Ht Eb). lia.
  - cbn [set_threads threads_ stop_]. intros Es t'. destruct (decide (t' = t)) as [->|Hne].
    + rewrite list_lookup_insert_eq by (by eapply lookup_lt_Some). intros [= E]. by rewrite (Hr E) in Es.
    + rewrite list_lookup_insert_ne by done. by apply Ha.
Qed.

Lemma notify_all_returned (l : list (@svc_phase R)) t : notify_all l !! t = Some Returned → l !! t = Some Returned.
Proof.
  unfold notify_all. rewrite list_lookup_fmap. destruct (l !! t) as [p|]; [|done]. cbn. by destruct p.
Qed.

Lemma calling_step rs s t p p' q k called' : scheduler_inv rs s → threads_ s !! t = Some p → is_blocked p' = false →
  p' ≠ Returned → (blocked (threads_ s) ≠ 0%nat → q = requestQueue_ s) →
  q ++ call_of p' ++ called' ≡ₚ requestQueue_ s ++ call_of p ++ called s →
  (length (call_of p') + length called' = length (call_of p) + length (called s) + k)%nat →
  scheduler_inv rs (mkScheduler q (requestId_ s) (stop_ s) (queuedCount_ s) (uint 64 (processedCount_ s + Z.of_nat k))
    (<[t := p']> (threads_ s)) called').
Proof.
  intros [Hp Hi Hq Hd Hb Ha] Ht Eb Er Hempty Hperm Hlen.
  pose proof (calling_insert _ _ _ p' Ht) as Hc. rewrite <- calling_concat in Hc.
  split; cbn [requestQueue_ requestId_ stop_ queuedCount_ processedCount_ threads_ called]; try done.
  - rewrite calling_concat. cbn [threads_]. rewrite <- Hp. apply (Permutation_app_inv_r (call_of p)).
    rewrite <- !app_assoc. rewrite (Permutation_app_comm called').
    rewrite (app_assoc (concat _)), Hc. rewrite <- app_assoc.
    transitivity (calling s ++ (q ++ call_of p' ++ called')); [solve_Permutation|]. rewrite Hperm. solve_Permutation.
  - rewrite calling_concat. cbn [threads_]. rewrite Hd. apply Permutation_length in Hc. rewrite !length_app in Hc.
    unfold uint. rewrite Zplus_mod_idemp_l. f_equal. lia.
  - intros Hne. assert (Hne' : blocked (threads_ s) ≠ 0%nat).
    { pose proof (blocked_insert _ _ _ p' Ht Eb). lia. }
    rewrite (Hempty Hne'). by apply Hb.
  - intros Es t'. destruct (decide (t' = t)) as [->|Hne].
    + rewrite list_lookup_insert_eq by (by eapply lookup_lt_Some). congruence.
    + rewrite list_lookup_insert_ne by done. by apply Ha.
Qed.

Lemma fetch_inv rs s s' t p choice : scheduler_inv rs s → threads_ s !! t = Some p → call_of p = [] →
  fetchRequest t choice s = Some s' → scheduler_inv rs s'.
Proof.
  intros Hinv Ht Ec. unfold fetchRequest. destruct (requestQueue_ s) as [|m0 q0] eqn:Eq.
  - intros [= <-]. apply (set_threads_inv _ _ _ p); try done; destruct (stop_ s) eqn:Es; try done.
  - rewrite <- Eq. destruct (pop choice (requestQueue_ s)) as [[m q]|] eqn:Ep; [|done]. cbn [mbind option_bind]. intros [= <-].
    destruct (pop_perm _ _ _ _ Ep) as [Hperm _]. apply (calling_step rs s t p (Calling m) q 1); try done.
    + intros Hne. destruct (si_blocked _ _ Hinv Hne) as [E _]. by rewrite E in Eq.
    + rewrite Hperm, Ec. cbn. by rewrite Permutation_middle.
    + rewrite Ec. cbn. lia.
Qed.

Lemma schedule_inv rs s r : scheduler_inv rs s → scheduler_inv (rs ++ [r]) (schedule priority_of r s).
Proof.
  intros [Hp Hi Hq Hd Hb Ha]. unfold schedule. split; cbn [requestQueue_ requestId_ stop_ queuedCount_ processedCount_ threads_ called].
  - rewrite calling_concat. cbn [threads_]. rewrite calling_notify, <- calling_concat, methods_of_snoc, <- Hp, Hi.
    rewrite uint_succ by done. solve_Permutation.
  - rewrite Hi, uint_succ by done. rewrite length_app. cbn [length]. f_equal. lia.
  - rewrite Hq, uint_succ by done. rewrite length_app. cbn [length]. f_equal. lia.
  - rewrite calling_concat. cbn [threads_]. by rewrite calling_notify, <- calling_concat.
  - intros Hne. by rewrite notify_all_blocked in Hne.
  - intros Es t Ht. apply (Ha Es t). by apply notify_all_returned.
Qed.

Lemma stop_inv rs s : scheduler_inv rs s → scheduler_inv rs (stop_scheduler s).
Proof.
  intros [Hp Hi Hq Hd Hb Ha].
  unfold stop_scheduler. split; cbn [requestQueue_ requestId_ stop_ queuedCount_ processedCount_ threads_ called]; try done.
  - rewrite calling_concat. cbn [threads_]. by rewrite calling_notify, <- calling_concat.
  - rewrite calling_concat. cbn [threads_]. by rewrite calling_notify, <- calling_concat.
  - intros Hne. by rewrite notify_all_blocked in Hne.
Qed.

Lemma svc_inv rs s s' t choice : scheduler_inv rs s → svc t choice s = Some s' → scheduler_inv rs s'.
Proof.
  intros Hinv. unfold svc. destruct (threads_ s !! t) as [p|] eqn:Ht; [|done]. cbn [mbind option_bind].
  destruct p as [| | | |m|]; try done.
  - intros [= <-]. apply (set_threads_inv _ _ _ Testing); try done; by destruct (stop_ s).
  - by apply (fetch_inv _ _ _ _ Fetching).
  - by apply (fetch_inv _ _ _ _ AwakeInFetch).
  - intros [= <-]. pose proof (calling_step rs s t (Calling m) Testing (requestQueue_ s) 0 (called s ++ [m]) Hinv Ht) as Hstep.
    rewrite Z.add_0_r in Hstep. rewrite (si_processed _ _ Hinv) in Hstep at 1.
    rewrite uint_mod_le in Hstep by lia. rewrite <- (si_processed _ _ Hinv) in Hstep.
    apply Hstep; try done; [solve_Permutation|]. rewrite length_app. cbn. lia.
Qed.

Lemma scheduler_step e rs s s' : scheduler_inv rs s → scheduler_exec priority_of e s = Some s' →
  scheduler_inv (rs ++ scheduled [e]) s'.
Proof.
  intros Hinv. destruct e as [r| |t choice|t]; cbn [scheduler_exec scheduled omap list_omap]; rewrite ?app_nil_r.
  - intros [= <-]. by apply schedule_inv.
  - intros [= <-]. by apply stop_inv.
  - by apply svc_inv.
  - destruct (threads_ s !! t) as [p|] eqn:Ht; [|done]. cbn [mbind option_bind]. destruct (is_blocked p) eqn:Eb; [|done].
    intros [= <-]. apply (set_threads_inv _ _ _ p); try done. by destruct p.
Qed.
End phases.

(** ** What the threads still have to do *)

Section progress.
Context {R : Type} (priority_of : R → Z).
#[local] Abbreviation scheduler := (@ProxyScheduler R).

(** Steps of the scheduler's threads, and threads that wake up by themselves. *)
Definition own_step (e : @scheduler_event R) : Prop := match e with Svc _ _ | Wake _ => True | _ => False end.

(** *** While requests are queued *)

Definition turn_weight (p : @svc_phase R) : nat := match p with Testing => 1 | Calling _ => 2 | _ => 0 end.
Definition work (s : scheduler) : nat := 3 * length (requestQueue_ s) + total turn_weight (threads_ s).

Lemma work_bound s : (work s ≤ 3 * length (requestQueue_ s) + 2 * length (threads_ s))%nat.
Proof. unfold work. pose proof (total_bound turn_weight 2 (threads_ s)) as H. specialize (H ltac:(intros []; cbn; lia)). lia. Qed.

Lemma pop_length i (q : list (@RequestMethod R)) m q' : pop i q = Some (m, q') → length q = S (length q').
Proof. intros [Hp _]%pop_perm. by rewrite (Permutation_length Hp). Qed.

Lemma not_blocked_at (s : scheduler) t : blocked (threads_ s) = 0%nat → threads_ s !! t ≠ Some BlockedInFetch.
Proof. intros Hb Ht. by pose proof (proj1 (count_none _ _) Hb t _ Ht). Qed.

Lemma work_step rs e s s' : scheduler_inv priority_of rs s → own_step e → stop_ s = false → requestQueue_ s ≠ [] →
  scheduler_exec priority_of e s = Some s' → stop_ s' = false ∧ (work s' < work s)%nat.
Proof.
  intros Hinv He Hs Hq. assert (Hb : blocked (threads_ s) = 0%nat).
  { destruct (decide (blocked (threads_ s) = 0%nat)) as [|Hb]; [done|]. by destruct (si_blocked _ _ _ Hinv Hb). }
  assert (Hfetch : ∀ t p choice, threads_ s !! t = Some p → turn_weight p = 0%nat → fetchRequest t choice s = Some s' →
    stop_ s' = false ∧ (work s' < work s)%nat).
  { intros t p choice Ht Hw. unfold fetchRequest. destruct (requestQueue_ s) as [|m0 q0] eqn:Eq; [done|]. rewrite <- Eq.
    destruct (pop choice _) as [[m q]|] eqn:Ep; [|done]. cbn [mbind option_bind]. intros [= <-]. split; [done|].
    pose proof (pop_length _ _ _ _ Ep) as Hl. pose proof (total_insert turn_weight _ _ _ (Calling m) Ht) as Hx.
    unfold work. cbn [requestQueue_ threads_]. cbn [turn_weight] in Hx. lia. }
  destruct e as [r| |t choice|t]; try done; cbn [scheduler_exec].
  - unfold svc. destruct (threads_ s !! t) as [p|] eqn:Ht; [|done]. cbn [mbind option_bind]. destruct p as [| | | |m|]; try done.
    + intros [= <-]. split; [done|]. pose proof (total_insert turn_weight _ _ _ Fetching Ht) as Hx.
      rewrite Hs. unfold work. cbn [set_threads requestQueue_ threads_]. cbn [turn_weight] in Hx. lia.
    + by apply (Hfetch t Fetching).
    + by apply (Hfetch t AwakeInFetch).
    + intros [= <-]. split; [done|]. pose proof (total_insert turn_weight _ _ _ Testing Ht) as Hx.
      unfold work. cbn [requestQueue_ threads_]. cbn [turn_weight] in Hx. lia.
  - destruct (threads_ s !! t) as [p|] eqn:Ht; [|done]. cbn [mbind option_bind]. destruct p; try done.
    by apply not_blocked_at in Ht.
Qed.

(** Some thread can step. *)
Lemma thread_steps (s : scheduler) : (∃ t p, threads_ s !! t = Some p ∧ is_blocked p = false ∧ p ≠ Returned) →
  ∃ t choice s', svc t choice s = Some s'.
Proof.
  intros (t & p & Ht & Hb & Hr).
  assert (Hfetch : ∃ choice s', fetchRequest t choice s = Some s').
  { unfold fetchRequest. destruct (requestQueue_ s) as [|m0 q0] eqn:Eq; [by exists 0%nat; eexists|].
    destruct (pop_total (m0 :: q0)) as (i & m & q' & Hp); [done|]. exists i. rewrite Hp. cbn. by eexists. }
  destruct Hfetch as (choice & s' & Hf). exists t, choice. unfold svc. rewrite Ht. cbn [mbind option_bind].
  destruct p; try done; by eexists.
Qed.

Lemma queue_moves rs s : scheduler_inv priority_of rs s → stop_ s = false → threads_ s ≠ [] → requestQueue_ s ≠ [] →
  ∃ t choice s', svc t choice s = Some s'.
Proof.
  intros Hinv Hs Hne Hq. apply thread_steps. destruct (threads_ s) as [|p l] eqn:Et; [done|].
  exists 0%nat, p. split; [done|]. split.
  - destruct (decide (blocked (threads_ s) = 0%nat)) as [Hb|Hb].
    + apply (proj1 (count_none _ _) Hb 0%nat). by rewrite Et.
    + by destruct (si_blocked _ _ _ Hinv Hb).
  - intros ->. apply (si_alive _ _ _ Hinv Hs 0%nat). by rewrite Et.
Qed.

(** *** After [stop] *)

Definition stop_weight (p : @svc_phase R) : nat :=
  match p with Returned => 0 | Testing => 1 | Calling _ => 2 | _ => 3 end.
Definition about_to_fetch (p : @svc_phase R) : nat := match p with Fetching | AwakeInFetch | BlockedInFetch => 1 | _ => 0 end.

Lemma stopped_fetch t p choice (s s' : scheduler) : stop_ s = true → threads_ s !! t = Some p → is_blocked p = false →
  stop_weight p = 3%nat → about_to_fetch p = 1%nat → fetchRequest t choice s = Some s' →
  stop_ s' = true ∧ blocked (threads_ s') = blocked (threads_ s) ∧
  (total stop_weight (threads_ s') < total stop_weight (threads_ s) ∧
   length (requestQueue_ s) + total about_to_fetch (threads_ s') ≤ length (requestQueue_ s') + total about_to_fetch (threads_ s))%nat.
Proof.
  intros Hs Ht Hb Hw Ha. unfold fetchRequest. destruct (requestQueue_ s) as [|m0 q0] eqn:Eq.
  - rewrite Hs. intros [= <-]. cbn [set_threads stop_ threads_ requestQueue_].
    pose proof (total_insert stop_weight _ _ _ Testing Ht) as H1. pose proof (total_insert about_to_fetch _ _ _ Testing Ht) as H2.
    pose proof (blocked_same _ _ _ Testing Ht Hb eq_refl) as H3. cbn [stop_weight about_to_fetch] in H1, H2.
    rewrite Eq. split_and!; [done|lia..].
  - rewrite <- Eq. destruct (pop choice _) as [[m q]|] eqn:Ep; [|done]. cbn [mbind option_bind]. intros [= <-].
    cbn [stop_ threads_ requestQueue_]. pose proof (pop_length _ _ _ _ Ep) as Hl.
    pose proof (total_insert stop_weight _ _ _ (Calling m) Ht) as H1. pose proof (total_insert about_to_fetch _ _ _ (Calling m) Ht) as H2.
    pose proof (blocked_same _ _ _ (Calling m) Ht Hb eq_refl) as H3. cbn [stop_weight about_to_fetch] in H1, H2.
    split_and!; [done|lia..].
Qed.

Lemma stopped_step e (s s' : scheduler) : stop_ s = true → blocked (threads_ s) = 0%nat → own_step e →
  scheduler_exec priority_of e s = Some s' →
  stop_ s' = true ∧ blocked (threads_ s') = 0%nat ∧
  (total stop_weight (threads_ s') < total stop_weight (threads_ s) ∧
   length (requestQueue_ s) + total about_to_fetch (threads_ s') ≤ length (requestQueue_ s') + total about_to_fetch (threads_ s))%nat.
Proof.
  intros Hs Hb He. destruct e as [r| |t choice|t]; try done; cbn [scheduler_exec].
  - unfold svc. destruct (threads_ s !! t) as [p|] eqn:Ht; [|done]. cbn [mbind option_bind]. rewrite <- Hb.
    destruct p as [| | | |m|]; try done.
    + rewrite Hs. intros [= <-]. cbn [set_threads stop_ threads_ requestQueue_].
      pose proof (total_insert stop_weight _ _ _ Returned Ht) as H1. pose proof (total_insert about_to_fetch _ _ _ Returned Ht) as H2.
      pose proof (blocked_same _ _ _ Returned Ht eq_refl eq_refl) as H3. cbn [stop_weight about_to_fetch] in H1, H2.
      split_and!; [done|lia..].
    + by apply (stopped_fetch t Fetching).
    + by apply (stopped_fetch t AwakeInFetch).
    + intros [= <-]. cbn [stop_ threads_ requestQueue_].
      pose proof (total_insert stop_weight _ _ _ Testing Ht) as H1. pose proof (total_insert about_to_fetch _ _ _ Testing Ht) as H2.
      pose proof (blocked_same _ _ _ Testing Ht eq_refl eq_refl) as H3. cbn [stop_weight about_to_fetch] in H1, H2.
      split_and!; [done|lia..].
  - destruct (threads_ s !! t) as [p|] eqn:Ht; [|done]. cbn [mbind option_bind]. destruct p; try done.
    by apply not_blocked_at in Ht.
Qed.

Lemma not_joined (s : scheduler) : join_all s = false → ∃ t p, threads_ s !! t = Some p ∧ p ≠ Returned.
Proof.
  unfold join_all. intros Hj. induction (threads_ s) as [|p l IH]; [done|]. cbn in Hj.
  destruct p; try (by eexists 0%nat, _). destruct (IH Hj) as (t & p & Ht & Hp). by exists (S t), p.
Qed.

Lemma stop_moves (s : scheduler) : blocked (threads_ s) = 0%nat → join_all s = false → ∃ t choice s', svc t choice s = Some s'.
Proof.
  intros Hb (t & p & Ht & Hp)%not_joined. apply thread_steps. exists t, p. split_and!; [done| |done].
  by apply (proj1 (count_none _ _) Hb t).
Qed.

(** *** Whole runs *)

Lemma threads_kept_step e (s s' : scheduler) : scheduler_exec priority_of e s = Some s' → length (threads_ s') = length (threads_ s).
Proof.
  destruct e as [r| |t choice|t]; cbn [scheduler_exec].
  - intros [= <-]. apply notify_all_length.
  - intros [= <-]. apply notify_all_length.
  - unfold svc, fetchRequest. destruct (threads_ s !! t) as [p|]; [|done]. cbn [mbind option_bind].
    destruct p; try done; try (intros [= <-]; apply length_insert);
      (destruct (requestQueue_ s); [intros [= <-]; apply length_insert|]);
      (destruct (pop choice _) as [[m q]|]; [|done]); intros [= <-]; apply length_insert.
  - destruct (threads_ s !! t) as [p|]; [|done]. cbn [mbind option_bind]. destruct (is_blocked p); [|done].
    intros [= <-]. apply length_insert.
Qed.
Lemma threads_kept es (s s' : scheduler) : runs_exec (scheduler_exec priority_of) es s = Some s' →
  length (threads_ s') = length (threads_ s).
Proof.
  apply (runs_inv_all _ (λ s', length (threads_ s') = length (threads_ s))); [|done].
  intros e s1 s2 H1 H2. by rewrite (threads_kept_step _ _ _ H2).
Qed.

Lemma scheduled_own es : Forall own_step es → scheduled es = [].
Proof. induction 1 as [|e es He _ IH]; [done|]. by destruct e. Qed.

(** The queue only shrinks. *)
Lemma own_queue e (s s' : scheduler) : own_step e → scheduler_exec priority_of e s = Some s' →
  requestQueue_ s' ≠ [] → requestQueue_ s ≠ [].
Proof.
  intros He E Hq' Hq. apply Hq'. clear Hq'. revert E. destruct e as [r| |t choice|t]; try done; cbn [scheduler_exec].
  - unfold svc, fetchRequest. rewrite Hq. destruct (threads_ s !! t) as [p|]; [|done]. cbn [mbind option_bind].
    destruct p; try done; intros [= <-]; try done.
  - destruct (threads_ s !! t) as [p|]; [|done]. cbn [mbind option_bind]. destruct (is_blocked p); [|done]. by intros [= <-].
Qed.

Lemma work_runs rs es s s' : scheduler_inv priority_of rs s → stop_ s = false → Forall own_step es →
  runs_exec (scheduler_exec priority_of) es s = Some s' → requestQueue_ s' ≠ [] → (length es + work s' ≤ work s)%nat.
Proof.
  intros Hinv Hs Hes. revert rs s Hinv Hs. induction Hes as [|e es He Hes IH]; intros rs s Hinv Hs; cbn [runs_exec length].
  { intros [= <-] _. lia. }
  destruct (scheduler_exec priority_of e s) as [s1|] eqn:E; [|done]. cbn [mbind option_bind]. intros Hrun Hq'.
  assert (Hq1 : requestQueue_ s1 ≠ []).
  { clear -Hes Hrun Hq'. revert s1 Hrun. induction Hes as [|e es He Hes IH]; intros s1; cbn [runs_exec]; [by intros [= <-]|].
    destruct (scheduler_exec priority_of e s1) as [s2|] eqn:E; [|done]. cbn [mbind option_bind]. intros Hrun.
    apply (own_queue e s1 s2 He E). by apply IH. }
  destruct (work_step _ e s s1 Hinv He Hs (own_queue e s s1 He E Hq1) E) as [Hs1 Hw].
  specialize (IH _ s1 (scheduler_step _ _ _ _ _ Hinv E) Hs1 Hrun Hq'). lia.
Qed.

Lemma stopped_runs es (s s' : scheduler) : stop_ s = true → blocked (threads_ s) = 0%nat → Forall own_step es →
  runs_exec (scheduler_exec priority_of) es s = Some s' →
  stop_ s' = true ∧ blocked (threads_ s') = 0%nat ∧
  (length es + total stop_weight (threads_ s') ≤ total stop_weight (threads_ s) ∧
   length (requestQueue_ s) + total about_to_fetch (threads_ s') ≤ length (requestQueue_ s') + total about_to_fetch (threads_ s))%nat.
Proof.
  intros Hs Hb Hes. revert s Hs Hb. induction Hes as [|e es He Hes IH]; intros s Hs Hb; cbn [runs_exec length].
  { intros [= <-]. split_and!; [done|done|lia..]. }
  destruct (scheduler_exec priority_of e s) as [s1|] eqn:E; [|done]. cbn [mbind option_bind]. intros Hrun.
  destruct (stopped_step e s s1 Hs Hb He E) as (Hs1 & Hb1 & Hw & Hf).
  destruct (IH s1 Hs1 Hb1 Hrun) as (Hs' & Hb' & Hw' & Hf'). split_and!; [done|done|lia..].
Qed.

(** When all threads have returned nothing is called any more. *)
Lemma joined_step e (s s' : scheduler) : join_all s = true → scheduler_exec priority_of e s = Some s' →
  join_all s' = true ∧ called s' = called s ∧ requestQueue_ s `prefix_of` requestQueue_ s'.
Proof.
  unfold join_all. intros Hj. assert (Hall : ∀ t p, threads_ s !! t = Some p → p = Returned).
  { intros t p Ht. rewrite forallb_forall in Hj. specialize (Hj p (proj1 (list_elem_of_In _ _) (list_elem_of_lookup_2 _ _ _ Ht))).
    by destruct p. }
  assert (Hn : notify_all (threads_ s) = threads_ s).
  { unfold notify_all. rewrite <- (map_id (threads_ s)) at 2. apply map_ext_in. intros p Hp%list_elem_of_In.
    apply list_elem_of_lookup_1 in Hp as (t & Ht). by rewrite (Hall t p Ht). }
  destruct e as [r| |t choice|t]; cbn [scheduler_exec].
  - intros [= <-]. cbn [schedule threads_ called requestQueue_]. rewrite Hn. split_and!; [done|done|]. by eexists.
  - intros [= <-]. cbn [stop_scheduler threads_ called requestQueue_]. by rewrite Hn.
  - unfold svc. destruct (threads_ s !! t) as [p|] eqn:Ht; [|done]. by rewrite (Hall t p Ht).
  - destruct (threads_ s !! t) as [p|] eqn:Ht; [|done]. by rewrite (Hall t p Ht).
Qed.
Lemma joined_runs es (s s' : scheduler) : join_all s = true → runs_exec (scheduler_exec priority_of) es s = Some s' →
  called s' = called s ∧ requestQueue_ s `prefix_of` requestQueue_ s'.
Proof.
  intros Hj Hrun. enough (H : join_all s' = true ∧ called s' = called s ∧ requestQueue_ s `prefix_of` requestQueue_ s') by apply H.
  revert Hrun. apply (runs_inv_all _ (λ s', join_all s' = true ∧ called s' = called s ∧ requestQueue_ s `prefix_of` requestQueue_ s')); [|done].
  intros e s1 s2 (H1 & H2 & H3) E. destruct (joined_step e s1 s2 H1 E) as (H1' & H2' & H3').
  split_and!; [done|congruence|by etrans].
Qed.
End progress.

(** *** From the start *)

Section runs.
Context {R : Type} (priority_of : R → Z).
#[local] Abbreviation exec := (scheduler_exec priority_of).

Lemma running_inv n : scheduler_inv priority_of [] (running_threads n).
Proof.
  assert (E : calling (@running_threads R n) = []) by (unfold calling, running_threads, start_scheduler; cbn; by induction n).
  split; rewrite ?E; try done. intros _ t Ht. by apply lookup_replicate in Ht as [? _].
Qed.

Lemma running_length n : length (threads_ (@running_threads R n)) = n.
Proof. apply length_replicate. Qed.

Lemma scheduler_runs_inv rs es s s' : scheduler_inv priority_of rs s → runs_exec exec es s = Some s' →
  scheduler_inv priority_of (rs ++ scheduled es) s'.
Proof.
  revert rs s. induction es as [|e es IH]; intros rs s Hinv; cbn [runs_exec].
  - intros [= <-]. cbn. by rewrite app_nil_r.
  - destruct (exec e s) as [s1|] eqn:E; [|done]. cbn [mbind option_bind]. intros Hrun.
    pose proof (IH _ _ (scheduler_step _ _ _ _ _ Hinv E) Hrun) as H. rewrite <- app_assoc in H.
    unfold scheduled in *. by rewrite <- omap_app in H.
Qed.
End runs.
