(* ===== verification/DatabaseProxyServer.v ===== *)
(** * database/proxy: the server

    Models [DatabaseProxyService] ([src/src/database/proxy/server/DatabaseProxyService.
    cpp]), its sessions [DatabaseProxyServerSideSession] ([s2s/DatabaseProxyServerSide
    Session.cpp]), [ModifyRequestMethod] ([scheduler/RequestMethod.h]) and the client's
    [DatabaseClientSideProxy::call]: a composition of the session of [ServerSession.v],
    the scheduler of [ProxyScheduler.v] and the requests of [DatabaseRequest.v].  The
    database is a state that [sql_call] changes when a thread of the scheduler calls a
    request. *)

From S2P Require Import Prelude Monitors Timers Heartbeat ServerSession DatabaseRequest ProxyScheduler.

(** [DatabaseClientSideProxy::call]: the request that is sent. *)
Definition client_call (r : ModifyRequest) : result ModifyRequest :=
  if isValidRequest r then Ok r else Throw (Undefined "assert(request.isValid())").

Record DatabaseProxyServerSideSession := mkDbSession {
  db_session : ServerSideSession;
  db_replies : list bool;                 (* the [S2sAuthenticateResultMessage]s sent *)
}.
Definition on_db_session (f : ServerSideSession → ServerSideSession) (c : DatabaseProxyServerSideSession) : DatabaseProxyServerSideSession :=
  mkDbSession (f (db_session c)) (db_replies c).

(** [ModifyRequestMethod::call] *)
Definition ModifyRequestMethod_call {D} (execute : list Z → list AdoParameter → D → bool * D)
  (m : @RequestMethod ModifyRequest) (db : D) : D := (sql_call execute (request_ m) db).2.

Section server.
Context {D : Type} (execute : list Z → list AdoParameter → D → bool * D).
Context (serverCertificate : list Z).     (* [getServerCertificate()] *)

Record DatabaseProxyServer := mkDbServer {
  dp_sessions : list DatabaseProxyServerSideSession;
  dp_scheduler : @ProxyScheduler ModifyRequest;     (* [DatabaseProxyService::scheduler_] *)
  dp_db : D;
  dp_globalClientId : Z;
}.

(** [DatabaseProxyService::initialize] with its threads. *)
Definition service_initialize (threadCount : nat) : @ProxyScheduler ModifyRequest := start_scheduler threadCount newScheduler.
Definition service_authenticate (certificate : list Z) : bool := bool_decide (certificate = serverCertificate).
Definition service_schedule (r : ModifyRequest) : @ProxyScheduler ModifyRequest → @ProxyScheduler ModifyRequest := schedule request_priority r.
Definition service_finalize : @ProxyScheduler ModifyRequest → @ProxyScheduler ModifyRequest := stop_scheduler.

Definition newDbServer (clients threads : nat) (authenticationTimeout heartbeatTimeout : Z) (db : D) : DatabaseProxyServer :=
  mkDbServer (replicate clients (mkDbSession (newServerSide authenticationTimeout heartbeatTimeout) [])) (service_initialize threads) db 0.

(** [authenticateMessageReceived] *)
Definition db_authenticateMessageReceived (now : Z) (certificate : list Z) (c : DatabaseProxyServerSideSession) : DatabaseProxyServerSideSession :=
  let isAuthenticated := service_authenticate certificate in
  if negb isAuthenticated then on_db_session (ss_ask [AskDisconnectGracefully]) c
  else on_db_session (authenticated now) (mkDbSession (db_session c) (db_replies c ++ [isAuthenticated])).

Inductive db_server_event :=
| DbConnected (c : nat) (now : Z) (hasPacketCipher : bool)
| DbAuthenticate (c : nat) (now : Z) (certificate : list Z)
| DbDelegate (c : nat) (now : Z) (r : ModifyRequest)  (* [delegateMessageReceived] *)
| DbDisconnected (c : nat) (now : Z)
| DbScheduler (e : @scheduler_event ModifyRequest). (* of the threads, and [finalize] *)

Definition on_client (c : nat) (f : DatabaseProxyServerSideSession → DatabaseProxyServerSideSession) (s : DatabaseProxyServer) : DatabaseProxyServer :=
  mkDbServer (alter f c (dp_sessions s)) (dp_scheduler s) (dp_db s) (dp_globalClientId s).
Definition is_connected (c : nat) (s : DatabaseProxyServer) : bool :=
  match dp_sessions s !! c with Some x => ss_connected (db_session x) | None => false end.

(** [ServerSideSession::onMessageArrived], before the callback of a typed message. *)
Definition message_arrived (c : nat) (now : Z) : DatabaseProxyServer → DatabaseProxyServer :=
  on_client c (on_db_session (λ x, (ss_onMessageArrived now true x).2)).

(** The requests whose calls ended in a step are called on the database. *)
Definition database_calls (s s' : @ProxyScheduler ModifyRequest) (db : D) : D :=
  fold_left (λ db m, ModifyRequestMethod_call execute m db) (drop (length (called s)) (called s')) db.

Definition db_server_exec (e : db_server_event) (s : DatabaseProxyServer) : option DatabaseProxyServer :=
  match e with
  | DbConnected c now hasCipher =>
      if is_connected c s || bool_decide (length (dp_sessions s) ≤ c)%nat then None
      else
        let s := on_client c (on_db_session (λ x, ss_onConnected now (dp_globalClientId s) hasCipher (set_ssConnected true x))) s in
        Some (mkDbServer (dp_sessions s) (dp_scheduler s) (dp_db s) (getNextClientId (dp_globalClientId s)))
  | DbAuthenticate c now certificate =>
      if is_connected c s then Some (on_client c (db_authenticateMessageReceived now certificate) (message_arrived c now s)) else None
  | DbDelegate c now r =>
      if is_connected c s then
        let s := message_arrived c now s in
        Some (mkDbServer (dp_sessions s) (service_schedule r (dp_scheduler s)) (dp_db s) (dp_globalClientId s))
      else None
  | DbDisconnected c now =>
      if is_connected c s then Some (on_client c (on_db_session (λ x, ss_onDisconnected now (set_ssConnected false x))) s) else None
  | DbScheduler e =>
      match e with
      | Schedule _ => None                          (* only [delegateMessageReceived] schedules *)
      | _ =>
          sch ← scheduler_exec request_priority e (dp_scheduler s);
          Some (mkDbServer (dp_sessions s) sch (database_calls (dp_scheduler s) sch (dp_db s)) (dp_globalClientId s))
      end
  end.

(** ** The server is its scheduler *)

(** What an event is for the scheduler. *)
Definition scheduler_events (es : list db_server_event) : list (@scheduler_event ModifyRequest) :=
  omap (λ e, match e with DbDelegate _ _ r => Some (Schedule r) | DbScheduler e => Some e | _ => None end) es.
(** The requests that were delegated. *)
Definition delegated (es : list db_server_event) : list ModifyRequest :=
  omap (λ e, match e with DbDelegate _ _ r => Some r | _ => None end) es.

Lemma scheduler_called e (s s' : @ProxyScheduler ModifyRequest) : scheduler_exec request_priority e s = Some s' → called s `prefix_of` called s'.
Proof.
  destruct e as [r| |t choice|t]; cbn [scheduler_exec].
  - by intros [= <-].
  - by intros [= <-].
  - unfold svc. destruct (threads_ s !! t) as [p|]; [|done]. cbn [mbind option_bind].
    assert (Hfetch : fetchRequest t choice s = Some s' → called s `prefix_of` called s').
    { unfold fetchRequest. destruct (requestQueue_ s) as [|m q]; [by intros [= <-]|].
      destruct (pop choice (m :: q)) as [[m' q']|]; [|done]. by intros [= <-]. }
    destruct p; try done; try exact Hfetch; intros [= <-]; cbn; [by exists []; rewrite app_nil_r|by eexists].
  - destruct (threads_ s !! t) as [p|]; [|done]. cbn [mbind option_bind].
    destruct (is_blocked p); [|done]. by intros [= <-].
Qed.

(** What the database went through is what was called. *)
Definition database_follows (db0 : D) (s : DatabaseProxyServer) : Prop :=
  dp_db s = fold_left (λ db m, ModifyRequestMethod_call execute m db) (called (dp_scheduler s)) db0.

Lemma db_server_step db0 e s s' : database_follows db0 s → db_server_exec e s = Some s' →
  database_follows db0 s' ∧
  runs_exec (scheduler_exec request_priority) (scheduler_events [e]) (dp_scheduler s) = Some (dp_scheduler s').
Proof.
  intros Hf. unfold database_follows in *. destruct e as [c now hasCipher|c now certificate|c now r|c now|e]; cbn [db_server_exec].
  - destruct (_ || _); [done|]. by intros [= <-].
  - destruct (is_connected c s); [|done]. by intros [= <-].
  - destruct (is_connected c s); [|done]. by intros [= <-].
  - destruct (is_connected c s); [|done]. by intros [= <-].
  - intros Hs. assert (∃ sch, scheduler_exec request_priority e (dp_scheduler s) = Some sch ∧
      s' = mkDbServer (dp_sessions s) sch (database_calls (dp_scheduler s) sch (dp_db s)) (dp_globalClientId s)) as (sch & E & ->).
    { destruct e; try done; destruct (scheduler_exec request_priority _ _) as [sch|]; try done; injection Hs as <-; by exists sch. }
    cbn [dp_db dp_scheduler]. split.
    + destruct (scheduler_called _ _ _ E) as [l Hl]. unfold database_calls. by rewrite Hl, drop_app_length, fold_left_app, Hf.
    + change (scheduler_events [DbScheduler e]) with [e]. cbn [runs_exec]. by rewrite E.
Qed.

Lemma db_server_runs db0 es s s' : database_follows db0 s → runs_exec db_server_exec es s = Some s' →
  database_follows db0 s' ∧
  runs_exec (scheduler_exec request_priority) (scheduler_events es) (dp_scheduler s) = Some (dp_scheduler s').
Proof.
  revert s. induction es as [|e es IH]; intros s Hf; cbn [runs_exec]; [by intros [= <-]|].
  destruct (db_server_exec e s) as [s1|] eqn:E; [|done]. cbn [mbind option_bind]. intros Hrun.
  destruct (db_server_step db0 e s s1 Hf E) as [Hf1 Hs1]. destruct (IH s1 Hf1 Hrun) as [Hf' Hs']. split; [done|].
  change (e :: es) with ([e] ++ es). unfold scheduler_events in *. rewrite omap_app. apply runs_app. by exists (dp_scheduler s1).
Qed.

Lemma delegated_scheduled es s s' : runs_exec db_server_exec es s = Some s' → scheduled (scheduler_events es) = delegated es.
Proof.
  revert s. induction es as [|e es IH]; intros s; cbn [runs_exec]; [done|].
  destruct (db_server_exec e s) as [s1|] eqn:E; [|done]. cbn [mbind option_bind]. intros Hrun. specialize (IH s1 Hrun).
  unfold scheduled, scheduler_events, delegated in *. destruct e as [| |c now r| |e]; cbn; try done; [by rewrite IH|].
  destruct e; cbn in *; done.
Qed.
End server.
