(* ===== verification/Futures.v ===== *)
(** * base/concurrent: futures

    Models [Future], [SyncFuture] and [AsyncFuture] ([src/include/sne/base/concurrent/
    Future.h]).  An observer is known to exist or not; the calls of its [update] are a
    result of the operations.  [SyncFuture] is a monitor: its machine has the threads
    that wait for it, with the ends of a timed wait of the standard library, which may
    return without being notified. *)

From S2P Require Import Prelude Monitors.

Record Future := mkFuture { observer_ : bool; isCompleted_ : bool }.
Definition newFuture : Future := mkFuture false false.

(** The new future and how often [observer_->update] is called. *)
Definition attach (f : Future) : Future * nat :=
  (mkFuture true (isCompleted_ f), if isCompleted_ f then 1%nat else 0%nat).
Definition completed (f : Future) : Future * nat :=
  (mkFuture (observer_ f) true, if observer_ f then 1%nat else 0%nat).
Definition turned (f : Future) : Future * nat := (f, if observer_ f then 1%nat else 0%nat).
Definition isDone (f : Future) : bool := isCompleted_ f.

(** ** [SyncFuture] *)

(** A thread that calls [waitForDone]: what [wait_for] returns is known when it is
    woken, [cv_status::timeout] or not. *)
Inductive sync_phase :=
| Calls_waitForDone
| BlockedForDone
| AwakeForDone (timeout : bool)
| ReturnedDone (done : bool).

#[global] Instance sync_thread : Thread sync_phase := {|
  is_blocked p := match p with BlockedForDone => true | _ => false end;
  is_awake p := match p with AwakeForDone _ => true | _ => false end;
  awaken _ := AwakeForDone false;
|}.
#[global] Instance sync_thread_spec : ThreadSpec sync_phase.
Proof. split; by intros []. Qed.

Record SyncFuture := mkSync { sync_future : Future; sync_threads : list sync_phase }.

Inductive sync_event :=
| Completed (choice : option nat)       (* [completed], which notifies one thread *)
| WaitForDone (t : nat)                 (* from the lock to a return or the wait *)
| SpuriousWake (t : nat)
| TimesOut (t : nat)
| ReturnsFromWait (t : nat).

(** [SyncFuture::completed] *)
Definition sync_completed (choice : option nat) (s : SyncFuture) : option SyncFuture :=
  threads ← notify_one choice (sync_threads s); Some (mkSync (completed (sync_future s)).1 threads).
(** [SyncFuture::waitForDone], its two parts. *)
Definition waitForDone (t : nat) (s : SyncFuture) : SyncFuture :=
  mkSync (sync_future s) (<[t := if isDone (sync_future s) then ReturnedDone true else BlockedForDone]> (sync_threads s)).
Definition return_from_wait (t : nat) (timeout : bool) (s : SyncFuture) : SyncFuture :=
  mkSync (sync_future s) (<[t := ReturnedDone (negb timeout)]> (sync_threads s)).

Definition sync_exec (e : sync_event) (s : SyncFuture) : option SyncFuture :=
  match e with
  | Completed choice => sync_completed choice s
  | WaitForDone t =>
      match sync_threads s !! t with Some Calls_waitForDone => Some (waitForDone t s) | _ => None end
  | SpuriousWake t =>
      match sync_threads s !! t with
      | Some BlockedForDone => Some (mkSync (sync_future s) (<[t := AwakeForDone false]> (sync_threads s))) | _ => None end
  | TimesOut t =>
      match sync_threads s !! t with
      | Some BlockedForDone => Some (mkSync (sync_future s) (<[t := AwakeForDone true]> (sync_threads s))) | _ => None end
  | ReturnsFromWait t =>
      match sync_threads s !! t with Some (AwakeForDone timeout) => Some (return_from_wait t timeout s) | _ => None end
  end.

Definition newSync (threads : nat) : SyncFuture := mkSync newFuture (replicate threads Calls_waitForDone).

(** Without wakeups of its own, a wait that says the future is done is right. *)
Definition notified_only (e : sync_event) : Prop := match e with SpuriousWake _ => False | _ => True end.

Definition done_is_right (s : SyncFuture) : Prop :=
  ∀ t, sync_threads s !! t = Some (ReturnedDone true) ∨ sync_threads s !! t = Some (AwakeForDone false) →
    isDone (sync_future s) = true.

Lemma done_insert s t p : done_is_right s → (p = ReturnedDone true ∨ p = AwakeForDone false → isDone (sync_future s) = true) →
  done_is_right (mkSync (sync_future s) (<[t := p]> (sync_threads s))).
Proof.
  intros Hd Hp t' Ht'. cbn [sync_future sync_threads] in *. destruct (decide (t' = t)) as [->|Hne].
  - destruct (decide (t < length (sync_threads s))%nat) as [Hlt|Hge].
    + rewrite list_lookup_insert_eq in Ht' by done. apply Hp. destruct Ht' as [[= ->]|[= ->]]; auto.
    + rewrite list_insert_ge in Ht' by lia. by apply (Hd t).
  - rewrite list_lookup_insert_ne in Ht' by done. by apply (Hd t').
Qed.

Lemma sync_step e s s' : notified_only e → done_is_right s → sync_exec e s = Some s' → done_is_right s'.
Proof.
  intros He Hd. destruct e as [choice|t|t|t|t]; try done; cbn [sync_exec].
  - unfold sync_completed. destruct (notify_one choice (sync_threads s)) as [l|]; [|done]. cbn. by intros [= <-] t' _.
  - destruct (sync_threads s !! t) as [[| | |]|]; try done. intros [= <-]. apply done_insert; [done|].
    destruct (isDone (sync_future s)); [done|]. by intros [?|?].
  - destruct (sync_threads s !! t) as [[| | |]|]; try done. intros [= <-]. apply done_insert; [done|]. by intros [?|?].
  - destruct (sync_threads s !! t) as [[| |timeout|]|] eqn:Et; try done. intros [= <-]. apply done_insert; [done|].
    destruct timeout; [by intros [?|?]|]. intros _. apply (Hd t). by right.
Qed.

(** A thread that was not chosen by [notify_one] when the future was completed, until
    something else wakes it. *)
Definition no_more_wakeups (e : sync_event) : Prop :=
  match e with Completed _ | SpuriousWake _ => False | _ => True end.
Definition forgotten (t : nat) (s : SyncFuture) : Prop :=
  isDone (sync_future s) = true ∧
  (sync_threads s !! t = Some BlockedForDone ∨ sync_threads s !! t = Some (AwakeForDone true) ∨
   sync_threads s !! t = Some (ReturnedDone false)).

Lemma forgotten_insert t t' p p' s : forgotten t s → sync_threads s !! t' = Some p →
  (t' = t → p = BlockedForDone → p' = AwakeForDone true) → (t' = t → p = AwakeForDone true → p' = ReturnedDone false) →
  p ≠ ReturnedDone false → forgotten t (mkSync (sync_future s) (<[t' := p']> (sync_threads s))).
Proof.
  intros [Hd Ht] Hp H1 H2 H3. split; [done|]. cbn. destruct (decide (t' = t)) as [->|Hne].
  - rewrite list_lookup_insert_eq by (by eapply lookup_lt_Some). rewrite Hp in Ht.
    destruct Ht as [[= ->]|[[= ->]|[= ->]]]; [|by rewrite H2 by done; auto|done]. rewrite H1 by done. auto.
  - by rewrite list_lookup_insert_ne.
Qed.
Lemma forgotten_step t e s s' : no_more_wakeups e → forgotten t s → sync_exec e s = Some s' → forgotten t s'.
Proof.
  intros He Hf. destruct e as [choice|t'|t'|t'|t']; try done; cbn [sync_exec];
    destruct (sync_threads s !! t') as [[| | |]|] eqn:Et; try done; intros [= <-].
  - by apply (forgotten_insert t t' Calls_waitForDone).
  - by apply (forgotten_insert t t' BlockedForDone).
  - apply (forgotten_insert t t' (AwakeForDone timeout)); try done. by intros _ [= ->].
Qed.
Lemma completed_forgets choice t s s' : sync_threads s !! t = Some BlockedForDone → choice ≠ Some t →
  sync_exec (Completed choice) s = Some s' → forgotten t s'.
Proof.
  intros Ht Hc. cbn. unfold sync_completed, notify_one. destruct choice as [i|]; cbn.
  - destruct (sync_threads s !! i) as [p|]; [|done]. cbn. destruct p; try done. intros [= <-]. split; [done|]. left. cbn.
    by rewrite list_lookup_insert_ne by congruence.
  - case_decide as Hb; [|done]. intros [= <-]. split; [done|]. by left.
Qed.
