(* ===== verification/TaskScheduler.v ===== *)
(** * base/concurrent and base/io_context: tasks and the contexts that run them

    Models [ScheduledTaskFuture] and [TaskScheduler::scheduleTimedTask]
    ([src/src/base/concurrent/TaskScheduler.cpp]) over the timers of [Timers.v], and the
    choice of an [io_context] by [IoContextTask] ([src/src/base/io_context/
    IoContextTask.cpp]), which threads share without a lock.  Running a task is noted
    with its time; its effects are the task's. *)

From S2P Require Import Prelude Timers Monitors Futures.

(** ** [ScheduledTaskFuture] *)

Record ScheduledTaskFuture := mkTask {
  stf_future : Future;
  stf_timer : Timer;             (* [timer_] *)
  interval_ : Z;
  isCancelled_ : bool;
  runs : list Z;                 (* when [task_->run()] was called *)
}.

Definition on_stf_timer (g : Timer → Timer) (s : ScheduledTaskFuture) : ScheduledTaskFuture :=
  mkTask (stf_future s) (g (stf_timer s)) (interval_ s) (isCancelled_ s) (runs s).

(** The future is its own observer: [update] runs the task. *)
Definition notify_observer (now : Z) (fn : Future * nat) (s : ScheduledTaskFuture) : ScheduledTaskFuture :=
  mkTask fn.1 (stf_timer s) (interval_ s) (isCancelled_ s) (runs s ++ replicate fn.2 now).

(** [schedule], with the closure it waits with. *)
Definition schedule_task (now delay : Z) : ScheduledTaskFuture → ScheduledTaskFuture :=
  on_stf_timer (λ t, async_wait OnceWait (expires_from_now now delay t)).
Definition task_handler (now : Z) (ok : bool) (s : ScheduledTaskFuture) : ScheduledTaskFuture :=
  if ok then
    if isCancelled_ s then s
    else if 0 <? interval_ s then
      schedule_task now (interval_ s) (notify_observer now (turned (stf_future s)) s)
    else notify_observer now (completed (stf_future s)) s
  else s.

Definition newTask (interval : Z) : ScheduledTaskFuture :=
  mkTask (attach newFuture).1 createTimer interval false [].
(** [TaskScheduler::scheduleTimedTask] *)
Definition scheduleTimedTask (now delay interval : Z) : ScheduledTaskFuture :=
  schedule_task now delay (newTask interval).

(** [deadline_timer::cancel] aborts the wait in progress. *)
Definition task_cancel (now : Z) (s : ScheduledTaskFuture) : ScheduledTaskFuture :=
  mkTask (stf_future s) (abort_wait now (stf_timer s)) (interval_ s) true (runs s).

Inductive task_call := CancelTask.

#[global] Instance ScheduledTask_timed : TimedObject ScheduledTaskFuture unit task_call := {|
  ob_timers := [tt];
  ob_timer _ s := Some (stf_timer s);
  ob_update _ := on_stf_timer;
  ob_handler _ now _ ok := task_handler now ok;
  ob_call now _ s := Some (task_cancel now s);
  ob_due _ _ := true;
|}.

#[local] Abbreviation task_exec latency := (timed_exec (S := ScheduledTaskFuture) (W := unit) (Op := task_call) latency).
#[local] Abbreviation task_event := (timed_event unit task_call).

(** The runs of a task, from the one expected at [next] on, each at most [latency]
    late, and the one expected after them. *)
Inductive on_schedule (latency interval : Z) : Z → list Z → Z → Prop :=
| schedule_nil next : on_schedule latency interval next [] next
| schedule_cons next r l last : next ≤ r ≤ next + latency → on_schedule latency interval (r + interval) l last →
    on_schedule latency interval next (r :: l) last.

Lemma on_schedule_snoc latency interval next l last r : on_schedule latency interval next l last →
  last ≤ r ≤ last + latency → on_schedule latency interval next (l ++ [r]) (r + interval).
Proof. induction 1; intros; cbn; econstructor; eauto using on_schedule. Qed.

(** So many runs are neither too early nor too late. *)
Lemma on_schedule_bounds latency interval next l last : 0 ≤ latency → on_schedule latency interval next l last →
  next + Z.of_nat (length l) * interval ≤ last ≤ next + Z.of_nat (length l) * (interval + latency).
Proof. intros Hl. induction 1; cbn [length]; lia. Qed.

Definition not_cancelled (e : task_event) : Prop := match e with Calls CancelTask => False | _ => True end.

Record repeating_task (latency first interval : Z) (x : Z * ScheduledTaskFuture) : Prop := {
  rt_interval : interval_ x.2 = interval;
  rt_observer : observer_ (stf_future x.2) = true;
  rt_going : isCancelled_ x.2 = false;
  rt_timer : awaiting OnceWait (stf_timer x.2);
  rt_runs : on_schedule latency interval first (runs x.2) (tm_expiry (stf_timer x.2));
  rt_time : x.1 ≤ tm_expiry (stf_timer x.2) + latency;
  rt_ended : tm_wait (stf_timer x.2) = None → tm_expiry (stf_timer x.2) ≤ x.1;
  rt_last : runs x.2 ≠ [] → tm_expiry (stf_timer x.2) - interval ≤ x.1;
}.

Lemma repeating_task_step latency first interval e x y : 0 ≤ latency → 0 < interval → not_cancelled e →
  repeating_task latency first interval x → task_exec latency e x = Some y → repeating_task latency first interval y.
Proof.
  intros Hl Hi He [H1 H2 H3 H4 H5 H6 H7 H8]. destruct x as [now s]. cbn [fst snd] in *.
  destruct e as [d|[]|[]|[]]; try done; cbn [timed_exec].
  - case_decide as Hd; [|done]. intros [= <-]. destruct Hd as (Hd & Ho & _).
    unfold all_on_time in Ho. cbn in Ho. apply Forall_cons in Ho as [Ho _].
    pose proof (awaiting_on_time _ _ _ _ H4 Ho). split; cbn [fst snd]; try done; [intros Hw; specialize (H7 Hw)|intros Hr; specialize (H8 Hr)]; lia.
  - cbn. case_decide as Hd; [|done]. intros [= <-]. destruct (awaiting_expires _ _ H4 (proj1 Hd)) as (Ha & Ex & _).
    split; cbn; rewrite ?Ex; try done. intros _. apply Hd.
  - cbn. destruct (tm_queue (stf_timer s)) as [|[[k ok] since] rest] eqn:Eq; [done|]. intros [= <-].
    destruct (awaiting_runs _ _ _ _ _ _ H4 Eq) as (_ & -> & Hw & Hq & _).
    assert (Hnow : tm_expiry (stf_timer s) ≤ now) by (apply H7; destruct H4 as [[? E]|[? _]]; [by rewrite E in Eq|done]).
    unfold task_handler. cbn [isCancelled_ on_stf_timer interval_]. rewrite H3, H1, (proj2 (Z.ltb_lt _ _)) by done.
    unfold schedule_task, notify_observer, turned. cbn [stf_future on_stf_timer stf_timer fst snd runs interval_ isCancelled_]. rewrite H2.
    destruct (async_wait_awaiting now interval OnceWait _ Hw Hq) as [Ha Ex].
    split; cbn [fst snd stf_future on_stf_timer stf_timer runs interval_ isCancelled_]; rewrite ?Ex; try done.
    + apply on_schedule_snoc with (tm_expiry (stf_timer s)); [done|lia].
    + lia.
    + lia.
Qed.

Record single_task (latency first : Z) (x : Z * ScheduledTaskFuture) : Prop := {
  sg_interval : interval_ x.2 = 0;
  sg_observer : observer_ (stf_future x.2) = true;
  sg_going : isCancelled_ x.2 = false;
  sg_state :
    (awaiting OnceWait (stf_timer x.2) ∧ runs x.2 = [] ∧ tm_expiry (stf_timer x.2) = first ∧ x.1 ≤ first + latency ∧
     (tm_wait (stf_timer x.2) = None → first ≤ x.1) ∧ isDone (stf_future x.2) = false) ∨
    (tm_wait (stf_timer x.2) = None ∧ tm_queue (stf_timer x.2) = [] ∧ isDone (stf_future x.2) = true ∧
     ∃ r, runs x.2 = [r] ∧ first ≤ r ≤ first + latency);
}.

Lemma single_task_step latency first e x y : 0 ≤ latency → not_cancelled e →
  single_task latency first x → task_exec latency e x = Some y → single_task latency first y.
Proof.
  intros Hl He [H1 H2 H3 H4]. destruct x as [now s]. cbn [fst snd] in *.
  destruct e as [d|[]|[]|[]]; try done; cbn [timed_exec].
  - case_decide as Hd; [|done]. intros [= <-]. destruct Hd as (Hd & Ho & _).
    unfold all_on_time in Ho. cbn in Ho. apply Forall_cons in Ho as [Ho _]. split; cbn [fst snd]; try done.
    destruct H4 as [(Ha & Hr & He' & Hn & Hw & Hf)|?]; [left|by right].
    pose proof (awaiting_on_time _ _ _ _ Ha Ho). split_and!; try done; [lia|]. intros Hw'. specialize (Hw Hw'). lia.
  - cbn. case_decide as Hd; [|done]. intros [= <-]. destruct H4 as [(Ha & Hr & He' & Hn & Hw & Hf)|(Hw & _)]; [|by destruct Hd].
    destruct (awaiting_expires _ _ Ha (proj1 Hd)) as (Ha' & Ex & _). split; cbn; try done. left. rewrite Ex.
    split_and!; try done. intros _. rewrite <- He'. apply Hd.
  - cbn. destruct (tm_queue (stf_timer s)) as [|[[k ok] since] rest] eqn:Eq; [done|]. intros [= <-].
    destruct H4 as [(Ha & Hr & He' & Hn & Hw & Hf)|(_ & Hq & _)]; [|by rewrite Hq in Eq].
    destruct (awaiting_runs _ _ _ _ _ _ Ha Eq) as (_ & -> & Hw' & Hq & _).
    assert (Hnow : first ≤ now) by (apply Hw; destruct Ha as [[? E]|[? _]]; [by rewrite E in Eq|done]).
    unfold task_handler. cbn [isCancelled_ on_stf_timer interval_]. rewrite H3, H1, (proj2 (Z.ltb_ge _ _)) by done.
    unfold notify_observer, completed. cbn [stf_future on_stf_timer stf_timer fst snd runs interval_ isCancelled_]. rewrite H2.
    split; try done. right. cbn. rewrite Hr. split_and!; try done. exists now. split; [done|lia].
Qed.

(** After [cancel] a task is not run any more. *)
Definition cancelled_task (ran : list Z) (x : Z * ScheduledTaskFuture) : Prop :=
  isCancelled_ x.2 = true ∧ runs x.2 = ran.
Lemma cancelled_task_step latency ran e x y : cancelled_task ran x → task_exec latency e x = Some y → cancelled_task ran y.
Proof.
  intros [Hc Hr]. destruct x as [now s]. cbn [fst snd] in *. destruct e as [d|[]|[]|[]]; cbn [timed_exec]; cbn.
  - case_decide; [|done]. by intros [= <-].
  - case_decide; [|done]. by intros [= <-].
  - destruct (tm_queue (stf_timer s)) as [|[[k ok] since] rest]; [done|]. intros [= <-].
    unfold task_handler. cbn [isCancelled_ on_stf_timer]. rewrite Hc. by destruct ok.
  - intros [= <-]. by split.
Qed.

(** ** [IoContextTask::getIoContext]

    Contexts are known by their number.  A call reads [nextIoContext_], increments it
    and compares it with the number of contexts, and no lock is held. *)

Record IoContextTask := mkContexts { ioContexts_ : nat; nextIoContext_ : nat }.

Definition getIoContext : st IoContextTask nat :=
  c ← get_st;
  (if decide (nextIoContext_ c < ioContexts_ c)%nat then mret tt else throw (Undefined "no such io_context")) ;;
  modify (λ c, mkContexts (ioContexts_ c) (S (nextIoContext_ c))) ;;
  modify (λ c, if decide (nextIoContext_ c = ioContexts_ c) then mkContexts (ioContexts_ c) 0 else c) ;;
  mret (nextIoContext_ c).

(** Where a thread is in a call. *)
Inductive context_phase :=
| ToChoose                       (* about to read [nextIoContext_] *)
| ToIncrement (io : nat)
| ToCompare (io : nat)
| Chosen (io : nat)
| OutOfRange.                    (* it read beyond the vector *)

Record ContextUsers := mkUsers { users_contexts : IoContextTask; users : list context_phase }.

(** What a thread does next, with the contexts afterwards. *)
Definition phase_turn (c : IoContextTask) (p : context_phase) : option (IoContextTask * context_phase) :=
  match p with
  | ToChoose => Some (c, if decide (nextIoContext_ c < ioContexts_ c)%nat then ToIncrement (nextIoContext_ c) else OutOfRange)
  | ToIncrement io => Some (mkContexts (ioContexts_ c) (S (nextIoContext_ c)), ToCompare io)
  | ToCompare io => Some (if decide (nextIoContext_ c = ioContexts_ c) then mkContexts (ioContexts_ c) 0 else c, Chosen io)
  | Chosen _ | OutOfRange => None
  end.
Definition context_turn (t : nat) (s : ContextUsers) : option ContextUsers :=
  p ← users s !! t; r ← phase_turn (users_contexts s) p; Some (mkUsers r.1 (<[t := r.2]> (users s))).

Lemma context_turn_eq t c us p : us !! t = Some p →
  context_turn t (mkUsers c us) = r ← phase_turn c p; Some (mkUsers r.1 (<[t := r.2]> us)).
Proof. intros Ht. unfold context_turn. cbn [users users_contexts]. by rewrite Ht. Qed.

(** One call after the other goes round. *)
Lemma getIoContext_ok n i : (i < n)%nat →
  getIoContext (mkContexts n i) = (Ok i, mkContexts n (S i mod n)).
Proof.
  intros Hi. cbv beta iota delta [getIoContext mbind st_bind get_st modify mret st_ret throw ioContexts_ nextIoContext_].
  rewrite decide_True by done. f_equal. case_decide as E.
  - by rewrite E, Nat.Div0.mod_same.
  - by rewrite Nat.mod_small by lia.
Qed.

(** Once beyond the vector, the counter never comes back, and nobody gets a context. *)
Lemma phase_turn_beyond c p c' p' : phase_turn c p = Some (c', p') → (ioContexts_ c < nextIoContext_ c)%nat →
  (ioContexts_ c' < nextIoContext_ c')%nat ∧ (p = ToChoose → p' = OutOfRange).
Proof.
  intros Hp Hlt. destruct p; try done; injection Hp as <- <-; cbn.
  - by rewrite decide_False by lia.
  - split; [lia|done].
  - by rewrite decide_False by lia.
Qed.

(** *** Calls one after the other *)

Definition call_turns (t : nat) : list nat := [t; t; t].

Lemma context_call t i s : users s !! t = Some ToChoose → nextIoContext_ (users_contexts s) = i →
  (i < ioContexts_ (users_contexts s))%nat →
  runs_exec context_turn (call_turns t) s =
    Some (mkUsers (getIoContext (users_contexts s)).2 (<[t := Chosen i]> (users s))).
Proof.
  destruct s as [[n j] us]. cbn [users users_contexts ioContexts_ nextIoContext_]. intros Ht <- Hj.
  pose proof (lookup_lt_Some _ _ _ Ht) as Hlt. rewrite (getIoContext_ok n j Hj). cbn [snd].
  unfold call_turns. cbn [runs_exec].
  rewrite (context_turn_eq _ _ _ _ Ht). cbn [phase_turn mbind option_bind fst snd ioContexts_ nextIoContext_].
  rewrite decide_True by done.
  erewrite context_turn_eq by (by apply list_lookup_insert_eq).
  cbn [phase_turn mbind option_bind fst snd ioContexts_ nextIoContext_].
  erewrite context_turn_eq by (apply list_lookup_insert_eq; by rewrite length_insert).
  cbn [phase_turn mbind option_bind fst snd ioContexts_ nextIoContext_].
  rewrite !list_insert_insert_eq. f_equal. f_equal. case_decide as E.
  - by rewrite E, Nat.Div0.mod_same.
  - by rewrite Nat.mod_small by lia.
Qed.

(** The threads from [k] on have not called yet. *)
Definition not_called (k : nat) (s : ContextUsers) : Prop := ∀ t, (k ≤ t < length (users s))%nat → users s !! t = Some ToChoose.

(** [j] calls of as many threads, one after the other, get the contexts in turn. *)
Lemma contexts_in_turn n k j s : (0 < n)%nat → users_contexts s = mkContexts n (k mod n) → not_called k s →
  (k + j ≤ length (users s))%nat →
  ∃ s', runs_exec context_turn (flat_map call_turns (seq k j)) s = Some s' ∧
    users_contexts s' = mkContexts n ((k + j) mod n) ∧ not_called (k + j) s' ∧ length (users s') = length (users s) ∧
    (∀ t, (t < k)%nat → users s' !! t = users s !! t) ∧
    ∀ t, (k ≤ t < k + j)%nat → users s' !! t = Some (Chosen (t mod n)).
Proof.
  intros Hn. revert k s. induction j as [|j IH]; intros k s Hc Hu Hl.
  { exists s. rewrite Nat.add_0_r. cbn. split_and!; try done. intros t Ht. lia. }
  cbn [seq flat_map]. pose proof (context_call k (k mod n) s) as Hcall. rewrite Hc in Hcall.
  specialize (Hcall (Hu k ltac:(lia)) eq_refl (Nat.mod_upper_bound k n ltac:(lia))).
  rewrite (getIoContext_ok n _ (Nat.mod_upper_bound k n ltac:(lia))) in Hcall. cbn [snd] in Hcall.
  set (s1 := mkUsers _ _) in Hcall.
  assert (Hl1 : length (users s1) = length (users s)) by (apply length_insert).
  destruct (IH (S k) s1) as (s' & Hrun & Hc' & Hu' & Hl' & Hold & Hnew).
  - cbn. f_equal. change (S (k mod n)) with (1 + k mod n)%nat. by rewrite Nat.Div0.add_mod_idemp_r.
  - intros t Ht. cbn. rewrite list_lookup_insert_ne by lia. apply Hu. lia.
  - lia.
  - exists s'. replace (k + S j)%nat with (S k + j)%nat by lia. split_and!; try done.
    + apply runs_app. by exists s1.
    + by rewrite Hl', Hl1.
    + intros t Ht. rewrite Hold by lia. cbn. by rewrite list_lookup_insert_ne by lia.
    + intros t Ht. destruct (decide (t = k)) as [->|]; [|apply Hnew; lia]. rewrite Hold by lia. cbn.
      apply list_lookup_insert_eq. lia.
Qed.

(** A thread that is yet to call when the counter is beyond gets no context. *)
Definition never_chosen (k : nat) (s : ContextUsers) : Prop :=
  (ioContexts_ (users_contexts s) < nextIoContext_ (users_contexts s))%nat ∧
  ∀ t p, (k ≤ t)%nat → users s !! t = Some p → p = ToChoose ∨ p = OutOfRange.
Lemma never_chosen_step k t s s' : never_chosen k s → context_turn t s = Some s' → never_chosen k s'.
Proof.
  destruct s as [c us]. unfold never_chosen. cbn [users users_contexts]. intros [Hb Hk] Hs. unfold context_turn in Hs. cbn [users users_contexts] in Hs.
  destruct (us !! t) as [p|] eqn:Ep; [|done]. cbn [mbind option_bind] in Hs.
  destruct (phase_turn c p) as [[c' q]|] eqn:Eq; [|done]. injection Hs as <-. cbn [users users_contexts fst snd].
  destruct (phase_turn_beyond _ _ _ _ Eq Hb) as [Hb' Hq]. split; [done|]. intros t' p' Ht' Hp'.
  destruct (decide (t' = t)) as [->|Hne].
  - rewrite list_lookup_insert_eq in Hp' by (by eapply lookup_lt_Some). injection Hp' as <-. right.
    destruct (Hk t p Ht' Ep) as [-> | ->]; [by apply Hq|done].
  - rewrite list_lookup_insert_ne in Hp' by done. by apply (Hk t').
Qed.

(** Two threads that increment the counter before either compares it. *)
Definition race_turns (t : nat) : list nat := [t; S t; t; S t; t; S t].

(** Two neighbours, and what each does next. *)
Definition neighbours (t : nat) (x y : context_phase) (us : list context_phase) : list context_phase :=
  <[S t := y]> (<[t := x]> us).
Lemma first_turn t x y us c : (S t < length us)%nat →
  context_turn t (mkUsers c (neighbours t x y us)) = r ← phase_turn c x; Some (mkUsers r.1 (neighbours t r.2 y us)).
Proof.
  intros Hl. unfold neighbours. erewrite context_turn_eq; cycle 1.
  { rewrite list_lookup_insert_ne by lia. apply list_lookup_insert_eq. lia. }
  destruct (phase_turn c x) as [r|]; [|done]. cbn [mbind option_bind].
  by rewrite list_insert_insert_ne, list_insert_insert_eq by lia.
Qed.
Lemma second_turn t x y us c : (S t < length us)%nat →
  context_turn (S t) (mkUsers c (neighbours t x y us)) = r ← phase_turn c y; Some (mkUsers r.1 (neighbours t x r.2 us)).
Proof.
  intros Hl. unfold neighbours. erewrite context_turn_eq; cycle 1.
  { apply list_lookup_insert_eq. rewrite length_insert. lia. }
  destruct (phase_turn c y) as [r|]; [|done]. cbn [mbind option_bind]. by rewrite list_insert_insert_eq.
Qed.

Lemma context_race n t s : users_contexts s = mkContexts n (n - 1) → (0 < n)%nat → not_called t s →
  (S t < length (users s))%nat →
  ∃ s', runs_exec context_turn (race_turns t) s = Some s' ∧ users s' !! t = Some (Chosen (n - 1)) ∧
    users s' !! S t = Some (Chosen (n - 1)) ∧ never_chosen (S (S t)) s'.
Proof.
  destruct s as [c us]. cbn [users users_contexts]. intros -> Hn Hu Hl.
  assert (Eus : us = neighbours t ToChoose ToChoose us).
  { unfold neighbours. rewrite (list_insert_id _ t), list_insert_id; [done|apply Hu; cbn; lia..]. }
  exists (mkUsers (mkContexts n (S n)) (neighbours t (Chosen (n - 1)) (Chosen (n - 1)) us)). split_and!.
  - rewrite Eus at 1. unfold race_turns. cbn [runs_exec].
    repeat (rewrite ?first_turn, ?second_turn by done; cbn [phase_turn mbind option_bind fst snd ioContexts_ nextIoContext_];
            try rewrite decide_True by lia).
    rewrite !(decide_False (P := S (S (n - 1)) = n)) by lia. cbn. by replace (S (n - 1)) with n by lia.
  - unfold neighbours. cbn. rewrite list_lookup_insert_ne by lia. apply list_lookup_insert_eq. lia.
  - cbn. apply list_lookup_insert_eq. rewrite length_insert. lia.
  - split; [cbn; lia|]. cbn. unfold neighbours. intros t' p Ht' Hp. rewrite !list_lookup_insert_ne in Hp by lia.
    left. pose proof (lookup_lt_Some _ _ _ Hp). pose proof (Hu t' ltac:(cbn; lia)) as Hu'. cbn in Hu'. congruence.
Qed.

(** ** The first states *)

Lemma newTask_repeats latency now delay interval : 0 ≤ latency → 0 ≤ delay →
  repeating_task latency (now + delay) interval (now, scheduleTimedTask now delay interval).
Proof. intros Hl Hd. split; cbn; try done; [by left|constructor|lia]. Qed.
Lemma newTask_single latency now delay : 0 ≤ latency → 0 ≤ delay →
  single_task latency (now + delay) (now, scheduleTimedTask now delay 0).
Proof. intros Hl Hd. split; cbn; try done. left. split_and!; try done; [by left|lia]. Qed.
