(* ===== verification/SessionManager.v ===== *)
(** * The managers of sessions

    Models [CachedSessionManager] with its [SessionPool] ([src/include/sne/base/session/
    manager/], [src/src/base/session/CachedSessionManager.cpp]) over the pool of
    [MemoryPool.v], the acceptors and connectors that take sessions from it
    ([src/src/base/io_context/IoContextAcceptor.cpp] and [IoContextConnector.cpp]), and
    [ServerSideSessionManager] ([src/src/server/session/ServerSideSessionManager.cpp]).
    The sessions are those of [TcpSession.v], by their addresses; a session that was
    never used is as its constructor leaves it.

    The steps of the machine are the handlers of the acceptors and connectors, those of
    the sessions, and the calls of the server; the [io_context]s of the sessions run in
    threads of their own, so that the order of the steps is any. *)

From S2P Require Import Prelude MemoryPool StreamBuffer MemoryBlock Packet Marshaller BandwidthLimit TcpSession.

#[global] Instance call_eq_dec : EqDecision call.
Proof. solve_decision. Defined.

(** ** [CachedSessionManager] *)

(** The calls of [SessionManagerCallback]. *)
Inductive manager_call := SessionAcquired (count : nat) | SessionReleased (count : nat).

Record CachedSessionManager := mkSessionManager {
  sessionPool_ : MemoryPool;
  manager_calls : list manager_call;
}.

Definition getActiveSessionCount (m : CachedSessionManager) : nat := getActiveResourceCount (sessionPool_ m).
Definition getInactiveSessionCount (m : CachedSessionManager) : nat := getInactiveResourceCount (sessionPool_ m).
Definition isSafeToDelete (m : CachedSessionManager) : bool := bool_decide (getActiveSessionCount m = 0%nat).
Definition getTotalSessionCount (m : CachedSessionManager) : nat := (getActiveSessionCount m + getInactiveSessionCount m)%nat.

(** ** The acceptors and the connectors *)

(** A session that [async_accept] or [async_connect] was called with, and whether its
    socket was open already, which is an error. *)
Record wait_op := mkWaitOp { wo_session : Z; wo_open : bool }.

(** [asioAcceptors_], each with its [async_accept] in progress. *)
Record IoContextAcceptor := mkAcceptor { asioAcceptors_ : list (option wait_op); ac_shouldFinish_ : bool }.
Record IoContextConnector := mkConnector {
  connectionCount_ : nat;
  connectionIndex : nat;                  (* of the [async_connect] in progress *)
  co_wait : option wait_op;
  co_shouldFinish_ : bool;
}.

Definition waits_of (l : list (option wait_op)) : list Z := wo_session <$> omap id l.

(** How an [async_accept] or an [async_connect] ends. *)
Inductive outcome :=
| Succeeds
| Fails (aborted left_open : bool).       (* after a failure the socket may be left open *)

Section manager.
Context {M A : Type} `{Marshaller M}.
Context (react : call → A → bool * list request * A).
(** [SessionFactory::create]: the address of a new session. *)
Context (malloc : list Z → Z).
Context (capacity : SessionCapacity) (m0 : M) (a0 : A).

#[local] Abbreviation session := (state M A).

(** [CachedSessionManager::CachedSessionManager] with [initialize]. *)
Definition newSessionManager (poolSize : nat) : CachedSessionManager :=
  mkSessionManager (initialize malloc (newPool poolSize true)) [].

Definition manager_acquire : st CachedSessionManager (option Z) := λ m,
  match acquire malloc (sessionPool_ m) with
  | (Ok None, p) => (Ok None, mkSessionManager p (manager_calls m))
  | (Ok (Some a), p) =>
      (Ok (Some a), mkSessionManager p (manager_calls m ++ [SessionAcquired (getActiveResourceCount p)]))
  | (Throw e, p) => (Throw e, mkSessionManager p (manager_calls m))
  end.
Definition manager_release (a : Z) (m : CachedSessionManager) : CachedSessionManager :=
  let p := release a (sessionPool_ m) in
  mkSessionManager p (manager_calls m ++ [SessionReleased (getActiveResourceCount p)]).

(** ** The server *)

Record SessionServer := mkServer {
  sv_manager : CachedSessionManager;
  sv_sessions : gmap Z session;
  sv_acceptors : list IoContextAcceptor;  (* [sessionAcceptors_] *)
  sv_connectors : list IoContextConnector;
}.

Definition session_at (a : Z) (v : SessionServer) : session := default (newSession capacity m0 a0) (sv_sessions v !! a).
Definition on_manager (f : CachedSessionManager → CachedSessionManager) (v : SessionServer) : SessionServer :=
  mkServer (f (sv_manager v)) (sv_sessions v) (sv_acceptors v) (sv_connectors v).
Definition set_session (a : Z) (s : session) (v : SessionServer) : SessionServer :=
  mkServer (sv_manager v) (<[a := s]> (sv_sessions v)) (sv_acceptors v) (sv_connectors v).
Definition on_session (a : Z) (f : session → session) (v : SessionServer) : SessionServer :=
  set_session a (f (session_at a v)) v.
Definition set_acceptors (l : list IoContextAcceptor) (v : SessionServer) : SessionServer :=
  mkServer (sv_manager v) (sv_sessions v) l (sv_connectors v).
Definition set_connectors (l : list IoContextConnector) (v : SessionServer) : SessionServer :=
  mkServer (sv_manager v) (sv_sessions v) (sv_acceptors v) l.

(** [acquire] for an acceptor or a connector, which asserts that there is a session. *)
Definition acquire_session (v : SessionServer) : option (wait_op * SessionServer) :=
  match manager_acquire (sv_manager v) with
  | (Ok (Some a), m) =>
      Some (mkWaitOp a (isConnected (ses (session_at a v))), on_manager (λ _, m) v)
  | _ => None
  end.

Definition set_wait (j : nat) (w : option wait_op) (c : IoContextAcceptor) : IoContextAcceptor :=
  mkAcceptor (<[j := w]> (asioAcceptors_ c)) (ac_shouldFinish_ c).
Definition on_acceptor (i : nat) (f : IoContextAcceptor → IoContextAcceptor) (v : SessionServer) : SessionServer :=
  set_acceptors (alter f i (sv_acceptors v)) v.
Definition on_connector (k : nat) (f : IoContextConnector → IoContextConnector) (v : SessionServer) : SessionServer :=
  set_connectors (alter f k (sv_connectors v)) v.

(** [IoContextAcceptor::accept] *)
Definition accept (i j : nat) (v : SessionServer) : option SessionServer :=
  '(w, v) ← acquire_session v; Some (on_acceptor i (set_wait j (Some w)) v).
(** [IoContextAcceptor::open], of acceptor [i] with so many endpoints: it accepts with
    each. *)
Fixpoint accept_all (i j n : nat) (v : SessionServer) : option SessionServer :=
  match n with O => Some v | S n => v ← accept i j v; accept_all i (S j) n v end.

(** A connection that is made: the socket is open, and the session is told. *)
Definition session_initialize (s : session) : session :=
  sessionOpened react (on_ses (set_socket true) (on_wld new_connection s)).
Definition socket_opened (s : session) : session := on_ses (set_socket true) s.

(** The handler of [async_accept]. *)
Definition handle_accept (i j : nat) (w : wait_op) (finish : bool) (ended : outcome) (validated : bool) (v : SessionServer)
  : option SessionServer :=
  let a := wo_session w in
  let v := on_acceptor i (set_wait j None) v in
  let '(isSucceeded, v) :=
    match ended with
    | Succeeds =>
        if finish then (false, on_session a socket_opened v)
        else if validated then (true, on_session a session_initialize v)
        else (false, on_session a (λ s, disconnect (socket_opened s)) v)
    | Fails _ left_open => (false, if left_open then on_session a socket_opened v else v)
    end in
  let v := if isSucceeded : bool then v else on_manager (manager_release a) v in
  if finish then Some v else accept i j v.

(** [IoContextConnector::connect] and the handler of [async_connect]. *)
Definition connect (k index : nat) (v : SessionServer) : option SessionServer :=
  '(w, v) ← acquire_session v;
  Some (on_connector k (λ c, mkConnector (connectionCount_ c) index (Some w) (co_shouldFinish_ c)) v).
Definition handle_connect (k : nat) (c : IoContextConnector) (w : wait_op) (ended : outcome) (v : SessionServer)
  : option SessionServer :=
  let a := wo_session w in
  let v := on_connector k (λ c, mkConnector (connectionCount_ c) (connectionIndex c) None (co_shouldFinish_ c)) v in
  let '(isSucceeded, v) :=
    match ended with
    | Succeeds =>
        if co_shouldFinish_ c then (false, on_session a socket_opened v)
        else (true, on_session a session_initialize v)
    | Fails aborted left_open =>
        let v := if left_open : bool then on_session a socket_opened v else v in
        (false, if aborted : bool then v else on_session a disconnect v)
    end in
  let v := if isSucceeded : bool then v else on_manager (manager_release a) v in
  if negb (co_shouldFinish_ c) && bool_decide (S (connectionIndex c) < connectionCount_ c)%nat
  then connect k (S (connectionIndex c)) v else Some v.

(** [Session::onRelease] gives the session back to the manager. *)
Definition released_by (s s' : session) : bool :=
  bool_decide (OnRelease ∈ drop (length (calls (wld s))) (calls (wld s'))).

(** *** The events *)

Inductive server_event :=
| StartAcceptors (opens : list (option nat))    (* [startSessionAcceptor]: of each address, its endpoints, or a failure *)
| StopAcceptors                                 (* [stopSessionAcceptor] *)
| AcceptEnds (i j : nat) (ended : outcome) (validated : bool)
| OpenConnector (connectionCount : nat)
| CloseConnector (k : nat)
| ConnectEnds (k : nat) (ended : outcome)
| CancelSessions                                (* [CachedSessionManager::cancel] *)
| SessionRuns (a : Z) (e : event).              (* a handler of a session *)

(** [startSessionAcceptor] stops at the first address that fails. *)
Fixpoint start_acceptors (opens : list (option nat)) (v : SessionServer) : option SessionServer :=
  match opens with
  | Some (S n) :: opens =>
      let i := length (sv_acceptors v) in
      v ← accept_all i 0 (S n) (set_acceptors (sv_acceptors v ++ [mkAcceptor (replicate (S n) None) false]) v);
      start_acceptors opens v
  | _ => Some v
  end.

Definition close_acceptor (c : IoContextAcceptor) : IoContextAcceptor := mkAcceptor (asioAcceptors_ c) true.
Definition close_connector (c : IoContextConnector) : IoContextConnector :=
  mkConnector (connectionCount_ c) (connectionIndex c) (co_wait c) true.

(** Every active session is asked to disconnect. *)
Definition cancel_sessions (v : SessionServer) : SessionServer :=
  fold_left (λ v a, on_session a disconnect v) (activeResources_ (sessionPool_ (sv_manager v))) v.

(** A socket that was open already is refused. *)
Definition may_end (w : wait_op) (ended : outcome) : bool :=
  match ended with Succeeds => negb (wo_open w) | Fails _ _ => true end.

Definition run_session (a : Z) (e : event) (v : SessionServer) : option SessionServer :=
  match e with
  | EvOpen => None                              (* only acceptors and connectors open *)
  | _ =>
      s ← exec react e (session_at a v);
      let released := released_by (session_at a v) s in
      Some ((if released then on_manager (manager_release a) else id) (set_session a s v))
  end.

Definition server_exec (e : server_event) (v : SessionServer) : option SessionServer :=
  match e with
  | StartAcceptors opens => if bool_decide (sv_acceptors v = []) then start_acceptors opens v else None
  | StopAcceptors => Some (set_acceptors (close_acceptor <$> sv_acceptors v) v)
  | AcceptEnds i j ended validated =>
      c ← sv_acceptors v !! i; w ← asioAcceptors_ c !! j ≫= id;
      if may_end w ended then handle_accept i j w (ac_shouldFinish_ c) ended validated v else None
  | OpenConnector n =>
      if bool_decide (0 < n)%nat then
        connect (length (sv_connectors v)) 0 (set_connectors (sv_connectors v ++ [mkConnector n 0 None false]) v)
      else None
  | CloseConnector k => _ ← sv_connectors v !! k; Some (on_connector k close_connector v)
  | ConnectEnds k ended =>
      c ← sv_connectors v !! k; w ← co_wait c;
      if may_end w ended then handle_connect k c w ended v else None
  | CancelSessions => Some (cancel_sessions v)
  | SessionRuns a e => run_session a e v
  end.

Definition newServer (poolSize : nat) : SessionServer := mkServer (newSessionManager poolSize) ∅ [] [].

(** The sessions that acceptors and connectors wait with. *)
Definition waiting (v : SessionServer) : list Z :=
  (c ← sv_acceptors v; waits_of (asioAcceptors_ c)) ++ (c ← sv_connectors v; waits_of [co_wait c]).
Definition connected (v : SessionServer) (a : Z) : Prop := isConnected (ses (session_at a v)) = true.
End manager.
