(* ===== verification/SessionManagerSpec.v ===== *)
(** * What a manager of sessions keeps

    The invariant of the machine of [SessionManager.v]: the active sessions of the pool
    are those that are connected and those an acceptor or a connector waits with, each
    once.  It holds as long as every connection that is made is kept: none is blocked by
    the validator, made after the acceptor was closed, or left open by a failure. *)

From S2P Require Import Prelude Monitors MemoryPool StreamBuffer MemoryBlock Packet Marshaller BandwidthLimit TcpSession TcpSessionSpec SessionManager.

(** ** The waits as a list *)

Lemma waits_insert l j x y : l !! j = Some x → waits_of [y] ++ waits_of l ≡ₚ waits_of [x] ++ waits_of (<[j := y]> l).
Proof.
  revert j. induction l as [|z l IH]; intros [|j] Hj; cbn in Hj; [done|done|..].
  - injection Hj as ->. unfold waits_of. cbn. destruct x, y; cbn; solve_Permutation.
  - specialize (IH j Hj). change (<[S j := y]> (z :: l)) with (z :: <[j := y]> l).
    assert (Hc : ∀ l, waits_of (z :: l) = waits_of [z] ++ waits_of l) by (intros; unfold waits_of; cbn; by destruct z).
    rewrite (Hc l), (Hc (<[j := y]> l)).
    transitivity (waits_of [z] ++ (waits_of [y] ++ waits_of l)); [solve_Permutation|]. rewrite IH. solve_Permutation.
Qed.

Lemma bind_alter {X} (f : X → list Z) g i l c : l !! i = Some c →
  f (g c) ++ (x ← l; f x) ≡ₚ f c ++ (x ← alter g i l; f x).
Proof.
  revert i. induction l as [|z l IH]; intros [|i] Hi; cbn in Hi; [done|done|..].
  - injection Hi as ->. cbn. solve_Permutation.
  - specialize (IH i Hi). cbn. transitivity (f z ++ (f (g c) ++ (x ← l; f x))); [solve_Permutation|]. rewrite IH. solve_Permutation.
Qed.

Section spec.
Context {M A : Type} `{MarshallerSpec M}.
Context (react : call → A → bool * list request * A).
Context (malloc : list Z → Z) (malloc_fresh : ∀ l, malloc l ∉ l).
Context (capacity : SessionCapacity) (m0 : M) (a0 : A).

#[local] Abbreviation server := (SessionServer (M := M) (A := A)).
#[local] Abbreviation session_at := (session_at capacity m0 a0).
#[local] Abbreviation connected := (connected capacity m0 a0).
#[local] Abbreviation on_session := (on_session capacity m0 a0).
#[local] Abbreviation accept := (accept malloc capacity m0 a0).
#[local] Abbreviation server_exec := (server_exec react malloc capacity m0 a0).

#[local] Abbreviation active v := (activeResources_ (sessionPool_ (sv_manager v))).

(** An acceptor's slot. *)
Definition slot (i j : nat) (v : server) : option (option wait_op) := c ← sv_acceptors v !! i; asioAcceptors_ c !! j.

Lemma waiting_set_wait i j x y (v : server) : slot i j v = Some x →
  waits_of [y] ++ waiting v ≡ₚ waits_of [x] ++ waiting (on_acceptor i (set_wait j y) v).
Proof.
  unfold slot. destruct (sv_acceptors v !! i) as [c|] eqn:Ec; [|done]. cbn. intros Hj.
  pose proof (waits_insert _ _ _ y Hj) as Hw.
  pose proof (bind_alter (λ c, waits_of (asioAcceptors_ c)) (set_wait j y) i _ c Ec) as Hb. cbn [set_wait asioAcceptors_] in Hb.
  unfold waiting. cbn [on_acceptor set_acceptors sv_acceptors sv_connectors]. rewrite !app_assoc. apply Permutation_app_tail.
  apply (Permutation_app_inv_l (waits_of (asioAcceptors_ c))).
  transitivity (waits_of [y] ++ waits_of (asioAcceptors_ c) ++ (x ← sv_acceptors v; waits_of (asioAcceptors_ x))); [solve_Permutation|].
  rewrite (app_assoc (waits_of [y])), Hw, <- app_assoc, Hb. solve_Permutation.
Qed.
Lemma slot_set_wait i j x y v : slot i j v = Some x → slot i j (on_acceptor i (set_wait j y) v) = Some y.
Proof.
  unfold slot. destruct (sv_acceptors v !! i) as [c|] eqn:Ec; [|done]. cbn. intros Hj.
  rewrite list_lookup_alter_eq, Ec. cbn. apply list_lookup_insert_eq. by eapply lookup_lt_Some.
Qed.

Lemma waiting_on_connector k (f : IoContextConnector → IoContextConnector) c (v : server) : sv_connectors v !! k = Some c →
  waits_of [co_wait (f c)] ++ waiting v ≡ₚ waits_of [co_wait c] ++ waiting (on_connector k f v).
Proof.
  intros Hk. pose proof (bind_alter (λ c, waits_of [co_wait c]) f k _ c Hk) as Hb. unfold waiting.
  cbn [on_connector set_connectors sv_acceptors sv_connectors].
  rewrite (app_assoc (waits_of [co_wait (f c)])), (Permutation_app_comm (waits_of [co_wait (f c)])), <- app_assoc, Hb. solve_Permutation.
Qed.

(** ** The invariant *)

Definition server_inv (n : nat) (v : server) : Prop :=
  pool_of n true (sessionPool_ (sv_manager v)) ∧
  ∃ l, active v ≡ₚ waiting v ++ l ∧ ∀ a, connected v a ↔ a ∈ l.

Lemma server_inv_nodup n v l : server_inv n v → active v ≡ₚ waiting v ++ l → NoDup (waiting v ++ l).
Proof.
  intros [Hp _] Hl. rewrite <- Hl. pose proof (pool_inv_nodup _ (po_inv _ _ _ Hp)) as Hnd. by apply NoDup_app in Hnd as [? _].
Qed.

Lemma connected_session a f (v : server) b : connected (on_session a f v) b ↔
  if decide (b = a) then isConnected (ses (f (session_at a v))) = true else connected v b.
Proof.
  unfold SessionManager.connected, SessionManager.on_session, SessionManager.session_at. cbn [set_session sv_sessions].
  case_decide as Hb.
  - by rewrite Hb, lookup_insert_eq.
  - by rewrite lookup_insert_ne by congruence.
Qed.

(** A session is acquired, and waited with. *)
Lemma acquire_session_inv n v : server_inv n v →
  ∃ w v', acquire_session malloc capacity m0 a0 v = Some (w, v') ∧ wo_open w = false ∧
    sv_sessions v' = sv_sessions v ∧ sv_acceptors v' = sv_acceptors v ∧ sv_connectors v' = sv_connectors v ∧
    ∀ v'', sv_manager v'' = sv_manager v' → sv_sessions v'' = sv_sessions v → waiting v'' ≡ₚ wo_session w :: waiting v →
      server_inv n v''.
Proof.
  intros [Hp (l & Hl & Hc)]. destruct (acquire_growable malloc malloc_fresh _ (po_inv _ _ _ Hp) (po_growable _ _ _ Hp)) as (a & p & Ha).
  unfold acquire_session, manager_acquire. rewrite Ha. do 2 eexists. split; [done|].
  destruct (acquire_some malloc malloc_fresh _ _ _ (po_inv _ _ _ Hp) Ha) as (_ & Hna & Hact & _).
  assert (Hnc : ¬ connected v a).
  { intros Hca%Hc. apply Hna. rewrite Hl. apply elem_of_app. by right. }
  split_and!; try done.
  - unfold SessionManager.connected in Hnc. cbn. by destruct (isConnected _).
  - intros v'' Hm Hs Hw. split.
    + rewrite Hm. cbn. eapply pool_of_step; [exact malloc_fresh|exact Hp|]. by econstructor.
    + exists l. split; [|by unfold SessionManager.connected, SessionManager.session_at in *; rewrite Hs].
      rewrite Hm, Hw. cbn. rewrite Hact, Hl. done.
Qed.

Lemma accept_inv n i j v : server_inv n v → slot i j v = Some None →
  ∃ v', accept i j v = Some v' ∧ server_inv n v' ∧
    length (sv_acceptors v') = length (sv_acceptors v) ∧ (∀ j', j' ≠ j → slot i j' v' = slot i j' v).
Proof.
  intros Hi Hs. destruct (acquire_session_inv n v Hi) as (w & v1 & Ha & _ & Hses & Hac & Hco & Hv).
  unfold SessionManager.accept. rewrite Ha. cbn [mbind option_bind]. eexists. split; [done|].
  assert (Hs1 : slot i j v1 = Some None) by (unfold slot in *; by rewrite Hac).
  split_and!.
  - apply Hv; [done|done|]. pose proof (waiting_set_wait i j None (Some w) v1 Hs1) as Hw. cbn in Hw. rewrite <- Hw.
    unfold waiting. by rewrite Hac, Hco.
  - cbn. by rewrite length_alter, Hac.
  - intros j' Hj. unfold slot. cbn. rewrite Hac. destruct (sv_acceptors v !! i) as [c|] eqn:Ec.
    + rewrite list_lookup_alter_eq, Ec. cbn. by rewrite list_lookup_insert_ne.
    + by rewrite list_lookup_alter_eq, Ec.
Qed.

(** While the handler of a wait runs: its session is active, and nobody waits with it. *)
Definition handling (n : nat) (a : Z) (v : server) : Prop :=
  pool_of n true (sessionPool_ (sv_manager v)) ∧
  ∃ l, active v ≡ₚ a :: waiting v ++ l ∧ ∀ b, connected v b ↔ b ∈ l.

Lemma handling_nodup n a v l : handling n a v → active v ≡ₚ a :: waiting v ++ l → a ∉ l.
Proof.
  intros [Hp _] Hl Ha. pose proof (pool_inv_nodup _ (po_inv _ _ _ Hp)) as Hnd.
  apply NoDup_app in Hnd as [Hnd _]. rewrite Hl in Hnd. apply NoDup_cons in Hnd as [Hn _]. apply Hn, elem_of_app. by right.
Qed.

Lemma handling_accept n i j w v : server_inv n v → slot i j v = Some (Some w) →
  handling n (wo_session w) (on_acceptor i (set_wait j None) v).
Proof.
  intros [Hp (l & Hl & Hc)] Hs. split; [done|]. exists l. split; [|done].
  pose proof (waiting_set_wait i j (Some w) None v Hs) as Hw. cbn in Hw. cbn [on_acceptor set_acceptors sv_manager]. by rewrite Hl, Hw.
Qed.
Lemma handling_connect n k c w index v : server_inv n v → sv_connectors v !! k = Some c → co_wait c = Some w →
  handling n (wo_session w) (on_connector k (λ c, mkConnector (connectionCount_ c) (index c) None (co_shouldFinish_ c)) v).
Proof.
  intros [Hp (l & Hl & Hc)] Hk Hw. split; [done|]. exists l. split; [|done].
  pose proof (waiting_on_connector k (λ c, mkConnector (connectionCount_ c) (index c) None (co_shouldFinish_ c)) c v Hk) as Hw'.
  rewrite Hw in Hw'. cbn in Hw'. cbn [on_connector set_connectors sv_manager]. by rewrite Hl, Hw'.
Qed.

Lemma pool_released n a p : pool_of n true p → pool_of n true (release a p).
Proof. intros Hp. eapply pool_of_step; [exact malloc_fresh|exact Hp|apply step_release]. Qed.

Lemma handling_released n a v : handling n a v → server_inv n (on_manager (manager_release a) v).
Proof.
  intros [Hp (l & Hl & Hc)]. split; [cbn; by apply pool_released|]. exists l. split; [|done].
  assert (Ha : a ∈ active v) by (rewrite Hl; apply elem_of_cons; by left).
  destruct (release_active _ a (po_inv _ _ _ Hp) Ha) as (_ & Hr & _). cbn.
  apply (Permutation_cons_inv (a := a)). by rewrite Hr, Hl.
Qed.
Lemma handling_opened n a f v : handling n a v → isConnected (ses (f (session_at a v))) = true → server_inv n (on_session a f v).
Proof.
  intros Hh Hf. pose proof Hh as [Hp (l & Hl & Hc)]. split; [done|]. exists (a :: l). split.
  - cbn. rewrite Hl. change (waiting (on_session a f v)) with (waiting v). solve_Permutation.
  - intros b. rewrite connected_session, elem_of_cons. case_decide as Hb; [tauto|]. rewrite Hc. tauto.
Qed.
Lemma handling_same n a b f v : handling n a v → (∀ s, isConnected (ses (f s)) = isConnected (ses s)) → handling n a (on_session b f v).
Proof.
  intros [Hp (l & Hl & Hc)] Hf. split; [done|]. exists l. split; [done|]. intros b'. rewrite connected_session, Hf.
  case_decide as Hb; [|done]. rewrite Hb. apply Hc.
Qed.
Lemma inv_same n b f v : server_inv n v → isConnected (ses (f (session_at b v))) = isConnected (ses (session_at b v)) → server_inv n (on_session b f v).
Proof.
  intros [Hp (l & Hl & Hc)] Hf. split; [done|]. exists l. split; [done|]. intros b'. rewrite connected_session, Hf.
  case_decide as Hb; [|done]. rewrite Hb. apply Hc.
Qed.
Lemma session_initialize_connected s : isConnected (ses (session_initialize react s)) = true.
Proof. unfold session_initialize, isConnected. by destruct (life_opened react (on_ses (set_socket true) (on_wld new_connection s))) as [-> _]. Qed.

(** ** Orderly events *)

(** Every connection that is made is kept. *)
Definition orderly (v : server) (e : server_event) : bool :=
  match e with
  | AcceptEnds i _ Succeeds validated =>
      validated && match sv_acceptors v !! i with Some c => negb (ac_shouldFinish_ c) | None => true end
  | ConnectEnds k Succeeds =>
      match sv_connectors v !! k with Some c => negb (co_shouldFinish_ c) | None => true end
  | AcceptEnds _ _ (Fails _ left_open) _ | ConnectEnds _ (Fails _ left_open) => negb left_open
  | _ => true
  end.
Definition orderly_exec (e : server_event) (v : server) : option server :=
  if orderly v e then server_exec e v else None.

(** A handler of an acceptor always has a session for the next connection. *)
Lemma handle_accept_inv n i j c w ended validated v : server_inv n v → sv_acceptors v !! i = Some c →
  asioAcceptors_ c !! j = Some (Some w) → orderly v (AcceptEnds i j ended validated) = true →
  ∃ v', handle_accept react malloc capacity m0 a0 i j w (ac_shouldFinish_ c) ended validated v = Some v' ∧ server_inv n v'.
Proof.
  intros Hi Hc Hw Ho. assert (Hs : slot i j v = Some (Some w)) by (unfold slot; by rewrite Hc).
  pose proof (handling_accept n i j w v Hi Hs) as Hh. pose proof (slot_set_wait i j _ None v Hs) as Hs'.
  cbn in Ho. rewrite Hc in Ho. unfold handle_accept. set (v1 := on_acceptor i (set_wait j None) v) in *.
  assert (Hrest : ∀ v2, server_inv n v2 → sv_acceptors v2 = sv_acceptors v1 → ∃ v',
    (if ac_shouldFinish_ c then Some v2 else accept i j v2) = Some v' ∧ server_inv n v').
  { intros v2 Hv2 Hac. destruct (ac_shouldFinish_ c); [by exists v2|].
    destruct (accept_inv n i j v2 Hv2) as (v' & Ha & Hv' & _); [unfold slot in *; by rewrite Hac|]. by exists v'. }
  destruct ended as [|aborted left_open].
  - apply andb_true_iff in Ho as [-> Hf%negb_true_iff]. rewrite Hf in Hrest |- *.
    apply Hrest; [|done]. apply handling_opened; [done|apply session_initialize_connected].
  - apply negb_true_iff in Ho as ->. apply Hrest; [|done]. by apply handling_released.
Qed.

Lemma connector_inv n k c index v : server_inv n v → sv_connectors v !! k = Some c → co_wait c = None →
  ∃ v', connect malloc capacity m0 a0 k index v = Some v' ∧ server_inv n v'.
Proof.
  intros Hi Hk Hw. destruct (acquire_session_inv n v Hi) as (w & v1 & Ha & _ & Hses & Hac & Hco & Hv).
  unfold connect. rewrite Ha. cbn [mbind option_bind]. eexists. split; [done|]. apply Hv; [done|done|].
  set (f := λ c, mkConnector _ _ _ _). pose proof (waiting_on_connector k f c v1) as Hwt. rewrite Hw, Hco in Hwt.
  specialize (Hwt Hk). cbn in Hwt. rewrite <- Hwt. unfold waiting. by rewrite Hac, Hco.
Qed.
Lemma handle_connect_inv n k c w ended v : server_inv n v → sv_connectors v !! k = Some c → co_wait c = Some w →
  orderly v (ConnectEnds k ended) = true →
  ∃ v', handle_connect react malloc capacity m0 a0 k c w ended v = Some v' ∧ server_inv n v'.
Proof.
  intros Hi Hk Hw Ho. pose proof (handling_connect n k c w connectionIndex v Hi Hk Hw) as Hh.
  cbn in Ho. rewrite Hk in Ho. unfold handle_connect. set (v1 := on_connector k _ v) in *.
  assert (Hrest : ∀ v2, server_inv n v2 → sv_connectors v2 = sv_connectors v1 → ∃ v',
    (if negb (co_shouldFinish_ c) && bool_decide (S (connectionIndex c) < connectionCount_ c)%nat
     then connect malloc capacity m0 a0 k (S (connectionIndex c)) v2 else Some v2) = Some v' ∧ server_inv n v').
  { intros v2 Hv2 Hco. destruct (_ && _); [|by exists v2].
    eapply connector_inv; [done| |]; [rewrite Hco; cbn; by rewrite list_lookup_alter_eq, Hk|done]. }
  destruct ended as [|aborted left_open].
  - apply negb_true_iff in Ho. rewrite Ho in Hrest |- *.
    apply Hrest; [|done]. apply handling_opened; [done|apply session_initialize_connected].
  - apply negb_true_iff in Ho as ->. apply Hrest; [|by destruct aborted]. apply handling_released.
    destruct aborted; [done|]. by apply handling_same.
Qed.

(** ** The other events *)

Lemma accept_all_inv n i j k v : server_inv n v → (∀ j', (j ≤ j' < j + k)%nat → slot i j' v = Some None) →
  ∃ v', accept_all malloc capacity m0 a0 i j k v = Some v' ∧ server_inv n v' ∧ length (sv_acceptors v') = length (sv_acceptors v).
Proof.
  revert j v. induction k as [|k IH]; intros j v Hi Hs; cbn [accept_all]; [by exists v|].
  destruct (accept_inv n i j v Hi) as (v1 & -> & Hi1 & Hl1 & Hs1); [apply Hs; lia|]. cbn [mbind option_bind].
  destruct (IH (S j) v1 Hi1) as (v' & Ha & Hi' & Hl'); [|exists v'; by rewrite <- Hl1].
  intros j' Hj'. rewrite Hs1 by lia. apply Hs. lia.
Qed.

Lemma waits_of_none k : waits_of (replicate k None) = [].
Proof. unfold waits_of. by induction k. Qed.

Lemma start_acceptors_inv n opens v : server_inv n v →
  ∃ v', start_acceptors malloc capacity m0 a0 opens v = Some v' ∧ server_inv n v'.
Proof.
  revert v. induction opens as [|[[|k]|] opens IH]; intros v Hi; cbn [start_acceptors]; try by exists v.
  set (v1 := set_acceptors _ v).
  assert (Hi1 : server_inv n v1).
  { destruct Hi as [Hp (l & Hl & Hc)]. split; [done|]. exists l. split; [|done]. cbn [v1 set_acceptors sv_manager].
    assert (Hn : (c ← [mkAcceptor (replicate (S k) None) false]; waits_of (asioAcceptors_ c)) = []).
    { change (waits_of (replicate (S k) None) ++ [] = []). by rewrite waits_of_none. }
    rewrite Hl. unfold waiting, v1. cbn [set_acceptors sv_acceptors sv_connectors]. by rewrite bind_app, Hn, app_nil_r. }
  destruct (accept_all_inv n (length (sv_acceptors v)) 0 (S k) v1 Hi1) as (v2 & -> & Hi2 & _).
  - intros j Hj. unfold slot. cbn. rewrite lookup_app_r, Nat.sub_diag by lia. cbn.
    change (None :: replicate k None) with (replicate (S k) (@None wait_op)). apply lookup_replicate_2. lia.
  - cbn [mbind option_bind]. by apply IH.
Qed.

Lemma cancel_sessions_inv n v : server_inv n v → server_inv n (cancel_sessions capacity m0 a0 v).
Proof.
  unfold cancel_sessions. generalize (active v). intros l. revert v.
  induction l as [|a l IH]; intros v Hi; cbn; [done|]. apply IH. by apply inv_same.
Qed.

Lemma waiting_eq (v v' : server) :
  ((λ c, asioAcceptors_ c) <$> sv_acceptors v') = ((λ c, asioAcceptors_ c) <$> sv_acceptors v) →
  (co_wait <$> sv_connectors v') = (co_wait <$> sv_connectors v) → waiting v' = waiting v.
Proof.
  assert (Hg : ∀ {X} (f : X → list Z) {Y} (g : X → Y) (h : Y → list Z) (l l' : list X), (∀ x, f x = h (g x)) → g <$> l' = g <$> l →
    (x ← l'; f x) = (x ← l; f x)).
  { intros X f Y g h l l' Hf. revert l'. induction l as [|x l IH]; intros [|x' l'] E; try done. injection E as Ex El. cbn.
    rewrite (Hf x), (Hf x'), Ex. f_equal. by apply IH. }
  intros Ha Hc. unfold waiting. f_equal.
  - by eapply (Hg _ _ _ _ waits_of).
  - by eapply (Hg _ _ _ _ (λ w, waits_of [w])).
Qed.

(** A handler of a session: its release is the end of its connection. *)
Lemma run_session_inv n a e v v' : server_inv n v → run_session react capacity m0 a0 a e v = Some v' → server_inv n v'.
Proof.
  intros Hi. unfold run_session. assert (He : e = EvOpen ∨ e ≠ EvOpen) by (destruct e; auto).
  destruct He as [->|He]; [done|]. intros Hr.
  assert (∃ s, exec react e (session_at a v) = Some s ∧
    v' = (if released_by (session_at a v) s then on_manager (manager_release a) else id) (set_session a s v)) as (s & Hs & ->).
  { destruct e; try done; destruct (exec react _ _) as [s|]; try done; injection Hr as <-; by exists s. }
  apply (life_step_exec react) in Hs as (cs & Hcs & Hcase); [|done]. unfold released_by. rewrite Hcs, drop_app_length.
  destruct Hcase as [[Hsame Hf]|(Hopen & Hclosed & ->)].
  - rewrite bool_decide_false by (intros Hin; rewrite Forall_forall in Hf; by apply (Hf OnRelease Hin)).
    by apply (inv_same n a (λ _, s) v Hi).
  - rewrite bool_decide_true by set_solver. destruct Hi as [Hp (l & Hl & Hc)].
    assert (Ha : a ∈ l) by (by apply Hc). apply elem_of_Permutation in Ha as [l' Hl'].
    apply handling_released. split; [done|]. exists l'. split.
    + cbn. rewrite Hl, Hl'. change (waiting (set_session a s v)) with (waiting v). solve_Permutation.
    + intros b. change (set_session a s v) with (on_session a (λ _, s) v). rewrite connected_session.
      assert (Hnd : NoDup (a :: l')).
      { rewrite <- Hl'. pose proof (server_inv_nodup n v l) as Hnd. apply NoDup_app in Hnd as (_ & _ & ?); [done| |done].
        split; [done|]. by exists l. }
      apply NoDup_cons in Hnd as [Hna _]. case_decide as Hb.
      * rewrite Hb. unfold isConnected. rewrite Hclosed. by split.
      * rewrite Hc, Hl', elem_of_cons. tauto.
Qed.

Lemma server_step n e v v' : server_inv n v → orderly_exec e v = Some v' → server_inv n v'.
Proof.
  intros Hi. unfold orderly_exec. destruct (orderly v e) eqn:Ho; [|done].
  destruct e as [opens| |i j ended validated|k|k|k ended| |a e]; cbn [SessionManager.server_exec].
  - case_bool_decide; [|done]. intros Hs. destruct (start_acceptors_inv n opens v Hi) as (v1 & E & ?). congruence.
  - intros [= <-]. destruct Hi as [Hp (l & Hl & Hc)]. split; [done|]. exists l. split; [|done].
    rewrite (waiting_eq v (set_acceptors (close_acceptor <$> sv_acceptors v) v)); [exact Hl| |done]. cbn. by rewrite <- list_fmap_compose.
  - destruct (sv_acceptors v !! i) as [c|] eqn:Ec; [|done]. cbn. destruct (asioAcceptors_ c !! j) as [[w|]|] eqn:Ew; try done.
    cbn. destruct (may_end w ended); [|done]. intros Hs.
    destruct (handle_accept_inv n i j c w ended validated v Hi Ec Ew Ho) as (v1 & E & ?). congruence.
  - case_bool_decide; [|done]. intros Hs. set (v1 := set_connectors _ v) in Hs.
    destruct (connector_inv n (length (sv_connectors v)) (mkConnector k 0 None false) 0 v1) as (v2 & E & ?); [| |done|congruence].
    + destruct Hi as [Hp (l & Hl & Hc)]. split; [done|]. exists l. split; [|done]. cbn [v1 set_connectors sv_manager].
      rewrite Hl. unfold waiting, v1. cbn [set_connectors sv_acceptors sv_connectors]. by rewrite bind_app, app_nil_r.
    + cbn. by rewrite lookup_app_r, Nat.sub_diag by lia.
  - destruct (sv_connectors v !! k) as [c|]; [|done]. intros [= <-]. destruct Hi as [Hp (l & Hl & Hc)]. split; [done|].
    exists l. split; [|done]. rewrite (waiting_eq v (on_connector k close_connector v)); [exact Hl|done|]. cbn.
    apply list_eq. intros i. rewrite !list_lookup_fmap. destruct (decide (i = k)) as [->|].
    + rewrite list_lookup_alter_eq. by destruct (sv_connectors v !! k).
    + by rewrite list_lookup_alter_ne.
  - destruct (sv_connectors v !! k) as [c|] eqn:Ec; [|done]. cbn. destruct (co_wait c) as [w|] eqn:Ew; [|done].
    cbn. destruct (may_end w ended); [|done]. intros Hs.
    destruct (handle_connect_inv n k c w ended v Hi Ec Ew Ho) as (v1 & E & ?). congruence.
  - intros [= <-]. by apply cancel_sessions_inv.
  - by apply run_session_inv.
Qed.

Lemma newServer_inv n : Z.of_nat n < 2 ^ 63 → server_inv n (newServer malloc n).
Proof.
  intros Hn. pose proof (initialize_pool_of malloc malloc_fresh n true Hn) as Hp. split; [done|]. exists []. split.
  - change (activeResources_ (prepareResources malloc (newPool n true)) ≡ₚ []).
    destruct (prepareResources_ok malloc malloc_fresh _ (newPool_inv n true Hn)) as (_ & _ & Ha & _); [cbn; lia|]. by rewrite Ha.
  - intros a. by split; [|intros ?%elem_of_nil].
Qed.

(** ** A connection that is blocked *)

Lemma blocked_accept n i j w v : server_inv n v → ∃ v1 x y,
  handle_accept react malloc capacity m0 a0 i j w false Succeeds false v = Some v1 ∧
  session_at (wo_session w) v1 = disconnect (socket_opened (session_at (wo_session w) v)) ∧
  manager_calls (sv_manager v1) = manager_calls (sv_manager v) ++ [SessionReleased x; SessionAcquired y].
Proof.
  intros [Hp _]. unfold handle_accept. set (v1 := on_manager _ _).
  pose proof (pool_released n (wo_session w) _ Hp) as Hp'.
  destruct (acquire_growable malloc malloc_fresh _ (po_inv _ _ _ Hp') (po_growable _ _ _ Hp')) as (b & p & Ha).
  change (release (wo_session w) (sessionPool_ (sv_manager v))) with (sessionPool_ (sv_manager v1)) in Ha.
  unfold SessionManager.accept, acquire_session, manager_acquire. rewrite Ha. cbn [mbind option_bind]. do 3 eexists. split; [done|]. split.
  - unfold SessionManager.session_at, v1. cbn. by rewrite lookup_insert_eq.
  - cbn. by rewrite <- app_assoc.
Qed.

Lemma blocked_closure a s v : session_at a v = disconnect (socket_opened s) → posted (wld s) = [] →
  isDisconnectReserved (ses s) = false →
  ∃ v' z, run_session react capacity m0 a0 a EvPosted v = Some v' ∧
    calls (wld (session_at a v')) = calls (wld s) ++ [OnDisconnected; OnRelease] ∧
    manager_calls (sv_manager v') = manager_calls (sv_manager v) ++ [SessionReleased z].
Proof.
  intros Hs Hp Hr. unfold run_session. rewrite Hs. set (s1 := disconnect (socket_opened s)).
  assert (E : exec react EvPosted s1 = Some (do_disconnect react (on_wld (take_posted []) s1))).
  { cbn [exec]. change (posted (wld s1)) with (posted (wld s) ++ [PDisconnect]). by rewrite Hp. }
  rewrite E. cbn [mbind option_bind]. set (s2 := do_disconnect _ _).
  assert (Hc : calls (wld s2) = calls (wld s) ++ [OnDisconnected; OnRelease]).
  { unfold s2, do_disconnect. change (isDisconnectReserved (ses (on_wld (take_posted []) s1))) with (isDisconnectReserved (ses s)).
    rewrite Hr. cbv zeta. change (isConnected (ses (on_wld (take_posted []) s1))) with true. cbn [negb].
    by rewrite !callback_calls, <- app_assoc. }
  unfold released_by. rewrite Hc. change (calls (wld s1)) with (calls (wld s)). rewrite drop_app_length.
  rewrite bool_decide_true by set_solver. do 2 eexists. split; [done|]. split.
  - unfold SessionManager.session_at. cbn. by rewrite lookup_insert_eq.
  - done.
Qed.
End spec.
