(* ===== verification/ServerSpec.v ===== *)
(** * server/common: addresses and the specification of a server

    Models [SocketAddress] ([src/include/sne/server/common/SocketAddress.h]),
    [ServerSpec] ([ServerSpec.h]) and [ServerInfo] ([src/include/sne/server/s2s/ServerInfo.
    h]).  [serialize] is given over any pair of streams; a specification that is read
    into an object leaves the members alone that [serialize] does not name. *)

From S2P Require Import Prelude BitList Bits Unicode Stream RpcTypes BandwidthLimit.

(** ** [SocketAddress] *)

(** [std::string::operator<]: bytes as unsigned numbers. *)
Fixpoint string_lt (a b : list Z) : bool :=
  match a, b with
  | _, [] => false
  | [], _ :: _ => true
  | x :: a, y :: b => (x <? y) || ((x =? y) && string_lt a b)
  end.

Record SocketAddress := mkAddress { ip_ : list Z; port_ : Z }.
#[global] Instance SocketAddress_eq_dec : EqDecision SocketAddress.
Proof. solve_decision. Defined.

(** [operator==], [operator<] *)
Definition address_eqb (a b : SocketAddress) : bool := bool_decide (ip_ a = ip_ b) && (port_ a =? port_ b).
Definition address_lt (a b : SocketAddress) : bool :=
  if string_lt (ip_ a) (ip_ b) then true
  else if string_lt (ip_ b) (ip_ a) then false
  else port_ a <? port_ b.
Definition address_reset (_ : SocketAddress) : SocketAddress := mkAddress [] 0.
Definition address_isValid (a : SocketAddress) : bool := negb (bool_decide (ip_ a = [])) && (0 <? port_ a).

Lemma string_lt_irrefl a : string_lt a a = false.
Proof. induction a as [|x a IH]; [done|]. cbn. by rewrite Z.ltb_irrefl, Z.eqb_refl, IH. Qed.
Lemma string_lt_cons x y a b : string_lt (x :: a) (y :: b) = true ↔ x < y ∨ x = y ∧ string_lt a b = true.
Proof. cbn. rewrite orb_true_iff, andb_true_iff, Z.ltb_lt, Z.eqb_eq. done. Qed.
Lemma string_lt_trans a b c : string_lt a b = true → string_lt b c = true → string_lt a c = true.
Proof.
  revert b c. induction a as [|x a IH]; intros [|y b] [|z c]; try done.
  rewrite !string_lt_cons. intros [L1|[-> L1]] [L2|[-> L2]]; [left; lia|by left|by left|by right; eauto].
Qed.
Lemma string_lt_total a b : string_lt a b = false → string_lt b a = false → a = b.
Proof.
  revert b. induction a as [|x a IH]; intros [|y b]; try done.
  intros H1%not_true_iff_false H2%not_true_iff_false. rewrite string_lt_cons in H1, H2.
  assert (x = y) as -> by lia. f_equal. apply IH; apply not_true_iff_false; naive_solver.
Qed.

Lemma address_eqb_eq a b : address_eqb a b = true ↔ a = b.
Proof.
  unfold address_eqb. rewrite andb_true_iff, bool_decide_eq_true, Z.eqb_eq. destruct a, b; cbn. naive_solver.
Qed.
Lemma address_lt_spec a b : address_lt a b = true ↔ string_lt (ip_ a) (ip_ b) = true ∨ ip_ a = ip_ b ∧ port_ a < port_ b.
Proof.
  unfold address_lt. destruct (string_lt (ip_ a) (ip_ b)) eqn:E1; [naive_solver|].
  destruct (string_lt (ip_ b) (ip_ a)) eqn:E2.
  - split; [done|]. intros [?|[E _]]; [done|]. by rewrite E, string_lt_irrefl in E2.
  - rewrite (string_lt_total _ _ E1 E2), Z.ltb_lt. naive_solver.
Qed.

#[global] Instance address_lt_strict : StrictOrder (λ a b, address_lt a b = true).
Proof.
  split.
  - intros a. unfold complement. rewrite address_lt_spec, string_lt_irrefl. intros [?|[_ ?]]; [done|lia].
  - intros a b c. rewrite !address_lt_spec. intros [L1|[E1 L1]] [L2|[E2 L2]].
    + left. by eapply string_lt_trans.
    + left. by rewrite <- E2.
    + left. by rewrite E1.
    + right. split; [congruence|lia].
Qed.
Lemma address_lt_total a b : address_lt a b = true ∨ address_eqb a b = true ∨ address_lt b a = true.
Proof.
  destruct (address_lt a b) eqn:E1; [by left|]. destruct (address_lt b a) eqn:E2; [by right; right|]. right. left.
  apply address_eqb_eq. rewrite <- not_true_iff_false, address_lt_spec in E1, E2.
  assert (ip_ a = ip_ b) as E by (apply string_lt_total; apply not_true_iff_false; naive_solver).
  destruct a as [i p], b as [j q]; cbn in *. subst. f_equal. apply Z.le_antisymm; apply Z.nlt_ge; naive_solver.
Qed.

(** ** [ServerSpec] *)

Record ServerSpec := mkServerSpec {
  spec_name : list Z;                       (* [name_] *)
  workerThreadCount_ : Z;
  listeningAddresses_ : list (list Z);
  listeningPort_ : Z;
  monitorAddress_ : list Z;
  monitorPort_ : Z;
  sessionPoolSize_ : Z;
  maxUserCount_ : Z;
  spec_packetCipher : list Z;
  cipherKeyTimeLimit_ : Z;
  spec_authenticationTimeout : Z;
  spec_heartbeatTimeout : Z;
  spec_sessionCapacity : SessionCapacity;
  spec_certificate : list Z;
}.

Definition newServerSpec : ServerSpec := mkServerSpec [] 0 [] 0 [] 0 0 0 [] 0 0 0 getUnlimitedCapacity [].

(** [ServerSpec::isValid] *)
Definition spec_isValid (s : ServerSpec) : bool :=
  negb (bool_decide (listeningAddresses_ s = [])) && (0 <? listeningPort_ s) &&
  (0 <? workerThreadCount_ s) && (0 <? sessionPoolSize_ s) && negb (bool_decide (spec_packetCipher s = [])).

Definition toSocketAddresses (addresses : list (list Z)) (port : Z) : list SocketAddress :=
  flat_map (λ address, if negb (bool_decide (address = [])) then [mkAddress address port] else []) addresses.

Lemma toSocketAddresses_valid addresses port a :
  0 < port → a ∈ toSocketAddresses addresses port → address_isValid a = true ∧ port_ a = port ∧ ip_ a ∈ addresses.
Proof.
  intros Hp. unfold toSocketAddresses. rewrite list_elem_of_In, in_flat_map. intros (x & Hx & Ha).
  rewrite <- list_elem_of_In in Hx. destruct (bool_decide (x = [])) eqn:E; [done|]. destruct Ha as [<-|[]].
  split; [|done]. unfold address_isValid. cbn. rewrite E. by apply Z.ltb_lt.
Qed.

(** ** [ServerInfo] *)

Record ServerInfo := mkServerInfo {
  info_serverId : Z;
  info_ip : list Z;
  info_port : Z;
  info_certificate : list Z;
  info_packetCipher : list Z;
  info_heartbeatInterval : Z;
  info_description : list Z;
}.
Definition toServerInfo (s : ServerSpec) : result ServerInfo :=
  match listeningAddresses_ s with
  | [] => Throw (Undefined "listeningAddresses_[0] of an empty vector")
  | ip :: _ => Ok (mkServerInfo 0 ip (listeningPort_ s) (spec_certificate s) (spec_packetCipher s)
                     (spec_heartbeatTimeout s / 3) (spec_name s))
  end.

(** ** [serialize] *)

Section serialize.
Context {Ost Ist : Type} `{OStream Ost, IStream Ist}.

Definition SocketAddress_write (a : SocketAddress) : st Ost unit := putString (ip_ a) ;; put PU16 (port_ a).
Definition SocketAddress_read : st Ist SocketAddress := ip ← getString; port ← get PU16; mret (mkAddress ip port).

Definition addresses_write : list (list Z) → st Ost unit := RpcContainer_write putString SNE_DEFAULT_CONTAILER_SIZE_BITS.
Definition addresses_read : st Ist (list (list Z)) := RpcContainer_read getString SNE_DEFAULT_CONTAILER_SIZE_BITS.

Definition ServerSpec_write (s : ServerSpec) : st Ost unit :=
  putString (spec_name s) ;; put PU16 (workerThreadCount_ s) ;;
  addresses_write (listeningAddresses_ s) ;; put PU16 (listeningPort_ s) ;;
  put PU16 (monitorPort_ s) ;; put PU16 (sessionPoolSize_ s) ;; put PU16 (maxUserCount_ s) ;;
  putString (spec_packetCipher s) ;; put PU16 (cipherKeyTimeLimit_ s) ;;
  put PU16 (spec_authenticationTimeout s) ;; put PU16 (spec_heartbeatTimeout s) ;;
  put PU16 (maxBytesPerSecond_ (spec_sessionCapacity s)) ;;
  put PU16 (secondsForThrottling_ (spec_sessionCapacity s)) ;;
  putString (spec_certificate s).

(** Into the object [t]. *)
Definition ServerSpec_read (t : ServerSpec) : st Ist ServerSpec :=
  name ← getString; workers ← get PU16;
  addresses ← addresses_read; port ← get PU16;
  monitorPort ← get PU16; poolSize ← get PU16; maxUsers ← get PU16;
  cipher ← getString; keyTimeLimit ← get PU16;
  authentication ← get PU16; heartbeat ← get PU16;
  maxBytes ← get PU16; seconds ← get PU16;
  certificate ← getString;
  mret (mkServerSpec name workers addresses port (monitorAddress_ t) monitorPort poolSize maxUsers cipher keyTimeLimit
    authentication heartbeat (mkCapacity maxBytes seconds (maxPendablePacketCount_ (spec_sessionCapacity t))) certificate).
End serialize.

(** ** What is written is read back *)

Section roundtrip.
Context {O I E : Type} `{HSP : StreamPair O I E}.
#[local] Abbreviation at_byte := (aligned (O := O) (I := I) (E := E)).

Definition text_fits (s : list Z) : Prop := string_fits s USHRT_MAX 16 ∧ (length s ≤ USHRT_MAX)%nat.
Lemma text_codec : codec putString getString text_fits at_byte (λ s, enc_string O I E s USHRT_MAX 16).
Proof. apply string_codec. Qed.
Lemma word_codec : codec (put PU16) (get PU16) (is_uint 16) at_byte (λ v _, enc_prim O I E PU16 v 16).
Proof. by apply (put_codec PU16). Qed.
Lemma addresses_codec : codec addresses_write addresses_read
  (λ l, Forall text_fits l ∧ Z.of_nat (length l) ≤ MaxNumber SNE_DEFAULT_CONTAILER_SIZE_BITS) at_byte
  (enc_container (enc := λ s, enc_string O I E s USHRT_MAX 16) PU16 SNE_DEFAULT_CONTAILER_SIZE_BITS).
Proof. apply (container_codec PU16 SNE_DEFAULT_CONTAILER_SIZE_BITS text_codec). split; [by left|by right]. Qed.

Definition address_fits (a : SocketAddress) : Prop := text_fits (ip_ a) ∧ is_uint 16 (port_ a).
Definition enc_address (a : SocketAddress) : encoding E :=
  enc_string O I E (ip_ a) USHRT_MAX 16 +++ (λ _, enc_prim O I E PU16 (port_ a) 16).
Lemma address_codec : codec SocketAddress_write SocketAddress_read address_fits at_byte enc_address.
Proof.
  split.
  - intros a [Hi Hp]. apply (writes_field text_codec); [done|]. by apply word_codec.
  - intros [i p] [Hi Hp]. apply (reads_field text_codec); [done|]. by apply (reads_last word_codec p (λ p, mkAddress i p)).
  - intros a pos [Hi Hp] Hpos. unfold enc_address, enc_app. rewrite length_app, Nat.add_assoc.
    apply (codec_pos _ _ _ _ _ word_codec); [done|]. by apply (codec_pos _ _ _ _ _ text_codec).
Qed.

Definition spec_fits (s : ServerSpec) : Prop :=
  Forall text_fits ([spec_name s; spec_packetCipher s; spec_certificate s] ++ listeningAddresses_ s) ∧
  Z.of_nat (length (listeningAddresses_ s)) ≤ MaxNumber SNE_DEFAULT_CONTAILER_SIZE_BITS ∧
  Forall (is_uint 16) [workerThreadCount_ s; listeningPort_ s; monitorPort_ s; sessionPoolSize_ s; maxUserCount_ s;
    cipherKeyTimeLimit_ s; spec_authenticationTimeout s; spec_heartbeatTimeout s;
    maxBytesPerSecond_ (spec_sessionCapacity s); secondsForThrottling_ (spec_sessionCapacity s)].

#[local] Abbreviation str s := (enc_string O I E s USHRT_MAX 16).
#[local] Abbreviation u16 v := (λ _, enc_prim O I E PU16 v 16).
Definition enc_spec (s : ServerSpec) : encoding E :=
  str (spec_name s) +++ u16 (workerThreadCount_ s) +++
  enc_container (enc := λ s, str s) PU16 SNE_DEFAULT_CONTAILER_SIZE_BITS (listeningAddresses_ s) +++
  u16 (listeningPort_ s) +++ u16 (monitorPort_ s) +++ u16 (sessionPoolSize_ s) +++ u16 (maxUserCount_ s) +++
  str (spec_packetCipher s) +++ u16 (cipherKeyTimeLimit_ s) +++ u16 (spec_authenticationTimeout s) +++
  u16 (spec_heartbeatTimeout s) +++ u16 (maxBytesPerSecond_ (spec_sessionCapacity s)) +++
  u16 (secondsForThrottling_ (spec_sessionCapacity s)) +++ str (spec_certificate s).

(** What [t] becomes when [s] is read into it. *)
Definition received_spec (s t : ServerSpec) : ServerSpec :=
  mkServerSpec (spec_name s) (workerThreadCount_ s) (listeningAddresses_ s) (listeningPort_ s) (monitorAddress_ t) (monitorPort_ s)
    (sessionPoolSize_ s) (maxUserCount_ s) (spec_packetCipher s) (cipherKeyTimeLimit_ s) (spec_authenticationTimeout s)
    (spec_heartbeatTimeout s)
    (mkCapacity (maxBytesPerSecond_ (spec_sessionCapacity s)) (secondsForThrottling_ (spec_sessionCapacity s))
       (maxPendablePacketCount_ (spec_sessionCapacity t)))
    (spec_certificate s).

Lemma spec_fits_inv s : spec_fits s →
  (text_fits (spec_name s) ∧ text_fits (spec_packetCipher s) ∧ text_fits (spec_certificate s)) ∧
  (Forall text_fits (listeningAddresses_ s) ∧ Z.of_nat (length (listeningAddresses_ s)) ≤ MaxNumber SNE_DEFAULT_CONTAILER_SIZE_BITS) ∧
  Forall (is_uint 16) [workerThreadCount_ s; listeningPort_ s; monitorPort_ s; sessionPoolSize_ s; maxUserCount_ s;
    cipherKeyTimeLimit_ s; spec_authenticationTimeout s; spec_heartbeatTimeout s;
    maxBytesPerSecond_ (spec_sessionCapacity s); secondsForThrottling_ (spec_sessionCapacity s)].
Proof. intros (Ht & Hn & Hu). rewrite Forall_app, !Forall_cons in Ht. destruct Ht as [(T1 & T2 & T3 & _) T4]. by split_and!. Qed.

#[local] Ltac field Hu := first
  [ apply (writes_field text_codec); [by apply Hu|] | apply (reads_field text_codec); [by apply Hu|]
  | apply (writes_field addresses_codec); [by apply Hu|] | apply (reads_field addresses_codec); [by apply Hu|]
  | apply (writes_field word_codec); [by apply Hu|] | apply (reads_field word_codec); [by apply Hu|] ].

Lemma spec_writes s : spec_fits s → writes (ServerSpec_write s) (enc_spec s).
Proof.
  intros (Ht & Ha & Hu)%spec_fits_inv. rewrite !Forall_cons in Hu. unfold ServerSpec_write, enc_spec.
  repeat first [field Ht | field Ha | field Hu]. apply (codec_writes _ _ _ _ _ text_codec), Ht.
Qed.
Lemma spec_reads s t : spec_fits s → reads at_byte (ServerSpec_read t) (enc_spec s) (received_spec s t).
Proof.
  intros (Ht & Ha & Hu)%spec_fits_inv. rewrite !Forall_cons in Hu. unfold ServerSpec_read, enc_spec.
  repeat first [field Ht | field Ha | field Hu].
  exact (reads_last text_codec (spec_certificate s) (λ c, mkServerSpec _ _ _ _ _ _ _ _ _ _ _ _ _ c) (proj2 (proj2 Ht))).
Qed.
End roundtrip.
