(* ===== verification/SessionConfigs.v ===== *)
(** * base/session, sgp/session, server/session: what a session is made of

    Models the configurations of sessions ([src/include/sne/base/session/detail/SessionConfig.h],
    [src/include/sne/sgp/session/SgpSessionConfig.h], [src/include/sne/server/session/config/]),
    the factories that fill them in ([BlockCipherFactory.cpp], [SecurePacketCoderFactory.cpp],
    [PacketSeedExchangerFactory.cpp], [SgpSessionImplFactory.cpp] and
    [AbstractServerSideSessionFactory.cpp]) and [Properties] ([src/include/sne/server/common/
    Property.h]).  A pointer is an option of what it points to. *)

From S2P Require Import Prelude BandwidthLimit Unicode StreamBuffer MemoryBlock Stream Streamable Srpc TcpSession SessionLayer ServerSpec.

(** ** Ciphers and coders *)

Definition tea : list Z := [116; 101; 97].
Definition aes : list Z := [97; 101; 115].

(** [BlockCipherFactory]; [create] asserts that the cipher is valid. *)
Definition isValidCipher (cipher : list Z) : bool := bool_decide (cipher = tea) || bool_decide (cipher = aes).
Inductive block_cipher := TeaCipher | AesCipher.
Definition create_cipher (cipher : list Z) : result (option block_cipher) :=
  if negb (isValidCipher cipher) then Throw (Undefined "assert(isValidCipher(cipher))")
  else if bool_decide (cipher = tea) then Ok (Some TeaCipher)
  else if bool_decide (cipher = aes) then Ok (Some AesCipher)
  else Ok None.

(** A [CsPacketCoder], or a [SecurePacketCoder] around one. *)
Inductive coder_kind := PlainCoder | SecureCoder (cipher : list Z) (cipherKeyPeriod : Z) (useDynamicKey : bool).
Definition defaultPacketSize : Z := 2 * 1024.
Definition defaultPacketPoolSize : Z := 10.
Definition create_coder (cipher : list Z) (cipherKeyPeriod : Z) : coder_kind :=
  if negb (isValidCipher cipher) then PlainCoder else SecureCoder cipher cipherKeyPeriod true.

Inductive exchanger_kind := ForServer | ForClient.

(** A [MemoryBlockManager]: the sizes it was made with. *)
Record block_manager := mkBlockManager { bm_poolSize : Z; bm_blockSize : Z }.

(** ** The configurations *)

(** [isForTest_] is [None] where no constructor has set it. *)
Record SessionConfig := mkSessionConfig {
  streamFactory_ : SneStreamFactory;                (* [shouldUseUtf8ForString_], [useBitPacking_] *)
  sessionDestroyer_ : option Z;
  ioContextTask_ : option Z;
  sessionCapacity_ : SessionCapacity;
  base_isForTest : option bool;
}.
Definition newSessionConfig : SessionConfig := mkSessionConfig (mkFactory false false) None None getUnlimitedCapacity (Some false).
(** The constructor with parameters. *)
Definition makeSessionConfigWith (sessionDestroyer ioContextTask : Z) (capacity : SessionCapacity) : SessionConfig :=
  mkSessionConfig (mkFactory false false) (Some sessionDestroyer) (Some ioContextTask) capacity None.
Definition base_isValid (c : SessionConfig) : bool := bool_decide (is_Some (sessionDestroyer_ c)) && bool_decide (is_Some (ioContextTask_ c)).

Record SgpSessionConfig := mkSgpConfig {
  sgp_base : SessionConfig;
  memoryBlockManager_ : option block_manager;
  config_packetCoder : option coder_kind;
  packetSeedExchanger_ : option exchanger_kind;
}.
Definition newSgpConfig : SgpSessionConfig := mkSgpConfig newSessionConfig None None None.
Definition makeSgpConfig (blocks : block_manager) (coder : coder_kind) (exchanger : exchanger_kind)
    (sessionDestroyer ioContextTask : Z) (capacity : SessionCapacity) : SgpSessionConfig :=
  mkSgpConfig (makeSessionConfigWith sessionDestroyer ioContextTask capacity) (Some blocks) (Some coder) (Some exchanger).
Definition sgp_isValid (c : SgpSessionConfig) : bool :=
  base_isValid (sgp_base c) && bool_decide (is_Some (memoryBlockManager_ c)) && bool_decide (is_Some (config_packetCoder c)) &&
  bool_decide (is_Some (packetSeedExchanger_ c)).

(** [ServerSideSessionConfig] has nothing of its own. *)
Record ClientSideSessionConfig := mkClientConfig { client_config : SgpSessionConfig; config_heartbeatInterval : Z }.
Definition newClientConfig : ClientSideSessionConfig := mkClientConfig newSgpConfig 0.
Definition makeClientConfig (heartbeatInterval : Z) (blocks : block_manager) (coder : coder_kind)
    (sessionDestroyer ioContextTask : Z) (capacity : SessionCapacity) : ClientSideSessionConfig :=
  mkClientConfig (makeSgpConfig blocks coder ForClient sessionDestroyer ioContextTask capacity) heartbeatInterval.
Definition isValid (c : ClientSideSessionConfig) : bool := sgp_isValid (client_config c).
Definition isForTest_ (c : ClientSideSessionConfig) : option bool := base_isForTest (sgp_base (client_config c)).

(** ** [SgpSessionImplFactory] *)

Definition create_sessionImpl {P A : Type} (config : SgpSessionConfig) (a : A) (p : P) (recvId : Z) : SessionImpl P A :=
  newImpl (streamFactory_ (sgp_base config)) [MessagingExtension; RpcingExtension] a p recvId.

(** ** [AbstractServerSideSessionFactory] *)

Record ServerSideSessionFactory := mkSessionFactory {
  factory_serverSpec : ServerSpec;
  factory_config : SgpSessionConfig;
  factory_memoryBlockManager : block_manager;
}.
Definition factory_createPacketCoder (spec : ServerSpec) : coder_kind :=
  create_coder (spec_packetCipher spec) (cipherKeyTimeLimit_ spec).
Definition newSessionFactory (serverSpec : ServerSpec) (ioContextTask : Z) : ServerSideSessionFactory :=
  mkSessionFactory serverSpec
    (mkSgpConfig (mkSessionConfig (mkFactory false false) None (Some ioContextTask) (spec_sessionCapacity serverSpec) (Some false))
      None None None)
    (mkBlockManager defaultPacketPoolSize defaultPacketSize).
Definition setSessionDestroyer (sessionDestroyer : Z) (f : ServerSideSessionFactory) : ServerSideSessionFactory :=
  let c := factory_config f in
  mkSessionFactory (factory_serverSpec f)
    (mkSgpConfig (mkSessionConfig (streamFactory_ (sgp_base c)) (Some sessionDestroyer) (ioContextTask_ (sgp_base c))
        (sessionCapacity_ (sgp_base c)) (base_isForTest (sgp_base c)))
      (memoryBlockManager_ c) (config_packetCoder c) (packetSeedExchanger_ c))
    (factory_memoryBlockManager f).
(** The configuration of the next session. *)
Definition makeSessionConfig (f : ServerSideSessionFactory) : SgpSessionConfig :=
  mkSgpConfig (sgp_base (factory_config f)) (Some (factory_memoryBlockManager f))
    (Some (factory_createPacketCoder (factory_serverSpec f))) (Some ForServer).

(** ** [Properties] *)

Abbreviation Properties := (gmap (list Z) (list Z)).

Section properties.
Context (lexical_cast : list Z → option Z).
(** [getProperty<T>] of a type of numbers. *)
Definition getProperty (properties : Properties) (key : list Z) : result Z :=
  match properties !! key with
  | Some value => match lexical_cast value with Some v => Ok v | None => Throw (RuntimeError "bad_lexical_cast") end
  | None => Ok 0
  end.
End properties.

(** ** What they give *)

(** The cipher of a coder can be made. *)
Lemma created_cipher cipher period c p d : create_coder cipher period = SecureCoder c p d →
  c = cipher ∧ p = period ∧ ∃ k, create_cipher c = Ok (Some k).
Proof.
  unfold create_coder, create_cipher. destruct (isValidCipher cipher) eqn:Ev; cbn [negb]; [|done]. intros [= <- <- <-].
  split_and!; [done|done|]. rewrite Ev. cbn [negb]. unfold isValidCipher in Ev.
  destruct (decide (cipher = tea)) as [Ht|Ht]; [rewrite bool_decide_true by done; by eexists|]. rewrite bool_decide_false in Ev by done.
  cbn [orb] in Ev. rewrite (bool_decide_false (cipher = tea)), Ev by done. by eexists.
Qed.

(** The configurations a manager gets from its factory are valid, once it has told the
    factory who destroys the sessions; before that they are not. *)
Theorem factory_configs_valid spec task destroyer :
  let f := newSessionFactory spec task in
  sgp_isValid (makeSessionConfig f) = false ∧ sgp_isValid (makeSessionConfig (setSessionDestroyer destroyer f)) = true.
Proof. done. Qed.

(** All sessions of this factory, and those of clients, read and write bytes and not bits. *)
Theorem sessions_use_byte_streams spec task destroyer interval blocks coder capacity :
  let byte_streams c := streamFactory_ (sgp_base c) = mkFactory false false in
  byte_streams (makeSessionConfig (setSessionDestroyer destroyer (newSessionFactory spec task))) ∧
  byte_streams (client_config (makeClientConfig interval blocks coder destroyer task capacity)).
Proof. done. Qed.

(** A cipher that is not known, as one in upper case, gives a coder that encrypts nothing. *)
Theorem unknown_cipher_is_none cipher period : cipher ≠ tea → cipher ≠ aes → create_coder cipher period = PlainCoder.
Proof. intros Ht Ha. unfold create_coder, isValidCipher. by rewrite !bool_decide_false. Qed.
