(* ===== verification/ServerConfig.v ===== *)
(** * server/config and base/utility: the configuration of a server and its log

    Models [ConfigReader] ([src/include/sne/server/config/ConfigReader.h]) as a class with
    [IniFileConfigReader] ([src/src/server/config/IniFileConfigReader.{h,cpp}]) as its
    instance, [ConfigReaderFactory], [ServerConfig] ([ServerConfig.{h,cpp}]), and the
    filter of [LogManager] ([src/src/base/utility/LogManager.cpp]).

    Boost's parsers of command lines and files, [lexical_cast] and the file system are
    parameters.  An [assert] that code is written to survive is that of a release build;
    [SNE_ASSERT] only reports. *)

From S2P Require Import Prelude.

(** ** [ConfigReader] *)

Class ConfigReader (R : Type) := {
  cr_open : string → st R bool;
  cr_getString : string → string → R → result string;
}.

(** [getNumeric<T>], with [lexical_cast<T>]. *)
Definition getNumeric `{ConfigReader R} (lexical_cast : string → option Z) (sectionName keyName : string) (r : R) : result Z :=
  match cr_getString sectionName keyName r with
  | Throw e => Throw e
  | Ok keyValue =>
      match lexical_cast keyValue with
      | Some n => Ok n
      | None => Throw (NotDefinedConfigError sectionName keyName)
      end
  end.

(** A [property_tree::ptree], by the paths of its values. *)
Abbreviation ptree := (gmap string string).

(** What the process finds around it. *)
Record options := mkOptions {
  opt_help : bool;
  opt_home : option string;
  opt_config : option string;
  opt_format : option string;
}.
Record environment := mkEnvironment {
  env_current_path : string;
  env_program_options : list string → option options;   (* or an exception *)
  env_canonical : string → option string;               (* or an exception *)
  env_path : string → string → string;                  (* [operator/] of paths *)
  env_read_ini : string → option ptree;                 (* or an exception *)
}.

Section config.
Context (env : environment).

Record IniFileConfigReader := mkIni { ptree_ : ptree }.

Definition ini_open (filename : string) : st IniFileConfigReader bool :=
  match env_read_ini env filename with
  | None => mret false
  | Some t => modify (λ _, mkIni t) ;; mret true
  end.
Definition ini_getString (sectionName keyName : string) (r : IniFileConfigReader) : result string :=
  match ptree_ r !! (sectionName +:+ "." +:+ keyName) with
  | Some value => Ok value
  | None => Throw (NotDefinedConfigError sectionName keyName)
  end.
#[export] Instance IniFileConfigReader_reader : ConfigReader IniFileConfigReader :=
  {| cr_open := ini_open; cr_getString := ini_getString |}.

(** [ConfigReaderFactory::create] *)
Definition createConfigReader (readerType : string) : option IniFileConfigReader :=
  if bool_decide (readerType = "ini") then Some (mkIni ∅) else None.

(** ** [ServerConfig] *)

Record ServerConfig := mkConfig {
  configReader_ : option IniFileConfigReader;
  homeDir_ : string;
  configFile_ : string;
  configReaderType_ : string;
  serviceName_ : string;
}.
Definition newServerConfig : ServerConfig := mkConfig None "" "" "ini" "".

Definition getConfigPath (c : ServerConfig) : string := env_path env (env_path env (homeDir_ c) "conf") (configFile_ c).
Definition getLogDir (c : ServerConfig) : string := env_path env (homeDir_ c) "log".

Definition set_reader (r : option IniFileConfigReader) (c : ServerConfig) : ServerConfig :=
  mkConfig r (homeDir_ c) (configFile_ c) (configReaderType_ c) (serviceName_ c).
Definition set_home (h : string) (c : ServerConfig) : ServerConfig :=
  mkConfig (configReader_ c) h (configFile_ c) (configReaderType_ c) (serviceName_ c).
Definition set_service (n : string) (c : ServerConfig) : ServerConfig :=
  mkConfig (configReader_ c) (homeDir_ c) (configFile_ c) (configReaderType_ c) n.

Definition readEnvironmentVariable : st ServerConfig bool :=
  modify (set_home (env_current_path env)) ;; mret true.

(** [notify] sets the members: an option without a default only when it is given. *)
Definition notify_options (o : options) (c : ServerConfig) : ServerConfig :=
  mkConfig (configReader_ c) (default (homeDir_ c) (opt_home o)) (default (configFile_ c) (opt_config o))
    (default "ini"%string (opt_format o)) (serviceName_ c).

Definition parseCommandLine (args : list string) : st ServerConfig bool :=
  match env_program_options env args with
  | None => mret false
  | Some o =>
      modify (notify_options o) ;;
      if opt_help o then mret false
      else
        c ← get_st;
        if bool_decide (configFile_ c = "") then mret false
        else if bool_decide (configReaderType_ c = "") then mret false
        else
          match env_canonical env (homeDir_ c) with
          | None => throw (RuntimeError "canonical")
          | Some h => modify (set_home h) ;; mret true
          end
  end.

Definition parseConfigFile : st ServerConfig bool :=
  c ← get_st;
  modify (set_reader (createConfigReader (configReaderType_ c))) ;;
  match createConfigReader (configReaderType_ c) with
  | None => mret false
  | Some r =>
      let '(opened, r) := cr_open (getConfigPath c) r in
      modify (set_reader (Some r)) ;;
      match opened with
      | Throw e => throw e
      | Ok false => mret false
      | Ok true =>
          match cr_getString "service" "name" r with
          | Throw e => throw e
          | Ok name => modify (set_service name) ;; mret true
          end
      end
  end.

Definition parse_config (args : list string) : st ServerConfig bool :=
  ok ← readEnvironmentVariable;
  if (ok : bool) then
    ok ← parseCommandLine args;
    if (ok : bool) then parseConfigFile else mret false
  else mret false.

(** What a configuration that was parsed says, wherever the command line came from. *)
Definition configured (args : list string) (c : ServerConfig) : Prop :=
  ∃ o file h t, env_program_options env args = Some o ∧ opt_help o = false ∧ opt_config o = Some file ∧ file ≠ "" ∧
  opt_format o ∈ [None; Some "ini"%string] ∧ env_canonical env (default (env_current_path env) (opt_home o)) = Some h ∧
  env_read_ini env (env_path env (env_path env h "conf") file) = Some t ∧ t !! "service.name" = Some (serviceName_ c) ∧
  c = mkConfig (Some (mkIni t)) h file "ini" (serviceName_ c).

Lemma parseConfigFile_run c : parseConfigFile c =
  if bool_decide (configReaderType_ c = "ini") then
    match env_read_ini env (getConfigPath c) with
    | None => (Ok false, set_reader (Some (mkIni ∅)) c)
    | Some t =>
        match t !! "service.name"%string with
        | None => (Throw (NotDefinedConfigError "service" "name"), set_reader (Some (mkIni t)) c)
        | Some name => (Ok true, set_service name (set_reader (Some (mkIni t)) c))
        end
    end
  else (Ok false, set_reader None c).
Proof.
  unfold parseConfigFile, createConfigReader. destruct c as [r h f y n]. cbn [configReaderType_].
  cbv beta iota delta [mbind st_bind get_st modify mret st_ret throw]. cbn [configReaderType_].
  case_bool_decide; [|done]. cbn [cr_open cr_getString IniFileConfigReader_reader]. unfold ini_open.
  destruct (env_read_ini env _) as [t|]; [|done]. cbv beta iota delta [mbind st_bind modify mret st_ret]. unfold ini_getString.
  cbn [ptree_]. change ("service" +:+ "." +:+ "name") with "service.name"%string. by destruct (t !! _).
Qed.
Lemma parseCommandLine_run args c : parseCommandLine args c =
  match env_program_options env args with
  | None => (Ok false, c)
  | Some o =>
      let c := notify_options o c in
      if opt_help o || bool_decide (configFile_ c = "") || bool_decide (configReaderType_ c = "") then (Ok false, c)
      else
        match env_canonical env (homeDir_ c) with
        | None => (Throw (RuntimeError "canonical"), c)
        | Some h => (Ok true, set_home h c)
        end
  end.
Proof.
  unfold parseCommandLine. destruct (env_program_options env args) as [o|]; [|done].
  cbv beta iota zeta delta [mbind st_bind modify mret st_ret get_st throw].
  destruct (opt_help o); [done|]. case_bool_decide; [done|]. case_bool_decide; [done|]. cbn [orb].
  by destruct (env_canonical env _).
Qed.
Lemma parse_config_run args c : parse_config args c =
  match parseCommandLine args (set_home (env_current_path env) c) with
  | (Ok true, c) => parseConfigFile c
  | r => r
  end.
Proof.
  unfold parse_config, readEnvironmentVariable. cbv beta iota delta [mbind st_bind modify mret st_ret].
  destruct (parseCommandLine args _) as [[[]|e] c']; done.
Qed.

Lemma notify_new o file : opt_config o = Some file → opt_format o ∈ [None; Some "ini"%string] →
  notify_options o (set_home (env_current_path env) newServerConfig) =
    mkConfig None (default (env_current_path env) (opt_home o)) file "ini" "".
Proof. unfold notify_options. intros -> Ef. set_unfold in Ef. by destruct Ef as [->|[->|[]]]. Qed.

Lemma parse_config_ok args c : parse_config args newServerConfig = (Ok true, c) ↔ configured args c.
Proof.
  rewrite parse_config_run, parseCommandLine_run. unfold configured. split.
  - destruct (env_program_options env args) as [o|] eqn:Eo; [|done]. cbv zeta.
    destruct (opt_help o) eqn:Eh; [done|]. cbn [orb]. case_bool_decide as Ef; [done|]. case_bool_decide as Et; [done|]. cbn [orb].
    destruct (env_canonical env _) as [h|] eqn:Ec; [|done]. rewrite parseConfigFile_run.
    case_bool_decide as Ei; [|done]. destruct (env_read_ini env _) as [t|] eqn:Er; [|done].
    destruct (t !! _) as [n|] eqn:En; [|done]. intros [= <-].
    destruct (opt_config o) as [file|] eqn:Eof; [|by cbn in Ef; rewrite Eof in Ef].
    assert (Efmt : opt_format o ∈ [None; Some "ini"%string]).
    { cbn in Ei. destruct (opt_format o) as [f|]; [cbn in Ei; subst f|]; set_solver. }
    rewrite (notify_new o file Eof Efmt) in *. exists o, file, h, t. by split_and!.
  - intros (o & file & h & t & Eo & Eh & Eof & Ef & Efmt & Ec & Er & En & ->).
    rewrite Eo, (notify_new o file Eof Efmt), Eh. cbn [configFile_ configReaderType_ homeDir_]. rewrite !bool_decide_false by done.
    cbn [orb]. rewrite Ec, parseConfigFile_run. cbn. unfold getConfigPath. cbn. by rewrite Er, En.
Qed.

(** The only exceptions are those of [canonical] and of a missing name. *)
Lemma parse_config_total args c : match (parse_config args c).1 with
  | Ok _ => True
  | Throw e => e = RuntimeError "canonical" ∨ e = NotDefinedConfigError "service" "name"
  end.
Proof.
  rewrite parse_config_run, parseCommandLine_run. destruct (env_program_options env args) as [o|]; [|done]. cbv zeta.
  destruct (_ || _ || _); [done|]. destruct (env_canonical env _) as [h|]; [|by left]. rewrite parseConfigFile_run.
  case_bool_decide; [|done]. destruct (env_read_ini env _) as [t|]; [|done]. destruct (t !! _); [done|by right].
Qed.
End config.

(** ** [LogManager] *)

Inductive SeverityLevel := trace | debug | info | warning | error | fatal.
#[global] Instance SeverityLevel_eq_dec : EqDecision SeverityLevel.
Proof. solve_decision. Defined.
Definition severity (l : SeverityLevel) : nat :=
  match l with trace => 0 | debug => 1 | info => 2 | warning => 3 | error => 4 | fatal => 5 end%nat.

Definition getSeverityLevelString (l : SeverityLevel) : string :=
  match l with
  | trace => "trace" | debug => "debug" | info => "info" | warning => "warning" | error => "error" | fatal => "fatal"
  end.
Definition getServerityLevel (strLevel : string) : SeverityLevel :=
  if bool_decide (strLevel = "trace") then trace
  else if bool_decide (strLevel = "debug") then debug
  else if bool_decide (strLevel = "info") then info
  else if bool_decide (strLevel = "warning") then warning
  else if bool_decide (strLevel = "error") then error
  else if bool_decide (strLevel = "fatal") then fatal
  else debug.

(** The core of boost's log: the filter and the sinks; and [isEnabled_] of [Logger.cpp]. *)
Inductive log_sink := ConsoleSink | FileSink (filePath : string) (rotationSize : Z).
Record Logging := mkLogging { log_enabled : bool; log_filter : SeverityLevel; log_sinks : list log_sink }.

Definition setSeverityLevel (strLevel : string) (l : Logging) : Logging :=
  mkLogging (log_enabled l) (getServerityLevel strLevel) (log_sinks l).
Definition verbose : Logging → Logging := setSeverityLevel "trace".
Definition noDebug : Logging → Logging := setSeverityLevel "info".
Definition silent (l : Logging) : Logging := mkLogging false (log_filter l) (log_sinks l).
Definition unsilent (l : Logging) : Logging := mkLogging true (log_filter l) (log_sinks l).
Definition enableConsoleLog (l : Logging) : Logging := mkLogging (log_enabled l) (log_filter l) (log_sinks l ++ [ConsoleSink]).
Definition enableFileLog (filePath : string) (rotationSize : Z) (l : Logging) : Logging :=
  mkLogging (log_enabled l) (log_filter l) (log_sinks l ++ [FileSink filePath rotationSize]).
(** [LogManager::LogManager] *)
Definition newLogManager : Logging → Logging := noDebug.

(** Where a record of a level goes. *)
Definition log_to (level : SeverityLevel) (l : Logging) : list log_sink :=
  if log_enabled l && bool_decide (severity (log_filter l) ≤ severity level)%nat then log_sinks l else [].

Lemma severity_string l : getServerityLevel (getSeverityLevelString l) = l.
Proof. by destruct l. Qed.
