(* ===== verification/Text.v ===== *)
(** * core/utility, base/utility and security/hash: text

    Models [ihash], [iequal_to] and [search_map] of [src/include/sne/core/utility/CppUtils.h],
    the specialisations of [std::hash] for the strings of [src/include/sne/srpc/RpcTypes.h]
    with the lookup of a hash table that uses them, and [AuthlogicSha512Hash] of
    [src/src/security/hash/AuthlogicSha512Hash.cpp].  [boost::hash_combine], [iequals] and
    SHA-512 are parameters.

    Then the wrappers of [vsnprintf] of [src/include/sne/core/utility/CUtils.h], which make
    the C libraries of Windows and of POSIX systems alike, [formatString] of
    [CppUtils.h], [Exception] of [src/include/sne/core/Exception.h] and the functions [log]
    of [src/src/base/utility/Logger.cpp].  What a format makes of its arguments is given,
    as the text that would be written were there space enough. *)

From S2P Require Import Prelude ServerConfig.

(** ** [ihash] and [iequal_to] *)

Section ignoring_case.
Context (toupper : Z → Z) (hash_combine : Z → Z → Z) (iequals : list Z → list Z → bool).

Definition iequal_to (x y : list Z) : bool :=
  if negb (length x =? length y)%nat then false else iequals x y.
Definition ihash (x : list Z) : Z := fold_left (λ seed c, hash_combine seed (toupper c)) x 0.

(** What [iequals] compares are the upper cases. *)
Context (iequals_upper : ∀ x y, iequals x y = true ↔ toupper <$> x = toupper <$> y).

(** A table with the one for its keys and the other for its hashes finds what it has. *)
Lemma ihash_respects x y : iequal_to x y = true → ihash x = ihash y.
Proof.
  unfold iequal_to. destruct (length x =? length y)%nat; cbn [negb]; [|done]. intros E%iequals_upper. unfold ihash.
  assert (Hf : ∀ l s, fold_left (λ seed c, hash_combine seed (toupper c)) l s = fold_left hash_combine (toupper <$> l) s).
  { intros l. induction l as [|c l IH]; intros s; [done|]. cbn. apply IH. }
  by rewrite !Hf, E.
Qed.

Lemma iequal_to_equivalence : Equivalence (λ x y, iequal_to x y = true).
Proof.
  assert (Hi : ∀ x y, iequal_to x y = true ↔ toupper <$> x = toupper <$> y).
  { intros x y. unfold iequal_to. rewrite <- iequals_upper. destruct (Nat.eqb_spec (length x) (length y)) as [|Hne]; [done|].
    split; [done|]. intros E%iequals_upper. apply (f_equal length) in E. by rewrite !length_fmap in E. }
  split.
  - intros x. by apply Hi.
  - intros x y. rewrite !Hi. done.
  - intros x y z. rewrite !Hi. intros -> ->. done.
Qed.
End ignoring_case.

(** [search_map]: [null_result] where there is no such key. *)
Definition search_map {K V : Type} `{Countable K} (the_map : gmap K V) (key : K) (null_result : V) : V :=
  match the_map !! key with Some v => v | None => null_result end.

(** ** [std::hash] of an [RString] *)

(** A string: where its characters are, and which. *)
Record text_object := mkText { c_str : Z; text_chars : list Z }.

(** [std::hash<const char*>] of [v.c_str()]. *)
Definition hash_RString (pointer_hash : Z → Z) (v : text_object) : Z := pointer_hash (c_str v).

(** [find] of a hash table with [n] buckets looks in the bucket of the key. *)
Definition unordered_find (hash : text_object → Z) (n : Z) (elements : list text_object) (key : text_object) : option text_object :=
  List.find (λ e, (hash e mod n =? hash key mod n) && bool_decide (text_chars e = text_chars key)) elements.

(** What a hash is for: a key that is there is found. *)
Lemma unordered_find_ok hash n elements e key :
  (∀ x y, text_chars x = text_chars y → hash x = hash y) → e ∈ elements → text_chars e = text_chars key →
  ∃ e', unordered_find hash n elements key = Some e' ∧ text_chars e' = text_chars key.
Proof.
  intros Hh He Ee. unfold unordered_find. destruct (List.find _ elements) as [e'|] eqn:Ef.
  - exists e'. split; [done|]. apply List.find_some in Ef as [_ Ef]. apply andb_true_iff in Ef as [_ Ef]. by apply bool_decide_eq_true in Ef.
  - apply list_elem_of_In in He. pose proof (List.find_none _ _ Ef e He) as Hn. cbv beta in Hn.
    rewrite (Hh e key Ee), Z.eqb_refl, bool_decide_true in Hn by done. done.
Qed.

(** The hash of the pointer is not one: a key whose pointer is of another bucket is not
    found, whatever its characters are. *)
Theorem equal_string_is_not_found pointer_hash n e key :
  pointer_hash (c_str e) mod n ≠ pointer_hash (c_str key) mod n →
  unordered_find (hash_RString pointer_hash) n [e] key = None.
Proof. intros Hne. unfold unordered_find, hash_RString. cbn [List.find]. by rewrite (proj2 (Z.eqb_neq _ _) Hne). Qed.

(** ** [AuthlogicSha512Hash] *)

Definition DIGESTSIZE : nat := 64.
(** '0' ... '9', 'a' ... 'f' *)
Definition hex : list Z := [48; 49; 50; 51; 52; 53; 54; 55; 56; 57; 97; 98; 99; 100; 101; 102].
Definition hex_at (i : Z) : Z := nth (Z.to_nat i) hex 0.
Definition hexencode (buffer : list Z) : list Z :=
  mjoin ((λ byte, [hex_at (Z.shiftr byte 4); hex_at (Z.land byte 15)]) <$> buffer).

Section digest.
Context (SHA512 : list Z → list Z).

Definition hexdigest (digest : list Z) : list Z := hexencode (SHA512 digest).
Fixpoint digest_loop (stretches : nat) (digest : list Z) : list Z :=
  match stretches with
  | O => digest
  | S n => digest_loop n (hexdigest digest)
  end.
Definition digest (password passwordSalt : list Z) (stretches : nat) : list Z :=
  digest_loop stretches (password ++ passwordSalt).

(** *** What is encoded can be told apart *)

Lemma hex_at_inj i j : 0 ≤ i < 16 → 0 ≤ j < 16 → hex_at i = hex_at j → i = j.
Proof.
  intros Hi Hj E. assert (Hall : Forall (λ i, Forall (λ j, hex_at i = hex_at j → i = j) (seqZ 0 16)) (seqZ 0 16)).
  { refine (bool_decide_unpack _ _). vm_compute. exact I. }
  rewrite Forall_forall in Hall. specialize (Hall i ltac:(apply elem_of_seqZ; lia)). rewrite Forall_forall in Hall.
  apply Hall; [apply elem_of_seqZ; lia|done].
Qed.

Lemma nibbles b : is_byte b → 0 ≤ Z.shiftr b 4 < 16 ∧ 0 ≤ Z.land b 15 < 16 ∧ b = 16 * Z.shiftr b 4 + Z.land b 15.
Proof.
  unfold is_uint. change (2 ^ 8) with 256. intros Hb. change 15 with (Z.ones 4). rewrite Z.land_ones, Z.shiftr_div_pow2 by lia.
  change (2 ^ 4) with 16. pose proof (Z.div_mod b 16 ltac:(lia)). pose proof (Z.mod_pos_bound b 16 ltac:(lia)). lia.
Qed.

Lemma length_hexencode buffer : length (hexencode buffer) = (2 * length buffer)%nat.
Proof.
  induction buffer as [|b l IH]; [done|]. change (S (S (length (hexencode l))) = (2 * S (length l))%nat). rewrite IH. lia.
Qed.

(** Bytes have different texts. *)
Lemma hexencode_inj a b : Forall is_byte a → Forall is_byte b → hexencode a = hexencode b → a = b.
Proof.
  intros Ha. revert b. induction Ha as [|x a Hx Ha IH]; intros [|y b] Hb E; try done.
  apply Forall_cons in Hb as [Hy Hb]. change (hexencode (x :: a)) with (hex_at (Z.shiftr x 4) :: hex_at (Z.land x 15) :: hexencode a) in E.
  change (hexencode (y :: b)) with (hex_at (Z.shiftr y 4) :: hex_at (Z.land y 15) :: hexencode b) in E. injection E as E1 E2 E.
  destruct (nibbles x Hx) as (Hx1 & Hx2 & Ex), (nibbles y Hy) as (Hy1 & Hy2 & Ey).
  apply hex_at_inj in E1, E2; [|done..]. f_equal; [lia|by apply IH].
Qed.

(** *** The digest *)

Context (SHA512_digest : ∀ m, length (SHA512 m) = DIGESTSIZE ∧ Forall is_byte (SHA512 m)).

Lemma digest_loop_add n k d : digest_loop (n + k) d = digest_loop k (digest_loop n d).
Proof. revert d. induction n as [|n IH]; intros d; [done|]. apply IH. Qed.

(** 128 digits, once it is stretched at all. *)
Theorem length_digest password salt n : (0 < n)%nat → length (digest password salt n) = (2 * DIGESTSIZE)%nat.
Proof.
  intros Hn. unfold digest. replace n with (n - 1 + 1)%nat by lia. rewrite digest_loop_add. cbn [digest_loop].
  unfold hexdigest. rewrite length_hexencode. by destruct (SHA512_digest (digest_loop (n - 1) (password ++ salt))) as [-> _].
Qed.

Lemma digest_S p s n : digest p s (S n) = hexdigest (digest p s n).
Proof. unfold digest. replace (S n) with (n + 1)%nat by lia. by rewrite digest_loop_add. Qed.

(** Passwords with one digest are the same with their salts behind them, or SHA-512 has a
    collision at one of the stretches. *)
Theorem digest_collision p s p' s' n : p ++ s ≠ p' ++ s' → digest p s n = digest p' s' n →
  ∃ k, (k < n)%nat ∧ digest p s k ≠ digest p' s' k ∧ SHA512 (digest p s k) = SHA512 (digest p' s' k).
Proof.
  intros Hne. induction n as [|n IH]; intros E; [done|]. destruct (decide (digest p s n = digest p' s' n)) as [En|Hn].
  - destruct (IH En) as (k & Hk & H1 & H2). exists k. split_and!; [lia|done|done].
  - exists n. split_and!; [lia|done|]. rewrite !digest_S in E. by apply hexencode_inj in E; [|apply SHA512_digest..].
Qed.

(** Nothing is between the password and its salt. *)
Theorem digest_of_shifted_salt p c s n : digest (p ++ [c]) s n = digest p (c :: s) n.
Proof. unfold digest. by rewrite <- app_assoc. Qed.

(** Without a stretch it is the password itself. *)
Theorem digest_without_stretches p s : digest p s 0 = p ++ s.
Proof. done. Qed.
End digest.

(** ** The functions of the C libraries *)

(** What is in the buffer of [maxlen] characters from its start on, and the result. *)
Inductive platform := Windows | Posix.

(** [_vsnprintf] and [_vsnwprintf]. *)
Definition windows_vsnprintf (maxlen : nat) (text : list Z) : list Z * Z :=
  if (length text <? maxlen)%nat then (text ++ [0], Z.of_nat (length text))
  else if (length text =? maxlen)%nat then (text, Z.of_nat (length text))
  else (take maxlen text, -1).
(** [vsnprintf], and [vswprintf] whose result is negative when there is not space enough. *)
Definition posix_vsnprintf (wide : bool) (maxlen : nat) (text : list Z) : list Z * Z :=
  if (length text <? maxlen)%nat then (text ++ [0], Z.of_nat (length text))
  else (take (maxlen - 1) text ++ [0], if wide then -1 else Z.of_nat (length text)).

(** ** The wrappers *)

Definition vsnprintf (p : platform) (wide : bool) (maxlen : nat) (text : list Z) : list Z * Z :=
  let '(buffer, result) :=
    match p with
    | Windows =>
        let '(buffer, result) := windows_vsnprintf maxlen text in
        let buffer := if result =? sint 32 (Z.of_nat maxlen) then <[(maxlen - 1)%nat := 0]> buffer else buffer in
        (if result =? -1 then <[(maxlen - 1)%nat := 0]> buffer else buffer, result)
    | Posix => posix_vsnprintf wide maxlen text
    end in
  (buffer, if result =? -1 then sint 32 (Z.of_nat (maxlen + 1)) else result).

Definition format_maxlen : nat := 1024.
Definition formatString (p : platform) (wide : bool) (text : list Z) : list Z :=
  let '(buffer, result) := vsnprintf p wide format_maxlen text in
  if 0 <? result then c_string buffer else [].

(** [formatString("Exception: (%s:%d), %s", file, fileno, msg)] *)
Definition Exception_what (p : platform) (text : list Z) : list Z := formatString p false text.

(** *** What they keep *)

(** A text without a zero, which a format cannot write but by [%c]. *)
Definition is_text (text : list Z) : Prop := 0 ∉ text.

Lemma is_text_take n text : is_text text → is_text (take n text).
Proof. intros Ht Hin. apply Ht. rewrite <- (take_drop n text). apply elem_of_app. by left. Qed.

Lemma cut_at_end (maxlen : nat) (text : list Z) : (0 < maxlen ≤ length text)%nat →
  <[(maxlen - 1)%nat := 0]> (take maxlen text) = take (maxlen - 1) text ++ [0].
Proof.
  intros Hm. destruct (lookup_lt_is_Some_2 text (maxlen - 1)) as [c Hc]; [lia|].
  replace maxlen with (S (maxlen - 1)) at 2 by lia. rewrite (take_S_r text (maxlen - 1) c Hc).
  rewrite insert_app_r_alt by (rewrite length_take; lia). rewrite length_take, Nat.min_l by lia. by rewrite Nat.sub_diag.
Qed.

(** Both platforms leave the same string in the buffer, as much of the text as it has
    place for, with its zero; and say that something was written when the text is not empty. *)
Lemma vsnprintf_ok p wide maxlen text : is_text text → (1 < maxlen)%nat → Z.of_nat maxlen + 1 < 2 ^ 31 →
  Z.of_nat (length text) < 2 ^ 31 → ∃ rest result,
  vsnprintf p wide maxlen text = (take (maxlen - 1) text ++ 0 :: rest, result) ∧ (0 < result ↔ text ≠ []) ∧
  (length (take (maxlen - 1) text ++ 0%Z :: rest) ≤ maxlen)%nat ∧
  (Z.of_nat maxlen ≤ result ↔ (maxlen ≤ length text)%nat).
Proof.
  intros Ht Hm Hw Hl.
  assert (Hs : ∀ n, (n ≤ maxlen + 1)%nat → sint 32 (Z.of_nat n) = Z.of_nat n)
    by (intros n Hn; apply sint_id; unfold is_sint; change (2 ^ (32 - 1)) with (2 ^ 31); lia).
  assert (Hne : text ≠ [] ↔ (0 < length text)%nat) by (destruct text; cbn; split; [done|lia|lia|done]).
  assert (Hshort : (length text < maxlen)%nat → text ++ [0] = take (maxlen - 1) text ++ [0]) by (intros; by rewrite take_ge by lia).
  assert (Hlen : (length (take (maxlen - 1) text ++ [0%Z]) ≤ maxlen)%nat) by (rewrite length_app, length_take; cbn; lia).
  exists []. setoid_rewrite Hne. unfold vsnprintf, windows_vsnprintf, posix_vsnprintf. destruct (Nat.ltb_spec (length text) maxlen) as [Hlt|Hge].
  - exists (Z.of_nat (length text)). rewrite <- Hshort in * by done. destruct p.
    + rewrite Hs, (proj2 (Z.eqb_neq (Z.of_nat (length text)) (Z.of_nat maxlen))), (proj2 (Z.eqb_neq (Z.of_nat (length text)) (-1))) by lia.
      split_and!; [done|lia|done|lia].
    + rewrite (proj2 (Z.eqb_neq (Z.of_nat (length text)) (-1))) by lia. split_and!; [done|lia|done|lia].
  - rewrite Hs by lia. destruct p.
    + destruct (Nat.eqb_spec (length text) maxlen) as [He|Hn].
      * exists (Z.of_nat maxlen). rewrite He, Z.eqb_refl, (proj2 (Z.eqb_neq (Z.of_nat maxlen) (-1))) by lia.
        pose proof (cut_at_end maxlen text ltac:(lia)) as Hc. rewrite take_ge in Hc by lia. rewrite Hc. split_and!; [done|lia|done|lia].
      * exists (Z.of_nat (maxlen + 1)). rewrite Hs, (proj2 (Z.eqb_neq (-1) (Z.of_nat maxlen))) by lia.
        change (-1 =? -1) with true. cbv iota. rewrite (cut_at_end maxlen text) by lia. split_and!; [done|lia|done|lia].
    + destruct wide.
      * exists (Z.of_nat (maxlen + 1)). change (-1 =? -1) with true. cbv iota. rewrite Hs by lia. split_and!; [done|lia|done|lia].
      * exists (Z.of_nat (length text)). rewrite (proj2 (Z.eqb_neq (Z.of_nat (length text)) (-1))) by lia. split_and!; [done|lia|done|lia].
Qed.

(** The text itself, cut at 1023 characters, on either platform. *)
Theorem formatString_cuts p wide text : is_text text → Z.of_nat (length text) < 2 ^ 31 →
  formatString p wide text = take (format_maxlen - 1) text.
Proof.
  intros Ht Hl. destruct (vsnprintf_ok p wide format_maxlen text Ht) as (rest & result & E & Hr & _); [by apply Nat.ltb_lt|done|done|].
  unfold formatString. rewrite E. destruct (Z.ltb_spec 0 result) as [Hpos|Hneg].
  - apply c_string_app. by apply is_text_take.
  - destruct text as [|c text]; [done|]. pose proof (proj2 Hr ltac:(done)). lia.
Qed.

(** ** [log] *)

Definition log_maxlen : nat := 2048.

(** The records that go to the sinks; an empty message is asserted not to be. *)
Inductive log_record := mkRecord (level : SeverityLevel) (message : list Z).

Definition log_formatted (p : platform) (level : SeverityLevel) (place text : list Z) (l : Logging) : list (log_sink * log_record) :=
  if negb (log_enabled l) then []
  else
    let '(buffer, result) := vsnprintf p false log_maxlen text in
    if result <=? 0 then []
    else (λ sink, (sink, mkRecord level (place ++ c_string buffer))) <$> log_to level l.

(** [stackTrace]: the text "StackTrace:\n%s" becomes, for a fatal error. *)
Definition log (p : platform) (level : SeverityLevel) (text stackTrace : list Z) (l : Logging) : list (log_sink * log_record) :=
  log_formatted p level [] text l ++
  (if bool_decide (level = fatal) && negb (bool_decide (text = [])) then log_formatted p error [] stackTrace l else []).
(** The one with the function and the line: [place] is "(function:line)". *)
Definition log_at (p : platform) (place : list Z) (level : SeverityLevel) (text : list Z) (l : Logging) : list (log_sink * log_record) :=
  log_formatted p level place text l.

(** A message goes to the sinks that the filter lets it through to, cut at 2047 characters,
    on either platform. *)
Theorem log_message_cuts p level place text l : is_text text → text ≠ [] → Z.of_nat (length text) < 2 ^ 31 →
  log_formatted p level place text l = (λ sink, (sink, mkRecord level (place ++ take (log_maxlen - 1) text))) <$> log_to level l.
Proof.
  intros Ht Hne Hl. destruct (vsnprintf_ok p false log_maxlen text Ht) as (rest & result & E & Hr & _); [by apply Nat.ltb_lt|done|done|].
  unfold log_formatted. destruct (log_enabled l) eqn:El; cbn [negb].
  - rewrite E. destruct (Z.leb_spec result 0); [pose proof (proj2 Hr Hne); lia|]. rewrite c_string_app by (by apply is_text_take). done.
  - unfold log_to. by rewrite El.
Qed.

(** Nothing is written by a log that is silent. *)
Theorem silent_log p level text trace_ l : log p level text trace_ (silent l) = [].
Proof. unfold log. by destruct (_ && _). Qed.
