(* ===== verification/Rcon.v ===== *)
(** * server/rcon: queries and commands from outside

    Models [rcon::Service] with its methods [QueryRpcMethod] and [CommandRpcMethod]
    ([src/src/server/rcon/Service.cpp]).  The values of anyrpc are a parameter with the
    operations that the source calls; so are the query sources and the commands, which
    are objects of the application. *)

From S2P Require Import Prelude.

(** [anyrpc::Value]; [GetString] of a value that is no string throws, and the index of
    an array that is too short makes it longer. *)
Class RpcValue (V : Type) := {
  rv_IsArray : V → bool;
  rv_Size : V → nat;
  rv_at : nat → V → V;
  rv_GetString : V → option string;
}.

(** The texts [{"error":...}] of the source. *)
Inductive rcon_error := InvalidParameter | CantFindQuerySource | CantFindCommand.
(** What a call assigns to its result: the member "result", or the whole. *)
Inductive rpc_result := ResultMember (e : rcon_error) | ResultText (text : string).

(** ** The service *)

Record Service (Source Command : Type) := mkService {
  isRunning_ : bool;
  rcon_listening : bool;                     (* [rpcServer_]: bound, and not shut down *)
  querySources : gmap string Source;         (* of [queryRpc_] *)
  rcon_commands : gmap string Command;       (* of [commandRpc_] *)
}.
Arguments mkService {Source Command} _ _ _ _.
Arguments isRunning_ {Source Command} _.
Arguments rcon_listening {Source Command} _.
Arguments querySources {Source Command} _.
Arguments rcon_commands {Source Command} _.

Section service.
Context {V Source Command : Type} `{RpcValue V}.
Context (query : Source → string → string → string).              (* [QuerySource::query] *)
Context (execute : Command → string → V → V → V → string).        (* [Command::execute] *)

#[local] Abbreviation service := (Service Source Command).

Definition getStringOf (v : V) : result string :=
  match rv_GetString v with Some s => Ok s | None => Throw (RuntimeError "AnyRpcException") end.

(** [QueryRpcMethod::Execute] *)
Definition query_Execute (sources : gmap string Source) (params : V) : result rpc_result :=
  if negb (rv_IsArray params) || negb (rv_Size params =? 2)%nat then Ok (ResultMember InvalidParameter)
  else
    match getStringOf (rv_at 0 params), getStringOf (rv_at 1 params) with
    | Throw e, _ | _, Throw e => Throw e
    | Ok name, Ok detail =>
        match sources !! name with
        | None => Ok (ResultMember CantFindQuerySource)
        | Some s => Ok (ResultText (query s name detail))
        end
    end.

(** [CommandRpcMethod::Execute] *)
Definition command_Execute (commands : gmap string Command) (params : V) : result rpc_result :=
  if negb (rv_IsArray params) || (rv_Size params <? 2)%nat then Ok (ResultMember InvalidParameter)
  else
    match getStringOf (rv_at 0 params) with
    | Throw e => Throw e
    | Ok name =>
        match commands !! name with
        | None => Ok (ResultMember CantFindCommand)
        | Some c => Ok (ResultText (execute c name (rv_at 1 params) (rv_at 2 params) (rv_at 3 params)))
        end
    end.

(** [emplace] keeps what is there, which the source only asserts against. *)
Definition emplace {A} (name : string) (a : A) (m : gmap string A) : gmap string A :=
  match m !! name with Some _ => m | None => <[name := a]> m end.

(** [Service::Service]; [echo] is the source of a debug build. *)
Definition newService (echo : option Source) : service :=
  mkService false false (match echo with Some s => emplace "echo" s ∅ | None => ∅ end) ∅.
Definition registerQuerySource (name : string) (s : Source) (r : service) : service :=
  mkService (isRunning_ r) (rcon_listening r) (emplace name s (querySources r)) (rcon_commands r).
Definition registerCommand (name : string) (c : Command) (r : service) : service :=
  mkService (isRunning_ r) (rcon_listening r) (querySources r) (emplace name c (rcon_commands r)).

(** [BindAndListen] answers [bound]; the task that works every 10 milliseconds is
    scheduled then. *)
Definition service_start (bound : bool) (r : service) : bool * service :=
  if negb bound then (false, r) else (true, mkService true true (querySources r) (rcon_commands r)).
Definition service_stop (r : service) : service :=
  if negb (isRunning_ r) then r else mkService false false (querySources r) (rcon_commands r).

(** The task: [Work] of the server calls the method of a request that came. *)
Inductive rpc_request := CallQuery (params : V) | CallCommand (params : V).
Definition service_work (q : rpc_request) (r : service) : option (result rpc_result) :=
  if isRunning_ r then
    Some (match q with
          | CallQuery params => query_Execute (querySources r) params
          | CallCommand params => command_Execute (rcon_commands r) params
          end)
  else None.

(** ** What is answered *)

Lemma emplace_lookup {A} name (a : A) m : is_Some (emplace name a m !! name).
Proof. unfold emplace. destruct (m !! name) eqn:E; [by rewrite E|by rewrite lookup_insert_eq]. Qed.
Lemma emplace_keeps {A} name (a : A) m name' a' : m !! name' = Some a' → emplace name a m !! name' = Some a'.
Proof.
  intros Hm. unfold emplace. destruct (m !! name) eqn:E; [done|]. rewrite lookup_insert_ne; [done|]. by intros ->; congruence.
Qed.

(** A well-formed query of a source that is registered. *)
Lemma query_answered r params name detail s : isRunning_ r = true →
  rv_IsArray params = true → rv_Size params = 2%nat →
  rv_GetString (rv_at 0 params) = Some name → rv_GetString (rv_at 1 params) = Some detail →
  querySources r !! name = Some s → service_work (CallQuery params) r = Some (Ok (ResultText (query s name detail))).
Proof.
  intros Hr Ha Hs Hn Hd Hq. unfold service_work, query_Execute, getStringOf. by rewrite Hr, Ha, Hs, Hn, Hd, Hq.
Qed.
Lemma query_unknown r params name detail : isRunning_ r = true →
  rv_IsArray params = true → rv_Size params = 2%nat →
  rv_GetString (rv_at 0 params) = Some name → rv_GetString (rv_at 1 params) = Some detail →
  querySources r !! name = None → service_work (CallQuery params) r = Some (Ok (ResultMember CantFindQuerySource)).
Proof.
  intros Hr Ha Hs Hn Hd Hq. unfold service_work, query_Execute, getStringOf. by rewrite Hr, Ha, Hs, Hn, Hd, Hq.
Qed.
Lemma query_malformed r params : isRunning_ r = true → rv_IsArray params = false ∨ rv_Size params ≠ 2%nat →
  service_work (CallQuery params) r = Some (Ok (ResultMember InvalidParameter)).
Proof.
  intros Hr Hp. unfold service_work, query_Execute. rewrite Hr. destruct Hp as [->|Hp]; [done|].
  rewrite (proj2 (Nat.eqb_neq _ _) Hp). by rewrite orb_true_r.
Qed.
End service.
