(* ===== verification/ServerApp.v ===== *)
(** * server/app: the life of a server

    Models [ServerApp] ([src/src/server/app/ServerApp.cpp]): [initialize] and [finalize]
    around the virtual methods [onInit], [onStart] and [onFinish] that a server
    overrides.  These are the class [ServerAppHooks]; [ServerAppSpec] says what a server
    must keep, and the theorems on the life of a server are proved against it.

    The machine runs the handlers of the server between and during these calls.
    [onFinish] may wait for the other threads: it is a list of parts, each of which may
    be not yet possible, and the handlers go on between them. *)

From S2P Require Import Prelude Monitors ServerConfig.

(** What the system answers to the calls of [initialize]; [E] is what it answers to a
    server's own. *)
Record start_environment (E : Type) := mkStart {
  se_args : list string;
  se_config : environment;
  se_lexical_cast : string → option Z;      (* [lexical_cast<size_t>] *)
  se_directories : bool;                    (* [create_directories] and [current_path] succeed *)
  se_pid_writable : bool;
  se_own : E;
}.
Arguments mkStart {E} _ _ _ _ _ _.
Arguments se_args {E} _.
Arguments se_config {E} _.
Arguments se_lexical_cast {E} _.
Arguments se_directories {E} _.
Arguments se_pid_writable {E} _.
Arguments se_own {E} _.

(** The virtual methods of a server with the members [X], and its handlers. *)
Class ServerAppHooks (X E Ev : Type) := {
  onInit : start_environment E → ServerConfig → st X bool;
  onStart : start_environment E → st X bool;
  onFinish : list (X → option X);
  own_event : Ev → X → option X;
}.

(** One after the other, until one returns [false]. *)
Fixpoint all_of {S} (l : list (st S bool)) : st S bool :=
  match l with
  | [] => mret true
  | m :: l => ok ← m; if (ok : bool) then all_of l else mret false
  end.

(** [ServerApp::onInit] *)
Definition ServerApp_onInit {E} (env : start_environment E) : result bool :=
  if se_directories env then Ok true else Throw (RuntimeError "filesystem_error").

(** [ServerApp::initLogger] *)
Definition initLogger (env : environment) (lexical_cast : string → option Z) (c : ServerConfig) (l : Logging) : result Logging :=
  match configReader_ c with
  | None => Throw (Undefined "a null config reader")
  | Some r =>
      match cr_getString (ConfigReader := IniFileConfigReader_reader env) "log" "file-pattern" r with
      | Throw e => Throw e
      | Ok pattern =>
          match getNumeric (H := IniFileConfigReader_reader env) lexical_cast "log" "rotation-size" r with
          | Throw e => Throw e
          | Ok rotationSize =>
              match cr_getString (ConfigReader := IniFileConfigReader_reader env) "log" "severity-level" r with
              | Throw e => Throw e
              | Ok level =>
                  Ok (enableFileLog (getLogDir env c +:+ "/" +:+ serviceName_ c +:+ pattern) rotationSize
                        (setSeverityLevel level (newLogManager l)))
              end
          end
      end
  end.

(** [initialize] and [finalize] call [onFinish]; the number of its parts that are done. *)
Inductive app_phase :=
| NotStarted
| Running
| Finishing (failed : bool) (parts : nat)      (* [initialize] failed, or [finalize] *)
| Finished (failed : bool).
#[global] Instance app_phase_eq_dec : EqDecision app_phase.
Proof. solve_decision. Defined.

Record ServerApp (X : Type) := mkServerApp {
  serviceConfig_ : ServerConfig;
  app_logging : Logging;
  app_pid : option string;                 (* the PID file that is there *)
  phase : app_phase;
  derived : X;
}.
Arguments mkServerApp {X} _ _ _ _ _.
Arguments serviceConfig_ {X} _.
Arguments app_logging {X} _.
Arguments app_pid {X} _.
Arguments phase {X} _.
Arguments derived {X} _.

Inductive app_event (E Ev : Type) :=
| Initialize (env : start_environment E)
| OwnEvent (e : Ev)
| Finalize
| FinishPart.                               (* the next part of [onFinish], or its return *)
Arguments Initialize {E Ev} _.
Arguments OwnEvent {E Ev} _.
Arguments Finalize {E Ev}.
Arguments FinishPart {E Ev}.

Section app.
Context {X E Ev : Type} `{ServerAppHooks X E Ev}.
#[local] Abbreviation app := (ServerApp X).

Definition set_phase (p : app_phase) (a : app) : app :=
  mkServerApp (serviceConfig_ a) (app_logging a) (app_pid a) p (derived a).
Definition set_derived (x : X) (a : app) : app :=
  mkServerApp (serviceConfig_ a) (app_logging a) (app_pid a) (phase a) x.
Definition set_pid (f : option string) (a : app) : app :=
  mkServerApp (serviceConfig_ a) (app_logging a) f (phase a) (derived a).
Definition set_config (c : ServerConfig) (a : app) : app :=
  mkServerApp c (app_logging a) (app_pid a) (phase a) (derived a).
Definition set_logging (l : Logging) (a : app) : app :=
  mkServerApp (serviceConfig_ a) l (app_pid a) (phase a) (derived a).

Definition getPidPath (env : environment) (c : ServerConfig) : string := getLogDir env c +:+ "/" +:+ serviceName_ c +:+ ".pid".

Definition lift_result {S A} (r : result A) : st S A := λ s, (r, s).
Definition require (what : string) (ok : bool) : st app unit := if ok then mret tt else throw (RuntimeError what).
Definition on_derived {A} (m : st X A) : st app A := zoom derived set_derived m.

(** The [try] block of [initialize]. *)
Definition start_up (env : start_environment E) : st app unit :=
  ok ← zoom serviceConfig_ set_config (parse_config (se_config env) (se_args env));
  require "Failed to parse config." ok ;;
  a ← get_st;
  l ← lift_result (initLogger (se_config env) (se_lexical_cast env) (serviceConfig_ a) (app_logging a));
  modify (set_logging l) ;;
  ok ← on_derived (onInit env (serviceConfig_ a));
  require "Failed to ServerApp::onInit()." ok ;;
  ok ← on_derived (onStart env);
  require "Failed to ServerApp::onStart()." ok.

(** [initialize]; what is no [std::exception] is not caught and ends the process. *)
Definition initialize_app (env : start_environment E) (a : app) : option app :=
  match start_up env a with
  | (Ok _, a) =>
      Some (set_phase Running
        (if se_pid_writable env then set_pid (Some (getPidPath (se_config env) (serviceConfig_ a))) a else a))
  | (Throw (Undefined _ | ComError _), _) => None
  | (Throw _, a) => Some (set_phase (Finishing true 0) a)
  end.

(** A part of [onFinish]; after the last one [finalize] removes the PID file. *)
Definition finish_part (failed : bool) (parts : nat) (a : app) : option app :=
  match onFinish !! parts with
  | Some part => x ← part (derived a); Some (set_phase (Finishing failed (S parts)) (set_derived x a))
  | None => Some (set_phase (Finished failed) (if failed then a else set_pid None a))
  end.

Definition app_exec (e : app_event E Ev) (a : app) : option app :=
  match e, phase a with
  | Initialize env, NotStarted => initialize_app env a
  | OwnEvent e, (Running | Finishing _ _ | Finished _) => x ← own_event e (derived a); Some (set_derived x a)
  | Finalize, Running => Some (set_phase (Finishing false 0) a)
  | FinishPart, Finishing failed parts => finish_part failed parts a
  | _, _ => None
  end.

Definition newApp (l : Logging) (x : X) : app := mkServerApp newServerConfig l None NotStarted x.

(** A run of handlers. *)
Lemma own_runs (es : list Ev) x x' (a : app) : phase a ≠ NotStarted → runs_exec own_event es x = Some x' →
  runs_exec app_exec (OwnEvent <$> es) (set_derived x a) = Some (set_derived x' a).
Proof.
  intros Hp. revert x. induction es as [|e es IH]; intros x; cbn [runs_exec fmap list_fmap]; [by intros [= ->]|].
  destruct (own_event e x) as [x1|] eqn:Ex; [|done]. cbn [mbind option_bind]. intros Hr.
  assert (app_exec (OwnEvent e) (set_derived x a) = Some (set_derived x1 a)) as ->; [|by apply IH].
  unfold app_exec. cbn [phase set_derived derived]. rewrite Ex. by destruct (phase a).
Qed.
End app.

(** ** What a server keeps *)

(** [app_inv x] holds from [onInit] on; [done_parts n x] after [n] parts of [onFinish]. *)
Class ServerAppSpec (X E Ev : Type) `{ServerAppHooks X E Ev} := {
  app_initial : X → Prop;
  done_parts : nat → X → Prop;
  app_started : start_environment E → X → Prop;          (* what [initialize] has brought up *)
  init_ok env c x : configured (se_config env) (se_args env) c → app_initial x → ∃ r x', onInit env c x = (r, x') ∧ done_parts 0 x' ∧
    ∀ w, r ≠ Throw (Undefined w);
  start_ok env c x x1 : configured (se_config env) (se_args env) c → app_initial x → onInit env c x = (Ok true, x1) →
    ∃ r x', onStart env x1 = (r, x') ∧ done_parts 0 x' ∧ (∀ w, r ≠ Throw (Undefined w)) ∧ (r = Ok true → app_started env x');
  initial_ok x : app_initial x → done_parts 0 x;
  part_ok n part x x' : onFinish !! n = Some part → done_parts n x → part x = Some x' → done_parts (S n) x';
  event_ok n e x x' : done_parts n x → own_event e x = Some x' → done_parts n x';
  started_event env e x x' : done_parts 0 x → app_started env x → own_event e x = Some x' → app_started env x';
}.
Arguments app_started {X E Ev _ _} _ _.

Section life.
Context {X E Ev : Type} `{HS : ServerAppSpec X E Ev}.
#[local] Abbreviation app := (ServerApp X).

(** What holds of a server in each phase. *)
Definition app_inv (a : app) : Prop :=
  match phase a with
  | NotStarted => app_initial (derived a) ∧ app_pid a = None ∧ serviceConfig_ a = newServerConfig
  | Running => done_parts 0 (derived a) ∧ ∃ env, app_started env (derived a) ∧ configured (se_config env) (se_args env) (serviceConfig_ a)
  | Finishing failed n => (n ≤ length onFinish)%nat ∧ done_parts n (derived a) ∧ (failed = true → app_pid a = None)
  | Finished failed => done_parts (length onFinish) (derived a) ∧ app_pid a = None
  end.

Definition no_undefined {A} (r : result A) : Prop := ∀ w, r ≠ Throw (Undefined w).

Lemma initLogger_ok env lexical_cast c l r : configReader_ c = Some r → no_undefined (initLogger env lexical_cast c l).
Proof.
  intros Hr w. unfold initLogger, getNumeric. rewrite Hr. cbn [cr_getString IniFileConfigReader_reader]. unfold ini_getString.
  destruct (ptree_ r !! _); [|done]. destruct (ptree_ r !! _); [|done]. destruct (lexical_cast _); [|done].
  by destruct (ptree_ r !! _).
Qed.

(** The [try] block: it ends, without undefined behaviour, in a state that [onFinish]
    can deal with. *)
Lemma start_up_ok env (a : app) : app_inv a → phase a = NotStarted → ∃ r a', start_up env a = (r, a') ∧
  no_undefined r ∧ done_parts 0 (derived a') ∧ app_pid a' = None ∧
  (r = Ok tt → app_started env (derived a') ∧ configured (se_config env) (se_args env) (serviceConfig_ a')).
Proof.
  unfold app_inv. intros Hi Hp. rewrite Hp in Hi. destruct Hi as (Hi & Hpid & Hc). unfold start_up.
  pose proof (parse_config_total (se_config env) (se_args env) newServerConfig) as Ht.
  unfold mbind at 1. unfold st_bind at 1, zoom at 1. rewrite Hc.
  destruct (parse_config (se_config env) (se_args env) newServerConfig) as [[ok|e] c] eqn:Epc.
  2: { do 2 eexists. split; [done|]. split_and!; try done; [by intros w [= ->]; destruct Ht|by apply initial_ok]. }
  destruct ok; cbn [require].
  2: { do 2 eexists. split; [reflexivity|]. split_and!; try done. by apply initial_ok. }
  apply parse_config_ok in Epc. pose proof Epc as Hconf. assert (∃ r, configReader_ c = Some r) as [r Hr] by
    (destruct Epc as (o & file & h & t & _ & _ & _ & _ & _ & _ & _ & _ & Ec); rewrite Ec; by eexists).
  pose proof (initLogger_ok (se_config env) (se_lexical_cast env) c (app_logging a) r Hr) as Hl.
  cbv beta iota delta [mbind st_bind mret st_ret get_st lift_result modify]. cbn [serviceConfig_ set_config app_logging].
  destruct (initLogger _ _ _ _) as [l|e].
  2: { do 2 eexists. split; [done|]. split_and!; try done; [by intros w [= ->]; destruct (Hl w)|by apply initial_ok]. }
  unfold on_derived, zoom. cbn [derived set_logging set_config].
  destruct (init_ok env c (derived a) Hconf Hi) as (r1 & x1 & E1 & Hd1 & Hu1). rewrite E1.
  destruct r1 as [[]|e]; cbv beta iota delta [require mbind st_bind mret st_ret throw].
  2: { do 2 eexists. split; [reflexivity|]. by split_and!. }
  2: { do 2 eexists. split; [reflexivity|]. split_and!; try done. intros w [= ->]. by destruct (Hu1 w). }
  cbn [derived set_derived].
  destruct (start_ok env c (derived a) x1 Hconf Hi E1) as (r2 & x2 & E2 & Hd2 & Hu2 & Hs2). rewrite E2.
  destruct r2 as [[]|e]; do 2 eexists; (split; [reflexivity|]); split_and!; try done.
  - intros _. split; [by apply Hs2|done].
  - intros w [= ->]. by destruct (Hu2 w).
Qed.

Lemma own_step e (a a' : app) : (∀ x, own_event e (derived a) = Some x → app_inv (set_derived x a)) →
  (x ← own_event e (derived a); Some (set_derived x a)) = Some a' → app_inv a'.
Proof. intros Hx Hs. destruct (own_event e (derived a)) as [x|]; [|done]. injection Hs as <-. by apply Hx. Qed.

Lemma app_step e a a' : app_inv a → app_exec e a = Some a' → app_inv a'.
Proof.
  intros Hi. unfold app_exec. destruct e as [env|e| |], (phase a) as [| |failed n|failed] eqn:Ep; try done.
  - destruct (start_up_ok env a Hi Ep) as (r & a1 & Eu & Hu & Hd & Hpid & Hs). unfold initialize_app. rewrite Eu.
    destruct r as [[]|e].
    + intros [= <-]. destruct (Hs eq_refl) as [Hst Hcf]. unfold app_inv. cbn [phase set_phase].
      destruct (se_pid_writable env); (split; [done|]; by exists env).
    + destruct e; try done; try (intros [= <-]; unfold app_inv; cbn [phase set_phase]; split_and!; [lia|done|done]).
  - apply own_step. unfold app_inv in *. rewrite Ep in Hi. intros x Hx. cbn [phase set_derived derived serviceConfig_]. rewrite Ep.
    destruct Hi as (Hd & env & Hst & Hcf). split; [by eapply event_ok|]. exists env. split; [by eapply started_event|done].
  - apply own_step. unfold app_inv in *. rewrite Ep in Hi. intros x Hx. cbn [phase set_derived derived app_pid]. rewrite Ep.
    destruct Hi as (Hn & Hd & Hpid). split_and!; [done|by eapply event_ok|done].
  - apply own_step. unfold app_inv in *. rewrite Ep in Hi. intros x Hx. cbn [phase set_derived derived app_pid]. rewrite Ep.
    destruct Hi as (Hd & Hpid). split; [by eapply event_ok|done].
  - intros [= <-]. unfold app_inv in *. rewrite Ep in Hi. cbn. split_and!; [lia|by destruct Hi|done].
  - unfold finish_part, app_inv in *. rewrite Ep in Hi. destruct Hi as (Hn & Hd & Hpid). destruct (onFinish !! n) as [part|] eqn:Eo.
    + apply lookup_lt_Some in Eo as Hlt. destruct (part (derived a)) as [x|] eqn:Ex; [|done]. intros [= <-]. cbn.
      split_and!; [done|by eapply part_ok|done].
    + intros [= <-]. cbn [phase set_phase]. apply lookup_ge_None in Eo. assert (n = length onFinish) as -> by lia.
      destruct failed; (split; [done|]); [by apply Hpid|done].
Qed.

Lemma newApp_inv l x : app_initial x → app_inv (newApp l x).
Proof. done. Qed.
End life.
