(* ===== verification/SessionApp.v ===== *)
(** * server/app: a server of sessions

    Models [SessionServerApp] ([src/src/server/app/SessionServerApp.cpp]) as an instance
    of the hooks of [ServerApp.v]: its [IoContextTask]s ([src/src/base/io_context/
    IoContextTask.cpp]: contexts, threads, [stop]), the manager of sessions of
    [SessionManager.v], the task scheduler and the service of [Rcon.v].  The handlers of
    the server are those of the acceptors and the sessions; they run while an
    [io_context] runs. *)

From stdpp Require Import pretty.
From S2P Require Import Prelude Monitors MemoryPool StreamBuffer MemoryBlock Packet Marshaller BandwidthLimit TcpSession TcpSessionSpec.
From S2P Require Import SessionManager SessionManagerSpec ServerSpec ServerConfig Rcon ServerApp.

(** ** [IoContextTask]: its contexts, and whether each is stopped *)

Record IoTask := mkIoTask { io_stopped : list bool; io_threads : nat }.
Definition newIoTask : IoTask := mkIoTask [] 0.

(** [create_thread] throws when the system has no thread: [created i] says whether
    thread [i] could be made. *)
Fixpoint create_contexts (created : nat → bool) (i n : nat) : st IoTask unit :=
  match n with
  | O => mret tt
  | S n =>
      modify (λ t, mkIoTask (io_stopped t ++ [false]) (io_threads t)) ;;
      (if created i then modify (λ t, mkIoTask (io_stopped t) (S (io_threads t)))
       else throw (RuntimeError "thread_resource_error")) ;;
      create_contexts created (S i) n
  end.
Definition task_start (created : nat → bool) (threadCount : nat) : st IoTask bool :=
  if bool_decide (threadCount = 0%nat) then throw (RuntimeError "threadCount size is 0")
  else create_contexts created 0 threadCount ;; mret true.
Definition task_stop (t : IoTask) : IoTask := mkIoTask (replicate (length (io_stopped t)) true) (io_threads t).
Definition task_runs (t : IoTask) : bool := existsb negb (io_stopped t).

Lemma create_contexts_ok created i n t : ∃ r t', create_contexts created i n t = (r, t') ∧
  match r with
  | Ok _ => t' = mkIoTask (io_stopped t ++ replicate n false) (io_threads t + n)
  | Throw e => e = RuntimeError "thread_resource_error"
  end.
Proof.
  revert i t. induction n as [|n IH]; intros i t; cbn [create_contexts].
  - do 2 eexists. split; [done|]. cbn. rewrite app_nil_r, Nat.add_0_r. by destruct t.
  - cbv beta iota delta [mbind st_bind modify]. destruct (created i); cbn [throw].
    + destruct (IH (S i) (mkIoTask (io_stopped t ++ [false]) (S (io_threads t)))) as (r & t' & E & Hr).
      exists r, t'. split; [done|]. destruct r; [|done]. rewrite Hr. cbn. rewrite <- app_assoc. f_equal. lia.
    + by do 2 eexists.
Qed.
Lemma task_start_ok created n : ∃ r t, task_start created n newIoTask = (r, t) ∧ (∀ w, r ≠ Throw (Undefined w)) ∧
  r ≠ Ok false ∧ (r = Ok true → t = mkIoTask (replicate n false) n ∧ n ≠ 0%nat).
Proof.
  unfold task_start. case_bool_decide; [by do 2 eexists|].
  destruct (create_contexts_ok created 0 n newIoTask) as (r & t & E & Hr). cbv beta iota delta [mbind st_bind]. rewrite E.
  destruct r as [[]|e]; do 2 eexists; (split; [done|]); split_and!; try done.
  intros w [= ->]. done.
Qed.
Lemma task_stop_runs t : task_runs (task_stop t) = false.
Proof. unfold task_runs, task_stop. cbn. by induction (length (io_stopped t)). Qed.

(** ** [SessionServerApp] *)

(** The objects that answer queries: the server itself, and that of a debug build. *)
Inductive query_source := ThisServer | EchoQuerySource.

(** What the system answers when the server starts. *)
Record session_environment := mkSessionEnv {
  en_created : nat → bool;                 (* threads *)
  en_bound : bool;                         (* [BindAndListen] *)
  en_opens : list (option nat);            (* of each address that is not empty: its endpoints, or a failure *)
}.

Inductive session_app_event :=
| AppAccept (i j : nat) (ended : outcome)  (* the handler of an [async_accept] *)
| AppSession (a : Z) (e : event).          (* a handler of a session *)

Section app.
Context {M A Command : Type} `{Marshaller M}.
Context (react : call → A → bool * list request * A).
Context (malloc : list Z → Z).
Context (capacity : SessionCapacity) (m0 : M) (a0 : A).
(** The virtual [getServerSpec] and [shouldUseDefaultSessionManager]; and whether this is
    a debug build. *)
Context (spec : ServerSpec) (useDefaultSessionManager : bool) (debug_build : bool).

#[local] Abbreviation server := (SessionServer (M := M) (A := A)).
#[local] Abbreviation rcon_service := (Service query_source Command).

Record SessionServerApp := mkSessionApp {
  ioContextTaskMap_ : gmap string IoTask;
  sessionManager_ : option server;         (* [sessionManager_], with its [CachedSessionManager] and acceptors *)
  taskScheduler_ : bool;
  rconService_ : option rcon_service;
  isWarmedUp_ : bool;
}.
#[local] Abbreviation app := SessionServerApp.
Definition newSessionApp : app := mkSessionApp ∅ None false None false.

Definition set_tasks (m : gmap string IoTask) (x : app) : app :=
  mkSessionApp m (sessionManager_ x) (taskScheduler_ x) (rconService_ x) (isWarmedUp_ x).
Definition set_session_manager (v : option server) (x : app) : app :=
  mkSessionApp (ioContextTaskMap_ x) v (taskScheduler_ x) (rconService_ x) (isWarmedUp_ x).
Definition set_scheduler (b : bool) (x : app) : app :=
  mkSessionApp (ioContextTaskMap_ x) (sessionManager_ x) b (rconService_ x) (isWarmedUp_ x).
Definition set_rcon (r : option rcon_service) (x : app) : app :=
  mkSessionApp (ioContextTaskMap_ x) (sessionManager_ x) (taskScheduler_ x) r (isWarmedUp_ x).
Definition warm_up (x : app) : app :=
  mkSessionApp (ioContextTaskMap_ x) (sessionManager_ x) (taskScheduler_ x) (rconService_ x) true.

Definition defaultIoContextName : string := "default".

Definition getIoContextTask (ioContextName : string) : st app IoTask :=
  x ← get_st;
  match ioContextTaskMap_ x !! ioContextName with
  | Some t => mret t
  | None => throw (RuntimeError "IoContextTask NOT FOUND")
  end.

(** Whether a task was added; one that cannot start is destroyed. *)
Definition addIoContextTask (created : nat → bool) (ioContextName : string) (threadCount : Z) : st app bool :=
  if threadCount <=? 0 then mret false
  else
    match task_start created (Z.to_nat threadCount) newIoTask with
    | (Throw e, _) => throw e
    | (Ok false, _) => mret false
    | (Ok true, t) => modify (λ x, set_tasks (emplace ioContextName t (ioContextTaskMap_ x)) x) ;; mret true
    end.

Definition initDefaultIoContextTask (created : nat → bool) : st app bool :=
  addIoContextTask created defaultIoContextName (workerThreadCount_ spec).
Definition initDefaultSessionManager : st app bool :=
  if negb useDefaultSessionManager then mret true
  else if negb (spec_isValid spec) then mret true
  else
    getIoContextTask defaultIoContextName ;;
    modify (set_session_manager (Some (newServer malloc (Z.to_nat (sessionPoolSize_ spec))))) ;;
    mret true.
Definition initTaskScheduler : st app bool :=
  getIoContextTask defaultIoContextName ;; modify (set_scheduler true) ;; mret true.

Definition registerRconQuerySource (name : string) (s : query_source) : st app unit :=
  modify (λ x, set_rcon (registerQuerySource name s <$> rconService_ x) x).
Definition registerRconCommand (name : string) (c : Command) : st app unit :=
  modify (λ x, set_rcon (registerCommand name c <$> rconService_ x) x).
Definition initRconService (bound : bool) : st app bool :=
  if monitorPort_ spec <=? 0 then mret true
  else
    let '(started, r) := service_start bound (newService (if debug_build then Some EchoQuerySource else None)) in
    modify (set_rcon (Some r)) ;;
    if negb started then mret false
    else
      registerRconQuerySource "session.count" ThisServer ;;
      registerRconQuerySource "session.total.count" ThisServer ;;
      mret true.

Definition session_onInit (env : start_environment session_environment) (_ : ServerConfig) : st app bool :=
  all_of [lift_result (ServerApp_onInit env); initDefaultIoContextTask (en_created (se_own env));
          initDefaultSessionManager; initTaskScheduler; initRconService (en_bound (se_own env))].

(** [startSessionAcceptor]: whether every address could be opened. *)
Definition startSessionAcceptor (opens : list (option nat)) (v : server) : option (bool * server) :=
  v ← start_acceptors malloc capacity m0 a0 opens v;
  Some (forallb (λ o, match o with Some (S _) => true | _ => false end) opens, v).

Definition session_onStart (env : start_environment session_environment) : st app bool :=
  modify warm_up ;;
  x ← get_st;
  match sessionManager_ x with
  | None => mret true
  | Some v =>
      match startSessionAcceptor (en_opens (se_own env)) v with
      | None => throw (Undefined "a null session")
      | Some (ok, v) => modify (set_session_manager (Some v)) ;; mret ok
      end
  end.

(** [ServerSideSessionManager::finalize] up to [waitForDone], then [stop] of the tasks. *)
Definition finalize_manager (x : app) : option app :=
  Some (set_session_manager
    ((λ v, cancel_sessions capacity m0 a0 (set_acceptors (close_acceptor <$> sv_acceptors v) v)) <$> sessionManager_ x) x).
Definition wait_and_stop (x : app) : option app :=
  if match sessionManager_ x with Some v => isSafeToDelete (sv_manager v) | None => true end
  then Some (set_tasks (task_stop <$> ioContextTaskMap_ x) x) else None.
Definition session_onFinish : list (app → option app) := [finalize_manager; wait_and_stop].

(** *** The handlers *)

Definition is_running (x : app) : bool :=
  match ioContextTaskMap_ x !! defaultIoContextName with Some t => task_runs t | None => false end.

(** An accept asks [isValidated].  A connection that is accepted after the acceptor was
    closed, or whose failure leaves the socket open, is left out ([SessionManagerSpec.v]). *)
Definition app_server_event (warmedUp : bool) (e : session_app_event) : server_event :=
  match e with
  | AppAccept i j ended => AcceptEnds i j ended warmedUp
  | AppSession a e => SessionRuns a e
  end.
Definition session_own_event (e : session_app_event) (x : app) : option app :=
  if is_running x then
    v ← sessionManager_ x;
    if orderly v (app_server_event true e) then
      v ← server_exec react malloc capacity m0 a0 (app_server_event (isWarmedUp_ x) e) v;
      Some (set_session_manager (Some v) x)
    else None
  else None.

#[export] Instance SessionServerApp_hooks : ServerAppHooks app session_environment session_app_event := {|
  onInit := session_onInit;
  onStart := session_onStart;
  onFinish := session_onFinish;
  own_event := session_own_event;
|}.

(** [SessionServerApp::query] *)
Definition session_query (x : app) (name : string) : string :=
  match sessionManager_ x with
  | Some v =>
      if bool_decide (name = "session.count") then pretty (N.of_nat (getActiveSessionCount (sv_manager v)))
      else if bool_decide (name = "session.total.count") then pretty (N.of_nat (getTotalSessionCount (sv_manager v)))
      else ""
  | None => ""
  end.
Definition query_of (x : app) (s : query_source) (name detail : string) : string :=
  match s with ThisServer => session_query x name | EchoQuerySource => detail end.
End app.
