(* ===== verification/DatabaseProxyApp.v ===== *)
(** * database/proxy: the application of the database server

    Models [BaseDatabaseProxyServerApp] ([src/src/database/proxy/server/
    BaseDatabaseProxyServerApp.cpp]) and [DatabaseManagerFactory]
    ([src/src/database/DatabaseManagerFactory.cpp]).  The class adds the manager of the
    databases and the service with its scheduler to the server it derives from; that
    one is known by the class [ServerAppHooks] alone, and the theorems need no more of it
    than [ServerAppSpec].  The result keeps [ServerAppSpec] again, so that the theorems
    on the life of a server hold for it.

    Which requests the messages of a handler delegate is a parameter, and so is whether
    there is a [TASK_SCHEDULER] yet; the environment tells whether the connections to
    the database, which [DatabaseManager::initialize] makes, can be opened. *)

From S2P Require Import Prelude Monitors DatabaseRequest ServerSession ProxyScheduler DatabaseProxyServer.
From S2P Require Import ServerSpec ServerConfig Rcon ServerApp SessionApp.

(** ** [DatabaseManagerFactory::create] *)

Inductive connection_type := DirectConnection | ProxyConnection.

(** A [DatabaseManager] that was initialized; a direct one pings its idle databases
    with the interval of its task, if there is one. *)
Record database_manager := mkDatabaseManager { connectionType_ : connection_type; pingTask_ : option Z }.

(** [DirectDatabaseManager::initialize], with the pool that it opens. *)
Definition direct_initialize (opened task_scheduler : bool) (pingInterval : Z) : option database_manager :=
  if negb opened then None
  else if negb task_scheduler then Some (mkDatabaseManager DirectConnection None)
  else Some (mkDatabaseManager DirectConnection (if 0 <? pingInterval then Some pingInterval else None)).
(** [ProxyDatabaseManager::initialize] *)
Definition proxy_initialize (opened : bool) : option database_manager :=
  if opened then Some (mkDatabaseManager ProxyConnection None) else None.

(** [opened]: whether the databases can be opened, or an exception. *)
Definition create_manager (env : environment) (lexical_cast : string → option Z)
    (opened : connection_type → option bool) (task_scheduler : bool) (c : ServerConfig) : result (option database_manager) :=
  match configReader_ c with
  | None => Throw (Undefined "a null config reader")
  | Some r =>
      match cr_getString (ConfigReader := IniFileConfigReader_reader env) "database" "connection-type" r with
      | Throw e => Throw e
      | Ok connectionType =>
          let dbManager :=
            if bool_decide (connectionType = "direct") then Some DirectConnection
            else if bool_decide (connectionType = "proxy") then Some ProxyConnection else None in
          match dbManager with
          | None => Ok None
          | Some m =>
              let pingInterval :=
                match getNumeric (H := IniFileConfigReader_reader env) lexical_cast "database" "ping-interval" r with
                | Ok n => n
                | Throw _ => 0                     (* [NotDefinedConfigError] *)
                end in
              match opened m with
              | None => Throw (RuntimeError "DatabaseManager::initialize")
              | Some ok =>
                  Ok (match m with
                      | DirectConnection => direct_initialize ok task_scheduler pingInterval
                      | ProxyConnection => proxy_initialize ok
                      end)
              end
          end
      end
  end.

(** ** The application *)

(** What the system answers besides. *)
Record db_environment (E : Type) := mkDbEnv {
  de_base : E;
  de_lexical_cast : string → option Z;           (* [lexical_cast<msec_t>] *)
  de_opened : connection_type → option bool;
}.
Arguments mkDbEnv {E} _ _ _.
Arguments de_base {E} _.
Arguments de_lexical_cast {E} _.
Arguments de_opened {E} _.

Inductive db_app_event (Ev : Type) :=
| DbBase (e : Ev)                               (* a handler of the server *)
| DbThread (e : @scheduler_event ModifyRequest). (* a thread of the scheduler *)
Arguments DbBase {Ev} _.
Arguments DbThread {Ev} _.

Record BaseDatabaseProxyServerApp (X : Type) := mkDbApp {
  db_base : X;
  proxyDatabaseManager_ : option database_manager;
  scheduler_ : option (@ProxyScheduler ModifyRequest);    (* of [databaseProxyService_] *)
}.
Arguments mkDbApp {X} _ _ _.
Arguments db_base {X} _.
Arguments proxyDatabaseManager_ {X} _.
Arguments scheduler_ {X} _.

Section app.
Context {X E Ev : Type} `{ServerAppHooks X E Ev}.
Context (delegates : Ev → X → list ModifyRequest).
Context (threadCount : nat).                     (* [c2sSpec_.workerThreadCount_] *)
Context (task_scheduler : X → bool).             (* whether [TASK_SCHEDULER] is set *)
#[local] Abbreviation app := (BaseDatabaseProxyServerApp X).

Definition newDbApp (x : X) : app := mkDbApp x None None.
Definition set_base (b : X) (x : app) : app := mkDbApp b (proxyDatabaseManager_ x) (scheduler_ x).
Definition set_databases (m : option database_manager) (x : app) : app := mkDbApp (db_base x) m (scheduler_ x).
Definition set_service_scheduler (s : option ProxyScheduler) (x : app) : app := mkDbApp (db_base x) (proxyDatabaseManager_ x) s.
Definition on_base {A} (m : st X A) : st app A := zoom db_base set_base m.

Definition base_env (env : start_environment (db_environment E)) : start_environment E :=
  mkStart (se_args env) (se_config env) (se_lexical_cast env) (se_directories env) (se_pid_writable env) (de_base (se_own env)).

Definition initDatabaseManager (env : start_environment (db_environment E)) (c : ServerConfig) : st app bool :=
  x ← get_st;
  m ← lift_result (create_manager (se_config env) (de_lexical_cast (se_own env)) (de_opened (se_own env)) (task_scheduler (db_base x)) c);
  modify (set_databases m) ;;
  mret (match m with Some _ => true | None => false end).
Definition initDatabaseProxyService : st app bool :=
  modify (set_service_scheduler (Some (service_initialize threadCount))) ;; mret true.

Definition db_onInit (env : start_environment (db_environment E)) (c : ServerConfig) : st app bool :=
  all_of [initDatabaseManager env c; on_base (onInit (base_env env) c); initDatabaseProxyService].
Definition db_onStart (env : start_environment (db_environment E)) : st app bool :=
  all_of [on_base (onStart (base_env env))].

(** [finishDatabaseProxyService]: [stop], which joins the threads. *)
Definition stop_service (x : app) : option app := Some (set_service_scheduler (service_finalize <$> scheduler_ x) x).
Definition join_service (x : app) : option app :=
  if match scheduler_ x with Some s => join_all s | None => true end then Some x else None.
Definition base_part (part : X → option X) (x : app) : option app := b ← part (db_base x); Some (set_base b x).
Definition db_onFinish : list (app → option app) := (base_part <$> onFinish) ++ [stop_service; join_service].

(** A handler of the server schedules what its messages delegate. *)
Definition db_own_event (e : db_app_event Ev) (x : app) : option app :=
  match e with
  | DbBase e =>
      b ← own_event e (db_base x);
      match delegates e (db_base x) with
      | [] => Some (set_base b x)
      | rs =>
          s ← scheduler_ x;
          Some (set_base b (set_service_scheduler (Some (fold_left (λ s r, service_schedule r s) rs s)) x))
      end
  | DbThread (Svc t choice) => s ← scheduler_ x; s ← svc t choice s; Some (set_service_scheduler (Some s) x)
  | DbThread (Wake t) => s ← scheduler_ x; s ← scheduler_exec request_priority (Wake t) s; Some (set_service_scheduler (Some s) x)
  | DbThread _ => None
  end.

#[export] Instance db_hooks : ServerAppHooks app (db_environment E) (db_app_event Ev) := {|
  onInit := db_onInit;
  onStart := db_onStart;
  onFinish := db_onFinish;
  own_event := db_own_event;
|}.
End app.

(** [BaseDatabaseProxyServerApp::query], after the counters of the scheduler. *)
Definition db_query {X} (base_query : X → string → string → string) (to_string : Z → string)
    (x : BaseDatabaseProxyServerApp X) (name detail : string) : result string :=
  let counter (f : @ProxyScheduler ModifyRequest → Z) :=
    match scheduler_ x with Some s => Ok (to_string (f s)) | None => Throw (Undefined "a null scheduler") end in
  if bool_decide (name = "queue.count") then counter getQueueCount
  else if bool_decide (name = "request.count") then counter queuedCount_
  else if bool_decide (name = "process.count") then counter processedCount_
  else Ok (base_query (db_base x) name detail).

(** ** What the application keeps *)

Section spec.
Context {X E Ev : Type} `{HS : ServerAppSpec X E Ev}.
Context (delegates : Ev → X → list ModifyRequest) (threadCount : nat).
Context (task_scheduler : X → bool) (no_scheduler : ∀ b, app_initial b → task_scheduler b = false).
#[local] Abbreviation app := (BaseDatabaseProxyServerApp X).
#[local] Abbreviation hooks := (db_hooks (X := X) (E := E) (Ev := Ev) delegates threadCount task_scheduler).
#[local] Abbreviation parts := (length (onFinish (ServerAppHooks := H))).

(** The scheduler has only done what its threads and the messages do. *)
Definition scheduler_history (s : @ProxyScheduler ModifyRequest) : Prop :=
  length (threads_ s) = threadCount ∧
  ∃ es, runs_exec (scheduler_exec request_priority) es (running_threads threadCount) = Some s.

Lemma fetch_stop t choice (s s' : @ProxyScheduler ModifyRequest) : fetchRequest t choice s = Some s' →
  stop_ s' = stop_ s ∧ length (threads_ s') = length (threads_ s).
Proof.
  unfold fetchRequest. destruct (requestQueue_ s) as [|m q]; [intros [= <-]; cbn; by rewrite length_insert|].
  destruct (pop choice (m :: q)) as [[m' q']|]; [|done]. intros [= <-]. cbn. by rewrite length_insert.
Qed.
Lemma svc_keeps t choice (s s' : @ProxyScheduler ModifyRequest) : svc t choice s = Some s' →
  stop_ s' = stop_ s ∧ length (threads_ s') = length (threads_ s).
Proof.
  unfold svc. destruct (threads_ s !! t) as [p|]; [|done]. cbn [mbind option_bind].
  destruct p; try done; first [apply fetch_stop|intros [= <-]; cbn; by rewrite length_insert].
Qed.
Lemma svc_stop t choice (s s' : @ProxyScheduler ModifyRequest) : svc t choice s = Some s' → stop_ s' = stop_ s.
Proof. intros Hs. by apply (svc_keeps t choice). Qed.

Lemma history_step e s s' : scheduler_history s → scheduler_exec request_priority e s = Some s' → scheduler_history s'.
Proof.
  intros [Hl (es & Hes)] He. split.
  - rewrite <- Hl. destruct e as [r| |t choice|t]; cbn [scheduler_exec] in He.
    + injection He as <-. unfold schedule. cbn. unfold notify_all. by rewrite length_map.
    + injection He as <-. cbn. unfold notify_all. by rewrite length_map.
    + by apply (svc_keeps t choice).
    + destruct (threads_ s !! t) as [p|]; [|done]. cbn [mbind option_bind] in He. destruct (is_blocked p); [|done].
      injection He as <-. cbn. by rewrite length_insert.
  - exists (es ++ [e]). apply runs_app. exists s. split; [done|]. cbn [runs_exec]. by rewrite He.
Qed.

(** What holds of the scheduler after it was stopped, and after it was joined. *)
Definition service_done (n : nat) (s : @ProxyScheduler ModifyRequest) : Prop :=
  scheduler_history s ∧ ((parts < n)%nat → stop_ s = true) ∧ ((S parts < n)%nat → join_all s = true).

Lemma all_returned (s : @ProxyScheduler ModifyRequest) t p : join_all s = true → threads_ s !! t = Some p → p = Returned.
Proof.
  unfold join_all. rewrite forallb_forall. intros Hj Ht. apply list_elem_of_lookup_2, list_elem_of_In in Ht.
  specialize (Hj _ Ht). by destruct p.
Qed.
Lemma joined_calling (s : @ProxyScheduler ModifyRequest) : join_all s = true → calling s = [].
Proof.
  unfold join_all, calling. induction (threads_ s) as [|p l IH]; [done|]. cbn. by destruct p.
Qed.
Lemma notify_returned (l : list (@svc_phase ModifyRequest)) :
  forallb (λ p, match p with Returned => true | _ => false end) l = true →
  forallb (λ p, match p with Returned => true | _ => false end) (notify_all l) = true.
Proof. induction l as [|p l IH]; [done|]. cbn. destruct p; try done. Qed.

Lemma service_step n e s s' : e ≠ Stop → service_done n s → scheduler_exec request_priority e s = Some s' → service_done n s'.
Proof.
  intros Hne (Hh & Hst & Hj) He. split_and!; [by eapply history_step| |].
  - intros Hn. specialize (Hst Hn). destruct e as [r| |t choice|t]; cbn [scheduler_exec] in He; [|done|..].
    + injection He as <-. exact Hst.
    + by rewrite (svc_stop _ _ _ _ He).
    + destruct (threads_ s !! t) as [p|]; [|done]. cbn [mbind option_bind] in He. destruct (is_blocked p); [|done]. by injection He as <-.
  - intros Hn. specialize (Hj Hn). destruct e as [r| |t choice|t]; cbn [scheduler_exec] in He; [|done|..].
    + injection He as <-. by apply notify_returned.
    + unfold svc in He. destruct (threads_ s !! t) as [p|] eqn:Ep; [|done]. by rewrite (all_returned _ _ _ Hj Ep) in He.
    + destruct (threads_ s !! t) as [p|] eqn:Ep; [|done]. by rewrite (all_returned _ _ _ Hj Ep) in He.
Qed.

Definition db_done (n : nat) (x : app) : Prop :=
  done_parts (n `min` parts) (db_base x) ∧ (∀ m, proxyDatabaseManager_ x = Some m → pingTask_ m = None) ∧
  ∀ s, scheduler_ x = Some s → service_done n s.
Definition db_started (env : start_environment (db_environment E)) (x : app) : Prop :=
  app_started (base_env env) (db_base x) ∧ is_Some (proxyDatabaseManager_ x) ∧
  ∃ s, scheduler_ x = Some s ∧ scheduler_history s ∧ stop_ s = false.

Lemma create_manager_defined env cast opened t c : is_Some (configReader_ c) → no_undefined (create_manager env cast opened t c).
Proof.
  intros [r Hr] w. unfold create_manager. rewrite Hr. cbn [cr_getString IniFileConfigReader_reader]. unfold ini_getString.
  destruct (ptree_ r !! _) as [p|]; [|done]. destruct (if bool_decide _ then _ else _) as [m|]; [|done].
  by destruct (opened m).
Qed.
Lemma create_manager_unpinged env cast opened c m : create_manager env cast opened false c = Ok (Some m) → pingTask_ m = None.
Proof.
  unfold create_manager. destruct (configReader_ c) as [r|]; [|done]. destruct (cr_getString _ _ _) as [t|e]; [|done].
  destruct (if bool_decide _ then _ else _) as [k|]; [|done]. destruct (opened k) as [ok|]; [|done].
  destruct k; cbn; destruct ok; cbn; try done; by intros [= <-].
Qed.

(** Before the service is there. *)
Lemma db_done_0 b m : done_parts 0 b → (∀ m', m = Some m' → pingTask_ m' = None) → db_done 0 (mkDbApp b m None).
Proof. intros Hb Hm. split; [by rewrite Nat.min_0_l|done]. Qed.
Lemma new_service_done : service_done 0 (service_initialize threadCount).
Proof. split_and!; [split; [cbn; by rewrite length_replicate|by exists []]|lia|lia]. Qed.

Lemma db_init_ok env c b : configured (se_config env) (se_args env) c → app_initial b →
  ∃ r x', db_onInit threadCount task_scheduler env c (newDbApp b) = (r, x') ∧ db_done 0 x' ∧ no_undefined r ∧
  (r = Ok true → onInit (base_env env) c b = (Ok true, db_base x') ∧ is_Some (proxyDatabaseManager_ x') ∧
    scheduler_ x' = Some (service_initialize threadCount)).
Proof.
  intros Hc Hb. assert (Hr : is_Some (configReader_ c)) by (destruct Hc as (o & f & h & t & _ & _ & _ & _ & _ & _ & _ & _ & ->); done).
  pose proof (create_manager_defined (se_config env) (de_lexical_cast (se_own env)) (de_opened (se_own env)) (task_scheduler b) c Hr) as Hcm.
  pose proof (create_manager_unpinged (se_config env) (de_lexical_cast (se_own env)) (de_opened (se_own env)) c) as Hping.
  unfold db_onInit, all_of, initDatabaseManager, lift_result. cbv beta iota delta [mbind st_bind mret st_ret modify get_st].
  cbn [db_base newDbApp]. rewrite (no_scheduler b Hb) in Hcm |- *.
  destruct (create_manager _ _ _ false c) as [[m|]|e].
  2: { do 2 eexists. split; [reflexivity|]. split_and!; [by apply db_done_0; [apply initial_ok|]|done|done]. }
  2: { do 2 eexists. split; [reflexivity|]. split_and!; [by apply db_done_0; [apply initial_ok|]|by intros w [= ->]; destruct (Hcm w)|done]. }
  assert (Hm : ∀ m', Some m = Some m' → pingTask_ m' = None) by (intros m' [= <-]; by apply Hping).
  destruct (init_ok (base_env env) c b Hc Hb) as (r & b' & E1 & Hd & Hu). unfold on_base, zoom.
  cbn [db_base set_databases newDbApp]. rewrite E1.
  destruct r as [[]|e]; (do 2 eexists; split; [reflexivity|]); cbn [db_base proxyDatabaseManager_ scheduler_ set_base set_databases set_service_scheduler newDbApp].
  - split_and!; [|done|done]. split; [by rewrite Nat.min_0_l|]. split; [done|]. intros s [= <-]. apply new_service_done.
  - split_and!; [by apply db_done_0|done|done].
  - split_and!; [by apply db_done_0|by intros w [= ->]; destruct (Hu w)|done].
Qed.

Lemma db_start_ok env c b x1 : configured (se_config env) (se_args env) c → app_initial b →
  db_onInit threadCount task_scheduler env c (newDbApp b) = (Ok true, x1) →
  ∃ r x', db_onStart env x1 = (r, x') ∧ db_done 0 x' ∧ no_undefined r ∧ (r = Ok true → db_started env x').
Proof.
  intros Hc Hb E1. destruct (db_init_ok env c b Hc Hb) as (r & x1' & E1' & Hd & _ & Hok). rewrite E1 in E1'. injection E1' as <- <-.
  destruct (Hok eq_refl) as (Eb & Hm & Hs). destruct (start_ok (base_env env) c b (db_base x1) Hc Hb Eb) as (r & b' & E2 & Hd2 & Hu & Hst).
  unfold db_onStart, all_of, on_base, zoom. cbv beta iota delta [mbind st_bind mret st_ret]. rewrite E2.
  assert (Hdone : db_done 0 (set_base b' x1)).
  { split; [by rewrite Nat.min_0_l|]. split; [by destruct Hd as (_ & Hp & _)|]. cbn. intros s0 E0. rewrite Hs in E0. injection E0 as <-. apply new_service_done. }
  destruct r as [[]|e]; (do 2 eexists; split; [reflexivity|]); split_and!; try done; try (by intros w [= ->]; destruct (Hu w)).
  intros _. split; [by apply Hst|]. split; [exact Hm|]. exists (service_initialize threadCount). split; [exact Hs|].
  by destruct new_service_done as (Hh & _).
Qed.

Lemma schedule_all n rs s : service_done n s → service_done n (fold_left (λ s r, service_schedule r s) rs s) ∧
  stop_ (fold_left (λ s r, service_schedule r s) rs s) = stop_ s.
Proof.
  revert s. induction rs as [|r rs IH]; intros s Hs; [done|]. cbn [fold_left].
  destruct (IH (service_schedule r s)) as [H1 H2]; [by apply (service_step n (Schedule r) s)|]. by rewrite H2.
Qed.

(** A handler: the server below makes its own step, and so does the scheduler. *)
Lemma db_event_inv n e x x' : db_done n x → db_own_event delegates e x = Some x' → db_done n x' ∧
  proxyDatabaseManager_ x' = proxyDatabaseManager_ x ∧
  (db_base x' = db_base x ∨ ∃ e0, own_event e0 (db_base x) = Some (db_base x')) ∧
  (∀ s, scheduler_ x = Some s → ∃ s', scheduler_ x' = Some s' ∧ stop_ s' = stop_ s).
Proof.
  intros (Hb & Hp & Hs). destruct e as [e|e]; cbn [db_own_event].
  - destruct (own_event e (db_base x)) as [b|] eqn:Eb; [|done]. cbn [mbind option_bind].
    pose proof (event_ok _ _ _ _ Hb Eb) as Hb'. destruct (delegates e (db_base x)) as [|r rs].
    + intros [= <-]. split_and!; [by split_and!|done|right; by exists e|]. intros s E0. by exists s.
    + destruct (scheduler_ x) as [s|] eqn:Es; [|done]. cbn [mbind option_bind]. intros [= <-].
      destruct (schedule_all n (r :: rs) s (Hs s eq_refl)) as [H1 H2].
      split_and!; [|done|right; by exists e|]; cbn [scheduler_ set_base set_service_scheduler].
      * split_and!; [done|done|]. by intros s1 [= <-].
      * intros s1 [= <-]. eexists. split; [reflexivity|exact H2].
  - assert (Hstep : ∀ e s s', e ≠ Stop → scheduler_ x = Some s → scheduler_exec request_priority e s = Some s' → stop_ s' = stop_ s →
      db_done n (set_service_scheduler (Some s') x) ∧ proxyDatabaseManager_ (set_service_scheduler (Some s') x) = proxyDatabaseManager_ x ∧
      (db_base (set_service_scheduler (Some s') x) = db_base x ∨ ∃ e0, own_event e0 (db_base x) = Some (db_base (set_service_scheduler (Some s') x))) ∧
      (∀ s, scheduler_ x = Some s → ∃ s'0, scheduler_ (set_service_scheduler (Some s') x) = Some s'0 ∧ stop_ s'0 = stop_ s)).
    { intros e0 s s' Hne Es He Hst. split_and!; [|done|by left|].
      - split_and!; [done|done|]. cbn. intros s1 [= <-]. exact (service_step n e0 s s' Hne (Hs s Es) He).
      - intros s1 E1. rewrite Es in E1. injection E1 as <-. by exists s'. }
    destruct e as [r| |t choice|t]; try done; destruct (scheduler_ x) as [s|] eqn:Es; try done; cbn [mbind option_bind].
    + destruct (svc t choice s) as [s'|] eqn:Esvc; [|done]. cbn [mbind option_bind]. intros [= <-].
      apply (Hstep (Svc t choice) s s'); try done. by eapply svc_stop.
    + destruct (scheduler_exec request_priority (Wake t) s) as [s'|] eqn:Esvc; [|done]. cbn [mbind option_bind]. intros [= <-].
      apply (Hstep (Wake t) s s'); try done. cbn [scheduler_exec] in Esvc. destruct (threads_ s !! t) as [p|]; [|done].
      cbn [mbind option_bind] in Esvc. destruct (is_blocked p); [|done]. by injection Esvc as <-.
Qed.

(** *** [onFinish] *)

Lemma db_parts n : db_onFinish (X := X) (E := E) (Ev := Ev) !! n =
  match onFinish (ServerAppHooks := H) !! n with
  | Some part => Some (base_part part)
  | None => if decide (n = parts) then Some stop_service else if decide (n = S parts) then Some join_service else None
  end.
Proof.
  unfold db_onFinish. destruct (decide (n < parts)%nat) as [Hn|Hn].
  - rewrite lookup_app_l by (by rewrite length_fmap). rewrite list_lookup_fmap. by destruct (lookup_lt_is_Some_2 _ _ Hn) as [part ->].
  - rewrite lookup_app_r by (rewrite length_fmap; lia). rewrite length_fmap, (lookup_ge_None_2 (onFinish (ServerAppHooks := H)) n) by lia.
    destruct (decide (n = parts)) as [->|]; [by rewrite Nat.sub_diag|]. destruct (decide (n = S parts)) as [->|].
    + by replace (S parts - parts)%nat with 1%nat by lia.
    + by destruct (n - parts)%nat as [|[|k]] eqn:Ek; [lia|lia|].
Qed.

Lemma db_part_ok n part x x' : db_onFinish (X := X) (E := E) (Ev := Ev) !! n = Some part → db_done n x → part x = Some x' → db_done (S n) x'.
Proof.
  rewrite db_parts. intros Hp (Hb & Hping & Hs) Hx. destruct (onFinish !! n) as [part0|] eqn:Eo.
  - injection Hp as <-. pose proof (lookup_lt_Some _ _ _ Eo) as Hlt. unfold base_part in Hx.
    destruct (part0 (db_base x)) as [b|] eqn:Eb; [|done]. injection Hx as <-. split_and!.
    + rewrite Nat.min_l in Hb |- * by lia. by eapply part_ok.
    + done.
    + intros s E0. destruct (Hs s E0) as (Hh & H1 & H2). split_and!; [done| |]; intros Hn; [lia|lia].
  - apply lookup_ge_None in Eo. rewrite Nat.min_r in Hb by lia.
    destruct (decide (n = parts)) as [->|]; [|destruct (decide (n = S parts)) as [->|]; [|done]]; injection Hp as <-.
    + injection Hx as <-. split_and!; [by rewrite Nat.min_r by lia|done|]. intros s E0. cbn in E0.
      destruct (scheduler_ x) as [s0|]; [|done]. injection E0 as <-. destruct (Hs s0 eq_refl) as (Hh & _ & _).
      split_and!; [by apply (history_step Stop s0)|done|lia].
    + unfold join_service in Hx. destruct (match scheduler_ x with Some _ => _ | None => _ end) eqn:Ej; [|done]. injection Hx as <-.
      split_and!; [by rewrite Nat.min_r by lia|done|]. intros s E0. rewrite E0 in Ej. destruct (Hs s E0) as (Hh & H1 & _).
      split_and!; [done|by intros _; apply H1; lia|done].
Qed.

#[export] Instance db_spec : @ServerAppSpec app (db_environment E) (db_app_event Ev) hooks.
Proof.
  refine (Build_ServerAppSpec _ _ _ hooks (λ x, ∃ b, app_initial b ∧ x = newDbApp b) db_done db_started _ _ _ _ _ _).
  - intros env c x Hc (b & Hb & ->). destruct (db_init_ok env c b Hc Hb) as (r & x & E1 & Hd & Hu & _). by exists r, x.
  - intros env c x x1 Hc (b & Hb & ->) E1. by apply (db_start_ok env c b).
  - intros x (b & Hb & ->). by apply db_done_0; [apply initial_ok|].
  - exact db_part_ok.
  - intros n e x x' Hd He. by apply (db_event_inv n e x x').
  - intros env e x x' Hd (Hb & Hm & s & Es & Hh & Hst) He.
    destruct (db_event_inv 0 e x x' Hd He) as ((Hb' & _ & Hs') & Hm' & Hbase & Hsch). destruct (Hsch s Es) as (s' & Es' & Hst').
    split_and!; [|by rewrite Hm'|].
    + destruct Hbase as [->|[e0 He0]]; [done|]. eapply started_event; [|exact Hb|exact He0]. by destruct Hd as [Hd _].
    + exists s'. split_and!; [done|by destruct (Hs' s' Es')|by rewrite Hst'].
Defined.
End spec.
