(* ===== verification/SessionAppSpec.v ===== *)
(** * server/app: what a server of sessions keeps

    [SessionServerApp] discharges [ServerAppSpec]: the invariant of its manager of
    sessions from [onInit] on, that every connection is validated, that the acceptors
    are closed after the first part of [onFinish] and everything is at rest after the
    second. *)

From S2P Require Import Prelude Monitors MemoryPool StreamBuffer MemoryBlock Packet Marshaller BandwidthLimit TcpSession TcpSessionSpec.
From S2P Require Import SessionManager SessionManagerSpec ServerSpec ServerConfig Rcon ServerApp SessionApp.

Section app.
Context {M A Command : Type} `{HM : MarshallerSpec M}.
Context (react : call → A → bool * list request * A).
Context (malloc : list Z → Z) (malloc_fresh : ∀ l, malloc l ∉ l).
Context (capacity : SessionCapacity) (m0 : M) (a0 : A).
Context (spec : ServerSpec) (useDefaultSessionManager debug_build : bool).
Context (pool_fits : sessionPoolSize_ spec < 2 ^ 63).

#[local] Abbreviation server := (SessionServer (M := M) (A := A)).
#[local] Abbreviation app := (SessionServerApp (M := M) (A := A) (Command := Command)).
#[local] Abbreviation hooks := (SessionServerApp_hooks (Command := Command) react malloc capacity m0 a0 spec useDefaultSessionManager debug_build).
#[local] Abbreviation pool_size := (Z.to_nat (sessionPoolSize_ spec)).

Definition has_manager : bool := useDefaultSessionManager && spec_isValid spec.

(** *** The parts of the invariant *)

Definition manager_inv (x : app) : Prop := ∀ v, sessionManager_ x = Some v →
  server_inv capacity m0 a0 pool_size v ∧ sv_connectors v = [] ∧ (sv_acceptors v = [] ∨ isWarmedUp_ x = true).
Definition acceptors_closed (x : app) : Prop := ∀ v, sessionManager_ x = Some v →
  Forall (λ c, ac_shouldFinish_ c = true) (sv_acceptors v).
Definition at_rest (x : app) : Prop :=
  (∀ v, sessionManager_ x = Some v → activeResources_ (sessionPool_ (sv_manager v)) = []) ∧
  ∀ name t, ioContextTaskMap_ x !! name = Some t → task_runs t = false.
Definition session_done (n : nat) (x : app) : Prop :=
  manager_inv x ∧ ((1 ≤ n)%nat → acceptors_closed x) ∧ ((2 ≤ n)%nat → at_rest x).

(** What [onInit] and then [onStart] have brought up. *)
Definition rcon_started (x : app) : Prop :=
  if 0 <? monitorPort_ spec then
    ∃ r, rconService_ x = Some r ∧ isRunning_ r = true ∧
      querySources r !! "session.count"%string = Some ThisServer ∧ querySources r !! "session.total.count"%string = Some ThisServer
  else rconService_ x = None.
Definition contexts_started (x : app) : Prop :=
  0 < workerThreadCount_ spec ∧
  ioContextTaskMap_ x = {[defaultIoContextName :=
    mkIoTask (replicate (Z.to_nat (workerThreadCount_ spec)) false) (Z.to_nat (workerThreadCount_ spec))]}.
Definition inited (x : app) : Prop :=
  contexts_started x ∧ sessionManager_ x = (if has_manager then Some (newServer malloc pool_size) else None) ∧
  taskScheduler_ x = true ∧ rcon_started x.
Definition session_started (env : start_environment session_environment) (x : app) : Prop :=
  contexts_started x ∧ taskScheduler_ x = true ∧ rcon_started x ∧ isWarmedUp_ x = true ∧
  if has_manager then ∃ v, sessionManager_ x = Some v ∧
    length (sv_acceptors v) = length (en_opens (se_own env)) ∧ Forall (λ c, ac_shouldFinish_ c = false) (sv_acceptors v)
  else sessionManager_ x = None.

(** *** [onInit] *)

Lemma new_manager_inv x : sessionManager_ x = None ∨ sessionManager_ x = Some (newServer malloc pool_size) → manager_inv x.
Proof.
  intros Hx v Hv. destruct Hx as [Hx|Hx]; [congruence|]. rewrite Hx in Hv. injection Hv as <-. split; [|by split; [|left]].
  apply (newServer_inv react malloc malloc_fresh). lia.
Qed.

(** The service, with its sources. *)
Lemma initRconService_ok bound (x : app) : ∃ r x', initRconService spec debug_build bound x = (r, x') ∧ no_undefined r ∧
  ioContextTaskMap_ x' = ioContextTaskMap_ x ∧ sessionManager_ x' = sessionManager_ x ∧ taskScheduler_ x' = taskScheduler_ x ∧
  isWarmedUp_ x' = isWarmedUp_ x ∧ (r = Ok true → rconService_ x = None → rcon_started x').
Proof.
  unfold initRconService, rcon_started. destruct (monitorPort_ spec <=? 0) eqn:Ep.
  { do 2 eexists. split; [done|]. split_and!; try done. intros _ Hr.
    rewrite (proj2 (Z.ltb_ge _ _)) by (by apply Z.leb_le). done. }
  rewrite (proj2 (Z.ltb_lt _ _)) by (by apply Z.leb_gt). unfold service_start.
  destruct bound; cbv beta iota zeta delta [mbind st_bind modify mret st_ret negb registerRconQuerySource]; do 2 eexists; (split; [reflexivity|]); split_and!; try done.
  intros _ _. eexists. split; [reflexivity|]. cbn. split; [done|]. by destruct debug_build.
Qed.

Lemma onInit_ok env c : ∃ r x, session_onInit malloc spec useDefaultSessionManager debug_build env c newSessionApp = (r, x) ∧
  no_undefined r ∧ manager_inv x ∧ isWarmedUp_ x = false ∧ (r = Ok true → inited x).
Proof.
  assert (Hnew : manager_inv newSessionApp) by (apply new_manager_inv; by left).
  unfold session_onInit, all_of, lift_result, ServerApp_onInit.
  cbv beta iota delta [mbind st_bind mret st_ret]. destruct (se_directories env); [|by do 2 eexists; split_and!].
  unfold initDefaultIoContextTask, addIoContextTask. destruct (workerThreadCount_ spec <=? 0) eqn:Ew; [by do 2 eexists; split_and!|].
  apply Z.leb_gt in Ew.
  destruct (task_start_ok (en_created (se_own env)) (Z.to_nat (workerThreadCount_ spec))) as (r & t & E & Hu & Hf & Ht). rewrite E.
  destruct r as [[]|e]; [|done|by do 2 eexists; split_and!].
  destruct (Ht eq_refl) as [-> _]. cbv beta iota delta [mbind st_bind mret st_ret modify].
  set (x1 := set_tasks _ _).
  assert (Hx1 : ioContextTaskMap_ x1 = {[defaultIoContextName :=
    mkIoTask (replicate (Z.to_nat (workerThreadCount_ spec)) false) (Z.to_nat (workerThreadCount_ spec))]}) by done.
  set (x2 := if has_manager then set_session_manager (Some (newServer malloc pool_size)) x1 else x1).
  assert (E2 : initDefaultSessionManager malloc spec useDefaultSessionManager x1 = (Ok true, x2)).
  { unfold initDefaultSessionManager, x2, has_manager. destruct useDefaultSessionManager; [|done]. destruct (spec_isValid spec); [|done].
    cbv beta iota delta [mbind st_bind mret st_ret modify get_st getIoContextTask negb andb]. by rewrite Hx1, lookup_singleton_eq. }
  rewrite E2. assert (Hx2 : ioContextTaskMap_ x2 = ioContextTaskMap_ x1) by (unfold x2; by destruct has_manager).
  assert (E3 : initTaskScheduler x2 = (Ok true, set_scheduler true x2)).
  { unfold initTaskScheduler. cbv beta iota delta [mbind st_bind mret st_ret modify get_st getIoContextTask].
    by rewrite Hx2, Hx1, lookup_singleton_eq. }
  rewrite E3. destruct (initRconService_ok (en_bound (se_own env)) (set_scheduler true x2)) as (r & x3 & E4 & Hu3 & Ht3 & Hm3 & Hs3 & Hw3 & Hr3).
  rewrite E4. assert (Hm2 : sessionManager_ x2 = if has_manager then Some (newServer malloc pool_size) else None) by (unfold x2; by destruct has_manager).
  assert (Hm : manager_inv x3).
  { apply new_manager_inv. rewrite Hm3. cbn [sessionManager_ set_scheduler]. rewrite Hm2. destruct has_manager; [by right|by left]. }
  assert (Hw : isWarmedUp_ x3 = false) by (rewrite Hw3; unfold x2; by destruct has_manager).
  destruct r as [[]|e]; do 2 eexists; (split; [reflexivity|]); split_and!; try done.
  intros _. split; [by split; [|rewrite Ht3; cbn [ioContextTaskMap_ set_scheduler]; rewrite Hx2]|].
  split; [by rewrite Hm3|]. split; [by rewrite Hs3|]. apply Hr3; [done|]. unfold x2. by destruct has_manager.
Qed.
(** *** Which acceptors are closed *)

Definition flags (v : server) : list bool := ac_shouldFinish_ <$> sv_acceptors v.

Lemma flags_forall (v : server) b : Forall (eq b) (flags v) ↔ Forall (λ c, ac_shouldFinish_ c = b) (sv_acceptors v).
Proof. unfold flags. rewrite Forall_fmap. apply Forall_proper; [|done]. intros c. cbn. split; congruence. Qed.
Lemma cancel_acceptors (v : server) : sv_acceptors (cancel_sessions capacity m0 a0 v) = sv_acceptors v.
Proof.
  unfold cancel_sessions. generalize (activeResources_ (sessionPool_ (sv_manager v))). intros l. revert v.
  induction l as [|a l IH]; intros v; [done|]. cbn [fold_left]. by rewrite IH.
Qed.

Lemma cancel_connectors (v : server) : sv_connectors (cancel_sessions capacity m0 a0 v) = sv_connectors v.
Proof.
  unfold cancel_sessions. generalize (activeResources_ (sessionPool_ (sv_manager v))). intros l. revert v.
  induction l as [|a l IH]; intros v; [done|]. cbn [fold_left]. by rewrite IH.
Qed.

Lemma cancel_manager (v : server) : sv_manager (cancel_sessions capacity m0 a0 v) = sv_manager v.
Proof.
  unfold cancel_sessions. generalize (activeResources_ (sessionPool_ (sv_manager v))). intros l. revert v.
  induction l as [|a l IH]; intros v; [done|]. cbn [fold_left]. by rewrite IH.
Qed.

Lemma flags_on_acceptor i j w (v : server) : flags (on_acceptor i (set_wait j w) v) = flags v.
Proof.
  unfold flags, on_acceptor. cbn [sv_acceptors set_acceptors]. apply list_eq. intros k. rewrite !list_lookup_fmap.
  destruct (decide (i = k)) as [->|]; [|by rewrite list_lookup_alter_ne].
  rewrite list_lookup_alter_eq. by destruct (sv_acceptors v !! k).
Qed.
Lemma flags_accept i j (v v' : server) : accept malloc capacity m0 a0 i j v = Some v' → flags v' = flags v.
Proof.
  unfold accept, acquire_session. destruct (manager_acquire malloc (sv_manager v)) as [[[a|]|e] m]; try done.
  cbn [mbind option_bind]. intros [= <-]. by rewrite flags_on_acceptor.
Qed.
Lemma flags_accept_all i j n (v v' : server) : accept_all malloc capacity m0 a0 i j n v = Some v' → flags v' = flags v.
Proof.
  revert j v. induction n as [|n IH]; intros j v; cbn [accept_all]; [by intros [= <-]|].
  destruct (accept malloc capacity m0 a0 i j v) as [v1|] eqn:E; [|done]. cbn [mbind option_bind]. intros Hr.
  rewrite (IH _ _ Hr). by eapply flags_accept.
Qed.
Lemma flags_start opens (v v' : server) : start_acceptors malloc capacity m0 a0 opens v = Some v' →
  ∃ k, flags v' = flags v ++ replicate k false ∧
    (forallb (λ o, match o with Some (S _) => true | _ => false end) opens = true → k = length opens).
Proof.
  revert v. induction opens as [|[[|n]|] opens IH]; intros v; cbn [start_acceptors];
    [|by intros [= <-]; exists 0%nat; rewrite app_nil_r..| |by intros [= <-]; exists 0%nat; rewrite app_nil_r].
  { intros [= <-]. exists 0%nat. by rewrite app_nil_r. }
  destruct (accept_all _ _ _ _ _ _ _ _) as [v1|] eqn:E; [|done]. cbn [mbind option_bind]. intros Hr.
  destruct (IH _ Hr) as (k & Hk & Hall). apply flags_accept_all in E. exists (S k). split.
  - rewrite Hk, E. unfold flags. cbn [sv_acceptors set_acceptors]. rewrite fmap_app, <- app_assoc. done.
  - cbn [forallb andb length]. intros Ho. by rewrite (Hall Ho).
Qed.
Lemma flags_event e b (v v' : server) : server_exec react malloc capacity m0 a0 (app_server_event b e) v = Some v' → flags v' = flags v.
Proof.
  destruct e as [i j ended|a e]; cbn [app_server_event server_exec].
  - destruct (sv_acceptors v !! i) as [c|]; [|done]. cbn [mbind option_bind]. destruct (asioAcceptors_ c !! j ≫= id) as [w|]; [|done].
    cbn [mbind option_bind]. destruct (may_end w ended); [|done]. unfold handle_accept.
    set (v0 := on_acceptor i (set_wait j None) v). assert (H0 : flags v0 = flags v) by apply flags_on_acceptor. clearbody v0.
    destruct ended as [|ab lo]; repeat case_match; simplify_eq; try (intros [= <-]; exact H0);
      intros Hr; apply flags_accept in Hr; rewrite Hr; exact H0.
  - unfold run_session. destruct e; try done; destruct (exec react _ _); try done; intros [= <-]; by destruct (released_by _ _).
Qed.
(** The application opens no connector. *)
Lemma connectors_accept i j (v v' : server) : accept malloc capacity m0 a0 i j v = Some v' → sv_connectors v' = sv_connectors v.
Proof.
  unfold accept, acquire_session. destruct (manager_acquire malloc (sv_manager v)) as [[[a|]|e] m]; try done.
  cbn [mbind option_bind]. by intros [= <-].
Qed.
Lemma connectors_accept_all i j n (v v' : server) : accept_all malloc capacity m0 a0 i j n v = Some v' → sv_connectors v' = sv_connectors v.
Proof.
  revert j v. induction n as [|n IH]; intros j v; cbn [accept_all]; [by intros [= <-]|].
  destruct (accept malloc capacity m0 a0 i j v) as [v1|] eqn:E; [|done]. cbn [mbind option_bind]. intros Hr.
  rewrite (IH _ _ Hr). by eapply connectors_accept.
Qed.
Lemma connectors_start opens (v v' : server) : start_acceptors malloc capacity m0 a0 opens v = Some v' → sv_connectors v' = sv_connectors v.
Proof.
  revert v. induction opens as [|[[|n]|] opens IH]; intros v; cbn [start_acceptors]; try by intros [= <-].
  destruct (accept_all _ _ _ _ _ _ _ _) as [v1|] eqn:E; [|done]. cbn [mbind option_bind]. intros Hr.
  by rewrite (IH _ Hr), (connectors_accept_all _ _ _ _ _ E).
Qed.
Lemma connectors_event e b (v v' : server) :
  server_exec react malloc capacity m0 a0 (app_server_event b e) v = Some v' → sv_connectors v' = sv_connectors v.
Proof.
  destruct e as [i j ended|a e]; cbn [app_server_event server_exec].
  - destruct (sv_acceptors v !! i) as [c|]; [|done]. cbn [mbind option_bind]. destruct (asioAcceptors_ c !! j ≫= id) as [w|]; [|done].
    cbn [mbind option_bind]. destruct (may_end w ended); [|done]. unfold handle_accept.
    destruct ended as [|ab lo]; repeat case_match; simplify_eq; try (by intros [= <-]);
      intros Hr; apply connectors_accept in Hr; by rewrite Hr.
  - unfold run_session. destruct e; try done; destruct (exec react _ _); try done; intros [= <-]; by destruct (released_by _ _).
Qed.

(** *** [onStart] *)

Lemma onStart_ok env x : manager_inv x → inited x → ∃ r x', session_onStart malloc capacity m0 a0 env x = (r, x') ∧
  no_undefined r ∧ manager_inv x' ∧ (r = Ok true → session_started env x').
Proof.
  intros Hm (Hc & Hs & Ht & Hr). unfold session_onStart. cbv beta iota delta [mbind st_bind mret st_ret modify get_st].
  cbn [sessionManager_ warm_up]. unfold session_started. rewrite Hs. destruct has_manager.
  2: { do 2 eexists. split; [done|]. split_and!; try done. intros v Hv. cbn in Hv. congruence. }
  destruct (Hm _ Hs) as (Hi & Hco & _). unfold startSessionAcceptor.
  destruct (start_acceptors_inv react malloc malloc_fresh capacity m0 a0 pool_size (en_opens (se_own env)) _ Hi) as (v & E & Hv).
  rewrite E. cbn [mbind option_bind]. do 2 eexists. split; [reflexivity|]. split_and!; [done| |].
  - intros v' Hv'. cbn in Hv'. injection Hv' as <-. split; [done|]. split; [by rewrite (connectors_start _ _ _ E)|by right].
  - intros Ho. injection Ho as Ho. split_and!; try done. exists v. split; [done|].
    destruct (flags_start _ _ _ E) as (k & Hk & Hall). specialize (Hall Ho). subst k.
    change (flags v = replicate (length (en_opens (se_own env))) false) in Hk. unfold flags in Hk. split.
    + by rewrite <- (length_fmap ac_shouldFinish_), Hk, length_replicate.
    + apply (flags_forall v false). unfold flags. rewrite Hk. by apply Forall_replicate.
Qed.

(** *** The handlers *)

Lemma own_event_inv e x x' : manager_inv x →
  session_own_event react malloc capacity m0 a0 e x = Some x' → ∃ v v', sessionManager_ x = Some v ∧ x' = set_session_manager (Some v') x ∧
    manager_inv x' ∧ flags v' = flags v ∧ is_running x = true.
Proof.
  intros Hm. unfold session_own_event. destruct (is_running x); [|done]. destruct (sessionManager_ x) as [v|] eqn:Ev; [|done].
  cbn [mbind option_bind]. destruct (orderly v (app_server_event true e)) eqn:Ho; [|done].
  destruct (server_exec react malloc capacity m0 a0 _ v) as [v'|] eqn:E; [|done]. cbn [mbind option_bind]. intros [= <-].
  destruct (Hm _ Ev) as (Hi & Hco & Hw). exists v, v'. pose proof (flags_event _ _ _ _ E) as Hf. split_and!; try done.
  assert (Ew : server_exec react malloc capacity m0 a0 (app_server_event true e) v = Some v').
  { destruct Hw as [Hw|Hw]; [|by rewrite Hw in E]. destruct e as [i j ended|]; [|done]. cbn in E. by rewrite Hw in E. }
  intros v1 Hv1. cbn in Hv1. injection Hv1 as <-. split.
  - eapply (server_step react malloc malloc_fresh capacity m0 a0); [exact Hi|]. unfold orderly_exec. rewrite Ho. exact Ew.
  - split; [by rewrite (connectors_event _ _ _ _ E)|]. destruct Hw as [Hw|Hw]; [|by right]. left. unfold flags in Hf. rewrite Hw in Hf. by apply fmap_nil_inv in Hf.
Qed.

Lemma at_rest_stopped x : at_rest x → is_running x = false.
Proof.
  intros [_ Ht]. unfold is_running. destruct (ioContextTaskMap_ x !! defaultIoContextName) as [t|] eqn:E; [|done]. by eapply Ht.
Qed.

Lemma session_event_ok n e x x' : session_done n x → session_own_event react malloc capacity m0 a0 e x = Some x' → session_done n x'.
Proof.
  intros (Hm & Hc & Hr) He. destruct (own_event_inv e x x' Hm He) as (v & v' & Ev & -> & Hm' & Hf & Hrun). split_and!; [done| |].
  - intros Hn v1 Hv1. cbn in Hv1. injection Hv1 as <-. apply (flags_forall v' true). rewrite Hf. apply (flags_forall v true). by apply Hc.
  - intros Hn. by rewrite (at_rest_stopped x (Hr Hn)) in Hrun.
Qed.

Lemma session_started_event env e x x' : manager_inv x → session_started env x →
  session_own_event react malloc capacity m0 a0 e x = Some x' → session_started env x'.
Proof.
  intros Hm (Hc & Ht & Hr & Hw & Hs) He. destruct (own_event_inv e x x' Hm He) as (v & v' & Ev & -> & _ & Hf & _).
  split_and!; try done. destruct has_manager; [|by rewrite Ev in Hs]. destruct Hs as (v0 & E0 & Hl & Hfl).
  assert (v0 = v) as -> by congruence. exists v'. split_and!; [done| |].
  - apply (f_equal length) in Hf. unfold flags in Hf. rewrite !length_fmap in Hf. congruence.
  - apply (flags_forall v' false). rewrite Hf. by apply (flags_forall v false).
Qed.

(** *** [onFinish] *)

Lemma finalize_ok x x' : session_done 0 x → finalize_manager capacity m0 a0 x = Some x' → session_done 1 x'.
Proof.
  intros (Hm & _ & _) [= <-]. split_and!; [| |lia].
  - intros v Hv. cbn in Hv. destruct (sessionManager_ x) as [v0|] eqn:Ev; [|done]. injection Hv as <-.
    destruct (Hm _ Ev) as (Hi & Hco & Hw). split; [|split].
    + apply (cancel_sessions_inv capacity m0 a0).
      apply (server_step react malloc malloc_fresh capacity m0 a0 pool_size StopAcceptors v0); done.
    + by rewrite cancel_connectors.
    + rewrite cancel_acceptors. cbn. destruct Hw as [->|Hw]; [by left|by right].
  - intros _ v Hv. cbn in Hv. destruct (sessionManager_ x) as [v0|]; [|done]. injection Hv as <-.
    rewrite cancel_acceptors. cbn. apply Forall_fmap, Forall_true. done.
Qed.
Lemma wait_ok x x' : session_done 1 x → wait_and_stop x = Some x' → session_done 2 x'.
Proof.
  intros (Hm & Hc & _). unfold wait_and_stop. destruct (match sessionManager_ x with Some _ => _ | None => _ end) eqn:Es; [|done].
  intros [= <-]. split_and!; [done|by intros _; apply Hc; lia|]. intros _. split.
  - intros v Hv. cbn in Hv. rewrite Hv in Es. unfold isSafeToDelete, getActiveSessionCount, getActiveResourceCount in Es.
    apply bool_decide_eq_true in Es. by apply nil_length_inv.
  - intros name t Ht. cbn in Ht. rewrite lookup_fmap in Ht. destruct (ioContextTaskMap_ x !! name) as [t0|]; [|done].
    injection Ht as <-. apply task_stop_runs.
Qed.

#[export] Instance SessionServerApp_spec : @ServerAppSpec app session_environment session_app_event hooks.
Proof.
  refine (Build_ServerAppSpec _ _ _ hooks (λ x, x = newSessionApp) session_done session_started _ _ _ _ _ _).
  - intros env c x _ ->. destruct (onInit_ok env c) as (r & x & E & Hu & Hm & _). exists r, x. split; [exact E|]. split; [|done].
    split; [done|]. split; lia.
  - intros env c x x1 _ -> E1. destruct (onInit_ok env c) as (r & x1' & E & _ & Hm & _ & Hi).
    rewrite (E1 : session_onInit _ _ _ _ _ _ _ = _) in E. injection E as <- <-.
    destruct (onStart_ok env x1 Hm (Hi eq_refl)) as (r2 & x2 & E2 & Hu2 & Hm2 & Hs2). exists r2, x2. split; [exact E2|]. split; [split; [done|split; lia]|]. by split.
  - intros x ->. split; [|split; lia]. apply new_manager_inv. by left.
  - intros n part x x' Hp Hd Hx. destruct n as [|[|n]]; cbn in Hp; [| |done]; injection Hp as <-; [by eapply finalize_ok|by eapply wait_ok].
  - exact session_event_ok.
  - intros env e x x' (Hm & _) Hs He. exact (session_started_event env e x x' Hm Hs He).
Defined.
End app.
