(* ===== verification/Finalization.v ===== *)
(** * server/app: how [onFinish] comes to its end

    [ServerSideSessionManager::finalize] closes the acceptors, posts a [disconnect] to
    every session and waits until no session is active.  Here are the handlers that make
    this true, one session after the other, and a session that they do not end: the
    closure of [disconnect] leaves a session alone that disconnects gracefully. *)

From S2P Require Import Prelude Monitors MemoryPool StreamBuffer MemoryBlock Packet Marshaller BandwidthLimit TcpSession TcpSessionSpec.
From S2P Require Import SessionManager SessionManagerSpec ServerSpec ServerConfig Rcon ServerApp SessionApp SessionAppSpec.

Section finishing.
Context {M A : Type} `{HM : MarshallerSpec M}.
Context (react : call → A → bool * list request * A).
Context (malloc : list Z → Z) (malloc_fresh : ∀ l, malloc l ∉ l).
Context (capacity : SessionCapacity) (m0 : M) (a0 : A).

#[local] Abbreviation server := (SessionServer (M := M) (A := A)).
#[local] Abbreviation active v := (activeResources_ (sessionPool_ (sv_manager v))).
#[local] Abbreviation exec_server := (server_exec react malloc capacity m0 a0).
#[local] Abbreviation session_of := (session_at capacity m0 a0).

(** A session whose next closure disconnects it. *)
Definition about_to_end (s : state M A) : Prop :=
  isDisconnectReserved (ses s) = false ∧ ∃ qs, posted (wld s) = PDisconnect :: qs.

(** A server whose acceptors are closed and whose sessions are about to end. *)
Record finishing (n : nat) (v : server) : Prop := {
  fi_inv : server_inv capacity m0 a0 n v;
  fi_closed : Forall (λ c, ac_shouldFinish_ c = true) (sv_acceptors v);
  fi_connectors : sv_connectors v = [];
  fi_ending a : connected capacity m0 a0 v a → about_to_end (session_of a v);
}.

Lemma waiting_elem (v : server) a : sv_connectors v = [] → a ∈ waiting v →
  ∃ i j c w, sv_acceptors v !! i = Some c ∧ asioAcceptors_ c !! j = Some (Some w) ∧ wo_session w = a.
Proof.
  unfold waiting. intros ->. rewrite app_nil_r, list_elem_of_bind. intros (c & Ha & Hc).
  apply list_elem_of_lookup_1 in Hc as [i Hi]. unfold waits_of in Ha. apply list_elem_of_fmap in Ha as (w & -> & Hw).
  apply list_elem_of_omap in Hw as (o & Ho & Eo). apply list_elem_of_lookup_1 in Ho as [j Hj]. cbn in Eo. subst o.
  by exists i, j, c, w.
Qed.

(** The aborted handler of an acceptor that is closed gives its session back. *)
Lemma aborted_accept n v i j c w b : finishing n v → sv_acceptors v !! i = Some c → asioAcceptors_ c !! j = Some (Some w) →
  ∃ v', exec_server (app_server_event b (AppAccept i j (Fails true false))) v = Some v' ∧ finishing n v' ∧
    S (length (active v')) = length (active v).
Proof.
  intros [Hi Hc Hn He] Ei Ej. pose proof (proj1 (Forall_forall _ _) Hc c (list_elem_of_lookup_2 _ _ _ Ei)) as Hf.
  set (v' := on_manager (manager_release (wo_session w)) (on_acceptor i (set_wait j None) v)).
  assert (Ev : exec_server (app_server_event b (AppAccept i j (Fails true false))) v = Some v').
  { cbn [app_server_event server_exec]. rewrite Ei. cbn [mbind option_bind]. rewrite Ej. cbn. by rewrite Hf. }
  exists v'. split; [done|]. split; [split|].
  - eapply (server_step react malloc malloc_fresh capacity m0 a0); [exact Hi|].
    unfold orderly_exec. instantiate (1 := app_server_event b (AppAccept i j (Fails true false))). cbn [orderly app_server_event negb]. exact Ev.
  - apply (flags_forall v' true). rewrite (flags_event _ _ _ _ _ _ _ _ _ Ev). by apply (flags_forall v true).
  - done.
  - intros a Ha. exact (He a Ha).
  - destruct Hi as [Hp (l & Hl & _)].
    assert (Ha : wo_session w ∈ active v).
    { pose proof (waiting_set_wait i j (Some w) None v) as Hw. unfold slot in Hw. rewrite Ei in Hw. specialize (Hw Ej). cbn in Hw.
      rewrite Hl, Hw. apply elem_of_cons. by left. }
    destruct (release_active _ _ (po_inv _ _ _ Hp) Ha) as (_ & Hr & _). apply Permutation_length in Hr. exact Hr.
Qed.

(** The closure ends a session, which gives itself back. *)
Lemma closure_ends n v a b : finishing n v → connected capacity m0 a0 v a →
  ∃ v', exec_server (app_server_event b (AppSession a EvPosted)) v = Some v' ∧ finishing n v' ∧
    S (length (active v')) = length (active v).
Proof.
  intros [Hi Hc Hn He] Ha. destruct (He a Ha) as [Hr [qs Hq]]. set (s := session_of a v) in *.
  set (s0 := on_wld (take_posted qs) s). set (s1 := do_disconnect react s0).
  destruct (do_disconnect_connected react s0 Hr Ha) as [Hs1 Hc1].
  set (v' := on_manager (manager_release a) (set_session a s1 v)).
  assert (Ev : exec_server (app_server_event b (AppSession a EvPosted)) v = Some v').
  { cbn [app_server_event server_exec run_session exec]. fold s. rewrite Hq. cbn [do_request mbind option_bind]. fold s0 s1.
    assert (Hrel : released_by s s1 = true).
    { unfold released_by. fold s1 in Hc1. rewrite Hc1. change (calls (wld s0)) with (calls (wld s)).
      rewrite <- app_assoc, drop_app_length. apply bool_decide_eq_true. set_solver. }
    by rewrite Hrel. }
  exists v'. split; [done|]. split; [split|].
  - eapply (server_step react malloc malloc_fresh capacity m0 a0); [exact Hi|].
    unfold orderly_exec. instantiate (1 := app_server_event b (AppSession a EvPosted)). cbn [orderly app_server_event]. exact Ev.
  - exact Hc.
  - done.
  - intros a' Ha'. assert (Hne : a' ≠ a).
    { intros ->. unfold connected, session_at in Ha'. cbn in Ha'. rewrite lookup_insert_eq in Ha'. cbn in Ha'.
      unfold isConnected in Ha'. fold s1 in Hs1. by rewrite Hs1 in Ha'. }
    unfold connected, session_at in *. cbn in Ha' |- *. rewrite lookup_insert_ne in Ha' |- * by done. by apply He.
  - destruct Hi as [Hp (l & Hl & Hcl)].
    assert (Hact : a ∈ active v) by (rewrite Hl; apply elem_of_app; right; by apply Hcl).
    destruct (release_active _ _ (po_inv _ _ _ Hp) Hact) as (_ & Hrel & _). apply Permutation_length in Hrel. exact Hrel.
Qed.

(** *** The whole server *)

Section app.
Context {Command : Type} (spec : ServerSpec) (useDefaultSessionManager debug_build : bool).
#[local] Abbreviation app := (SessionServerApp (M := M) (A := A) (Command := Command)).
#[local] Abbreviation own := (session_own_event (Command := Command) react malloc capacity m0 a0).

Lemma finishing_step n (x : app) v : is_running x = true → sessionManager_ x = Some v → finishing n v → active v ≠ [] →
  ∃ e v', own e x = Some (set_session_manager (Some v') x) ∧ finishing n v' ∧ S (length (active v')) = length (active v).
Proof.
  intros Hrun Ev Hf Hne.
  assert (Hown : ∀ e v', orderly v (app_server_event true e) = true → exec_server (app_server_event (isWarmedUp_ x) e) v = Some v' →
    own e x = Some (set_session_manager (Some v') x)).
  { intros e v' Ho E. unfold session_own_event. rewrite Hrun, Ev. cbn [mbind option_bind]. by rewrite Ho, E. }
  destruct (fi_inv _ _ Hf) as [_ (l & Hl & Hc)]. destruct (waiting v) as [|a w] eqn:Ew.
  - destruct l as [|a l]; [by apply Permutation_nil_r in Hl|].
    destruct (closure_ends n v a (isWarmedUp_ x) Hf) as (v' & E & Hf' & Hlen); [apply Hc; by left|].
    exists (AppSession a EvPosted), v'. split; [by apply Hown|done].
  - destruct (waiting_elem v a (fi_connectors _ _ Hf)) as (i & j & c & w' & Ei & Ej & _); [rewrite Ew; by left|].
    destruct (aborted_accept n v i j c w' (isWarmedUp_ x) Hf Ei Ej) as (v' & E & Hf' & Hlen).
    exists (AppAccept i j (Fails true false)), v'. split; [by apply Hown|done].
Qed.

Lemma finishing_ends n (x : app) v : is_running x = true → sessionManager_ x = Some v → finishing n v →
  ∃ es v', runs_exec own es x = Some (set_session_manager (Some v') x) ∧ active v' = [] ∧ length es = length (active v).
Proof.
  intros Hrun Ev Hf. remember (length (active v)) as k eqn:Ek. revert x v Hrun Ev Hf Ek.
  induction k as [|k IH]; intros x v Hrun Ev Hf Ek.
  - exists [], v. cbn [runs_exec]. split_and!; [|by apply nil_length_inv|done]. f_equal. destruct x; cbn in *. by rewrite Ev.
  - destruct (finishing_step n x v Hrun Ev Hf) as (e & v1 & E & Hf1 & Hlen); [by intros E; rewrite E in Ek|].
    destruct (IH (set_session_manager (Some v1) x) v1) as (es & v' & Hes & Hact & Hle); [done|done|done|lia|].
    exists (e :: es), v'. cbn [runs_exec]. rewrite E. split_and!; [exact Hes|done|cbn; lia].
Qed.
End app.

(** A session after [cancel]. *)
Lemma cancelled_session l a (v : server) : NoDup l →
  session_of a (fold_left (λ v a, on_session capacity m0 a0 a disconnect v) l v) =
    if decide (a ∈ l) then disconnect (session_of a v) else session_of a v.
Proof.
  revert v. induction l as [|b l IH]; intros v Hnd; [done|]. apply NoDup_cons in Hnd as [Hb Hnd]. cbn [fold_left]. rewrite IH by done.
  unfold on_session, session_at. cbn [sv_sessions set_session].
  destruct (decide (a = b)) as [->|Hne].
  - rewrite decide_False by done. rewrite decide_True by set_solver. by rewrite lookup_insert_eq.
  - rewrite lookup_insert_ne by done. destruct (decide (a ∈ l)) as [Hin|Hin]; [rewrite decide_True by set_solver|rewrite decide_False by set_solver]; done.
Qed.

(** The sessions of a server that is idle have nothing posted, and none of them is
    disconnecting gracefully. *)
Definition idle (v : server) : Prop := ∀ a, connected capacity m0 a0 v a →
  isDisconnectReserved (ses (session_of a v)) = false ∧ posted (wld (session_of a v)) = [].

Lemma finalized_finishing n (v : server) : server_inv capacity m0 a0 n v → sv_connectors v = [] → idle v →
  finishing n (cancel_sessions capacity m0 a0 (set_acceptors (close_acceptor <$> sv_acceptors v) v)).
Proof.
  intros Hi Hco Hidle. set (v1 := set_acceptors _ v).
  assert (Hi1 : server_inv capacity m0 a0 n v1) by exact (server_step react malloc malloc_fresh capacity m0 a0 n StopAcceptors v v1 Hi eq_refl).
  assert (Hi2 := cancel_sessions_inv capacity m0 a0 n v1 Hi1). split; [done| |by rewrite cancel_connectors|].
  - rewrite cancel_acceptors. cbn. by apply Forall_fmap, Forall_true.
  - intros a. destruct Hi as [Hp (l & Hl & Hc)]. pose proof (pool_inv_nodup _ (po_inv _ _ _ Hp)) as Hnd. apply NoDup_app in Hnd as [Hnd _].
    assert (Hs : session_of a (cancel_sessions capacity m0 a0 v1) = if decide (a ∈ active v) then disconnect (session_of a v) else session_of a v)
      by exact (cancelled_session (active v) a v1 Hnd).
    unfold connected. rewrite Hs. intros Ha.
    assert (Hca : connected capacity m0 a0 v a) by (by destruct (decide (a ∈ active v))).
    rewrite decide_True by (rewrite Hl; apply elem_of_app; right; by apply Hc).
    destruct (Hidle a Hca) as [Hr Hq]. split; [done|]. exists []. cbn. by rewrite Hq.
Qed.

(** ** A session that [cancel] does not end *)

(** It waits for a write, and nothing is left of the [disconnect]. *)
Definition stuck (s : state M A) : Prop :=
  socket_ (ses s) = true ∧ isWritePended_ (ses s) = true ∧ posted (wld s) = [] ∧ timer_waits (throttleTimer_ (ses s)) = 0%nat.

(** What happens without the other end and without the application. *)
Definition local_event (e : event) : bool := match e with EvPosted | EvTimer _ _ => true | _ => false end.

Lemma stuck_exec e s s' : stuck s → local_event e = true → exec react e s = Some s' → stuck s'.
Proof.
  intros (Hs & Hw & Hp & Ht) He. destruct e as [| | | | |act ok]; try done; cbn [exec].
  - by rewrite Hp.
  - destruct act; cbn [timer]; [|by rewrite Ht]. case_bool_decide; [done|]. intros [= <-].
    unfold handle_timeout. destruct ok; cbn [timer on_timer]; [|done]. case_match; [|done]. unfold timedOut.
    change (isWritePended_ (ses (on_ses _ (on_ses _ s)))) with (isWritePended_ (ses s)). rewrite Hw. done.
Qed.

(** The closure of [disconnect] leaves a session alone that disconnects gracefully. *)
Lemma reserved_closure s : socket_ (ses s) = true → isDisconnectReserved (ses s) = true → isWritePended_ (ses s) = true →
  posted (wld s) = [] → timer_waits (throttleTimer_ (ses s)) = 0%nat →
  ∃ s', exec react EvPosted (disconnect s) = Some s' ∧ stuck s'.
Proof.
  intros Hs Hr Hw Hp Ht. cbn [exec]. unfold disconnect at 1. cbn [wld on_wld post posted]. rewrite Hp. cbn [app].
  cbn [do_request]. eexists. split; [done|]. unfold do_disconnect. change (isDisconnectReserved (ses _)) with (isDisconnectReserved (ses s)).
  by rewrite Hr.
Qed.

(** An accept that ends when the acceptors are closed touches no session. *)
Lemma closed_accept i j ended b (v v' : server) : Forall (λ c, ac_shouldFinish_ c = true) (sv_acceptors v) →
  orderly v (app_server_event true (AppAccept i j ended)) = true →
  exec_server (app_server_event b (AppAccept i j ended)) v = Some v' → sv_sessions v' = sv_sessions v.
Proof.
  intros Hc Ho. cbn [app_server_event server_exec orderly] in *. destruct (sv_acceptors v !! i) as [c|] eqn:Ei; [|done].
  pose proof (proj1 (Forall_forall _ _) Hc c (list_elem_of_lookup_2 _ _ _ Ei)) as Hf. cbn [mbind option_bind].
  destruct (asioAcceptors_ c !! j ≫= id) as [w|]; [|done]. cbn [mbind option_bind]. destruct (may_end w ended); [|done].
  unfold handle_accept. destruct ended as [|ab lo]; [by rewrite Hf in Ho|]. destruct lo; [done|]. rewrite Hf. by intros [= <-].
Qed.

(** The other end of session [a] and the application leave it alone. *)
Definition undisturbed (a : Z) (e : session_app_event) : bool :=
  match e with AppSession b e => bool_decide (b ≠ a) || local_event e | AppAccept _ _ _ => true end.

Section waiting.
Context {Command : Type}.
#[local] Abbreviation app := (SessionServerApp (M := M) (A := A) (Command := Command)).
#[local] Abbreviation own := (session_own_event (Command := Command) react malloc capacity m0 a0).

Lemma stuck_event a e (x x' : app) v : Forall (λ c, ac_shouldFinish_ c = true) (sv_acceptors v) → sessionManager_ x = Some v →
  stuck (session_of a v) → undisturbed a e = true → own e x = Some x' →
  ∃ v', sessionManager_ x' = Some v' ∧ stuck (session_of a v').
Proof.
  intros Hc Ev Hs Hu. unfold session_own_event. destruct (is_running x); [|done]. rewrite Ev. cbn [mbind option_bind].
  destruct (orderly v (app_server_event true e)) eqn:Ho; [|done].
  destruct (exec_server (app_server_event (isWarmedUp_ x) e) v) as [v'|] eqn:E; [|done]. cbn [mbind option_bind]. intros [= <-].
  exists v'. split; [done|]. destruct e as [i j ended|b e].
  - unfold session_at in *. by rewrite (closed_accept _ _ _ _ _ _ Hc Ho E).
  - cbn [app_server_event server_exec] in E. unfold run_session in E.
    assert (∃ s, exec react e (session_of b v) = Some s ∧
      v' = (if released_by (session_of b v) s then on_manager (manager_release b) else id) (set_session b s v)) as (s & Es & ->).
    { destruct e; try done; destruct (exec react _ _) as [s|]; try done; injection E as <-; by exists s. }
    unfold session_at in *. assert (Hsv : ∀ r : bool, sv_sessions ((if r then on_manager (manager_release b) else id) (set_session b s v)) = <[b := s]> (sv_sessions v))
      by (by intros []). rewrite Hsv. cbn [undisturbed] in Hu. destruct (decide (b = a)) as [->|Hne].
    + rewrite lookup_insert_eq. cbn [default from_option id]. rewrite bool_decide_false in Hu by (intros []; done). by eapply stuck_exec.
    + by rewrite lookup_insert_ne.
Qed.
End waiting.
End finishing.
