(* ===== verification/AdoVariant.v ===== *)
(** * database/ado: the values of a database

    Models the conversions of [src/include/sne/database/ado/AdoDatabase.h] from a VARIANT
    of COM to the types of C++ ([variant_cast], [getInteger] with its overloads, [getFloat],
    [getString]), and the conversions of times of [src/src/core/utility/Win32Util.cpp].

    A VARIANT is a type of the system: the class [Variant] has its tag and the members
    of its union, and [VariantLaws] what its documentation says of those that overlap.
    A floating-point number is a [spec_float] of the Standard Library; the numbers are those of
    double precision ([prec], [emax]), of which those of single precision are some. *)

From Stdlib Require Import SpecFloat.
From S2P Require Import Prelude Bits.

(** ** The types of the system *)

(** [VARENUM] *)
Inductive vartype :=
| VT_NULL | VT_I1 | VT_UI1 | VT_I2 | VT_UI2 | VT_I4 | VT_UI4 | VT_INT | VT_UINT | VT_I8 | VT_UI8
| VT_R4 | VT_R8 | VT_DECIMAL | VT_BOOL | VT_DATE | VT_BSTR | VT_OTHER.
#[global] Instance vartype_eq_dec : EqDecision vartype.
Proof. solve_decision. Defined.

(** [tagVARIANT]; a [BSTR] is null or a string. *)
Class Variant (V : Type) := {
  vt : V → vartype;
  cVal : V → Z; bVal : V → Z; iVal : V → Z; uiVal : V → Z; lVal : V → Z; ulVal : V → Z;
  intVal : V → Z; uintVal : V → Z; llVal : V → Z; ullVal : V → Z;
  fltVal : V → spec_float; dblVal : V → spec_float;
  boolVal : V → Z;
  date : V → spec_float;
  decVal_Lo64 : V → Z; decVal_sign : V → bool; decVal_scale : V → Z;     (* [sign]: [DECIMAL_NEG] *)
  bstrVal : V → option (list Z);
}.

(** The members have their types, and [Lo64] of a DECIMAL has the storage of [llVal]
    and [ullVal]. *)
Class VariantLaws (V : Type) `{Variant V} := {
  cVal_type v : is_sint 8 (cVal v); bVal_type v : is_uint 8 (bVal v);
  iVal_type v : is_sint 16 (iVal v); uiVal_type v : is_uint 16 (uiVal v);
  lVal_type v : is_sint 32 (lVal v); ulVal_type v : is_uint 32 (ulVal v);
  intVal_type v : is_sint 32 (intVal v); uintVal_type v : is_uint 32 (uintVal v);
  llVal_type v : is_sint 64 (llVal v); ullVal_type v : is_uint 64 (ullVal v);
  Lo64_type v : is_uint 64 (decVal_Lo64 v); scale_type v : is_uint 8 (decVal_scale v);
  Lo64_overlaps v : llVal v = sint 64 (decVal_Lo64 v) ∧ ullVal v = decVal_Lo64 v;
}.

(** [SYSTEMTIME] and the members of [struct tm] that are used. *)
Record SYSTEMTIME := mkSystemTime { wYear : Z; wMonth : Z; wDay : Z; wHour : Z; wMinute : Z; wSecond : Z }.
Record tm := mkTm { tm_year : Z; tm_mon : Z; tm_mday : Z; tm_hour : Z; tm_min : Z; tm_sec : Z }.

(** The functions of the system and of the C library that convert times, the latter
    after the time zone; and [pow(10.0, _)]. *)
Class TimeLibrary := {
  VariantTimeToSystemTime : spec_float → SYSTEMTIME;
  SystemTimeToVariantTime : SYSTEMTIME → spec_float;
  localtime : Z → option tm;
  time : Z;
  mktime : tm → Z;                        (* with [tm_isdst = -1] *)
  pow10 : Z → spec_float;
}.

(** ** Numbers *)

Definition prec : Z := 53.
Definition emax : Z := 1024.
Definition to_double (z : Z) : spec_float := binary_normalize prec emax z 0 false.

(** The number without its fraction; none for infinity and NaN. *)
Definition truncate (f : spec_float) : option Z :=
  match f with
  | S754_zero _ => Some 0
  | S754_finite s m e =>
      let n := if 0 <=? e then Zpos m * 2 ^ e else Zpos m / 2 ^ (- e) in
      Some (if s then - n else n)
  | _ => None
  end.

(** The type [T] of a template: a number, or an enumeration. *)
Inductive target := Number (t : prim) | Enumeration.

(** The type [static_cast<To>] goes through. *)
Definition cast_type (t : target) : prim := match t with Number t => t | Enumeration => PS32 end.

Definition prim_min (t : prim) : Z :=
  match t with PS64 | PS32 | PS16 | PS8 => - 2 ^ (bits_size t - 1) | _ => 0 end.
Definition prim_max (t : prim) : Z :=
  match t with PS64 | PS32 | PS16 | PS8 => 2 ^ (bits_size t - 1) - 1 | _ => 2 ^ bits_size t - 1 end.

(** [variant_cast<To>] from an integer. *)
Definition variant_cast (t : target) (z : Z) : Z := prim_of (cast_type t) z.
(** From a floating-point number: what does not fit is undefined. *)
Definition float_cast (t : prim) (f : spec_float) : result Z :=
  match truncate f with
  | Some n =>
      if bool_decide (prim_min t ≤ n ≤ prim_max t) then Ok n
      else Throw (Undefined "a conversion of a number that does not fit")
  | None => Throw (Undefined "a conversion of a number that is not finite")
  end.
Definition variant_cast_float (t : target) (f : spec_float) : result Z := float_cast (cast_type t) f.

(** [value * -1], after the promotion of the type to [int] or [unsigned int]. *)
Definition negate (t : target) (value : Z) : result Z :=
  match cast_type t with
  | PU32 => Ok (uint 32 (- value))
  | _ => if bool_decide (is_sint 32 (- value)) then Ok (- value) else Throw (Undefined "signed overflow")
  end.

Section conversions.
Context {V : Type} `{Variant V} `{TimeLibrary}.

(** ** Times *)

Definition variantTimeToAnsiTime (v : V) : Z :=
  if bool_decide (vt v = VT_DATE) then
    let sysTime := VariantTimeToSystemTime (date v) in
    mktime (mkTm (wYear sysTime - 1900) (wMonth sysTime - 1) (wDay sysTime) (wHour sysTime) (wMinute sysTime) (wSecond sysTime))
  else 0.

(** The date of the VARIANT it returns.  [localtime] of the current time does not
    fail. *)
Definition ansiTimeToVariantTime (utc : Z) : option spec_float :=
  localtm ← (match localtime utc with Some t => Some t | None => localtime time end);
  Some (SystemTimeToVariantTime (mkSystemTime (uint 16 (1900 + tm_year localtm)) (uint 16 (tm_mon localtm + 1))
    (uint 16 (tm_mday localtm)) (uint 16 (tm_hour localtm)) (uint 16 (tm_min localtm)) (uint 16 (tm_sec localtm)))).

(** ** [getInteger] *)

Definition unsupported : exn := AdoException "unsupported variant type".

(** [getInteger<T>], for an enumeration or a number of at most 32 bits. *)
Definition getInteger (t : target) (v : V) : result Z :=
  match vt v with
  | VT_I1 => Ok (variant_cast t (cVal v))
  | VT_UI1 => Ok (variant_cast t (bVal v))
  | VT_I2 => Ok (variant_cast t (iVal v))
  | VT_UI2 => Ok (variant_cast t (uiVal v))
  | VT_I4 => Ok (variant_cast t (lVal v))
  | VT_UI4 => Ok (variant_cast t (ulVal v))
  | VT_INT => Ok (variant_cast t (intVal v))
  | VT_UINT => Ok (variant_cast t (uintVal v))
  | VT_R4 => variant_cast_float t (fltVal v)
  | VT_R8 => variant_cast_float t (dblVal v)
  | VT_DECIMAL =>
      let value := variant_cast t (decVal_Lo64 v) in
      let signed := if decVal_sign v then match negate t value with Ok z => Ok (variant_cast t z) | Throw e => Throw e end else Ok value in
      match signed with
      | Throw e => Throw e
      | Ok value =>
          if 0 <? decVal_scale v then variant_cast_float t (SFdiv prec emax (to_double value) (pow10 (decVal_scale v)))
          else Ok value
      end
  | VT_BOOL => Ok (variant_cast t (if boolVal v =? 0 then 0 else 1))
  | VT_DATE => Ok (prim_of (cast_type t) (variantTimeToAnsiTime v))
  | VT_NULL => Ok (variant_cast t 0)
  | _ => Throw unsupported
  end.

(** The overload for [bool]. *)
Definition getInteger_bool (v : V) : result bool :=
  match getInteger (Number PS32) v with
  | Ok intValue => Ok (negb (intValue =? 0))
  | Throw e => Throw e
  end.

(** The overload for [int64_t]. *)
Definition getInteger_int64 (v : V) : result Z :=
  match vt v with
  | VT_I8 | VT_UI8 | VT_DECIMAL => Ok (llVal v)
  | VT_R4 => float_cast PS64 (fltVal v)
  | VT_R8 => float_cast PS64 (dblVal v)
  | VT_BOOL => Ok (if boolVal v =? 0 then 0 else 1)
  | VT_DATE => Ok (variantTimeToAnsiTime v)
  | _ => getInteger (Number PS32) v
  end.

(** The overload for [uint64_t]. *)
Definition getInteger_uint64 (v : V) : result Z :=
  match vt v with
  | VT_I8 | VT_UI8 | VT_DECIMAL => Ok (ullVal v)
  | VT_R4 => match float_cast PS64 (fltVal v) with Ok z => Ok (uint 64 z) | Throw e => Throw e end
  | VT_R8 => float_cast PU64 (dblVal v)
  | VT_BOOL => Ok (if boolVal v =? 0 then 0 else 1)
  | _ => getInteger (Number PU32) v
  end.

(** ** [getFloat] *)

Definition getFloat32 : exn := AdoException "float32_t is not supported, use float64_t instead".

Definition getFloat (v : V) : result spec_float :=
  match vt v with
  | VT_R4 => Ok (fltVal v)
  | VT_R8 => Ok (dblVal v)
  | VT_DECIMAL =>
      let value := SFmul prec emax (to_double (decVal_Lo64 v)) (to_double (if decVal_sign v then -1 else 1)) in
      Ok (if 0 <? decVal_scale v then SFdiv prec emax value (pow10 (decVal_scale v)) else value)
  | VT_NULL => Ok (S754_zero false)
  | _ => match getInteger_int64 v with Ok value64 => Ok (to_double value64) | Throw e => Throw e end
  end.

(** ** [getString] *)

(** [narrow] is the conversion of [_bstr_t] to the characters of the string: that to
    [const char*], or none for [const wchar_t*].  A null BSTR gives a null pointer. *)
Definition variant_getString (narrow : list Z → list Z) (v : V) : result (list Z) :=
  match vt v with
  | VT_BSTR =>
      match bstrVal v with
      | Some s => Ok (c_string (narrow s))
      | None => Throw (Undefined "a string assigned from a null pointer")
      end
  | VT_NULL => Ok []
  | _ => Throw unsupported
  end.
End conversions.

(** ** The number that a VARIANT holds *)

Section numbers.
Context {V : Type} `{HV : VariantLaws V} `{TimeLibrary}.

(** Without its fraction, where it has one; the scale of a DECIMAL must be 0. *)
Definition number_of (v : V) : option Z :=
  match vt v with
  | VT_I1 => Some (cVal v) | VT_UI1 => Some (bVal v) | VT_I2 => Some (iVal v) | VT_UI2 => Some (uiVal v)
  | VT_I4 => Some (lVal v) | VT_UI4 => Some (ulVal v) | VT_INT => Some (intVal v) | VT_UINT => Some (uintVal v)
  | VT_I8 => Some (llVal v) | VT_UI8 => Some (ullVal v)
  | VT_R4 => truncate (fltVal v) | VT_R8 => truncate (dblVal v)
  | VT_DECIMAL => if decVal_scale v =? 0 then Some (if decVal_sign v then - decVal_Lo64 v else decVal_Lo64 v) else None
  | VT_BOOL => Some (if boolVal v =? 0 then 0 else 1)
  | VT_NULL => Some 0
  | _ => None
  end.

(** The types for which the template is used: of at most 32 bits. *)
Definition template_type (t : target) : Prop :=
  match cast_type t with PU8 | PU16 | PU32 | PS8 | PS16 | PS32 => True | _ => False end.
Definition fits (t : prim) (z : Z) : Prop := prim_min t ≤ z ≤ prim_max t.

Lemma variant_cast_fits t z : template_type t → fits (cast_type t) z → variant_cast t z = z.
Proof.
  unfold template_type, fits, variant_cast. destruct (cast_type t); try done; intros _ Hz; unfold prim_min, prim_max, bits_size, sizeof, CHAR_BIT in Hz;
    first [apply uint_id; unfold is_uint, bits_size, sizeof, CHAR_BIT; lia|apply sint_id; [done|unfold is_sint, bits_size, sizeof, CHAR_BIT; lia]].
Qed.
Lemma float_cast_fits t f z : truncate f = Some z → fits t z → float_cast t f = Ok z.
Proof. intros Hf Hz. unfold float_cast. by rewrite Hf, bool_decide_true by exact Hz. Qed.

(** A negative DECIMAL: the cast of what its digits are, negated and cast again. *)
Lemma negate_cast t n : template_type t → 0 < n → fits (cast_type t) (- n) → (cast_type t = PS32 → n < 2 ^ 31) →
  negate t (variant_cast t n) = Ok (- variant_cast t n) ∧ variant_cast t (- variant_cast t n) = - n.
Proof.
  unfold template_type, fits, negate, variant_cast. intros Ht Hn Hz H31.
  destruct (cast_type t) eqn:Et; try done; unfold prim_min, prim_max, bits_size, sizeof, CHAR_BIT in Hz; try lia;
    unfold prim_of, bits_size, sizeof, CHAR_BIT.
  - rewrite (sint_id (4 * 8) n) by (first [done|unfold is_sint; specialize (H31 eq_refl); lia]).
    rewrite bool_decide_true by (unfold is_sint; lia). split; [done|]. apply sint_id; [done|]. unfold is_sint. lia.
  - pose proof (sint_range (2 * 8) n) as Hr. unfold is_sint in Hr.
    rewrite bool_decide_true by (unfold is_sint; lia). split; [done|].
    destruct (decide (n = 2 ^ 15)) as [->|]; [done|]. rewrite (sint_id (2 * 8) n) by (unfold is_sint; lia). apply sint_id; [done|]. unfold is_sint. lia.
  - pose proof (sint_range (1 * 8) n) as Hr. unfold is_sint in Hr.
    rewrite bool_decide_true by (unfold is_sint; lia). split; [done|].
    destruct (decide (n = 2 ^ 7)) as [->|]; [done|]. rewrite (sint_id (1 * 8) n) by (unfold is_sint; lia). apply sint_id; [done|]. unfold is_sint. lia.
Qed.

(** The VARIANTs the template does not take, and those the overloads take themselves. *)
Definition is_wide (t : vartype) : bool := match t with VT_I8 | VT_UI8 => true | _ => false end.
Definition int64_itself (t : vartype) : bool :=
  match t with VT_I8 | VT_UI8 | VT_DECIMAL | VT_R4 | VT_R8 | VT_BOOL | VT_DATE => true | _ => false end.
Definition uint64_itself (t : vartype) : bool :=
  match t with VT_I8 | VT_UI8 | VT_DECIMAL | VT_R4 | VT_R8 | VT_BOOL => true | _ => false end.

(** The template reads the number of every VARIANT but those of 64 bits, when the type can
    hold it. *)
Lemma getInteger_reads t (v : V) z : template_type t → is_wide (vt v) = false → number_of v = Some z →
  fits (cast_type t) z → (vt v = VT_DECIMAL → cast_type t = PS32 → z ≠ - 2 ^ 31) → getInteger t v = Ok z.
Proof.
  intros Ht Hvt Hz Hf Hd. unfold number_of in Hz. unfold getInteger.
  assert (Hc : ∀ n, Some n = Some z → variant_cast t n = z) by (intros n [= ->]; by apply variant_cast_fits).
  destruct (vt v) eqn:Ev; try done; try (by rewrite (Hc _ Hz)); try (by apply float_cast_fits).
  destruct (decVal_scale v =? 0) eqn:Es; [|done]. apply Z.eqb_eq in Es. rewrite Es, Z.ltb_irrefl. injection Hz as Hz.
  destruct (decVal_sign v) eqn:Esn; [|by rewrite (Hc _ (f_equal Some Hz))].
  pose proof (Lo64_type v) as [HL _]. destruct (decide (decVal_Lo64 v = 0)) as [E0|Hn].
  - rewrite E0 in Hz |- *. subst z. assert (E1 : variant_cast t 0 = 0) by (apply variant_cast_fits; [done|exact Hf]).
    rewrite E1. assert (negate t 0 = Ok 0) as -> by (unfold negate; by destruct (cast_type t)). by rewrite E1.
  - subst z. destruct (negate_cast t (decVal_Lo64 v)) as [-> ->]; [done|lia|done| |done]. intros E1. specialize (Hd eq_refl E1).
    unfold fits in Hf. rewrite E1 in Hf. unfold prim_min, bits_size, sizeof, CHAR_BIT in Hf. lia.
Qed.

(** Which VARIANTs the overloads for 64 bits read as the number they hold. *)
Definition int64_reads (v : V) : bool :=
  match vt v with
  | VT_UI4 => ulVal v <? 2 ^ 31
  | VT_UINT => uintVal v <? 2 ^ 31
  | VT_UI8 => ullVal v <? 2 ^ 63
  | VT_DECIMAL => negb (decVal_sign v) && (decVal_Lo64 v <? 2 ^ 63)
  | _ => true
  end.
Definition uint64_reads (v : V) : bool :=
  match vt v with
  | VT_I1 => 0 <=? cVal v
  | VT_I2 => 0 <=? iVal v
  | VT_I4 => 0 <=? lVal v
  | VT_INT => 0 <=? intVal v
  | VT_I8 => 0 <=? llVal v
  | VT_DECIMAL => negb (decVal_sign v)
  | VT_R4 => match truncate (fltVal v) with Some z => (0 <=? z) && (z <? 2 ^ 63) | None => false end
  | VT_R8 => match truncate (dblVal v) with Some z => 0 <=? z | None => false end
  | _ => true
  end.

Lemma int64_template (v : V) z : int64_itself (vt v) = false →
  number_of v = Some z → fits PS32 z → getInteger_int64 v = Ok z.
Proof.
  intros Hvt Hz Hf. assert (E : getInteger (Number PS32) v = Ok z).
  { apply getInteger_reads; [done|by destruct (vt v)|done|done|]. by destruct (vt v). }
  unfold getInteger_int64. by destruct (vt v).
Qed.
Lemma uint64_template (v : V) z : uint64_itself (vt v) = false →
  number_of v = Some z → fits PU32 z → getInteger_uint64 v = Ok z.
Proof.
  intros Hvt Hz Hf. assert (E : getInteger (Number PU32) v = Ok z).
  { apply getInteger_reads; [done|by destruct (vt v)|done|done|]. by destruct (vt v). }
  unfold getInteger_uint64. by destruct (vt v).
Qed.

#[local] Ltac in_type lem v := pose proof (lem v) as Htype; unfold is_sint, is_uint in Htype;
  unfold fits, prim_min, prim_max, bits_size, sizeof, CHAR_BIT; lia.

(** A number of 64 bits is read if it fits and the VARIANT is one of these. *)
Lemma getInteger_int64_reads (v : V) z : number_of v = Some z → fits PS64 z → int64_reads v = true → getInteger_int64 v = Ok z.
Proof.
  intros Hz Hf Hr. destruct (int64_itself (vt v)) eqn:Hin.
  - unfold getInteger_int64, number_of, int64_reads in *. destruct (Lo64_overlaps v) as [E1 E2].
    pose proof (Lo64_type v) as HL. pose proof (ullVal_type v) as HU.
    destruct (vt v) eqn:Ev; try done; try (by apply float_cast_fits).
    + by injection Hz as <-.
    + injection Hz as <-. apply Z.ltb_lt in Hr. f_equal. rewrite E1, <- E2. apply sint_id; [done|]. unfold is_sint, is_uint in *. lia.
    + destruct (decVal_scale v =? 0); [|done]. apply andb_true_iff in Hr as [Hs%negb_true_iff Hl%Z.ltb_lt]. rewrite Hs in Hz.
      injection Hz as <-. f_equal. rewrite E1. apply sint_id; [done|]. unfold is_sint, is_uint in *. lia.
    + injection Hz as <-. done.
  - apply int64_template; [done|done|]. unfold number_of, int64_reads in *.
    destruct (vt v) eqn:Ev; try done; injection Hz as <-; try apply Z.ltb_lt in Hr.
    + by vm_compute.
    + in_type (cVal_type (V := V)) v.
    + in_type (bVal_type (V := V)) v.
    + in_type (iVal_type (V := V)) v.
    + in_type (uiVal_type (V := V)) v.
    + in_type (lVal_type (V := V)) v.
    + in_type (ulVal_type (V := V)) v.
    + in_type (intVal_type (V := V)) v.
    + in_type (uintVal_type (V := V)) v.
Qed.
Lemma getInteger_uint64_reads (v : V) z : number_of v = Some z → fits PU64 z → uint64_reads v = true → getInteger_uint64 v = Ok z.
Proof.
  intros Hz Hf Hr. destruct (uint64_itself (vt v)) eqn:Hin.
  - unfold getInteger_uint64, number_of, uint64_reads in *. destruct (Lo64_overlaps v) as [E1 E2].
    pose proof (Lo64_type v) as HL. pose proof (llVal_type v) as HS.
    destruct (vt v) eqn:Ev; try done; try (by apply float_cast_fits).
    + injection Hz as <-. apply Z.leb_le in Hr. f_equal. rewrite E2, <- (uint_id 64 (decVal_Lo64 v)), <- (uint_sint 64 (decVal_Lo64 v)), <- E1 by done.
      apply uint_id. unfold is_uint, is_sint in *. lia.
    + by injection Hz as <-.
    + rewrite Hz in Hr. apply andb_true_iff in Hr as [H1%Z.leb_le H2%Z.ltb_lt].
      rewrite (float_cast_fits PS64 _ z Hz) by (unfold fits, prim_min, prim_max, bits_size, sizeof, CHAR_BIT; lia).
      f_equal. apply uint_id. unfold is_uint. lia.
    + destruct (decVal_scale v =? 0); [|done]. apply negb_true_iff in Hr. rewrite Hr in Hz. injection Hz as <-. by rewrite E2.
    + injection Hz as <-. done.
  - apply uint64_template; [done|done|]. unfold number_of, uint64_reads in *.
    destruct (vt v) eqn:Ev; try done; injection Hz as <-; try apply Z.leb_le in Hr.
    + by vm_compute.
    + in_type (cVal_type (V := V)) v.
    + in_type (bVal_type (V := V)) v.
    + in_type (iVal_type (V := V)) v.
    + in_type (uiVal_type (V := V)) v.
    + in_type (lVal_type (V := V)) v.
    + in_type (ulVal_type (V := V)) v.
    + in_type (intVal_type (V := V)) v.
    + in_type (uintVal_type (V := V)) v.
Qed.

(** ** Times *)

(** What [ansiTimeToVariantTime] gives to the system. *)
Definition system_time (l : tm) : SYSTEMTIME :=
  mkSystemTime (1900 + tm_year l) (tm_mon l + 1) (tm_mday l) (tm_hour l) (tm_min l) (tm_sec l).
(** A time whose local time [mktime] gives back, as outside the hour that is repeated
    when summer ends, and whose date the system gives back. *)
Definition time_kept (t : Z) : Prop := ∃ l, localtime t = Some l ∧ mktime l = t ∧
  (0 ≤ 1900 + tm_year l < 2 ^ 16) ∧ (0 ≤ tm_mon l < 12) ∧ (0 < tm_mday l < 32) ∧
  (0 ≤ tm_hour l < 24) ∧ (0 ≤ tm_min l < 60) ∧ (0 ≤ tm_sec l < 61) ∧
  VariantTimeToSystemTime (SystemTimeToVariantTime (system_time l)) = system_time l.

Lemma time_read_back t (v : V) d : time_kept t → ansiTimeToVariantTime t = Some d → vt v = VT_DATE → date v = d →
  variantTimeToAnsiTime v = t ∧ getInteger_int64 v = Ok t.
Proof.
  intros (l & El & Em & Hy & Hmo & Hd & Hh & Hmi & Hs & Hsys) Ed Ev Ev'.
  assert (E : variantTimeToAnsiTime v = t).
  { unfold ansiTimeToVariantTime in Ed. rewrite El in Ed. injection Ed as <-. unfold variantTimeToAnsiTime.
    rewrite bool_decide_true by done. rewrite Ev'. rewrite !uint_id by (unfold is_uint; lia). fold (system_time l). rewrite Hsys.
    unfold system_time. cbn [wYear wMonth wDay wHour wMinute wSecond]. replace (1900 + tm_year l - 1900) with (tm_year l) by lia.
    replace (tm_mon l + 1 - 1) with (tm_mon l) by lia. by destruct l. }
  split; [done|]. unfold getInteger_int64. by rewrite Ev, E.
Qed.

End numbers.
