(* ===== verification/AdoDatabase.v ===== *)
(** * database/ado: the connection and the objects of ADO

    Models [AdoDatabase], [AdoRecordSet], [AdoCommand] and [AdoParameter] with its
    subclasses ([src/include/sne/database/ado/AdoDatabase.h], [src/src/database/ado/
    AdoDatabase.cpp]) over ADO, which is a library of the system: the class
    [AdoLibrary] has the methods that are called, each of which answers or throws a
    [_com_error]; the object [ADODB::] is known by its pointer.  [SmartPointer] is
    [_com_ptr_t]: a method called through a null pointer throws [E_POINTER]. *)

From Stdlib Require Import SpecFloat.
From S2P Require Import Prelude Bits AdoVariant.

(** ** ADO *)

Inductive coclass := Connection | Recordset | Command | Parameter_.

Definition adStateClosed : Z := 0.
Definition adStateOpen : Z := 1.
Definition adUseClient : Z := 3.
Definition adCmdStoredProc : Z := 4.
Definition S_OK : Z := 0.
Definition E_POINTER : Z := 0x80004003.
(** An [HRESULT] as its 32 bits. *)
Definition SUCCEEDED (hr : Z) : bool := hr <? 2 ^ 31.

(** [DataTypeEnum], and the direction of all parameters. *)
Inductive data_type :=
| adTinyInt | adSmallInt | adInteger | adBigInt | adUnsignedTinyInt | adUnsignedSmallInt | adUnsignedInt | adUnsignedBigInt
| adNumeric | adSingle | adDouble | adDate | adVarChar | adVarWChar | adLongVarChar.
Definition adParamInput : Z := 1.

(** The value given to a parameter. *)
Inductive variant_value :=
| IntegerVariant (t : prim) (z : Z)      (* [_variant_t] of a value of the type *)
| DateVariant (d : spec_float)
| StringVariant (bstr : Z).              (* the address of the BSTR *)

(** The methods of an object of ADO, by its pointer, and the functions of COM; [W] is the
    state of all of them. *)
Class AdoLibrary (V W : Type) := {
  CreateInstance : coclass → st W (Z * option Z);          (* the result and the pointer *)
  Release : Z → W → W;
  GetState : Z → st W Z;
  put_CursorLocation : Z → Z → st W unit;
  put_ConnectionTimeout : Z → Z → st W unit;
  Connection_Open : Z → string → st W Z;
  Connection_Close : Z → st W unit;
  Connection_Execute : Z → string → st W Z;                (* the records affected, a [Long] *)
  Recordset_Open : Z → string → option Z → st W unit;
  Recordset_Close : Z → st W unit;
  EndOfFile : Z → st W bool;
  MoveFirst : Z → st W unit;
  MoveNext : Z → st W unit;
  NextRecordset : Z → st W (option Z);
  GetRecordCount : Z → st W Z;
  GetItem : Z → string + Z → st W V;                       (* the value of a field *)
  GetCollect : Z → string → st W V;
  put_CommandText : Z → list Z → st W unit;
  put_CommandType : Z → Z → st W unit;
  put_ActiveConnection : Z → option Z → st W unit;
  Command_Execute : Z → bool → st W (option Z);            (* [adExecuteNoRecords] or not *)
  Parameters_Append : Z → option Z → st W unit;
  put_Direction : Z → Z → st W unit;
  put_Type : Z → data_type → st W unit;
  put_Size : Z → Z → st W unit;
  get_Size : Z → st W Z;
  put_Value : Z → variant_value → st W unit;
  get_Value : Z → st W V;
  SysAllocString : list Z → W → Z * W;
  SysFreeString : Z → W → W;
}.

(** A method of COM throws a [_com_error] or nothing. *)
Definition com_method {W A} (m : st W A) : Prop := ∀ w w' e, m w = (Throw e, w') → ∃ c, e = ComError c.

(** ** [AdoDatabase] *)

Record AdoDatabase := mkAdoDatabase {
  lastResult_ : Z;
  lastError_ : string;
  lastConnectionString_ : string;
  connection_ : option Z;                  (* the pointer held, or null *)
  affectedRecordsCount_ : Z;               (* an [int], not initialized by the constructor *)
}.

Definition MAX_ERROR_LEN : nat := 1024.
Definition newAdoDatabase (uninitialized : Z) : AdoDatabase := mkAdoDatabase S_OK "" "" None uninitialized.

Definition set_lastResult (hr : Z) (d : AdoDatabase) : AdoDatabase :=
  mkAdoDatabase hr (lastError_ d) (lastConnectionString_ d) (connection_ d) (affectedRecordsCount_ d).
Definition set_lastError (s : string) (d : AdoDatabase) : AdoDatabase :=
  mkAdoDatabase (lastResult_ d) s (lastConnectionString_ d) (connection_ d) (affectedRecordsCount_ d).
Definition set_connectionString (s : string) (d : AdoDatabase) : AdoDatabase :=
  mkAdoDatabase (lastResult_ d) (lastError_ d) s (connection_ d) (affectedRecordsCount_ d).
Definition set_connection (c : option Z) (d : AdoDatabase) : AdoDatabase :=
  mkAdoDatabase (lastResult_ d) (lastError_ d) (lastConnectionString_ d) c (affectedRecordsCount_ d).
Definition set_affected (n : Z) (d : AdoDatabase) : AdoDatabase :=
  mkAdoDatabase (lastResult_ d) (lastError_ d) (lastConnectionString_ d) (connection_ d) n.

(** [%X] of 32 bits. *)
Definition hex_digit (n : Z) : string :=
  default ""%string (["0"; "1"; "2"; "3"; "4"; "5"; "6"; "7"; "8"; "9"; "A"; "B"; "C"; "D"; "E"; "F"]%string !! Z.to_nat (n mod 16)).
Fixpoint hex_loop (digits : nat) (n : Z) (acc : string) : string :=
  match digits with
  | O => acc
  | S digits => if n <? 16 then hex_digit n +:+ acc else hex_loop digits (n / 16) (hex_digit n +:+ acc)
  end.
Definition format_hex (n : Z) : string := hex_loop 8 n "".

(** What [_snprintf_s] makes of the format; [%s] of a null pointer is [(null)]. *)
Definition error_text (e : com_error) : string :=
  ("AdoDataBase Error: Code = 0x" +:+ format_hex (ce_Error e) +:+ ", Code meaning = " +:+ default "n/a" (ce_ErrorMessage e) +:+
   ", Source = " +:+ default "(null)" (ce_Source e) +:+ ", Description = " +:+ default "(null)" (ce_Description e))%string.

(** [catch (_com_error& e)] *)
Definition catch_com {S A} (m : st S A) (handler : com_error → st S A) : st S A := λ s,
  match m s with
  | (Throw (ComError e), s') => handler e s'
  | r => r
  end.

(** [_com_ptr_t::operator->] *)
Definition pointer_error : com_error := mkComError E_POINTER (Some "Invalid pointer"%string) None None.
Definition arrow {S} (p : option Z) : st S Z :=
  match p with
  | Some c => mret c
  | None => throw (ComError pointer_error)
  end.
(** The instances of [AdoNumericParameter<BaseType, AdoType>] for the types of integers. *)
Definition numeric_parameter : Type := prim * data_type.
Definition AdoTinyIntParameter : numeric_parameter := (PS8, adTinyInt).
Definition AdoSmallIntParameter : numeric_parameter := (PS16, adSmallInt).
Definition AdoIntegerParameter : numeric_parameter := (PS32, adInteger).
Definition AdoBigIntParameter : numeric_parameter := (PS64, adBigInt).
Definition AdoUnsignedTinyIntParameter : numeric_parameter := (PU8, adUnsignedTinyInt).
Definition AdoUnsignedSmallIntParameter : numeric_parameter := (PU16, adUnsignedSmallInt).
Definition AdoUnsignedIntParameter : numeric_parameter := (PU32, adUnsignedInt).
Definition AdoUnsignedBigIntParameter : numeric_parameter := (PU64, adUnsignedBigInt).
Definition AdoNumeric8Parameter : numeric_parameter := (PS8, adNumeric).
Definition AdoNumeric16Parameter : numeric_parameter := (PS16, adNumeric).
Definition AdoNumeric32Parameter : numeric_parameter := (PS32, adNumeric).
Definition AdoNumeric64Parameter : numeric_parameter := (PS64, adNumeric).
Definition AdoNumericU8Parameter : numeric_parameter := (PU8, adNumeric).
Definition AdoNumericU16Parameter : numeric_parameter := (PU16, adNumeric).
Definition AdoNumericU32Parameter : numeric_parameter := (PU32, adNumeric).
Definition AdoNumericU64Parameter : numeric_parameter := (PU64, adNumeric).

Section ado.
Context {V W : Type} `{Variant V} `{!AdoLibrary V W} `{TimeLibrary}.

(** The database and the rest of the system. *)
#[local] Abbreviation state := (AdoDatabase * W)%type.
Definition in_ado {A} (m : st W A) : st state A := zoom snd (λ w s, (fst s, w)) m.
Definition in_database {A} (m : st AdoDatabase A) : st state A := zoom fst (λ d s, (d, snd s)) m.
Definition on_database (f : AdoDatabase → AdoDatabase) : st state unit := in_database (modify f).

Definition connection : st state Z := c ← in_database (gets connection_); arrow c.

(** The count given to [_snprintf_s] is the size of the buffer, so that a text that
    does not fit is not cut: the handler of invalid parameters ends the process. *)
Definition setLastError (e : com_error) : st state unit :=
  on_database (set_lastResult (ce_Error e)) ;;
  if (String.length (error_text e) <? MAX_ERROR_LEN)%nat then on_database (set_lastError (error_text e))
  else throw (Undefined "invalid parameter of _snprintf_s").

(** [catch (_com_error& e)] with a [throw AdoException], and with a [return]. *)
Definition ado_try {A} (m : st state A) (what : st state string) : st state A :=
  catch_com m (λ e, setLastError e ;; w ← what; throw (AdoException w)).
Definition ado_default {A} (m : st state A) (a : A) : st state A := catch_com m (λ e, setLastError e ;; mret a).

Definition isOpened : st state bool :=
  ado_default (
    c ← in_database (gets connection_);
    match c with
    | None => mret false
    | Some c => s ← in_ado (GetState (V := V) c); mret (negb (bool_decide (s = adStateClosed)))
    end) false.

(** Assigning to a smart pointer, or [Release] of it. *)
Definition release_pointer (p : option Z) : st state unit :=
  match p with Some c => in_ado (modify (Release (V := V) c)) | None => mret tt end.
Definition release_connection : st state unit :=
  c ← in_database (gets connection_); release_pointer c ;; on_database (set_connection None).

Definition close : st state unit :=
  opened ← isOpened;
  if (opened : bool) then
    c ← connection;
    in_ado (Connection_Close (V := V) c) ;;
    release_connection
  else mret tt.

(** [CreateInstance] of [_com_ptr_t] releases what the pointer held. *)
Definition initAdo : st state bool :=
  release_connection ;;
  r ← in_ado (CreateInstance (V := V) Connection);
  on_database (set_connection (snd r)) ;;
  mret (SUCCEEDED (fst r)).

Definition ado_open (connectionString : string) (connectionTimeout : Z) : st state bool :=
  opened ← isOpened;
  ready ← (if (opened : bool) then close ;; mret true
           else
             created ← initAdo;
             if (created : bool) then c ← connection; in_ado (put_CursorLocation (V := V) c adUseClient) ;; mret true else mret false);
  if (ready : bool) then
    ado_default (
      on_database (set_connectionString connectionString) ;;
      c ← connection;
      in_ado (put_ConnectionTimeout (V := V) c connectionTimeout) ;;
      c ← connection;
      cs ← in_database (gets lastConnectionString_);
      hr ← in_ado (Connection_Open (V := V) c cs);
      mret (SUCCEEDED hr)) false
  else mret false.

(** [records.iVal] of the [Long] that counts them: its low 16 bits. *)
Definition count_affected (sql : string) : st state unit :=
  c ← connection;
  records ← in_ado (Connection_Execute (V := V) c sql);
  on_database (set_affected (sint 16 records)).

Definition lastError : st state string := in_database (gets lastError_).

Definition ado_execute (sql : string) : st state unit :=
  on_database (set_affected 0) ;;
  if bool_decide (sql = ""%string) then throw (AdoException "SQL string is empty")
  else ado_try (count_affected sql) lastError.

Definition ping : st state unit :=
  catch_com (count_affected "SELECT @@VERSION") (λ e,
    setLastError e ;;
    close ;;
    cs ← in_database (gets lastConnectionString_);
    opened ← ado_open cs 2;
    mret tt).

(** ** [AdoRecordSet] *)

(** An object with a smart pointer, or another one, and the database it refers to. *)
Record AdoRecordSet := mkRecordSet { recordSet_ : option Z }.
#[local] Abbreviation rs_state := (AdoRecordSet * state)%type.
Definition rs_database {A} (m : st state A) : st rs_state A := zoom snd (λ d s, (fst s, d)) m.
Definition set_recordSet (p : option Z) : st rs_state unit := modify (λ s, (mkRecordSet p, snd s)).
Definition get_recordSet : st rs_state (option Z) := gets (λ s, recordSet_ (fst s)).
Definition recordset : st rs_state Z := r ← get_recordSet; arrow r.
Definition rs_ado {A} (m : st W A) : st rs_state A := rs_database (in_ado m).

Definition rs_try {A} (m : st rs_state A) (what : string) : st rs_state A :=
  catch_com m (λ e, rs_database (setLastError e) ;; throw (AdoException what)).
Definition rs_default {A} (m : st rs_state A) (a : A) : st rs_state A :=
  catch_com m (λ e, rs_database (setLastError e) ;; mret a).

Definition newAdoRecordSet : AdoRecordSet := mkRecordSet None.

Definition rs_open (query : string) : st rs_state bool :=
  rs_default (
    r ← get_recordSet;
    ready ← (match r with
             | Some _ => mret true
             | None =>
                 created ← rs_ado (CreateInstance (V := V) Recordset);
                 set_recordSet (snd created) ;;
                 mret (SUCCEEDED (fst created))
             end);
    if (ready : bool) then
      r ← recordset;
      c ← rs_database (in_database (gets connection_));
      rs_ado (Recordset_Open (V := V) r query c) ;;
      mret true
    else mret false) false.

Definition rs_isOpened : st rs_state bool :=
  rs_default (
    r ← get_recordSet;
    match r with
    | None => mret false
    | Some r => s ← rs_ado (GetState (V := V) r); mret (negb (bool_decide (s = adStateClosed)))
    end) false.

Definition rs_close : st rs_state unit :=
  opened ← rs_isOpened;
  if (opened : bool) then rs_default (r ← recordset; rs_ado (Recordset_Close (V := V) r)) tt else mret tt.

Definition releaseRecordSet : st rs_state unit :=
  r ← get_recordSet;
  match r with
  | Some _ => rs_database (release_pointer r) ;; set_recordSet None
  | None => mret tt
  end.

(** The destructor: [close] and [releaseRecordSet]. *)
Definition delete_recordSet : st rs_state unit := rs_close ;; releaseRecordSet.

Definition isEof : st rs_state bool :=
  r ← get_recordSet;
  match r with
  | None => mret true
  | Some r => rs_default (rs_ado (EndOfFile (V := V) r)) true
  end.

Definition rs_moveNext : st rs_state unit :=
  rs_try (r ← recordset; rs_ado (MoveNext (V := V) r)) "sne::database::AdoRecordSet::moveNext".

(** The pointer that is assigned replaces the one that was held. *)
Definition nextRecordset : st rs_state unit :=
  r ← get_recordSet;
  match r with
  | None => throw (AdoException "sne::database::AdoRecordSet::nextRecordset - Recordset is null")
  | Some r =>
      rs_try (
        s ← rs_ado (GetState (V := V) r);
        if bool_decide (s = adStateOpen) then
          next ← rs_ado (NextRecordset (V := V) r);
          rs_database (release_pointer (Some r)) ;;
          set_recordSet next
        else throw (AdoException "sne::database::AdoRecordSet::nextRecordset - Recordset is not opened"))
        "sne::database::AdoRecordSet::nextRecordset"
  end.

(** *** Fields *)

Definition conversion {A} (r : result A) : st rs_state A := λ s, (r, s).
(** The value that a method of the record set gives, after one of the conversions. *)
Definition get_value {A} (value : Z → st W V) (get : V → result A) : st rs_state A :=
  rs_try (r ← recordset; v ← rs_ado (value r); conversion (get v)) "AdoException".

(** [getFieldValue] by the index of the field, for the types of the overloads. *)
Definition getFieldValue (t : target) (index : Z) : st rs_state Z := get_value (λ r, GetItem r (inr index)) (getInteger t).
Definition getFieldValue_bool (index : Z) : st rs_state bool := get_value (λ r, GetItem r (inr index)) getInteger_bool.
Definition getFieldValue_int64 (index : Z) : st rs_state Z := get_value (λ r, GetItem r (inr index)) getInteger_int64.
Definition getFieldValue_uint64 (index : Z) : st rs_state Z := get_value (λ r, GetItem r (inr index)) getInteger_uint64.
Definition getFieldEnumValue (index : Z) : st rs_state Z :=
  aValue ← getFieldValue_uint64 index; mret (variant_cast Enumeration aValue).
Definition getFieldValue_float (index : Z) : st rs_state spec_float := get_value (λ r, GetItem r (inr index)) getFloat.
Definition getFieldValue_string (narrow : list Z → list Z) (index : Z) : st rs_state (list Z) :=
  get_value (λ r, GetItem r (inr index)) (variant_getString narrow).
Definition getFieldValue_wstring (index : Z) : st rs_state (list Z) := get_value (λ r, GetItem r (inr index)) (variant_getString id).

(** By the name of the field. *)
Definition getNamedField (field : string) : st rs_state Z := get_value (λ r, GetItem r (inl field)) (getInteger (Number PS32)).
Definition getNamedField_string (narrow : list Z → list Z) (field : string) : st rs_state (list Z) :=
  get_value (λ r, GetItem r (inl field)) (variant_getString narrow).
Definition getNamedField_wstring (field : string) : st rs_state (list Z) := get_value (λ r, GetItem r (inl field)) (variant_getString id).

(** [getColumnValue] *)
Definition getColumnValue (t : target) (column : string) : st rs_state Z := get_value (λ r, GetCollect r column) (getInteger t).
Definition getColumnValue_float (column : string) : st rs_state spec_float := get_value (λ r, GetCollect r column) getFloat.
Definition getColumnValue_string (narrow : list Z → list Z) (column : string) : st rs_state (list Z) :=
  get_value (λ r, GetCollect r column) (variant_getString narrow).
Definition getColumnValue_wstring (column : string) : st rs_state (list Z) := get_value (λ r, GetCollect r column) (variant_getString id).

(** *** [getRecordCount], a [size_t] *)

(** [while (recordSet_->EndOfFile != VARIANT_TRUE)], for as many turns as the fuel. *)
Fixpoint count_loop (fuel : nat) (rows : Z) : st rs_state Z :=
  match fuel with
  | O => throw OutOfFuel
  | S fuel =>
      r ← recordset;
      eof ← rs_ado (EndOfFile (V := V) r);
      if (eof : bool) then mret rows
      else
        r ← recordset;
        rs_ado (MoveNext (V := V) r) ;;
        count_loop fuel (rows + 1)
  end.

Definition getRecordCount (fuel : nat) : st rs_state Z :=
  rs_default (
    r ← recordset;
    rows ← rs_ado (GetRecordCount (V := V) r);
    if bool_decide (rows = -1) then
      r ← recordset;
      eof ← rs_ado (EndOfFile (V := V) r);
      (if (eof : bool) then mret tt else rs_ado (MoveFirst (V := V) r)) ;;
      rows ← count_loop fuel 0;
      (if 0 <? rows then rs_ado (MoveFirst (V := V) r) else mret tt) ;;
      mret (uint 64 rows)
    else mret (uint 64 rows)) 0.

(** ** [AdoCommand] *)

Record AdoCommand := mkAdoCommand { command_ptr : option Z; cmd_ : list Z }.

(** The characters of a text, as the [what] of an exception. *)
Definition text (s : list Z) : string := String.string_of_list_ascii ((λ c, Ascii.ascii_of_nat (Z.to_nat c)) <$> c_string s).
Definition command_error (cmd : list Z) : st state string := mret (text cmd).

Definition newAdoCommand (cmd : list Z) : st state AdoCommand :=
  ado_try (
    created ← in_ado (CreateInstance (V := V) Command);
    let command := snd created in
    (if bool_decide (cmd = []) then mret tt else c ← arrow command; in_ado (put_CommandText (V := V) c (c_string cmd))) ;;
    c ← arrow command;
    in_ado (put_CommandType (V := V) c adCmdStoredProc) ;;
    mret (mkAdoCommand command cmd)) (command_error cmd).

(** [setCommand], whose [_com_error] is not caught. *)
Definition setCommand (cmd : list Z) (c : AdoCommand) : st state AdoCommand :=
  p ← arrow (command_ptr c);
  in_ado (put_CommandText (V := V) p (c_string cmd)) ;;
  mret (mkAdoCommand (command_ptr c) cmd).

Definition cmd_execute (noRecords : bool) (c : AdoCommand) : st state (option Z) :=
  ado_try (
    p ← arrow (command_ptr c);
    db ← in_database (gets connection_);
    in_ado (put_ActiveConnection (V := V) p db) ;;
    in_ado (Command_Execute (V := V) p noRecords)) (command_error (cmd_ c)).
Definition command_execute (c : AdoCommand) : st state (option Z) := cmd_execute false c.
Definition executeNoRecords (c : AdoCommand) : st state unit := r ← cmd_execute true c; mret tt.

Definition addParameter (param : option Z) (c : AdoCommand) : st state bool :=
  ado_default (
    p ← arrow (command_ptr c);
    in_ado (Parameters_Append (V := V) p param) ;;
    mret true) false.

(** [AdoRecordSet::execute] *)
Definition rs_execute (c : AdoCommand) : st rs_state unit :=
  releaseRecordSet ;;
  r ← rs_database (command_execute c);
  set_recordSet r.

(** ** [AdoParameter] *)

(** Its pointer.  No [_com_error] is caught, and what [addParameter] answers is not
    used. *)
Definition newAdoParameter (c : AdoCommand) (type : data_type) (direction : Z) (dataSize : Z) : st state (option Z) :=
  created ← in_ado (CreateInstance (V := V) Parameter_);
  p ← arrow (snd created);
  in_ado (put_Direction (V := V) p direction) ;;
  in_ado (put_Type (V := V) p type) ;;
  in_ado (put_Size (V := V) p (sint 32 dataSize)) ;;
  added ← addParameter (snd created) c;
  mret (snd created).

Definition setDataSize (dataSize : Z) (p : option Z) : st state unit :=
  p ← arrow p; in_ado (put_Size (V := V) p (sint 32 dataSize)).

Definition no_what : st state string := mret "AdoException"%string.

(** [AdoNumericParameter] *)
Definition newNumericParameter (t : numeric_parameter) (c : AdoCommand) (direction : Z) : st state (option Z) :=
  newAdoParameter c (snd t) direction (sizeof (fst t)).
Definition numeric_setValue (t : numeric_parameter) (value : Z) (p : option Z) : st state unit :=
  ado_try (
    p ← arrow p;
    in_ado (put_Size (V := V) p (sizeof (fst t))) ;;
    in_ado (put_Value (V := V) p (IntegerVariant (fst t) (prim_of (fst t) value)))) no_what.
Definition param_value_of {A} (get : V → result A) (p : option Z) : st state A :=
  p ← arrow p; v ← in_ado (get_Value (V := V) p); λ s, (get v, s).
Definition numeric_getValue (t : target) (p : option Z) : st state Z := ado_try (param_value_of (getInteger t) p) no_what.
Definition numeric_getValue_float (p : option Z) : st state spec_float := ado_try (param_value_of getFloat p) no_what.

(** [AdoDateParameter]; when [getValue] fails, [value] stays as it was. *)
Definition newDateParameter (c : AdoCommand) (direction : Z) : st state (option Z) := newAdoParameter c adDate direction 8.
Definition date_setValue (value : Z) (p : option Z) : st state unit :=
  match ansiTimeToVariantTime value with
  | None => throw (Undefined "a null time")
  | Some d =>
      ado_try (
        p ← arrow p;
        in_ado (put_Size (V := V) p 8) ;;
        in_ado (put_Value (V := V) p (DateVariant d))) no_what
  end.
Definition date_getValue (value : Z) (p : option Z) : st state Z := ado_default (param_value_of getInteger_int64 p) value.

(** [setValueWithString]: the BSTR of the [_bstr_t] is put in the [_variant_t] as it
    is, and the destructors of both free it, whatever happens. *)
Definition setValueWithString (value : list Z) (p : option Z) : st state unit := λ s,
  let '(bstr, w) := SysAllocString (V := V) (c_string value) (snd s) in
  let length := sint 32 (Z.of_nat (length value)) in
  let '(r, s) := ado_try (
      p ← arrow p;
      size ← in_ado (get_Size (V := V) p);
      (if size <? length then in_ado (put_Size (V := V) p length) else mret tt) ;;
      in_ado (put_Value (V := V) p (StringVariant bstr))) lastError (fst s, w) in
  (r, (fst s, SysFreeString (V := V) bstr (SysFreeString (V := V) bstr (snd s)))).

(** [AdoVarCharParameter], [AdoVarWCharParameter] and [AdoTextParameter]. *)
Definition maxTextLength : Z := 2147483647.
Definition newVarCharParameter (c : AdoCommand) (stringLength : Z) : st state (option Z) := newAdoParameter c adVarChar adParamInput stringLength.
Definition newVarWCharParameter (c : AdoCommand) (stringLength : Z) : st state (option Z) := newAdoParameter c adVarWChar adParamInput stringLength.
Definition newTextParameter (c : AdoCommand) : st state (option Z) := newAdoParameter c adLongVarChar adParamInput maxTextLength.
Definition string_getValue (narrow : list Z → list Z) (p : option Z) : st state (list Z) :=
  ado_try (param_value_of (variant_getString narrow) p) no_what.
End ado.

(** ** What ADO promises of a connection and of a record set *)

(** The state of a connection is that of its last successful method; opening can fail,
    with a result or a [_com_error]. *)
Class ConnectionLaws (V W : Type) `{AdoLibrary V W} := {
  conn_state : Z → W → Z;
  GetState_law c w : GetState (V := V) c w = (Ok (conn_state c w), w);
  Close_law c w : conn_state c w ≠ adStateClosed → ∃ w', Connection_Close (V := V) c w = (Ok tt, w') ∧ conn_state c w' = adStateClosed;
  CreateConnection_law w : ∃ hr p w', CreateInstance (V := V) Connection w = (Ok (hr, p), w') ∧
    (SUCCEEDED hr = true → ∃ c, p = Some c ∧ conn_state c w' = adStateClosed) ∧ (SUCCEEDED hr = false → p = None);
  CursorLocation_law c n w : ∃ w', put_CursorLocation (V := V) c n w = (Ok tt, w') ∧ conn_state c w' = conn_state c w;
  ConnectionTimeout_law c n w : ∃ w', put_ConnectionTimeout (V := V) c n w = (Ok tt, w') ∧ conn_state c w' = conn_state c w;
  Open_law c cs w : conn_state c w = adStateClosed → ∃ r w', Connection_Open (V := V) c cs w = (r, w') ∧
    match r with
    | Ok hr => conn_state c w' = if SUCCEEDED hr then adStateOpen else adStateClosed
    | Throw e => (∃ ce, e = ComError ce) ∧ conn_state c w' = adStateClosed
    end;
}.

(** A record set has rows and a cursor on one of them or after the last. *)
Class RecordsetLaws (V W : Type) `{AdoLibrary V W} := {
  rs_rows : Z → W → nat;
  rs_position : Z → W → nat;
  EndOfFile_law r w : EndOfFile (V := V) r w = (Ok (bool_decide (rs_rows r w ≤ rs_position r w)%nat), w);
  MoveFirst_law r w : (0 < rs_rows r w)%nat → ∃ w', MoveFirst (V := V) r w = (Ok tt, w') ∧ rs_rows r w' = rs_rows r w ∧ rs_position r w' = 0%nat;
  MoveNext_law r w : (rs_position r w < rs_rows r w)%nat → ∃ w', MoveNext (V := V) r w = (Ok tt, w') ∧
    rs_rows r w' = rs_rows r w ∧ rs_position r w' = S (rs_position r w);
  (* the count, or that it cannot be told *)
  GetRecordCount_law r w : ∃ n, GetRecordCount (V := V) r w = (Ok n, w) ∧ (n = -1 ∨ n = Z.of_nat (rs_rows r w));
}.

Definition fits_buffer (e : com_error) : Prop := (String.length (error_text e) < MAX_ERROR_LEN)%nat.

Section laws.
Context {V W : Type} `{AdoLibrary V W}.
#[local] Abbreviation state := (AdoDatabase * W)%type.

Lemma setLastError_fits e (d : AdoDatabase) (w : W) : fits_buffer e →
  setLastError e (d, w) = (Ok tt, (set_lastError (error_text e) (set_lastResult (ce_Error e) d), w)).
Proof.
  intros Hf. unfold setLastError, on_database, in_database, zoom. cbv beta iota delta [mbind st_bind modify].
  cbn [fst snd]. by rewrite (proj2 (Nat.ltb_lt _ _) Hf).
Qed.
Lemma pointer_error_fits : fits_buffer pointer_error.
Proof. unfold fits_buffer. apply Nat.ltb_lt. vm_compute. reflexivity. Qed.

(** One step at a time. *)
Lemma in_ado_run {A} (m : st W A) (d : AdoDatabase) w r w' : m w = (r, w') → in_ado m (d, w) = (r, (d, w')).
Proof. intros Hm. unfold in_ado, zoom. cbn [fst snd]. by rewrite Hm. Qed.
Lemma on_database_run f (d : AdoDatabase) (w : W) : on_database f (d, w) = (Ok tt, (f d, w)).
Proof. done. Qed.
Lemma connection_run (d : AdoDatabase) (w : W) c : connection_ d = Some c → connection (d, w) = (Ok c, (d, w)).
Proof. intros Hc. unfold connection, in_database, zoom, arrow. cbv beta iota delta [mbind st_bind gets]. cbn [fst snd]. by rewrite Hc. Qed.
Lemma connection_null (d : AdoDatabase) (w : W) : connection_ d = None → connection (d, w) = (Throw (ComError pointer_error), (d, w)).
Proof. intros Hc. unfold connection, in_database, zoom, arrow. cbv beta iota delta [mbind st_bind gets]. cbn [fst snd]. by rewrite Hc. Qed.
Lemma catch_ok {S A} (m : st S A) h s a s' : m s = (Ok a, s') → catch_com m h s = (Ok a, s').
Proof. intros Hm. unfold catch_com. by rewrite Hm. Qed.
Lemma catch_error {S A} (m : st S A) h s e s' : m s = (Throw (ComError e), s') → catch_com m h s = h e s'.
Proof. intros Hm. unfold catch_com. by rewrite Hm. Qed.

Definition released (d : AdoDatabase) (w : W) : W := match connection_ d with Some c => Release (V := V) c w | None => w end.
Lemma release_connection_run (d : AdoDatabase) w : release_connection (V := V) (d, w) = (Ok tt, (set_connection None d, released d w)).
Proof.
  unfold release_connection, release_pointer, released, on_database, in_database, in_ado, zoom.
  cbv beta iota delta [mbind st_bind mret st_ret gets modify]. cbn [fst snd]. by destruct (connection_ d).
Qed.

Section connections.
Context `{HL : !ConnectionLaws V W}.

(** [isOpened] *)
Definition opened (d : AdoDatabase) (w : W) : bool :=
  match connection_ d with None => false | Some c => negb (bool_decide (conn_state c w = adStateClosed)) end.
Lemma isOpened_run (d : AdoDatabase) w : isOpened (V := V) (d, w) = (Ok (opened d w), (d, w)).
Proof.
  unfold isOpened, ado_default, catch_com, in_database, in_ado, opened, zoom. cbv beta iota delta [mbind st_bind mret st_ret gets].
  cbn [fst snd]. destruct (connection_ d) as [c|]; [|done]. by rewrite GetState_law.
Qed.

Lemma close_closed (d : AdoDatabase) w : opened d w = false → close (V := V) (d, w) = (Ok tt, (d, w)).
Proof. intros Ho. unfold close. st_step (isOpened_run d w). by rewrite Ho. Qed.
Lemma close_open (d : AdoDatabase) w : opened d w = true → ∃ w', close (V := V) (d, w) = (Ok tt, (set_connection None d, w')).
Proof.
  intros Ho. unfold close. st_step (isOpened_run d w). rewrite Ho. unfold opened in Ho.
  destruct (connection_ d) as [c|] eqn:Ec; [|done]. apply negb_true_iff, bool_decide_eq_false in Ho.
  destruct (Close_law c w Ho) as (w1 & Ecl & _). st_step (connection_run d w c Ec).
  st_step (in_ado_run (Connection_Close (V := V) c) d w _ _ Ecl). rewrite release_connection_run. by eexists.
Qed.

(** The result of [Open] in the [try] block of [open]. *)
Definition open_block (cs : string) (timeout : Z) : st state bool :=
  on_database (set_connectionString cs) ;;
  c ← connection;
  in_ado (put_ConnectionTimeout (V := V) c timeout) ;;
  c ← connection;
  cs ← in_database (gets lastConnectionString_);
  hr ← in_ado (Connection_Open (V := V) c cs);
  mret (SUCCEEDED hr).

Definition open_fits (cs : string) : Prop :=
  ∀ c w1 e w2, Connection_Open (V := V) c cs w1 = (Throw (ComError e), w2) → fits_buffer e.

Lemma open_block_run (d : AdoDatabase) w c cs timeout : connection_ d = Some c → conn_state c w = adStateClosed → open_fits cs →
  ∃ b d' w', ado_default (open_block cs timeout) false (d, w) = (Ok b, (d', w')) ∧ opened d' w' = b ∧
    lastConnectionString_ d' = cs ∧ connection_ d' = Some c ∧
    ∃ w1 r, Connection_Open (V := V) c cs w1 = (r, w') ∧ b = match r with Ok hr => SUCCEEDED hr | Throw _ => false end.
Proof.
  intros Hc Hcl Hfit. unfold ado_default. set (d1 := set_connectionString cs d).
  destruct (ConnectionTimeout_law c timeout w) as (w1 & Et & Es). rewrite Hcl in Es.
  destruct (Open_law c cs w1 Es) as (r & w2 & Eo & Hr).
  assert (E : open_block cs timeout (d, w) = (match r with Ok hr => Ok (SUCCEEDED hr) | Throw e => Throw e end, (d1, w2))).
  { unfold open_block. st_step (on_database_run (set_connectionString cs) d w). st_step (connection_run d1 w c Hc).
    st_step (in_ado_run (put_ConnectionTimeout (V := V) c timeout) d1 w _ _ Et). st_step (connection_run d1 w1 c Hc).
    assert (El : in_database (gets lastConnectionString_) (d1, w1) = (Ok cs, (d1, w1))) by done. st_step El.
    pose proof (in_ado_run (Connection_Open (V := V) c cs) d1 w1 _ _ Eo) as E1. destruct r as [hr|e].
    - by st_step E1.
    - by rewrite (bind_throw _ _ _ _ _ E1). }
  destruct r as [hr|e].
  - exists (SUCCEEDED hr), d1, w2. rewrite (catch_ok _ _ _ _ _ E). split_and!; try done; [|by exists w1, (Ok hr)].
    unfold opened, d1. cbn [connection_ set_connectionString]. rewrite Hc, Hr. by destruct (SUCCEEDED hr).
  - destruct Hr as [[ce ->] Hst]. exists false, (set_lastError (error_text ce) (set_lastResult (ce_Error ce) d1)), w2.
    rewrite (catch_error _ _ _ _ _ E). st_step (setLastError_fits ce d1 w2 (Hfit _ _ _ _ Eo)). split_and!; try done; [|by exists w1, (Throw (ComError ce))].
    unfold opened, d1. cbn [connection_ set_connectionString set_lastError set_lastResult]. by rewrite Hc, Hst.
Qed.

(** [open] of a database that is not open. *)
Lemma open_closed (d : AdoDatabase) w cs timeout : opened d w = false → open_fits cs →
  ∃ b d' w', ado_open (V := V) cs timeout (d, w) = (Ok b, (d', w')) ∧ opened d' w' = b ∧
    ((connection_ d' = None ∧ b = false ∧ lastConnectionString_ d' = lastConnectionString_ d) ∨
     (lastConnectionString_ d' = cs ∧ ∃ c w1 r, connection_ d' = Some c ∧ Connection_Open (V := V) c cs w1 = (r, w') ∧
      b = match r with Ok hr => SUCCEEDED hr | Throw _ => false end)).
Proof.
  intros Ho Hfit. unfold ado_open. st_step (isOpened_run d w). rewrite Ho.
  destruct (CreateConnection_law (released d w)) as (hr & p & w1 & Ecr & Hok & Hko).
  assert (Ei : initAdo (V := V) (d, w) = (Ok (SUCCEEDED hr), (set_connection p d, w1))).
  { unfold initAdo. st_step (release_connection_run d w).
    st_step (in_ado_run (CreateInstance (V := V) Connection) (set_connection None d) (released d w) _ _ Ecr).
    by st_step (on_database_run (set_connection p) (set_connection None d) w1). }
  destruct (SUCCEEDED hr).
  - destruct (Hok eq_refl) as (c & -> & Hcl). set (d1 := set_connection (Some c) d) in *.
    destruct (CursorLocation_law c adUseClient w1) as (w2 & Ecur & Es). rewrite Hcl in Es.
    destruct (open_block_run d1 w2 c cs timeout eq_refl Es Hfit) as (b & d' & w' & E & Hop & Hcs & Hc & w3 & r & Eo & Hb).
    exists b, d', w'. split; [|split; [done|right; split; [done|by exists c, w3, r]]].
    rewrite <- E. unfold open_block.
    assert (Er : (created ← initAdo (V := V);
             if (created : bool) then c ← connection; in_ado (put_CursorLocation (V := V) c adUseClient) ;; mret true else mret false) (d, w)
      = (Ok true, (d1, w2))).
    { st_step Ei. st_step (connection_run d1 w1 c eq_refl). by st_step (in_ado_run (put_CursorLocation (V := V) c adUseClient) d1 w1 _ _ Ecur). }
    by st_step Er.
  - rewrite (Hko eq_refl) in Ei. exists false, (set_connection None d), w1. split; [|split; [done|by left]].
    assert (Er : (created ← initAdo (V := V);
             if (created : bool) then c ← connection; in_ado (put_CursorLocation (V := V) c adUseClient) ;; mret true else mret false) (d, w)
      = (Ok false, (set_connection None d, w1))) by by st_step Ei.
    by st_step Er.
Qed.
End connections.

Section recordsets.
Context `{HL : !RecordsetLaws V W}.
#[local] Abbreviation rs_state := (AdoRecordSet * state)%type.

Lemma recordset_run (s : state) r : recordset (mkRecordSet (Some r), s) = (Ok r, (mkRecordSet (Some r), s)).
Proof. done. Qed.
Lemma rs_ado_run {A} (m : st W A) (x : AdoRecordSet) (d : AdoDatabase) w r w' : m w = (r, w') → rs_ado m (x, (d, w)) = (r, (x, (d, w'))).
Proof. intros Hm. unfold rs_ado, rs_database, zoom. cbn [fst snd]. by rewrite (in_ado_run _ _ _ _ _ Hm). Qed.

Lemma count_loop_run fuel rows r (d : AdoDatabase) w : (rs_rows r w - rs_position r w < fuel)%nat →
  ∃ w', count_loop (V := V) fuel rows (mkRecordSet (Some r), (d, w)) =
    (Ok (rows + Z.of_nat (rs_rows r w - rs_position r w)), (mkRecordSet (Some r), (d, w'))) ∧ rs_rows r w' = rs_rows r w.
Proof.
  revert rows w. induction fuel as [|fuel IH]; intros rows w Hf; [lia|]. cbn [count_loop].
  st_step (recordset_run (d, w) r). st_step (rs_ado_run _ (mkRecordSet (Some r)) d w _ _ (EndOfFile_law r w)).
  destruct (decide (rs_rows r w ≤ rs_position r w)%nat) as [Hle|Hlt].
  - rewrite bool_decide_true by done. exists w. split; [|done]. rewrite mret_run. repeat f_equal. lia.
  - rewrite bool_decide_false by done. st_step (recordset_run (d, w) r).
    destruct (MoveNext_law r w) as (w1 & Em & Hr & Hp); [lia|]. st_step (rs_ado_run _ (mkRecordSet (Some r)) d w _ _ Em).
    destruct (IH (rows + 1) w1) as (w' & E & Hr'); [lia|]. exists w'. rewrite E. split; [|congruence]. do 2 f_equal. lia.
Qed.

(** [getRecordCount] counts the rows, unless the cursor is after the last and ADO cannot
    tell their number; it leaves the cursor where it was or on the first. *)
Lemma getRecordCount_run fuel r (d : AdoDatabase) w : (rs_rows r w < fuel)%nat →
  ∃ n w', getRecordCount (V := V) fuel (mkRecordSet (Some r), (d, w)) = (Ok n, (mkRecordSet (Some r), (d, w'))) ∧
    rs_rows r w' = rs_rows r w ∧
    ((n = uint 64 (Z.of_nat (rs_rows r w)) ∧ (w' = w ∨ rs_position r w' = 0%nat)) ∨
     (n = 0 ∧ w' = w ∧ (rs_rows r w ≤ rs_position r w)%nat ∧ GetRecordCount (V := V) r w = (Ok (-1), w))).
Proof.
  intros Hf. unfold getRecordCount, rs_default. set (x := mkRecordSet (Some r)).
  destruct (GetRecordCount_law r w) as (n & En & Hn). destruct (decide (n = -1)) as [E1|Hne].
  2: { destruct Hn as [?|Hn]; [done|]. exists (uint 64 n), w. split; [|split; [done|left; subst; split; [done|by left]]]. apply catch_ok.
    st_step (recordset_run (d, w) r). st_step (rs_ado_run _ x d w _ _ En). by rewrite bool_decide_false by done. }
  subst n. destruct (decide (rs_rows r w ≤ rs_position r w)%nat) as [Hle|Hlt].
  - assert (Ec : count_loop (V := V) fuel 0 (x, (d, w)) = (Ok 0, (x, (d, w)))).
    { destruct fuel as [|fuel]; [lia|]. cbn [count_loop]. st_step (recordset_run (d, w) r).
      st_step (rs_ado_run _ x d w _ _ (EndOfFile_law r w)). by rewrite bool_decide_true by done. }
    exists 0, w. split; [|split; [done|by right]]. apply catch_ok.
    st_step (recordset_run (d, w) r). st_step (rs_ado_run _ x d w _ _ En). rewrite bool_decide_true by done. st_step (recordset_run (d, w) r).
    st_step (rs_ado_run _ x d w _ _ (EndOfFile_law r w)). rewrite bool_decide_true by done.
    st_step (mret_run (S := rs_state) tt (x, (d, w))). by st_step Ec.
  - destruct (MoveFirst_law r w) as (w1 & Em & Hr1 & Hp1); [lia|].
    destruct (count_loop_run fuel 0 r d w1) as (w2 & Ec & Hr2); [lia|].
    destruct (MoveFirst_law r w2) as (w3 & Em3 & Hr3 & Hp3); [lia|].
    exists (uint 64 (Z.of_nat (rs_rows r w))), w3. split; [|split; [congruence|left; split; [done|by right]]]. apply catch_ok.
    st_step (recordset_run (d, w) r). st_step (rs_ado_run _ x d w _ _ En). rewrite bool_decide_true by done. st_step (recordset_run (d, w) r).
    st_step (rs_ado_run _ x d w _ _ (EndOfFile_law r w)). rewrite bool_decide_false by done.
    st_step (rs_ado_run _ x d w _ _ Em). st_step Ec. rewrite Hr1, Hp1, Nat.sub_0_r. cbn [Z.add].
    rewrite (proj2 (Z.ltb_lt _ _)) by lia. by st_step (rs_ado_run _ x d w2 _ _ Em3).
Qed.
End recordsets.
End laws.
