(* ===== verification/SqlServer.v ===== *)
(** * database/proxy: the calls of a SQL server

    Models [SqlServerProxyDatabase] ([src/src/database/proxy/server/mssql/
    SqlServerProxyDatabase.{h,cpp}]) with the [AdoConnection] it has, over the objects of
    [AdoDatabase.v].  [DatabaseRequest.v] has what a call means: [sql_call], to which a
    command with its parameters is the parameter that this file gives.

    Only an [AdoException] of the parameters and of the execution is caught: what the
    constructor of the command throws, and a [_com_error], leaves [call]. *)

From S2P Require Import Prelude Bits RpcTypes DatabaseRequest ServerConfig AdoVariant AdoDatabase.

Section sql_server.
Context {V W : Type} `{Variant V} `{!AdoLibrary V W} `{TimeLibrary}.
#[local] Abbreviation state := (AdoDatabase * W)%type.

(** [open], with the connection of [AdoConnection]: the timeout is a [uint8_t]. *)
Definition sql_open (env : environment) (lexical_cast : string → option Z) (r : IniFileConfigReader) : st state bool := λ s,
  match cr_getString (ConfigReader := IniFileConfigReader_reader env) "database" "connection-string" r with
  | Throw e => (Throw e, s)
  | Ok connectionString =>
      match getNumeric (H := IniFileConfigReader_reader env) lexical_cast "database" "connection-timeout" r with
      | Throw e => (Throw e, s)
      | Ok connectionTimeout => ado_open (V := V) connectionString (uint 8 connectionTimeout) s
      end
  end.
Definition sql_close : st state unit := close (V := V).
Definition sql_ping : st state unit := ping (V := V).

(** [createAdoParameter]: the objects it makes of a parameter; the constructor appends
    them to the command. *)
Definition create_ado_parameter (cmd : AdoCommand) (param : Param) : st state (option (option Z)) :=
  if ptInt32 =? type_ param then
    p ← newNumericParameter (V := V) AdoIntegerParameter cmd adParamInput;
    numeric_setValue (V := V) AdoIntegerParameter (int32Value_ param) p ;;
    mret (Some p)
  else if ptUInt32 =? type_ param then
    p ← newNumericParameter (V := V) AdoUnsignedIntParameter cmd adParamInput;
    numeric_setValue (V := V) AdoUnsignedIntParameter (uint32Value_ param) p ;;
    mret (Some p)
  else if ptInt64 =? type_ param then
    p ← newNumericParameter (V := V) AdoBigIntParameter cmd adParamInput;
    numeric_setValue (V := V) AdoBigIntParameter (int64Value_ param) p ;;
    mret (Some p)
  else if ptUInt64 =? type_ param then
    p ← newNumericParameter (V := V) AdoBigIntParameter cmd adParamInput;
    numeric_setValue (V := V) AdoBigIntParameter (uint64Value_ param) p ;;
    mret (Some p)
  else if ptString =? type_ param then
    p ← newVarCharParameter (V := V) cmd (Z.of_nat (length (stringValue_ param)));
    setValueWithString (V := V) (stringValue_ param) p ;;
    mret (Some p)
  else if ptWString =? type_ param then
    p ← newVarWCharParameter (V := V) cmd (Z.of_nat (length (wstringValue_ param)));
    setValueWithString (V := V) (wstringValue_ param) p ;;
    mret (Some p)
  else mret None.

(** The loop over the parameters: [false] when one has no type. *)
Fixpoint create_parameters (cmd : AdoCommand) (params : list Param) : st state bool :=
  match params with
  | [] => mret true
  | param :: params =>
      adoParam ← create_ado_parameter cmd param;
      match adoParam with
      | None => mret false
      | Some _ => create_parameters cmd params
      end
  end.

(** [catch (const AdoException& e)] *)
Definition catch_ado {A} (m : st state A) (a : A) : st state A := λ s,
  match m s with
  | (Throw (AdoException _), s') => (Ok a, s')
  | r => r
  end.

Definition sql_server_call (request : ModifyRequest) : st state bool :=
  if negb (isValidRequest request) then mret false
  else if negb (request_type request =? rtStoredProcedure) then mret false
  else
    cmd ← newAdoCommand (V := V) (command_ request);
    catch_ado (
      created ← create_parameters cmd (params_ request);
      if (created : bool) then executeNoRecords (V := V) cmd ;; mret true else mret false) false.

(** ** Against [sql_call] *)

(** The object of a parameter of [DatabaseRequest.v]. *)
Definition add_parameter (cmd : AdoCommand) (a : AdoParameter) : st state unit :=
  match a with
  | AdoInteger v => p ← newNumericParameter (V := V) AdoIntegerParameter cmd adParamInput; numeric_setValue (V := V) AdoIntegerParameter v p
  | AdoUnsignedInt v => p ← newNumericParameter (V := V) AdoUnsignedIntParameter cmd adParamInput; numeric_setValue (V := V) AdoUnsignedIntParameter v p
  | AdoBigInt v => p ← newNumericParameter (V := V) AdoBigIntParameter cmd adParamInput; numeric_setValue (V := V) AdoBigIntParameter v p
  | AdoVarChar size s => p ← newVarCharParameter (V := V) cmd (Z.of_nat size); setValueWithString (V := V) s p
  | AdoVarWChar size s => p ← newVarWCharParameter (V := V) cmd (Z.of_nat size); setValueWithString (V := V) s p
  end.
Fixpoint add_parameters (cmd : AdoCommand) (l : list AdoParameter) : st state unit :=
  match l with
  | [] => mret tt
  | a :: l => add_parameter cmd a ;; add_parameters cmd l
  end.
(** A command with its parameters, executed; an [AdoException] is [false].  What is
    not an answer of the call: an exception that leaves it. *)
Definition run_command (command : list Z) (params : list AdoParameter) : st state bool :=
  cmd ← newAdoCommand (V := V) command;
  catch_ado (add_parameters cmd params ;; executeNoRecords (V := V) cmd ;; mret true) false.
Definition execute_command (command : list Z) (params : list AdoParameter) (s : state) : bool * state :=
  match run_command command params s with
  | (Ok b, s') => (b, s')
  | (Throw _, s') => (false, s')
  end.
End sql_server.

Section refinement.
Context {V W : Type} `{Variant V} `{!AdoLibrary V W} `{TimeLibrary}.
#[local] Abbreviation state := (AdoDatabase * W)%type.

(** The outcome of making the objects of a parameter, in terms of [add_parameter]. *)
Lemma create_ado_parameter_adds (cmd : AdoCommand) (param : Param) (s : state) :
  match createAdoParameter param with
  | None => create_ado_parameter (V := V) cmd param s = (Ok None, s)
  | Some a =>
      match add_parameter (V := V) cmd a s with
      | (Ok _, s') => ∃ p, create_ado_parameter (V := V) cmd param s = (Ok (Some p), s')
      | (Throw e, s') => create_ado_parameter (V := V) cmd param s = (Throw e, s')
      end
  end.
Proof.
  assert (Hs : ∀ z, numeric_setValue (V := V) (W := W) AdoBigIntParameter (sint 64 z) = numeric_setValue (V := V) AdoBigIntParameter z).
  { intros z. unfold numeric_setValue. cbn [fst AdoBigIntParameter]. assert (prim_of PS64 (sint 64 z) = prim_of PS64 z) as ->; [|done].
    change (sint 64 (sint 64 z) = sint 64 z). apply sint_id; [done|]. by apply sint_range. }
  assert (Hg : ∀ (new : st state (option Z)) (set : option Z → st state unit),
    match (p ← new; set p) s with
    | (Ok _, s') => ∃ p, (p ← new; set p ;; mret (Some p)) s = (Ok (Some p), s')
    | (Throw e, s') => (p ← new; set p ;; mret (Some p)) s = (Throw e, s')
    end).
  { intros new set. unfold mbind, st_bind, mret, st_ret. destruct (new s) as [[p|e] s1]; [|done].
    destruct (set p s1) as [[[]|e] s2]; [by exists p|done]. }
  unfold createAdoParameter, create_ado_parameter, add_parameter.
  destruct (ptInt32 =? _); [apply Hg|]. destruct (ptUInt32 =? _); [apply Hg|]. destruct (ptInt64 =? _); [apply Hg|].
  destruct (ptUInt64 =? _); [rewrite Hs; apply Hg|]. destruct (ptString =? _); [apply Hg|].
  destruct (ptWString =? _); [apply Hg|]. done.
Qed.

Lemma create_parameters_adds (cmd : AdoCommand) (params : list Param) (s : state) :
  match mapM createAdoParameter params with
  | None => ∀ b s', create_parameters (V := V) cmd params s = (Ok b, s') → b = false
  | Some l =>
      match add_parameters (V := V) cmd l s with
      | (Ok _, s') => create_parameters (V := V) cmd params s = (Ok true, s')
      | (Throw e, s') => create_parameters (V := V) cmd params s = (Throw e, s')
      end
  end.
Proof.
  revert s. induction params as [|param params IH]; intros s; [done|]. cbn [mapM].
  pose proof (create_ado_parameter_adds cmd param s) as Hp. cbn [create_parameters].
  destruct (createAdoParameter param) as [a|]; cbn [mbind option_bind].
  2: { rewrite (bind_ok _ _ _ _ _ Hp). by intros b s' [= <- <-]. }
  destruct (add_parameter cmd a s) as [[[]|e] s1] eqn:Ea.
  - destruct Hp as [p Hp]. rewrite (bind_ok _ _ _ _ _ Hp). specialize (IH s1).
    destruct (mapM createAdoParameter params) as [l|]; cbn [mbind option_bind mret option_ret]; [|exact IH].
    cbn [add_parameters]. by rewrite (bind_ok _ _ _ _ _ Ea).
  - rewrite (bind_throw _ _ _ _ _ Hp). destruct (mapM createAdoParameter params) as [l|]; cbn [mbind option_bind mret option_ret]; [|done].
    cbn [add_parameters]. by rewrite (bind_throw _ _ _ _ _ Ea).
Qed.

(** What [call] answers, when it answers, is what [sql_call] says of the command that
    [run_command] executes. *)
Lemma sql_server_call_refines (r : ModifyRequest) (s : state) b s' : sql_server_call (V := V) r s = (Ok b, s') →
  match mapM createAdoParameter (params_ r) with
  | Some _ => sql_call (execute_command (V := V)) r s = (b, s')
  | None => fst (sql_call (execute_command (V := V)) r s) = b
  end.
Proof.
  unfold sql_server_call, sql_call. destruct (negb (isValidRequest r)).
  { intros [= <- <-]. by destruct (mapM _ _). }
  destruct (negb (request_type r =? rtStoredProcedure)).
  { intros [= <- <-]. by destruct (mapM _ _). }
  intros Hcall. apply bind_Ok_inv in Hcall as (cmd & s1 & Hcmd & Hcall).
  pose proof (create_parameters_adds cmd (params_ r) s1) as Hp.
  destruct (mapM createAdoParameter (params_ r)) as [l|].
  - unfold execute_command, run_command. rewrite (bind_ok _ _ _ _ _ Hcmd).
    unfold catch_ado in *. destruct (add_parameters cmd l s1) as [[[]|e] s2] eqn:Ea.
    + rewrite (bind_ok _ _ _ _ _ Ea). rewrite (bind_ok _ _ _ _ _ Hp) in Hcall. cbv iota in Hcall. by rewrite Hcall.
    + rewrite (bind_throw _ _ _ _ _ Ea). rewrite (bind_throw _ _ _ _ _ Hp) in Hcall.
      destruct e; try discriminate Hcall. by injection Hcall as <- <-.
  - unfold catch_ado in Hcall. destruct (create_parameters cmd (params_ r) s1) as [[b1|e] s2] eqn:Ec.
    + specialize (Hp b1 s2 eq_refl) as ->. rewrite (bind_ok _ _ _ _ _ Ec) in Hcall. by injection Hcall as <- <-.
    + rewrite (bind_throw _ _ _ _ _ Ec) in Hcall. destruct e; try discriminate Hcall. by injection Hcall as <- <-.
Qed.
End refinement.
