(* ===== verification/ServerProxies.v ===== *)
(** * server/s2s: the proxies of the servers that connect

    Models [ServerSideBridge] ([src/src/server/s2s/ServerSideBridge.cpp]) over the
    session of [ServerSession.v], [ServerSideProxy] and [ManagedServerSideProxy], and
    [ServerSideProxyManager], the map of the authenticated ones that a server
    broadcasts to.  A proxy is its place in the list of all of them; the bridges share
    the counter of client ids.  What [verifyAuthentication] answers is a parameter. *)

From S2P Require Import Prelude Timers Heartbeat ServerSession.

(** ** [ServerId] *)

Definition invalidServerId : Z := 0.
Definition isValidServerId (i : Z) : bool := negb (i =? invalidServerId).

(** ** The bridge and the proxy *)

Record ServerSideBridge := mkBridge {
  br_session : ServerSideSession;
  br_results : list bool;                (* the [S2sAuthenticateResultMessage]s sent *)
}.
Record ServerSideProxy := mkProxy { serverId_ : Z; bridge_ : ServerSideBridge }.

Definition newProxy (authenticationTimeout heartbeatTimeout : Z) : ServerSideProxy :=
  mkProxy invalidServerId (mkBridge (newServerSide authenticationTimeout heartbeatTimeout) []).

Definition on_bridge_session (f : ServerSideSession → ServerSideSession) (b : ServerSideBridge) : ServerSideBridge :=
  mkBridge (f (br_session b)) (br_results b).
Definition set_serverId (i : Z) (p : ServerSideProxy) : ServerSideProxy := mkProxy i (bridge_ p).
Definition on_bridge (f : ServerSideBridge → ServerSideBridge) (p : ServerSideProxy) : ServerSideProxy :=
  mkProxy (serverId_ p) (f (bridge_ p)).

(** [ServerSideBridge::onAuthenticate] *)
Definition bridge_onAuthenticate (now : Z) (isAuthenticated : bool) (b : ServerSideBridge) : ServerSideBridge :=
  let b := mkBridge (br_session b) (br_results b ++ [isAuthenticated]) in
  if isAuthenticated then on_bridge_session (authenticated now) b else b.

(** ** [ServerSideProxyManager] *)

Record ServerSideProxyManager := mkProxies {
  proxies_ : gmap Z nat;
  removed_ids : list Z;                  (* the calls of [proxyRemoved] *)
}.
Definition newProxyManager : ServerSideProxyManager := mkProxies ∅ [].

(** [add] replaces the proxy of an id that exists. *)
Definition proxies_add (proxyId : Z) (proxy : nat) (m : ServerSideProxyManager) : ServerSideProxyManager :=
  mkProxies (<[proxyId := proxy]> (proxies_ m)) (removed_ids m).
Definition proxies_remove (proxyId : Z) (m : ServerSideProxyManager) : ServerSideProxyManager :=
  if isValidServerId proxyId then mkProxies (delete proxyId (proxies_ m)) (removed_ids m ++ [proxyId]) else m.
Definition getProxyCount (m : ServerSideProxyManager) : nat := size (proxies_ m).
Definition getProxy (proxyId : Z) (m : ServerSideProxyManager) : option nat := proxies_ m !! proxyId.

(** ** The server *)

Record ProxyServer := mkProxyServer {
  ps_proxies : list ServerSideProxy;
  ps_manager : ServerSideProxyManager;
  ps_globalClientId : Z;
}.

Inductive proxy_event :=
| ProxyConnected (p : nat) (now : Z) (hasPacketCipher : bool)
| AuthenticateMessage (p : nat) (now : Z) (certificate : list Z)
| ProxyDisconnected (p : nat) (now : Z)
| Unmanage (p : nat).

Section server.
Context (verifyAuthentication : nat → list Z → bool).

(** [ServerSideBridge::onConnected]; [ServerSideProxy::connected] does nothing. *)
Definition bridge_onConnected (now globalClientId : Z) (hasPacketCipher : bool) : ServerSideBridge → ServerSideBridge :=
  on_bridge_session (λ s, ss_onConnected now globalClientId hasPacketCipher (set_ssConnected true s)).
Definition bridge_onDisconnected (now : Z) : ServerSideBridge → ServerSideBridge :=
  on_bridge_session (λ s, ss_onDisconnected now (set_ssConnected false s)).

(** [ServerSideProxy::authenticate], of proxy [p], with what [bridged] does to the
    manager. *)
Definition authenticate (p : nat) (now : Z) (certificate : list Z) (x : ServerSideProxy) (m : ServerSideProxyManager)
  : ServerSideProxy * ServerSideProxyManager :=
  let x := set_serverId (clientId_ (br_session (bridge_ x))) x in
  let isAuthenticated := verifyAuthentication p certificate in
  let x := on_bridge (bridge_onAuthenticate now isAuthenticated) x in
  if negb isAuthenticated then
    (on_bridge (on_bridge_session (ss_ask [AskDisconnectGracefully])) (set_serverId invalidServerId x), m)
  else (x, proxies_add (serverId_ x) p m).
(** [ServerSideProxy::disconnected], with [unbridged]. *)
Definition proxy_disconnected (x : ServerSideProxy) (m : ServerSideProxyManager) : ServerSideProxy * ServerSideProxyManager :=
  (set_serverId invalidServerId x, proxies_remove (serverId_ x) m).

Definition proxy_exec (e : proxy_event) (s : ProxyServer) : option ProxyServer :=
  match e with
  | ProxyConnected p now hasCipher =>
      x ← ps_proxies s !! p;
      if ss_connected (br_session (bridge_ x)) then None
      else Some (mkProxyServer (<[p := on_bridge (bridge_onConnected now (ps_globalClientId s) hasCipher) x]> (ps_proxies s))
                  (ps_manager s) (getNextClientId (ps_globalClientId s)))
  | AuthenticateMessage p now certificate =>
      x ← ps_proxies s !! p;
      if ss_connected (br_session (bridge_ x)) then
        let '(x, m) := authenticate p now certificate x (ps_manager s) in
        Some (mkProxyServer (<[p := x]> (ps_proxies s)) m (ps_globalClientId s))
      else None
  | ProxyDisconnected p now =>
      x ← ps_proxies s !! p;
      if ss_connected (br_session (bridge_ x)) then
        let '(x, m) := proxy_disconnected (on_bridge (bridge_onDisconnected now) x) (ps_manager s) in
        Some (mkProxyServer (<[p := x]> (ps_proxies s)) m (ps_globalClientId s))
      else None
  | Unmanage p =>
      x ← ps_proxies s !! p;
      Some (mkProxyServer (ps_proxies s) (proxies_remove (serverId_ x) (ps_manager s)) (ps_globalClientId s))
  end.

Definition newProxyServer (n : nat) (authenticationTimeout heartbeatTimeout : Z) : ProxyServer :=
  mkProxyServer (replicate n (newProxy authenticationTimeout heartbeatTimeout)) newProxyManager 0.

(** ** Who is registered *)

Definition proxy_id (x : ServerSideProxy) : Z := clientId_ (br_session (bridge_ x)).
Definition proxy_connected (x : ServerSideProxy) : bool := ss_connected (br_session (bridge_ x)).

(** A client authenticates once in a connection, and the client ids last. *)
Definition orderly_proxy (s : ProxyServer) (e : proxy_event) : bool :=
  match e with
  | ProxyConnected _ _ _ => bool_decide (ps_globalClientId s + 1 < 2 ^ 32)
  | AuthenticateMessage p _ _ => match ps_proxies s !! p with Some x => negb (isValidServerId (serverId_ x)) | None => true end
  | ProxyDisconnected _ _ => true
  | Unmanage _ => false
  end.
Definition orderly_proxies (e : proxy_event) (s : ProxyServer) : option ProxyServer :=
  if orderly_proxy s e then proxy_exec e s else None.

Record proxies_inv (s : ProxyServer) : Prop := {
  pv_global : 0 ≤ ps_globalClientId s < 2 ^ 32;
  pv_ids : ∀ p x, ps_proxies s !! p = Some x → proxy_connected x = true → 0 < proxy_id x ≤ ps_globalClientId s;
  pv_distinct : ∀ p q x y, ps_proxies s !! p = Some x → ps_proxies s !! q = Some y →
    proxy_connected x = true → proxy_connected y = true → proxy_id x = proxy_id y → p = q;
  pv_authenticated : ∀ p x, ps_proxies s !! p = Some x → serverId_ x ≠ invalidServerId →
    proxy_connected x = true ∧ serverId_ x = proxy_id x;
  pv_registered : ∀ i p, getProxy i (ps_manager s) = Some p ↔
    i ≠ invalidServerId ∧ ∃ x, ps_proxies s !! p = Some x ∧ serverId_ x = i;
}.

Lemma lookup_insert_some {X} (l : list X) p q x y : <[p := x]> l !! q = Some y → (q = p ∧ y = x) ∨ (q ≠ p ∧ l !! q = Some y).
Proof.
  intros Hl. destruct (decide (q = p)) as [->|Hne].
  - rewrite list_lookup_insert_eq in Hl; [by injection Hl; left|]. apply lookup_lt_Some in Hl. by rewrite length_insert in Hl.
  - rewrite list_lookup_insert_ne in Hl by done. by right.
Qed.

(** The two ways a proxy changes: its client id or its server id. *)
Lemma proxies_connect s p x x' g : proxies_inv s → ps_proxies s !! p = Some x → proxy_connected x = false →
  serverId_ x' = serverId_ x → proxy_id x' = g → ps_globalClientId s < g → g < 2 ^ 32 →
  proxies_inv (mkProxyServer (<[p := x']> (ps_proxies s)) (ps_manager s) g).
Proof.
  intros [Hg Hids Hd Ha Hr] Hp Hc Hsid Hid Hlt Hg'.
  assert (Hx : serverId_ x = invalidServerId).
  { destruct (decide (serverId_ x = invalidServerId)) as [|Hne]; [done|]. destruct (Ha p x Hp Hne). congruence. }
  split; cbn [ps_globalClientId ps_proxies ps_manager].
  - lia.
  - intros q y [[-> ->]|[_ Hq]]%lookup_insert_some Hy; [lia|]. specialize (Hids q y Hq Hy). lia.
  - intros q r y z [[-> ->]|[Hne Hq]]%lookup_insert_some [[-> ->]|[Hne' Hr']]%lookup_insert_some Hy Hz E; [done|..].
    + specialize (Hids r z Hr' Hz). lia.
    + specialize (Hids q y Hq Hy). lia.
    + by apply (Hd q r y z).
  - intros q y [[-> ->]|[_ Hq]]%lookup_insert_some Hy; [congruence|]. by apply (Ha q y).
  - intros i q. rewrite Hr. split; intros [Hi (y & Hq & Hy)]; (split; [done|]).
    + destruct (decide (q = p)) as [->|Hne]; [congruence|]. exists y. by rewrite list_lookup_insert_ne.
    + apply lookup_insert_some in Hq as [[-> ->]|[_ Hq]]; [congruence|]. by exists y.
Qed.

Lemma proxies_change s p x x' m : proxies_inv s → ps_proxies s !! p = Some x →
  proxy_id x' = proxy_id x → (proxy_connected x' = true → proxy_connected x = true) →
  (serverId_ x' ≠ invalidServerId → proxy_connected x' = true ∧ serverId_ x' = proxy_id x) →
  (∀ i q, getProxy i m = Some q ↔ (i ≠ invalidServerId ∧ i = serverId_ x' ∧ q = p) ∨ (q ≠ p ∧ getProxy i (ps_manager s) = Some q)) →
  proxies_inv (mkProxyServer (<[p := x']> (ps_proxies s)) m (ps_globalClientId s)).
Proof.
  intros [Hg Hids Hd Ha Hr] Hp Hid Hc Hs Hm. split; cbn [ps_globalClientId ps_proxies ps_manager].
  - done.
  - intros q y [[-> ->]|[_ Hq]]%lookup_insert_some Hy; [|by apply (Hids q)]. rewrite Hid. apply (Hids p x Hp). by apply Hc.
  - intros q r y z [[-> ->]|[Hne Hq]]%lookup_insert_some [[-> ->]|[Hne' Hr']]%lookup_insert_some Hy Hz E; [done|..].
    + apply (Hd p r x z); auto; congruence.
    + apply (Hd q p y x); auto; congruence.
    + by apply (Hd q r y z).
  - intros q y [[-> ->]|[_ Hq]]%lookup_insert_some Hy; [|by apply (Ha q y)]. rewrite Hid. by apply Hs.
  - intros i q. rewrite Hm, Hr. split.
    + intros [(Hi & -> & ->)|(Hne & Hi & y & Hq & Hy)]; (split; [done|]).
      * exists x'. rewrite list_lookup_insert_eq; [done|]. by eapply lookup_lt_Some.
      * exists y. by rewrite list_lookup_insert_ne.
    + intros (Hi & y & [[-> ->]|[Hne Hq]]%lookup_insert_some & Hy); [left|right]; [done|]. split; [done|]. split; [done|]. by exists y.
Qed.

(** What the calls do to the session of a bridge. *)
Lemma bridge_onConnected_ids now g hasCipher x : 0 ≤ g → g + 1 < 2 ^ 32 →
  let x' := on_bridge (bridge_onConnected now g hasCipher) x in
  proxy_id x' = g + 1 ∧ proxy_connected x' = true ∧ serverId_ x' = serverId_ x.
Proof.
  intros H0 Hg. unfold proxy_id, proxy_connected, bridge_onConnected, on_bridge, on_bridge_session, ss_onConnected.
  cbn [bridge_ br_session serverId_].
  unfold setupAuthenticationTimer. destruct hasCipher; cbn [negb]; (case_match; cbn; unfold getNextClientId; rewrite uint_id by (unfold is_uint; lia); done).
Qed.
Lemma bridge_onAuthenticate_ids now ok x :
  let x' := on_bridge (bridge_onAuthenticate now ok) x in
  proxy_id x' = proxy_id x ∧ proxy_connected x' = proxy_connected x ∧ serverId_ x' = serverId_ x.
Proof. by destruct ok. Qed.

Lemma isValid_spec i : isValidServerId i = true ↔ i ≠ invalidServerId.
Proof. unfold isValidServerId. rewrite negb_true_iff, Z.eqb_neq. done. Qed.

Lemma getProxy_add i j p m : getProxy i (proxies_add j p m) = if decide (i = j) then Some p else getProxy i m.
Proof.
  unfold getProxy, proxies_add. cbn. case_decide as E; [by rewrite E, lookup_insert_eq|by rewrite lookup_insert_ne].
Qed.
Lemma getProxy_remove i j m : getProxy i (proxies_remove j m) =
  if decide (i = j ∧ j ≠ invalidServerId) then None else getProxy i m.
Proof.
  unfold getProxy, proxies_remove. destruct (isValidServerId j) eqn:Ej.
  - apply isValid_spec in Ej. cbn. case_decide as E; [by rewrite (proj1 E), lookup_delete_eq|]. rewrite lookup_delete_ne; [done|]. intros <-. by apply E.
  - rewrite decide_False; [done|]. intros [_ Hj%isValid_spec]. congruence.
Qed.

(** A proxy that is registered is so under its own id, which nobody else has. *)
Lemma registered_id s p x i : proxies_inv s → ps_proxies s !! p = Some x → getProxy i (ps_manager s) = Some p → i = serverId_ x ∧ i ≠ invalidServerId.
Proof. intros Hs Hp (Hi & y & Hy & <-)%(pv_registered _ Hs). rewrite Hp in Hy. by injection Hy as <-. Qed.

Lemma proxies_step e s s' : proxies_inv s → orderly_proxies e s = Some s' → proxies_inv s'.
Proof.
  intros Hs. unfold orderly_proxies. destruct (orderly_proxy s e) eqn:Ho; [|done].
  destruct e as [p now hasCipher|p now certificate|p now|p]; cbn [proxy_exec]; [| | |done];
    destruct (ps_proxies s !! p) as [x|] eqn:Ex; try done; cbn [mbind option_bind]; change (ss_connected (br_session (bridge_ x))) with (proxy_connected x);
    destruct (proxy_connected x) eqn:Ec; try done.
  - intros [= <-]. apply bool_decide_eq_true in Ho. pose proof (pv_global _ Hs) as Hg.
    destruct (bridge_onConnected_ids now (ps_globalClientId s) hasCipher x (proj1 Hg) Ho) as (H1 & H2 & H3).
    unfold getNextClientId. rewrite uint_id by (unfold is_uint; lia). apply (proxies_connect s p x _ (ps_globalClientId s + 1)); try done; lia.
  - cbn in Ho. rewrite Ex in Ho. apply negb_true_iff in Ho.
    assert (Hx : serverId_ x = invalidServerId).
    { destruct (decide (serverId_ x = invalidServerId)) as [|Hne%isValid_spec]; [done|congruence]. }
    pose proof (pv_ids _ Hs p x Ex Ec) as Hid. unfold authenticate. destruct (verifyAuthentication p certificate); cbn [negb]; intros [= <-].
    + apply (proxies_change s p x); cbn; try done.
      intros i q. rewrite getProxy_add. change (clientId_ (br_session (bridge_ x))) with (proxy_id x). case_decide as Ei.
      * split; [intros [= <-]; left; split_and!; [rewrite Ei; unfold invalidServerId; lia|done|done]|].
        intros [(_ & _ & ->)|(Hne & Hq)]; [done|]. exfalso. apply (pv_registered _ Hs) in Hq as (Hi & y & Hy & Hyi).
        destruct (pv_authenticated _ Hs q y Hy) as [Hyc Hyid]; [by rewrite Hyi|]. apply Hne, (pv_distinct _ Hs q p y x); [done..|]. congruence.
      * split; [|by intros [(_ & E & _)|[_ ?]]]. intros Hq. right. split; [|done]. intros ->. destruct (registered_id s p x i Hs Ex Hq). congruence.
    + apply (proxies_change s p x); cbn; try done.
      intros i q. split; [|by intros [(? & -> & _)|[_ ?]]]. intros Hq. right. split; [|done]. intros ->. destruct (registered_id s p x i Hs Ex Hq). congruence.
  - unfold proxy_disconnected. intros [= <-]. cbn. apply (proxies_change s p x); cbn; try done.
    intros i q. rewrite getProxy_remove. case_decide as Ei.
    + split; [done|]. intros [(? & -> & _)|[Hne Hq]]; [done|]. exfalso. destruct Ei as [-> Hi].
      apply (pv_registered _ Hs) in Hq as (_ & y & Hy & Hyi). apply Hne.
      destruct (pv_authenticated _ Hs q y Hy) as [Hyc Hyid]; [by rewrite Hyi|]. destruct (pv_authenticated _ Hs p x Ex Hi) as [_ Hxid].
      apply (pv_distinct _ Hs q p y x); [done..|]. congruence.
    + split; [|by intros [(? & -> & _)|[_ ?]]]. intros Hq. right. split; [|done]. intros ->.
      destruct (registered_id s p x i Hs Ex Hq) as [-> Hi]. by apply Ei.
Qed.

Lemma newProxyServer_inv n a h : proxies_inv (newProxyServer n a h).
Proof.
  assert (Hp : ∀ p x, ps_proxies (newProxyServer n a h) !! p = Some x → x = newProxy a h) by (by intros p x [-> _]%lookup_replicate).
  split; cbn.
  - lia.
  - by intros p x ->%Hp.
  - by intros p q x y ->%Hp.
  - by intros p x ->%Hp.
  - intros i p. split; [done|]. by intros [Hi (x & ->%Hp & Hx)].
Qed.

(** ** A client that is refused after it was accepted *)

(** The entry of a client id that no proxy has any more. *)
Record stale (i : Z) (p : nat) (s : ProxyServer) : Prop := {
  sl_entry : getProxy i (ps_manager s) = Some p;
  sl_id : i ≠ invalidServerId;
  sl_global : 0 ≤ i ≤ ps_globalClientId s;
  sl_nobody : ∀ q x, ps_proxies s !! q = Some x → serverId_ x ≠ i ∧ (proxy_connected x = true → proxy_id x ≠ i);
}.

Lemma stale_step i p e s s' : stale i p s → orderly_proxies e s = Some s' → stale i p s'.
Proof.
  intros [He Hi Hg Hn]. unfold orderly_proxies. destruct (orderly_proxy s e) eqn:Ho; [|done].
  assert (Hother : ∀ (q : nat) x' (l : list ServerSideProxy), (∀ r y, l !! r = Some y → serverId_ y ≠ i ∧ (proxy_connected y = true → proxy_id y ≠ i)) →
    serverId_ x' ≠ i ∧ (proxy_connected x' = true → proxy_id x' ≠ i) → ∀ r y, <[q := x']> l !! r = Some y →
    serverId_ y ≠ i ∧ (proxy_connected y = true → proxy_id y ≠ i)).
  { intros q x' l Hl Hx' r y [[_ ->]|[_ Hy]]%lookup_insert_some; [done|by apply (Hl r)]. }
  destruct e as [q now hasCipher|q now certificate|q now|q]; cbn [proxy_exec]; [| | |done];
    destruct (ps_proxies s !! q) as [x|] eqn:Ex; try done; cbn [mbind option_bind]; change (ss_connected (br_session (bridge_ x))) with (proxy_connected x);
    destruct (proxy_connected x) eqn:Ec; try done; destruct (Hn q x Ex) as [Hx Hxc].
  - intros [= <-]. apply bool_decide_eq_true in Ho.
    destruct (bridge_onConnected_ids now (ps_globalClientId s) hasCipher x ltac:(lia) Ho) as (H1 & H2 & H3).
    unfold getNextClientId. rewrite uint_id by (unfold is_uint; lia). split; cbn [ps_globalClientId ps_proxies ps_manager]; try done; [lia|].
    apply Hother; [done|]. rewrite H3. split; [done|]. lia.
  - unfold authenticate. destruct (verifyAuthentication q certificate); cbn [negb]; intros [= <-];
      split; cbn [ps_globalClientId ps_proxies ps_manager]; try done.
    + rewrite getProxy_add. cbn. rewrite decide_False; [done|]. intros ->. by apply Hxc.
    + apply Hother; [done|]. cbn. split; [|by intros _; apply Hxc]. by apply Hxc.
    + apply Hother; [done|]. cbn. split; [done|by intros _; apply Hxc].
  - unfold proxy_disconnected. intros [= <-]. split; cbn [ps_globalClientId ps_proxies ps_manager]; try done.
    + rewrite getProxy_remove. cbn. rewrite decide_False; [done|]. intros [-> _]. by apply Hx.
    + apply Hother; [done|]. cbn. done.
Qed.

(** The refusal forgets the server id, so that the disconnection removes nothing. *)
Lemma refused_again s p i now certificate now' : proxies_inv s → getProxy i (ps_manager s) = Some p →
  verifyAuthentication p certificate = false → ∃ s1 s2,
  proxy_exec (AuthenticateMessage p now certificate) s = Some s1 ∧ proxy_exec (ProxyDisconnected p now') s1 = Some s2 ∧ stale i p s2.
Proof.
  intros Hs Hi Hv. pose proof Hi as (Hi0 & x & Ex & Hxi)%(pv_registered _ Hs).
  destruct (pv_authenticated _ Hs p x Ex) as [Hc Hid]; [by rewrite Hxi|]. pose proof (pv_ids _ Hs p x Ex Hc) as Hb.
  cbn [proxy_exec]. rewrite Ex. cbn [mbind option_bind]. change (ss_connected (br_session (bridge_ x))) with (proxy_connected x).
  rewrite Hc. unfold authenticate. rewrite Hv. cbn [negb]. do 2 eexists. split; [done|].
  cbn [ps_proxies]. rewrite list_lookup_insert_eq by (by eapply lookup_lt_Some). cbn [mbind option_bind].
  match goal with |- context [ss_connected ?t] => change (ss_connected t) with (proxy_connected x) end. rewrite Hc.
  split; [done|]. rewrite list_insert_insert_eq. split; cbn [ps_globalClientId ps_proxies ps_manager]; [done|done|rewrite <- Hxi, Hid; lia|].
  intros q y [[-> ->]|[Hne Hy]]%lookup_insert_some; cbn; [done|]. split.
  - intros E. destruct (pv_authenticated _ Hs q y Hy) as [Hyc Hyid]; [by rewrite E|]. apply Hne, (pv_distinct _ Hs q p y x); [done..|congruence].
  - intros Hyc E. apply Hne, (pv_distinct _ Hs q p y x); [done..|congruence].
Qed.
End server.
