(* ===== verification/ClientBridge.v ===== *)
(** * server/s2s: the bridge to another server

    Models [ClientSideBridgeConnector] and [ClientSideBridge] ([src/src/server/s2s/
    ClientSideBridge.cpp]) and the flag of [ClientSideProxy] ([ClientSideProxy.cpp])
    over the timers of [Timers.v]: the attempts to connect, their failures and the
    delays between them.  An attempt that is in progress has a handler that will run,
    with an error when its socket is closed.  The heartbeats of the session are those of
    [ServerSession.v] and are left out here, and so is the name resolution, which
    throws out of its handler when it fails. *)

From S2P Require Import Prelude Timers.

Definition initialRetryDelay : Z := 500.
Definition maxRetryDelay : Z := 7000.

Record ClientSideBridge := mkClientBridge {
  retryDelay_ : Z;
  reconnectTimer_ : Timer;
  connecting : list Z;           (* since when the [async_connect]s are in progress *)
  attempts : list Z;             (* when [async_connect] was called, for the statements *)
  session_open : bool;           (* the socket of the session, [session_.isConnected()] *)
  isShuttingDown_ : bool;
  proxy_isConnected_ : bool;     (* [ClientSideProxy::isConnected_] *)
  certificates_sent : nat;       (* [S2sAuthenticateMessage]s *)
  threw : bool;                  (* an exception left a handler *)
}.

Definition newClientBridge : ClientSideBridge := mkClientBridge initialRetryDelay createTimer [] [] false false false 0 false.

Definition on_reconnectTimer (g : Timer → Timer) (b : ClientSideBridge) : ClientSideBridge :=
  mkClientBridge (retryDelay_ b) (g (reconnectTimer_ b)) (connecting b) (attempts b) (session_open b) (isShuttingDown_ b)
    (proxy_isConnected_ b) (certificates_sent b) (threw b).
Definition set_retryDelay (d : Z) (b : ClientSideBridge) : ClientSideBridge :=
  mkClientBridge d (reconnectTimer_ b) (connecting b) (attempts b) (session_open b) (isShuttingDown_ b)
    (proxy_isConnected_ b) (certificates_sent b) (threw b).
Definition set_connecting (l : list Z) (b : ClientSideBridge) : ClientSideBridge :=
  mkClientBridge (retryDelay_ b) (reconnectTimer_ b) l (attempts b) (session_open b) (isShuttingDown_ b)
    (proxy_isConnected_ b) (certificates_sent b) (threw b).
Definition set_session_open (o : bool) (b : ClientSideBridge) : ClientSideBridge :=
  mkClientBridge (retryDelay_ b) (reconnectTimer_ b) (connecting b) (attempts b) o (isShuttingDown_ b)
    (proxy_isConnected_ b) (certificates_sent b) (threw b).
Definition set_proxyConnected (c : bool) (b : ClientSideBridge) : ClientSideBridge :=
  mkClientBridge (retryDelay_ b) (reconnectTimer_ b) (connecting b) (attempts b) (session_open b) (isShuttingDown_ b)
    c (certificates_sent b) (threw b).
Definition set_shuttingDown (b : ClientSideBridge) : ClientSideBridge :=
  mkClientBridge (retryDelay_ b) (reconnectTimer_ b) (connecting b) (attempts b) (session_open b) true
    (proxy_isConnected_ b) (certificates_sent b) (threw b).
Definition certificate_sent (b : ClientSideBridge) : ClientSideBridge :=
  mkClientBridge (retryDelay_ b) (reconnectTimer_ b) (connecting b) (attempts b) (session_open b) (isShuttingDown_ b)
    (proxy_isConnected_ b) (S (certificates_sent b)) (threw b).
Definition set_threw (b : ClientSideBridge) : ClientSideBridge :=
  mkClientBridge (retryDelay_ b) (reconnectTimer_ b) (connecting b) (attempts b) (session_open b) (isShuttingDown_ b)
    (proxy_isConnected_ b) (certificates_sent b) true.

(** ** The connector *)

(** [connect()]: one more [async_connect]. *)
Definition bridge_connect (now : Z) (b : ClientSideBridge) : ClientSideBridge :=
  mkClientBridge (retryDelay_ b) (reconnectTimer_ b) (connecting b ++ [now]) (attempts b ++ [now]) (session_open b) (isShuttingDown_ b)
    (proxy_isConnected_ b) (certificates_sent b) (threw b).
Definition reconnect (now : Z) (b : ClientSideBridge) : ClientSideBridge :=
  let b := set_retryDelay (Z.min (retryDelay_ b * 2) maxRetryDelay) b in
  on_reconnectTimer (timer_once now (retryDelay_ b)) b.
(** Closing the socket makes the attempts in progress fail; their handlers still run. *)
Definition connector_cancel (now : Z) : ClientSideBridge → ClientSideBridge := on_reconnectTimer (timer_cancel now).

(** [Session::initialize] sets the options of the session's own socket, which throws
    unless it is open. *)
Definition initialize_session (b : ClientSideBridge) : ClientSideBridge :=
  if session_open b then b else set_threw b.
(** The handler of [async_connect], which is of the connector's socket. *)
Definition handle_connected (now : Z) (ok : bool) (b : ClientSideBridge) : ClientSideBridge :=
  if ok then initialize_session (set_retryDelay initialRetryDelay b) else reconnect now b.

(** ** The bridge and its proxy *)

(** [ClientSideProxy::disconnected], [ClientSideProxy::onAuthenticate] *)
Definition clientProxy_disconnected : ClientSideBridge → ClientSideBridge := set_proxyConnected false.
Definition proxy_onAuthenticate (authenticated : bool) : ClientSideBridge → ClientSideBridge := set_proxyConnected authenticated.
(** [ClientSideBridge::onDisconnected] *)
Definition bridge_disconnected (now : Z) (b : ClientSideBridge) : ClientSideBridge :=
  let b := clientProxy_disconnected b in
  if isShuttingDown_ b then b else reconnect now b.

Inductive bridge_call :=
| BridgeTo                          (* [bridge] *)
| ConnectHandled (ok : bool)        (* the handler of the attempt that was made first *)
| CancelConnection
| SessionDisconnected
| BridgeSeedExchanged
| AuthenticateResult (authenticated : bool)
| Destroyed.

(** Nothing runs after an exception left the [io_context]. *)
Definition bridge_do (now : Z) (c : bridge_call) (b : ClientSideBridge) : option ClientSideBridge :=
  if threw b then None
  else
    match c with
    | BridgeTo => Some (bridge_connect now b)
    | ConnectHandled ok =>
        match connecting b with
        | [] => None
        | _ :: l => Some (handle_connected now ok (set_connecting l b))
        end
    | CancelConnection => Some (connector_cancel now b)
    | SessionDisconnected =>
        if session_open b then Some (bridge_disconnected now (set_session_open false b)) else None
    | BridgeSeedExchanged => if session_open b then Some (certificate_sent b) else None
    | AuthenticateResult ok => if session_open b then Some (proxy_onAuthenticate ok b) else None
    | Destroyed => Some (connector_cancel now (set_shuttingDown b))
    end.

(** An attempt ends within [attempt_time]. *)
Definition bridge_due (attempt_time when : Z) (b : ClientSideBridge) : bool :=
  bool_decide (Forall (λ since, when ≤ since + attempt_time) (connecting b)).

Definition ClientSideBridge_timed (attempt_time : Z) : TimedObject ClientSideBridge unit bridge_call := {|
  ob_timers := [tt];
  ob_timer _ b := if threw b then None else Some (reconnectTimer_ b);
  ob_update _ := on_reconnectTimer;
  ob_handler _ now := run_wait reconnectTimer_ on_reconnectTimer (bridge_connect now) now;
  ob_call := bridge_do;
  ob_due := bridge_due attempt_time;
|}.

(** ** The attempts of a server that refuses *)

Definition only_failures (e : timed_event unit bridge_call) : Prop :=
  match e with Calls (ConnectHandled false) => True | Calls _ => False | _ => True end.

(** The delay before the attempt after [n] failures. *)
Fixpoint delay_after (n : nat) : Z := match n with O => initialRetryDelay | S n => Z.min (delay_after n * 2) maxRetryDelay end.

Lemma delay_after_eq n : delay_after n = Z.min (initialRetryDelay * 2 ^ Z.of_nat n) maxRetryDelay.
Proof.
  induction n as [|n IH]; [done|]. cbn [delay_after]. rewrite IH, Nat2Z.inj_succ, Z.pow_succ_r by lia.
  unfold initialRetryDelay, maxRetryDelay. lia.
Qed.

Lemma delay_after_bounds n : initialRetryDelay ≤ delay_after n ≤ maxRetryDelay.
Proof. induction n as [|n IH]; cbn [delay_after]; unfold initialRetryDelay, maxRetryDelay in *; lia. Qed.

(** An attempt is in progress, or the timer waits for the next one. *)
Record retrying (latency attempt_time : Z) (x : Z * ClientSideBridge) : Prop := {
  ry_alive : threw x.2 = false;
  ry_delay : retryDelay_ x.2 = delay_after (length (attempts x.2) - length (connecting x.2));
  ry_state : ∃ before last, attempts x.2 = before ++ [last] ∧ last ≤ x.1 ∧
    ((connecting x.2 = [last] ∧ idle (reconnectTimer_ x.2) ∧ x.1 ≤ last + attempt_time) ∨
     (connecting x.2 = [] ∧ waiting_once (reconnectTimer_ x.2) ∧
      tm_expiry (reconnectTimer_ x.2) ≤ last + attempt_time + retryDelay_ x.2 ∧ x.1 ≤ tm_expiry (reconnectTimer_ x.2) + latency));
}.

Lemma retrying_step latency attempt_time e x y : 0 ≤ latency → 0 ≤ attempt_time → only_failures e → retrying latency attempt_time x →
  timed_exec (H := ClientSideBridge_timed attempt_time) latency e x = Some y → retrying latency attempt_time y.
Proof.
  intros Hl Ha He [H1 H2 (before & last & H3 & H4 & H5)]. destruct x as [now b]. cbn [fst snd] in *.
  destruct e as [d|[]|[]|c]; cbn [timed_exec].
  - case_decide as Hd; [|done]. intros [= <-]. destruct Hd as (Hd & Ho & Hdue).
    unfold all_on_time in Ho. cbn in Ho. rewrite H1 in Ho. apply Forall_cons in Ho as [Ho _]. cbn in Ho.
    unfold ob_due, ClientSideBridge_timed, bridge_due in Hdue. apply bool_decide_eq_true in Hdue.
    split; cbn [fst snd]; [done|done|]. exists before, last. split; [done|]. split; [lia|].
    destruct H5 as [(Hc & Hi & Ht)|(Hc & Hw & Hx & Ht)]; [left|right]; split_and!; try done.
    + rewrite Hc in Hdue. by apply Forall_cons in Hdue as [? _].
    + by apply (awaiting_on_time latency OnceWait); [apply Hw|].
  - cbn. rewrite H1. cbn. case_decide as Hd; [|done]. intros [= <-].
    destruct H5 as [(Hc & (_ & Hi & _) & Ht)|(Hc & [Hr Hw] & Hx & Ht)]; [by destruct Hd|].
    destruct (awaiting_expires _ _ Hw (proj1 Hd)) as (Hw' & Ex & Er). split; cbn; [done|done|].
    exists before, last. split; [done|]. split; [done|]. right. rewrite Ex. split_and!; try done. split; [by rewrite Er|done].
  - cbn. rewrite H1. cbn. destruct (tm_queue (reconnectTimer_ b)) as [|[[k ok] since] rest] eqn:Eq; [done|]. intros [= <-].
    destruct H5 as [(Hc & (_ & _ & Hi) & Ht)|(Hc & [Hr Hw] & Hx & Ht)]; [by rewrite Hi in Eq|].
    destruct (awaiting_runs _ _ _ _ _ _ Hw Eq) as (-> & -> & Hw1 & Hq1 & _).
    cbn [run_wait timer_handle_timeout]. unfold timer_handle_timeout. cbn. rewrite Hr. split; cbn.
    + done.
    + rewrite H2, Hc, length_app. cbn. f_equal. lia.
    + exists (attempts b), now. split; [done|]. split; [lia|]. left. rewrite Hc. split_and!; [done| |lia]. by split.
  - destruct c as [|[]| | | | |]; try done. cbn. unfold bridge_do. rewrite H1.
    destruct H5 as [(Hc & Hi & Ht)|(Hc & _)]; [|by rewrite Hc]. rewrite Hc. intros [= <-].
    destruct Hi as (Hr & Hw & Hq).
    destruct (async_wait_awaiting now (Z.min (retryDelay_ b * 2) maxRetryDelay) OnceWait _ Hw Hq) as [Hw' Ex].
    split; cbn [fst snd].
    + done.
    + cbn. rewrite H2, Hc, H3, length_app. cbn. replace (length before + 1 - 1)%nat with (length before) by lia.
      by replace (length before + 1 - 0)%nat with (S (length before)) by lia.
    + exists before, last. split; [done|]. split; [done|]. right. cbn.
      pose proof (delay_after_bounds (length (attempts b) - length (connecting b))) as Hb. rewrite <- H2 in Hb.
      unfold initialRetryDelay, maxRetryDelay in *. split_and!; [done|by split|lia|lia].
Qed.

(** ** What does not happen *)

Definition never_open (x : Z * ClientSideBridge) : Prop :=
  proxy_isConnected_ x.2 = false ∧ certificates_sent x.2 = 0%nat ∧ session_open x.2 = false.

Lemma never_open_step latency attempt_time e x y : never_open x →
  timed_exec (H := ClientSideBridge_timed attempt_time) latency e x = Some y → never_open y.
Proof.
  intros (Hp & Hs & Ho). destruct x as [now b]. cbn [fst snd] in *. destruct e as [d|[]|[]|c]; cbn [timed_exec]; cbn.
  - case_decide; [|done]. by intros [= <-].
  - destruct (threw b); [done|]. cbn. case_decide; [|done]. by intros [= <-].
  - destruct (threw b); [done|]. cbn. destruct (tm_queue (reconnectTimer_ b)) as [|[[k ok] since] rest]; [done|]. intros [= <-].
    destruct k; cbn; unfold timer_handle_timeout, handle_repeat_timeout; destruct ok; cbn; try done; by destruct (tm_running (reconnectTimer_ b)).
  - unfold bridge_do. destruct (threw b); [done|]. destruct c as [|ok| | | |ok|]; try rewrite Ho; try done; cbn; try by intros [= <-].
    destruct (connecting b) as [|since l]; [done|]. intros [= <-]. destruct ok; cbn; [|done].
    unfold initialize_session. cbn. by rewrite Ho.
Qed.

(** The handler of an aborted attempt starts the timer again. *)
Lemma cancelled_is_retried latency attempt_time now b since : threw b = false → connecting b = [since] → idle (reconnectTimer_ b) →
  0 ≤ latency → let delay := Z.min (retryDelay_ b * 2) maxRetryDelay in 0 ≤ delay →
  ∃ b', timed_run (H := ClientSideBridge_timed attempt_time) latency
    [Calls CancelConnection; Calls (ConnectHandled false); Passes delay; Expires tt; Runs tt] (now, b) = Some (now + delay, b') ∧
  attempts b' = attempts b ++ [now + delay].
Proof.
  intros Hth Hc Hi Hl delay Hd. set (H := ClientSideBridge_timed attempt_time).
  set (b1 := connector_cancel now b). set (b2 := reconnect now (set_connecting [] b1)).
  assert (E1 : timed_exec latency (Calls CancelConnection) (now, b) = Some (now, b1)).
  { cbn. unfold bridge_do. by rewrite Hth. }
  assert (E2 : timed_exec latency (Calls (ConnectHandled false)) (now, b1) = Some (now, b2)).
  { cbn. unfold bridge_do. change (threw b1) with (threw b). rewrite Hth. change (connecting b1) with (connecting b). by rewrite Hc. }
  assert (Ht : reconnectTimer_ b2 = mkTimer true (now + delay) (Some OnceWait) []).
  { destruct (cancel_idle now _ Hi) as (_ & Hw & Hq).
    change (reconnectTimer_ b2) with (timer_once now delay (timer_cancel now (reconnectTimer_ b))).
    set (t := timer_cancel now (reconnectTimer_ b)) in *.
    unfold timer_once, expires_from_now, abort_wait. rewrite Hw. clearbody t. destruct t. cbn in *. by subst. }
  assert (Htw : threw b2 = false) by exact Hth.
  assert (E3 : timed_exec latency (Passes delay) (now, b2) = Some (now + delay, b2)).
  { cbn [timed_exec]. rewrite decide_True; [done|]. split; [done|]. split; [|by apply bool_decide_eq_true].
    unfold all_on_time. cbn [ob_timers ob_timer H ClientSideBridge_timed]. rewrite Htw. cbn [default]. rewrite Ht.
    apply Forall_singleton. split; cbn; [lia|constructor]. }
  set (b3 := on_reconnectTimer timer_expires b2).
  assert (E4 : timed_exec latency (Expires tt) (now + delay, b2) = Some (now + delay, b3)).
  { cbn [timed_exec ob_timer H ClientSideBridge_timed]. rewrite Htw. cbn [mbind option_bind]. rewrite decide_True; [done|].
    rewrite Ht. cbn. split; [done|lia]. }
  assert (Ht3 : reconnectTimer_ b3 = mkTimer true (now + delay) None [(OnceWait, true, now + delay)]).
  { change (reconnectTimer_ b3) with (timer_expires (reconnectTimer_ b2)). by rewrite Ht. }
  assert (Htw3 : threw b3 = false) by exact Hth.
  cbn [timed_run]. rewrite E1. cbn [mbind option_bind]. rewrite E2. cbn [mbind option_bind]. rewrite E3. cbn [mbind option_bind].
  rewrite E4. cbn [mbind option_bind]. cbn [timed_exec ob_timer H ClientSideBridge_timed]. rewrite Htw3. cbn [mbind option_bind]. rewrite Ht3.
  cbn [tm_queue]. eexists. split; [done|]. cbn [ob_handler H ClientSideBridge_timed run_wait]. unfold timer_handle_timeout.
  change (tm_running (reconnectTimer_ (ob_update () dequeue b3))) with (tm_running (dequeue (reconnectTimer_ b3))). by rewrite Ht3.
Qed.
