(* ===== verification/Connecting.v ===== *)
(** * Clients that wait for their connection

    Models [TcpSessionImpl::connect] ([src/src/base/session/impl/TcpSessionImpl.cpp]),
    [ClientSession::connectAndValidate] ([src/src/client/session/ClientSession.cpp]) with the
    [ClientSessionTick] that runs the handlers meanwhile, over the session of
    [TcpSession.v]; and [ClientSideProxy::connect] ([src/src/server/s2s/
    ClientSideProxy.cpp]), which waits in its thread for the bridge of
    [ClientBridge.v].  Both loops look at a clock: the turns of a loop are given, with
    what happens in each. *)

From S2P Require Import Prelude Streamable Packet Marshaller BandwidthLimit TcpSession TcpSessionSpec Timers Heartbeat ServerSpec SessionConfigs ClientBridge.

(** ** [TcpSessionImpl::connect] *)

(** The endpoint of the name and then [connect] of the socket, which opens it and leaves
    it open when it fails. *)
Inductive connect_outcome := NotResolved | Refused | Connects.

Section client.
Context {M A : Type} `{Marshaller M}.
Context (react : call → A → bool * list request * A).
Context (exchanged : A → bool).                  (* [packetSeedExchanged_] of the [ClientSession] *)
#[local] Abbreviation session := (state M A).
#[local] Abbreviation exec := (exec react).
#[local] Abbreviation exec_all := (exec_all react).

(** The first endpoint of an empty list is what a name that is not resolved has. *)
Definition tcp_connect (o : connect_outcome) (s : session) : option (result bool * session) :=
  match o with
  | NotResolved => Some (Throw (Undefined "the end of a list of endpoints"), s)
  | Refused => Some (Ok false, on_ses (set_socket true) s)
  | Connects => s ← exec EvOpen (on_ses (set_socket false) s); Some (Ok (isConnected (ses s)), s)
  end.

(** ** [ClientSession::connectAndValidate] *)

(** A turn of the loop: the time that is read, and the handlers that [tick] runs. *)
Record turn := mkTurn { tn_now : Z; tn_handlers : list event }.

Fixpoint validate_loop (deadline : Z) (turns : list turn) (s : session) : option (bool * session) :=
  match turns with
  | [] => None                                   (* it still waits *)
  | t :: turns =>
      if deadline <=? tn_now t then Some (false, disconnect s)
      else
        s ← exec_all (tn_handlers t) s;
        if exchanged (app (wld s)) then Some (true, s) else validate_loop deadline turns s
  end.

Definition connectAndValidate (now timeout : Z) (waitUntilValidate : bool) (o : connect_outcome) (turns : list turn) (s : session)
    : option (result bool * session) :=
  '(r, s) ← tcp_connect o s;
  match r with
  | Ok true =>
      if negb waitUntilValidate then Some (Ok true, s)
      else '(b, s) ← validate_loop (now + timeout) turns s; Some (Ok b, s)
  | r => Some (r, s)
  end.

(** ** What comes of it *)

Definition handlers (turns : list turn) : list event := mjoin (tn_handlers <$> turns).

Lemma exec_all_app es1 es2 (s : session) : exec_all (es1 ++ es2) s = s' ← exec_all es1 s; exec_all es2 s'.
Proof.
  revert s. induction es1 as [|e es IH]; intros s; [done|]. cbn. destruct (exec e s) as [s'|]; [apply IH|done].
Qed.

(** The loop ends in a turn: validated in it, or late at it. *)
Lemma validate_loop_ends deadline turns (s s' : session) :
  (∃ t, t ∈ turns ∧ deadline ≤ tn_now t) → exec_all (handlers turns) s = Some s' →
  ∃ b s1 before t after, turns = before ++ t :: after ∧ Forall (λ t, tn_now t < deadline) before ∧
    (∀ n s2, (n < length before)%nat → exec_all (handlers (take (S n) turns)) s = Some s2 → exchanged (app (wld s2)) = false) ∧
    validate_loop deadline turns s = Some (b, s1) ∧
    if (b : bool) then tn_now t < deadline ∧ exec_all (handlers (before ++ [t])) s = Some s1 ∧ exchanged (app (wld s1)) = true
    else deadline ≤ tn_now t ∧ ∃ s2, exec_all (handlers before) s = Some s2 ∧ s1 = disconnect s2.
Proof.
  revert s. induction turns as [|t turns IH]; intros s (t0 & Ht0 & Hd0) Hrun; [by apply elem_of_nil in Ht0|].
  cbn [validate_loop]. destruct (Z.leb_spec deadline (tn_now t)) as [Hle|Hlt].
  { exists false, (disconnect s), [], t, turns. split_and!; [done|done|intros n s2 Hn; cbn in Hn; lia|done|done|by exists s]. }
  change (handlers (t :: turns)) with (tn_handlers t ++ handlers turns) in Hrun. rewrite exec_all_app in Hrun.
  destruct (exec_all (tn_handlers t) s) as [s1|] eqn:E1; [|done]. cbn [mbind option_bind] in Hrun |- *.
  destruct (exchanged (app (wld s1))) eqn:Ex.
  { exists true, s1, [], t, turns. split_and!; [done|done|intros n s2 Hn; cbn in Hn; lia|done|done| |done].
    change (handlers ([] ++ [t])) with (tn_handlers t ++ []). by rewrite app_nil_r. }
  destruct (IH s1) as (b & s2 & before & t' & after & -> & Hb & Hno & Hl & Hend).
  { exists t0. split; [|done]. apply elem_of_cons in Ht0 as [->|?]; [lia|done]. }
  { done. }
  assert (Hh : ∀ l, exec_all (handlers (t :: l)) s = exec_all (handlers l) s1).
  { intros l. change (handlers (t :: l)) with (tn_handlers t ++ handlers l). by rewrite exec_all_app, E1. }
  exists b, s2, (t :: before), t', after. split_and!; [done|by constructor| |done|].
  - intros [|n] s3 Hn; cbn [take length] in *; rewrite Hh; [intros [= <-]; done|]. apply Hno. lia.
  - destruct b; [|by setoid_rewrite Hh]. change ((t :: before) ++ [t']) with (t :: (before ++ [t'])). by rewrite Hh.
Qed.

(** Turns that take their [pause]: the [k]-th is no earlier than [k] after the first. *)
Definition paced (now : Z) (turns : list turn) : Prop :=
  ∀ k t, turns !! k = Some t → now + Z.of_nat k ≤ tn_now t.

(** It ends within the turns its time allows, and what it then says is so. *)
Theorem client_validation_ends now timeout (turns : list turn) (s s1 s' : session) :
  0 ≤ timeout → paced now turns → timeout < Z.of_nat (length turns) →
  exec EvOpen (on_ses (set_socket false) s) = Some s1 → exec_all (handlers turns) s1 = Some s' → isConnected (ses s1) = true →
  ∃ b s2, connectAndValidate now timeout true Connects turns s = Some (Ok b, s2) ∧
    if (b : bool) then exchanged (app (wld s2)) = true
    else ∃ s3 before, exec_all (handlers (take before turns)) s1 = Some s3 ∧ s2 = disconnect s3 ∧
      isConnected (ses s2) = isConnected (ses s3) ∧ calls (wld s2) = calls (wld s3) ∧
      ∃ t, turns !! before = Some t ∧ now + timeout ≤ tn_now t.
Proof.
  intros Ht Hp Hl Ho Hrun Hc.
  destruct (lookup_lt_is_Some_2 turns (Z.to_nat timeout)) as [t0 Ht0]; [lia|].
  destruct (validate_loop_ends (now + timeout) turns s1 s') as (b & s2 & before & t & after & Et & _ & _ & Hv & Hb).
  { exists t0. split; [by eapply list_elem_of_lookup_2|]. specialize (Hp _ _ Ht0). lia. }
  { done. }
  exists b, s2. unfold connectAndValidate, tcp_connect. rewrite Ho. cbn [mbind option_bind]. rewrite Hc. cbn [negb]. rewrite Hv.
  split; [done|]. destruct b; [by destruct Hb as (_ & _ & ?)|]. destruct Hb as (Hd & s3 & Hs3 & ->).
  exists s3, (length before). subst turns. rewrite take_app_length. split_and!; [done|done|done|done|].
  exists t. split; [|done]. by rewrite lookup_app_r, Nat.sub_diag by lia.
Qed.

(** The socket of a connection that fails stays open: the session is taken to be
    connected, and tells of the end of a connection that it never told of. *)
Theorem failed_connect_is_connected (s : session) :
  isDisconnectReserved (ses s) = false → posted (wld s) = [] →
  ∃ s1, tcp_connect Refused s = Some (Ok false, s1) ∧ isConnected (ses s1) = true ∧ canSendMessage (ses s1) = true ∧
    calls (wld s1) = calls (wld s) ∧
    ∃ s2, exec_all [EvCall PDisconnect; EvPosted] s1 = Some s2 ∧ calls (wld s2) = calls (wld s) ++ [OnDisconnected; OnRelease].
Proof.
  intros Hr Hp. eexists. split; [done|]. split; [done|]. split.
  { unfold canSendMessage, isDisconnectReserved in *. cbn. by rewrite Hr. }
  split; [done|].
  set (s1 := on_wld (take_posted []) (on_wld (post PDisconnect) (on_ses (set_socket true) s))).
  destruct (do_disconnect_connected react s1) as [_ Hcalls]; [exact Hr|done|].
  exists (do_disconnect react s1). split; [|by rewrite Hcalls, <- app_assoc].
  set (s0 := on_ses (set_socket true) s). cbn [exec_all]. change (exec (EvCall PDisconnect) s0) with (Some (on_wld (post PDisconnect) s0)).
  cbn [mbind option_bind]. unfold TcpSession.exec.
  assert (Ep : posted (wld (on_wld (post PDisconnect) s0)) = [PDisconnect]).
  { change (posted (wld s) ++ [PDisconnect] = [PDisconnect]). by rewrite Hp. }
  by rewrite Ep.
Qed.
End client.

(** ** [ClientSideProxy] *)

(** [isConnected_] is with the bridge that sets it. *)
Record ClientSideProxy := mkClientProxy {
  sessionConfig_ : ClientSideSessionConfig;
  connectionTimeout_ : Z;
  bridge_ : option ClientSideBridge;
}.

Definition newClientSideProxy (config : ClientSideSessionConfig) : ClientSideProxy :=
  mkClientProxy config (10 * 1000) (if isValid config then Some newClientBridge else None).

Definition setConnectionTimeout (timeout : Z) (p : ClientSideProxy) : ClientSideProxy :=
  mkClientProxy (sessionConfig_ p) (if timeout <=? 0 then 2 * 1000 else timeout) (bridge_ p).
Definition set_bridge (b : ClientSideBridge) (p : ClientSideProxy) : ClientSideProxy :=
  mkClientProxy (sessionConfig_ p) (connectionTimeout_ p) (Some b).

Section proxy.
Context (attempt_time latency : Z).
#[local] Instance timed : TimedObject ClientSideBridge unit bridge_call := ClientSideBridge_timed attempt_time.
#[local] Abbreviation bridge_event := (timed_event unit bridge_call).

Definition isActivated (b : ClientSideBridge) : bool := proxy_isConnected_ b.

(** A turn of the loop: what happens until the thread wakes from its [pause]. *)
Fixpoint proxy_wait (begin timeout : Z) (turns : list (list bridge_event)) (x : Z * ClientSideBridge)
    : option (bool * (Z * ClientSideBridge)) :=
  if getElapsedTime x.1 begin <? timeout then
    if isActivated x.2 then Some (true, x)
    else
      match turns with
      | [] => None                               (* it still waits *)
      | es :: turns => x ← timed_run latency es x; proxy_wait begin timeout turns x
      end
  else Some (false, x).

(** What [disconnect] of the session posts runs by itself, as [SessionDisconnected]. *)
Definition proxy_disconnect (now : Z) (p : ClientSideProxy) : ClientSideProxy :=
  match bridge_ p with Some b => set_bridge (connector_cancel now b) p | None => p end.

(** [resolved] is whether the name of the server is resolved: [resolve] throws otherwise. *)
Definition proxy_connect (resolved : bool) (turns : list (list bridge_event)) (now : Z) (p : ClientSideProxy)
    : option (result bool * (Z * ClientSideProxy)) :=
  match isForTest_ (sessionConfig_ p) with
  | None => Some (Throw (Undefined "a member that was not initialized"), (now, p))
  | Some true => Some (Ok true, (now, p))
  | Some false =>
  if negb (isValid (sessionConfig_ p)) then Some (Ok false, (now, p))
  else
    match bridge_ p with
    | None => Some (Throw (Undefined "a null pointer"), (now, p))
    | Some b =>
        if negb resolved then Some (Throw (RuntimeError "resolve"), (now, p))
        else
          '(r, (t, b)) ← proxy_wait now (connectionTimeout_ p) turns (now, bridge_connect now b);
          Some (Ok r, (t, if (r : bool) then set_bridge b p else proxy_disconnect t (set_bridge b p)))
    end
  end.

(** *** What comes of it *)

Definition passes (es : list bridge_event) : Z :=
  foldr (λ e n, match e with Passes d => d | _ => 0 end + n) 0 es.

(** The clock moves by what passes, and never back. *)
Lemma timed_run_clock es (x y : Z * ClientSideBridge) : timed_run latency es x = Some y → y.1 = x.1 + passes es ∧ 0 ≤ passes es.
Proof.
  revert x. induction es as [|e es IH]; intros x; cbn [timed_run]; [intros [= ->]; cbn; lia|].
  destruct (timed_exec latency e x) as [x1|] eqn:E; cbn [mbind option_bind]; [|done].
  intros [-> Hes]%IH. destruct x as [now b]. change (passes (e :: es)) with (match e with Passes d => d | _ => 0 end + passes es).
  destruct e as [d|w|w|op]; cbn [timed_exec] in E.
  - case_decide as Hd; [|done]. injection E as <-. cbn. lia.
  - destruct (ob_timer w b) as [t|]; cbn [mbind option_bind] in E; [|done]. case_decide; [|done]. injection E as <-. cbn. lia.
  - destruct (ob_timer w b) as [t|]; cbn [mbind option_bind] in E; [|done].
    destruct (tm_queue t) as [|[[k ok] since] l]; [done|]. injection E as <-. cbn. lia.
  - destruct (ob_call now op b) as [s|]; cbn [mbind option_bind] in E; [|done]. injection E as <-. cbn. lia.
Qed.

Lemma timed_run_never_open es x y : never_open x → timed_run latency es x = Some y → never_open y.
Proof.
  intros Hx Hrun. eapply (timed_run_inv (H := timed) latency never_open (λ _, True) es x); [|by apply Forall_true|done|exact Hrun].
  intros e x1 y1 _. apply never_open_step.
Qed.

(** The loop waits until the time is over, and it does end. *)
Lemma proxy_wait_in_vain begin timeout turns x y : never_open x → begin ≤ x.1 →
  Forall (λ es, 1 ≤ passes es) turns → begin + timeout ≤ x.1 + Z.of_nat (length turns) → y.1 < begin + 2 ^ 32 →
  timed_run latency (mjoin turns) x = Some y →
  ∃ z, proxy_wait begin timeout turns x = Some (false, z) ∧ begin + timeout ≤ z.1 ∧ never_open z.
Proof.
  revert x. induction turns as [|es turns IH]; intros x Hx Hb Hp Hl Hy Hrun.
  - injection Hrun as <-. exists x. cbn in Hl. cbn [proxy_wait]. rewrite getElapsedTime_id by lia.
    destruct (Z.ltb_spec (x.1 - begin) timeout); [lia|]. split_and!; [done|lia|done].
  - change (mjoin (es :: turns)) with (es ++ mjoin turns) in Hrun. apply timed_run_app in Hrun as (x1 & Hes & Hrun).
    destruct (timed_run_clock es x x1 Hes) as [Ex He]. destruct (timed_run_clock (mjoin turns) x1 y Hrun) as [Ey Ht].
    apply Forall_cons in Hp as [Hp1 Hp]. cbn [length] in Hl.
    cbn [proxy_wait]. rewrite getElapsedTime_id by lia. destruct (Z.ltb_spec (x.1 - begin) timeout).
    + unfold isActivated. rewrite (proj1 Hx), Hes. cbn [mbind option_bind].
      apply IH; [by eapply timed_run_never_open|lia|done|lia|done|done].
    + exists x. split_and!; [done|lia|done].
Qed.

(** A proxy of a real server waits for all of its time and fails. *)
Theorem proxy_waits_in_vain p b turns now y :
  isForTest_ (sessionConfig_ p) = Some false → isValid (sessionConfig_ p) = true → bridge_ p = Some b → never_open (now, b) →
  Forall (λ es, 1 ≤ passes es) turns → connectionTimeout_ p ≤ Z.of_nat (length turns) → y.1 < now + 2 ^ 32 →
  timed_run latency (Calls BridgeTo :: mjoin turns) (now, b) = Some y →
  ∃ t b', proxy_connect true turns now p = Some (Ok false, (t, set_bridge b' p)) ∧ now + connectionTimeout_ p ≤ t ∧
    proxy_isConnected_ b' = false ∧ certificates_sent b' = 0%nat.
Proof.
  intros Hf Hv Hbr Hn Hp Hl Hy Hrun. cbn [timed_run timed_exec ob_call timed ClientSideBridge_timed] in Hrun. unfold bridge_do in Hrun.
  destruct (threw b); cbn [mbind option_bind] in Hrun; [done|].
  destruct (proxy_wait_in_vain now (connectionTimeout_ p) turns (now, bridge_connect now b) y) as ([t b'] & Hw & Ht & Hn'); [done|cbn; lia|done|cbn; lia|done|done|].
  exists t, (connector_cancel t b'). unfold proxy_connect. rewrite Hf, Hv, Hbr. cbn [negb]. rewrite Hw. cbn [mbind option_bind].
  destruct Hn' as (Hc & Hs & _). split_and!; [done|done|done|done].
Qed.
End proxy.

(** A configuration filled in by hand, after the constructor without parameters. *)
Definition valid_config : ClientSideSessionConfig :=
  mkClientConfig (mkSgpConfig (mkSessionConfig (mkFactory false false) (Some 1) (Some 2) getUnlimitedCapacity (Some false))
    (Some (mkBlockManager 10 2048)) (Some PlainCoder) (Some ForClient)) 1000.

Example proxy_waits_in_vain_witness :
  let turns := replicate 40 [Passes 1] ++ [[Calls (ConnectHandled false); Passes 1]] in
  let p := setConnectionTimeout 41 (newClientSideProxy valid_config) in
  ∃ t b, proxy_connect 10000 50 true turns 0 p = Some (Ok false, (t, set_bridge b p)) ∧ 41 ≤ t ∧
    proxy_isConnected_ b = false ∧ certificates_sent b = 0%nat.
Proof.
  cbv zeta.
  set (turns := replicate 40 [Passes 1] ++ [[Calls (ConnectHandled false); Passes 1]]).
  set (o := timed_run (H := ClientSideBridge_timed 10000) 50 (Calls BridgeTo :: mjoin turns) (0, newClientBridge)).
  assert (Ho : o = Some (default (0, newClientBridge) o)) by (vm_compute; reflexivity).
  apply (proxy_waits_in_vain 10000 50 (setConnectionTimeout 41 (newClientSideProxy valid_config)) newClientBridge turns 0 (default (0, newClientBridge) o)).
  - reflexivity.
  - reflexivity.
  - reflexivity.
  - repeat split.
  - unfold turns. apply Forall_app. split; [apply Forall_replicate; vm_compute; discriminate|].
    constructor; [vm_compute; discriminate|constructor].
  - vm_compute. discriminate.
  - vm_compute. reflexivity.
  - exact Ho.
Defined.

(** ** [ClientSideProxyFactory] *)

(** "s2s.connection_timeout" *)
Definition connection_timeout : list Z :=
  [115; 50; 115; 46; 99; 111; 110; 110; 101; 99; 116; 105; 111; 110; 95; 116; 105; 109; 101; 111; 117; 116].

(** [nullSessionDestroyer] is the address of the one object of its class. *)
Definition create_proxy (lexical_cast : list Z → option Z) (properties : Properties) (nullSessionDestroyer : Z)
    (serverInfo : ServerInfo) (ioContextTask : Z) : result ClientSideProxy :=
  let packetCoder := create_coder (info_packetCipher serverInfo) 0 in
  let memoryBlockManager := mkBlockManager defaultPacketPoolSize defaultPacketSize in
  let proxy := newClientSideProxy (makeClientConfig (info_heartbeatInterval serverInfo) memoryBlockManager packetCoder
    nullSessionDestroyer ioContextTask getUnlimitedCapacity) in
  match getProperty lexical_cast properties connection_timeout with
  | Ok timeout => Ok (setConnectionTimeout timeout proxy)
  | Throw e => Throw e
  end.

(** The proxy has a bridge of its own, and waits two seconds for the server when the
    property is not there, not the ten of its constructor. *)
Theorem created_proxy lexical_cast properties d info task p :
  create_proxy lexical_cast properties d info task = Ok p →
  isValid (sessionConfig_ p) = true ∧ bridge_ p = Some newClientBridge ∧
  (properties !! connection_timeout = None → connectionTimeout_ p = 2000).
Proof.
  unfold create_proxy, getProperty. intros E. split_and!.
  - destruct (properties !! _) as [v|]; [destruct (lexical_cast v)|]; by simplify_eq/=.
  - destruct (properties !! _) as [v|]; [destruct (lexical_cast v)|]; by simplify_eq/=.
  - intros Hp. rewrite Hp in E. by simplify_eq/=.
Qed.

(** The constructor of the configuration that it uses leaves [isForTest_] alone, which
    [connect] looks at first. *)
Theorem created_proxy_is_indeterminate lexical_cast properties d info task p attempt_time latency resolved turns now :
  create_proxy lexical_cast properties d info task = Ok p →
  proxy_connect attempt_time latency resolved turns now p = Some (Throw (Undefined "a member that was not initialized"), (now, p)).
Proof.
  unfold create_proxy, getProperty. intros E. unfold proxy_connect.
  replace (isForTest_ (sessionConfig_ p)) with (@None bool); [done|].
  destruct (properties !! _) as [v|]; [destruct (lexical_cast v)|]; by simplify_eq/=.
Qed.
