(* ===== verification/S2sAuthentication.v ===== *)
(** * server/s2s: the authentication of a server with another

    Models the messages of [S2sMessage.h] ([src/include/sne/server/s2s/S2sMessage.h])
    and the handlers that [ClientSideBridge] and [ServerSideBridge] register for them,
    over the sessions of [SessionLayer.v]: the application of the server's session is
    the [ProxyServer] of [ServerProxies.v], that of the client's the bridge of
    [ClientBridge.v].  Also the session part of [ClientSideBridge], a
    [ClientSideSession] whose [seedExchanged] is its own, with its timers. *)

From S2P Require Import Prelude Bits Unicode StreamBuffer MemoryBlock Stream Streamable FactoryStreams Srpc Packet TcpSession SessionLayer.
From S2P Require Import Timers Heartbeat ServerSession ServerSessionSpec ServerProxies ClientBridge.

(** ** The messages *)

Definition s2smtSystem_authenticate : Z := csmtSystemLast.
Definition s2smtSystem_authenticateResult : Z := s2smtSystem_authenticate + 1.

Inductive S2sMessage :=
| S2sAuthenticateMessage (certificate_ : list Z)
| S2sAuthenticateResultMessage (authenticated_ : bool).

Definition s2s_messageType (m : S2sMessage) : Z :=
  match m with S2sAuthenticateMessage _ => s2smtSystem_authenticate | S2sAuthenticateResultMessage _ => s2smtSystem_authenticateResult end.
(** What [serialize] passes to the stream. *)
Definition s2s_fields (m : S2sMessage) : list value :=
  match m with
  | S2sAuthenticateMessage certificate => [VString certificate]
  | S2sAuthenticateResultMessage ok => [VNum PBool (Z.b2z ok)]
  end.
Definition s2s_message (mt : Z) (xs : list value) : option S2sMessage :=
  if mt =? s2smtSystem_authenticate then
    match xs with [VString certificate] => Some (S2sAuthenticateMessage certificate) | _ => None end
  else if mt =? s2smtSystem_authenticateResult then
    match xs with [VNum PBool ok] => Some (S2sAuthenticateResultMessage (negb (ok =? 0))) | _ => None end
  else None.

Lemma s2s_message_fields m : s2s_message (s2s_messageType m) (s2s_fields m) = Some m.
Proof. by destruct m as [c|[]]. Qed.

(** ** The handlers *)

Section handlers.
Context {P : Type} `{MemoryBlockProvider P}.

(** [registerMessageCallback] of the constructors, with a new message. *)
Definition server_registers {A} : SessionImpl P A → SessionImpl P A :=
  registerMessageCallback s2smtSystem_authenticate (s2s_fields (S2sAuthenticateMessage [])).
Definition client_registers {A} : SessionImpl P A → SessionImpl P A :=
  registerMessageCallback s2smtSystem_authenticateResult (s2s_fields (S2sAuthenticateResultMessage false)).

Definition send_s2s {A} (m : S2sMessage) : st (SessionImpl P A) unit := messaging_sendMessage (s2s_messageType m) (s2s_fields m).

(** [ClientSideBridge::seedExchanged] sends the certificate. *)
Definition bridge_seedExchanged {A} (certificate : list Z) : st (SessionImpl P A) unit := send_s2s (S2sAuthenticateMessage certificate).
(** [ServerSideBridge::onAuthenticate] sends the result. *)
Definition send_result {A} (isAuthenticated : bool) : st (SessionImpl P A) unit := send_s2s (S2sAuthenticateResultMessage isAuthenticated).

(** [ServerSideBridge::authenticateMessageReceived], of the proxy [p]. *)
Definition authenticateMessageReceived (verifyAuthentication : nat → list Z → bool) (p : nat) (now mt : Z) (xs : list value) (s : ProxyServer) : ProxyServer :=
  match s2s_message mt xs with
  | Some (S2sAuthenticateMessage certificate) => default s (proxy_exec verifyAuthentication (AuthenticateMessage p now certificate) s)
  | _ => s
  end.
(** [ClientSideBridge::authenticateResultMessageReceived]. *)
Definition authenticateResultMessageReceived (mt : Z) (xs : list value) (b : ClientSideBridge) : ClientSideBridge :=
  match s2s_message mt xs with
  | Some (S2sAuthenticateResultMessage ok) => proxy_onAuthenticate ok b
  | _ => b
  end.
End handlers.

(** What the message of a connected client makes of its proxy. *)
Lemma authenticate_result verify p now c s x : ps_proxies s !! p = Some x → proxy_connected x = true →
  ∃ s' x', proxy_exec verify (AuthenticateMessage p now c) s = Some s' ∧ ps_proxies s' !! p = Some x' ∧
  br_results (bridge_ x') = br_results (bridge_ x) ++ [verify p c] ∧
  if verify p c then getProxy (proxy_id x) (ps_manager s') = Some p ∧ serverId_ x' = proxy_id x
  else ps_manager s' = ps_manager s ∧ serverId_ x' = invalidServerId ∧ AskDisconnectGracefully ∈ ss_asked (br_session (bridge_ x')).
Proof.
  intros Hx Hc. cbn [proxy_exec]. rewrite Hx. cbn [mbind option_bind]. change (ss_connected (br_session (bridge_ x))) with (proxy_connected x).
  rewrite Hc. unfold authenticate. destruct (verify p c); cbn [negb]; do 2 eexists; (split; [done|]); cbn [ps_proxies];
    (split; [by rewrite list_lookup_insert_eq by (by eapply lookup_lt_Some)|]); (split; [done|]).
  - split; [|done]. unfold getProxy, proxies_add. cbn. by rewrite lookup_insert_eq.
  - split_and!; [done|done|]. cbn. apply elem_of_app. right. by apply list_elem_of_singleton.
Qed.

(** ** The session of a bridge *)

(** [ClientSideBridge::seedExchanged] does not call that of [ClientSideSession]; what it
    sends is noted by the caller. *)
Definition bs_seedExchanged (s : ClientSideSession) : ClientSideSession := s.
Definition bs_onConnected (now : Z) (hasPacketCipher : bool) (s : ClientSideSession) : ClientSideSession :=
  let s := if negb hasPacketCipher then bs_seedExchanged s else s in
  on_csReceiver (setupTimer now) s.

Definition bs_do (now : Z) (c : cs_call) (s : ClientSideSession) : option ClientSideSession :=
  match c with
  | CsConnected hasCipher => if cs_connected s then None else Some (bs_onConnected now hasCipher (set_csConnected true s))
  | CsSeedExchanged => if cs_connected s then Some (bs_seedExchanged s) else None
  | c => cs_do now c s
  end.
Definition BridgeSession_timed : TimedObject ClientSideSession link_timer cs_call := {|
  ob_timers := ob_timers (TimedObject := ClientSideSession_timed);
  ob_timer := ob_timer (TimedObject := ClientSideSession_timed);
  ob_update := cs_update;
  ob_handler := ob_handler (TimedObject := ClientSideSession_timed);
  ob_call := bs_do;
  ob_due _ _ := true;
|}.

(** The heartbeater has no timer yet. *)
Definition no_heartbeater (x : Z * ClientSideSession) : Prop :=
  heartbeaterTimer_ (cs_heartbeater x.2) = None ∧ AskHeartbeat ∉ cs_asked x.2.

Lemma no_heartbeater_step latency e x y : no_heartbeater x → timed_exec (H := BridgeSession_timed) latency e x = Some y → no_heartbeater y.
Proof.
  destruct x as [now s]. intros [Ht Hn] E. cbn [fst snd] in *. destruct e as [d|[|]|[|]|c]; cbn [timed_exec] in E.
  - case_decide; [|done]. by injection E as <-.
  - cbn in E. by rewrite Ht in E.
  - cbn in E. case_decide; [|done]. by injection E as <-.
  - cbn in E. by rewrite Ht in E.
  - cbn in E. destruct (tm_queue (receiverTimer_ (cs_receiver s))) as [|[[k ok] since] rest]; [done|].
    injection E as <-. cbn. apply (run_wait_cases (λ s', no_heartbeater (now, s'))); try done.
    intros s' [Ht' Hn']. unfold no_heartbeater in *. cbn in *.
    pose proof (receiver_asks now (cs_receiver s') AskHeartbeat ltac:(done)) as Hr. destruct (receiver_timedOut _ _) as [r1 l1].
    cbn. split; [done|]. by rewrite not_elem_of_app.
  - cbn in E. destruct c as [b| |handled| |]; cbn in E; try (destruct (cs_connected s) eqn:Ec; [|done]); simplify_eq/=; try done.
    + destruct (cs_connected s); [done|]. injection E as <-. unfold bs_onConnected. by destruct b.
    + unfold cs_onMessageTransfered. by case_match.
    + split; [|done]. cbn. unfold on_heartbeaterTimer. by rewrite Ht.
Qed.
