(* ===== verification/StreamProperties.v ===== *)
(** * Properties of the streams

    The guarantees of core/stream and of the RPC types, stated for the streams and
    buffers of the program, each with a run on concrete data. *)

From S2P Require Import Prelude BitList Bits Unicode StreamBuffer VectorStreamBuffer MemoryBlock.
From S2P Require Import Stream BitStream BitStreamSpec ByteStream ByteStreamSpec Streamable.
From S2P Require Import RpcTypes ReadSafety.

(** A concrete buffer, and readers over the bytes of a writer's buffer. *)
Definition empty_buffer : VectorStreamBuffer := vsb_new 64.

Lemma empty_buffer_wf : sb_wf empty_buffer ∧ sb_contents empty_buffer = [].
Proof. split; [apply vsb_new_wf|done]. Qed.

(** Decides a closed goal by computing. *)
#[local] Ltac decide_it := refine (bool_decide_unpack _ _); vm_compute; exact I.

(** ** Messages *)







(** ** Bits *)

(** Writing [n] bits of an unsigned value of a [W]-bit type appends exactly
    its [n] lowest bits, least significant first, to the bits written so far,
    whatever the position inside the last byte, and counts them. *)
Theorem writeBits_appends (W v n : Z) (o : OBitStream VectorStreamBuffer) (bs : list bool)
  (HW : 8 ≤ W) (Hn : 0 < n ≤ W) (Hv : is_uint W v) (Ho : ob_repr false o bs)
  (Hr : ob_room o (Z.to_nat n)) :
  ∃ o', writeBitsImpl W v n o = (Ok tt, o') ∧
    ob_repr false o' (bs ++ bits_of (Z.to_nat n) v) ∧
    ob_totalBitCount o' = ob_totalBitCount o + n.
Proof.
  destruct (writeBits_ok false W v n o bs HW Hn Hv Ho Hr) as (o' & E & Ho' & Ht & _).
  by exists o'.
Qed.

Lemma writeBits_appends_witness :
  ∃ o', writeBitsImpl 16 1000 11 (newOBitStream empty_buffer false) = (Ok tt, o') ∧
    ob_repr false o' ([] ++ bits_of 11 1000) ∧
    ob_totalBitCount o' = ob_totalBitCount (newOBitStream empty_buffer false) + 11.
Proof.
  apply (writeBits_appends 16 1000 11 _ []); [lia|lia|decide_it| |].
  - by apply (newOBitStream_repr false), empty_buffer_wf; destruct empty_buffer_wf.
  - unfold ob_room. decide_it.
Defined.

(** Reading [n] bits, 1 to 30 or all those of the type, returns the next [n]
    bits of the input as an unsigned number and consumes nothing else. *)
Theorem readBits_takes (W n : Z) (i : IBitStream VectorStreamBuffer) (pos : nat) (vb rest : list bool)
  (HW : 8 ≤ W) (Hn : 0 < n ≤ W) (Hmask : n ≤ 30 ∨ n = W) (Hvb : Z.of_nat (length vb) = n)
  (Hi : ib_repr false i pos (vb ++ rest)) :
  ∃ i', readBitsImpl W n i = (Ok (Z_of_bits vb), i') ∧ ib_repr false i' (pos + length vb) rest.
Proof. by apply readBits_ok. Qed.

(** The reader over the bytes 0xb5 0x01. *)
Definition two_bytes : IBitStream VectorStreamBuffer :=
  newIBitStream (vsb_copyFrom [0xb5; 0x01] empty_buffer).2 false.

Lemma readBits_takes_witness :
  ∃ i', readBitsImpl 16 11 two_bytes = (Ok 437, i') ∧
    ib_repr false i' (0 + length (bits_of 11 0x1b5)) (bits_of 5 0).
Proof.
  apply (readBits_takes 16 11 two_bytes 0 (bits_of 11 0x1b5) (bits_of 5 0)); [lia|lia|left; lia|done|].
  split; [split; vm_compute; lia| |done|done|done|by vm_compute].
  repeat constructor; decide_it.
Defined.

(** A bit stream writer aligns to a byte even for an empty string, a reader
    only for a non-empty one: a message with an empty string at an unaligned
    position is not read back (the number after it is read shifted). *)
Theorem empty_string_desynchronises :
  let xs := [VNum PBool 1; VString []; VNum PU8 7] in
  let o := serialize (Ist := IBitStream VectorStreamBuffer) xs
    (OutStream (newOBitStream empty_buffer false)) in
  match o with
  | (Ok _, OutStream o) =>
      (serialize (Ost := OBitStream VectorStreamBuffer) xs
         (InStream (newIBitStream (ob_streamBuffer o) false))).1 =
      Ok [VNum PBool 1; VString []; VNum PU8 (7 * 2 ^ 7 mod 256)]
  | _ => False
  end.
Proof. by vm_compute. Qed.

(** ** Bytes *)

(** A number written by bytes on a host of either byte order is read back on
    a host of either byte order, and the bytes on the wire are the same. *)
Theorem numeric_crosses_hosts (be be' : bool) (size : nat) (v : Z)
  (o : OByteStream VectorStreamBuffer)
  (Ho : by_repr false o []) (Hr : by_room o size) :
  ∃ o' i', writeNumeric be size v o = (Ok tt, o') ∧
    sb_contents (by_streamBuffer o') = le_split size v ∧
    ByteStream.readNumeric be' size o' = (Ok (uint (8 * Z.of_nat size) v), i').
Proof.
  destruct (writeBytes_ok false (le_split size v) o [] Ho) as (o' & E & Ho' & _);
    [by rewrite length_le_split|].
  pose proof Ho' as (_ & _ & Hc). cbn [app] in Ho', Hc.
  destruct (readNumeric_ok false be' size v o' []) as (i' & E' & _); [by rewrite app_nil_r|].
  exists o', i'. by rewrite writeNumeric_wire.
Qed.

Lemma numeric_crosses_hosts_witness :
  ∃ o' i', writeNumeric true 4 1000000 (Build_ByteStream empty_buffer false) = (Ok tt, o') ∧
    sb_contents (by_streamBuffer o') = le_split 4 1000000 ∧
    ByteStream.readNumeric false 4 o' = (Ok (uint (8 * Z.of_nat 4) 1000000), i').
Proof.
  apply (numeric_crosses_hosts true false 4 1000000 (Build_ByteStream empty_buffer false)).
  - split_and!; [apply vsb_new_wf|done|done].
  - unfold by_room. decide_it.
Defined.

(** Unlike a number, an enum is copied raw: on a big-endian host the byte
    stream writes the first bytes of the 64-bit variable, which are zero for
    every enum of at most 32 bits, so its value is lost. *)
Theorem enum_is_lost_on_big_endian (v n : Z) (Hv : is_uint 32 v) (Hn : 0 < n ≤ 32) :
  oby_writeEnum (B := VectorStreamBuffer) true v n =
  writeBytes (replicate (Z.to_nat (toBytes n)) 0).
Proof.
  unfold oby_writeEnum. f_equal. rewrite quot_toBytes by lia. unfold memory.
  assert (E : le_split 8 v = le_split 4 v ++ replicate 4 0).
  { change 8%nat with (4 + 4)%nat at 1. rewrite le_split_add. f_equal.
    rewrite Z.div_small; [done|exact Hv]. }
  rewrite E, rev_app_distr. change (rev (replicate 4 0)) with (replicate 4 0).
  pose proof (toBytes_spec n ltac:(lia)). pose proof (toBytes_nonneg n).
  rewrite take_app_le by (rewrite length_replicate; lia). rewrite take_replicate. f_equal. lia.
Qed.

Lemma enum_is_lost_on_big_endian_witness :
  oby_writeEnum (B := VectorStreamBuffer) true 3 16 = writeBytes (replicate (Z.to_nat (toBytes 16)) 0).
Proof. apply (enum_is_lost_on_big_endian 3 16); [decide_it|lia]. Defined.

(** ** UTF-8 *)

(** Converting a wide string to UTF-8 and back gives the string, for every
    code point below 2^31, whatever follows. *)
Theorem utf8_roundtrip (ucs : list Z) (H : Forall is_ucs ucs) :
  fromUtf8 (toUtf8 ucs) = ucs ∧ Forall is_byte (toUtf8 ucs).
Proof. split; [by apply fromUtf8_toUtf8|apply toUtf8_bytes]. Qed.

Lemma utf8_roundtrip_witness :
  fromUtf8 (toUtf8 [0x41; 0xac00; 0x1f600]) = [0x41; 0xac00; 0x1f600] ∧
  Forall is_byte (toUtf8 [0x41; 0xac00; 0x1f600]).
Proof. apply (utf8_roundtrip [0x41; 0xac00; 0x1f600]). repeat constructor; decide_it. Defined.

Definition sample_text : list Z := [0x41; 0xac00; 0x1f600].

(** C32: UTF-8 cut after any number of bytes is read as the longest prefix of the
    characters whose bytes are all there: a character is never invented. *)
Theorem utf8_cut (ucs : list Z) (n : nat) (H : Forall is_ucs ucs) :
  ∃ k, fromUtf8 (take n (toUtf8 ucs)) = take k ucs ∧
    (length (toUtf8 (take k ucs)) ≤ n)%nat ∧
    ((k < length ucs)%nat → (n < length (toUtf8 (take (S k) ucs)))%nat).
Proof. by apply fromUtf8_take_toUtf8. Qed.

Lemma utf8_cut_witness :
  ∃ k, fromUtf8 (take 4 (toUtf8 sample_text)) = take k sample_text ∧
    (length (toUtf8 (take k sample_text)) ≤ 4)%nat ∧
    ((k < length sample_text)%nat →
     (4 < length (toUtf8 (take (S k) sample_text)))%nat).
Proof. apply (utf8_cut sample_text 4). repeat constructor; decide_it. Defined.

(** ** Containers *)

Section containers.
Context {Ost Ist E : Type} `{HSP : StreamPair Ost Ist E}.
Context {X : Type} (put : X → st Ost unit) (get : st Ist X) (fits : X → Prop)
  (P : nat → Prop) (enc : X → encoding E).

(** A vector or list of any serializable elements, no longer than its length
    field can count, is read back element by element, over any pair of streams,
    whatever follows it; a longer one is refused before anything is written. *)
Theorem sequence_roundtrip (sizeBits : nat) (l : list X)
  (HA : codec put get fits P enc) (Hs : (sizeBits = 8 ∨ sizeBits = 16)%nat) (Hl : Forall fits l) :
  (Z.of_nat (length l) ≤ MaxNumber sizeBits ∧ ∃ e,
     writes (RpcContainer_write put sizeBits l) e ∧
     reads (λ pos, P (pos + length (enc_prim Ost Ist E PU16 (Z.of_nat (length l)) (Z.of_nat sizeBits)))%nat)
       (RpcContainer_read get sizeBits) e l) ∨
  (MaxNumber sizeBits < Z.of_nat (length l) ∧ ∀ o,
     RpcContainer_write put sizeBits l o =
       (Throw (StreamingException "container size is too big"), o)).
Proof.
  destruct (Z.leb_spec (Z.of_nat (length l)) (MaxNumber sizeBits)) as [Hn|Hn]; [left|right].
  - split; [done|]. exists (enc_container (enc := enc) PU16 sizeBits l).
    assert (Hc : count_ok PU16 sizeBits) by (split; [by left|done]).
    split; [exact (container_writes HA PU16 sizeBits l Hc Hl Hn)|].
    pose proof (container_reads HA PU16 sizeBits push_back [] l Hc Hl Hn) as Hr.
    by rewrite fold_push_back in Hr.
  - split; [done|]. intros o. by apply container_too_big.
Qed.

(** A map, whatever the order of its keys, is read back as the same map: the
    pairs are inserted one by one into an empty map and end in the same order. *)
Theorem map_roundtrip {K V : Type} (lt : K → K → bool) (putk : K → st Ost unit) (getk : st Ist K)
  (fitsk : K → Prop) (enck : K → encoding E) (putv : V → st Ost unit) (getv : st Ist V)
  (fitsv : V → Prop) (encv : V → encoding E) (sizeBits : nat) (m : list (K * V))
  (Hlt : ∀ x y, lt x y = true → lt y x = false) (Hm : ordered fst lt m)
  (HK : codec putk getk fitsk P enck) (HV : codec putv getv fitsv P encv)
  (Hs : (sizeBits = 8 ∨ sizeBits = 16)%nat) (Hl : Forall (λ p, fitsk p.1 ∧ fitsv p.2) m)
  (Hn : Z.of_nat (length m) ≤ MaxNumber sizeBits) : ∃ e,
  writes (RBaseMap_write putk putv sizeBits m) e ∧
  reads (λ pos, P (pos + length (enc_prim Ost Ist E PU32 (Z.of_nat (length m)) (Z.of_nat sizeBits)))%nat)
    (RBaseMap_read getk getv sizeBits (ord_insert fst lt) []) e m.
Proof.
  exists (enc_container (enc := λ p, enck p.1 +++ encv p.2) PU32 sizeBits m).
  assert (Hc : count_ok PU32 sizeBits) by (split; [by right|done]).
  pose proof (pair_codec _ _ _ _ _ _ _ _ _ HK HV) as HA.
  split; [exact (container_writes HA PU32 sizeBits m Hc Hl Hn)|].
  pose proof (container_reads HA PU32 sizeBits (ord_insert fst lt) [] m Hc Hl Hn) as Hr.
  by rewrite (fold_ord_insert fst lt Hlt m []) in Hr.
Qed.

(** A set or multiset is read back the same, by the insertion of its kind. *)
Theorem set_roundtrip (lt : X → X → bool) (sizeBits : nat) (l : list X)
  (Hlt : ∀ x y, lt x y = true → lt y x = false)
  (HA : codec put get fits P enc) (Hs : (sizeBits = 8 ∨ sizeBits = 16)%nat) (Hl : Forall fits l)
  (Hn : Z.of_nat (length l) ≤ MaxNumber sizeBits) : ∃ e,
  writes (RBaseSet_write put sizeBits l) e ∧
  (ordered id lt l →
   reads (λ pos, P (pos + length (enc_prim Ost Ist E PU16 (Z.of_nat (length l)) (Z.of_nat sizeBits)))%nat)
     (RBaseSet_read get sizeBits (ord_insert id lt) []) e l) ∧
  (multi_ordered id lt l →
   reads (λ pos, P (pos + length (enc_prim Ost Ist E PU16 (Z.of_nat (length l)) (Z.of_nat sizeBits)))%nat)
     (RBaseSet_read get sizeBits (multi_insert id lt) []) e l).
Proof.
  exists (enc_container (enc := enc) PU16 sizeBits l).
  assert (Hc : count_ok PU16 sizeBits) by (split; [by left|done]).
  split; [exact (container_writes HA PU16 sizeBits l Hc Hl Hn)|]. split; intros Ho.
  - pose proof (container_reads HA PU16 sizeBits (ord_insert id lt) [] l Hc Hl Hn) as Hr.
    by rewrite (fold_ord_insert id lt Hlt l []) in Hr.
  - pose proof (container_reads HA PU16 sizeBits (multi_insert id lt) [] l Hc Hl Hn) as Hr.
    by rewrite (fold_multi_insert id lt l []) in Hr.
Qed.
End containers.

(** The codec of 16-bit numbers over bit streams. *)
Local Abbreviation u16_put := (λ v : Z, os_write (O := OBitStream VectorStreamBuffer) PU16 v 16).
Local Abbreviation u16_get := (is_read (I := IBitStream VectorStreamBuffer) PU16 16).
Local Abbreviation u16_fits := (λ v, prim_fits PU16 v 16).
Local Abbreviation u16_enc := (λ (v : Z) (_ : nat), bit_prim PU16 v 16).

Lemma u16_codec : codec (HSP := BitStream_pair (B := VectorStreamBuffer) false)
  u16_put u16_get u16_fits (λ _, True) u16_enc.
Proof. exact (prim_codec (HSP := BitStream_pair (B := VectorStreamBuffer) false) PU16 16). Qed.

Lemma sequence_roundtrip_witness : ∃ e,
  writes (HSP := BitStream_pair (B := VectorStreamBuffer) false)
    (RpcContainer_write u16_put 8 [3; 1; 65535]) e ∧
  reads (HSP := BitStream_pair (B := VectorStreamBuffer) false) (λ _, True)
    (RpcContainer_read u16_get 8) e [3; 1; 65535].
Proof.
  destruct (sequence_roundtrip u16_put u16_get u16_fits (λ _, True) u16_enc 8 [3; 1; 65535] u16_codec)
    as [[_ H]|[H _]].
  - by left.
  - decide_it.
  - exact H.
  - exfalso. vm_compute in H. discriminate.
Defined.

Lemma map_roundtrip_witness : ∃ e,
  writes (HSP := BitStream_pair (B := VectorStreamBuffer) false)
    (RBaseMap_write u16_put u16_put 8 [(1, 5); (2, 4)]) e ∧
  reads (HSP := BitStream_pair (B := VectorStreamBuffer) false) (λ _, True)
    (RBaseMap_read u16_get u16_get 8 (ord_insert fst Z.ltb) []) e [(1, 5); (2, 4)].
Proof.
  apply (map_roundtrip (λ _, True) Z.ltb u16_put u16_get u16_fits u16_enc u16_put u16_get u16_fits u16_enc 8).
  - intros x y Hx. apply Z.ltb_lt in Hx. apply Z.ltb_ge. lia.
  - repeat constructor.
  - apply u16_codec.
  - apply u16_codec.
  - by left.
  - decide_it.
  - decide_it.
Defined.

Lemma set_roundtrip_witness : ∃ e,
  writes (HSP := BitStream_pair (B := VectorStreamBuffer) false) (RBaseSet_write u16_put 8 [1; 2; 7]) e ∧
  (ordered id Z.ltb [1; 2; 7] →
   reads (HSP := BitStream_pair (B := VectorStreamBuffer) false) (λ _, True)
     (RBaseSet_read u16_get 8 (ord_insert id Z.ltb) []) e [1; 2; 7]) ∧
  (multi_ordered id Z.ltb [1; 2; 7] →
   reads (HSP := BitStream_pair (B := VectorStreamBuffer) false) (λ _, True)
     (RBaseSet_read u16_get 8 (multi_insert id Z.ltb) []) e [1; 2; 7]).
Proof.
  apply (set_roundtrip u16_put u16_get u16_fits (λ _, True) u16_enc Z.ltb 8).
  - intros x y Hx. apply Z.ltb_lt in Hx. apply Z.ltb_ge. lia.
  - apply u16_codec.
  - by left.
  - decide_it.
  - decide_it.
Defined.

(** ** Buffers *)

(** C35: Both stream buffers - a vector with two positions, a memory block - are
    queues of bytes: any sequence of operations returns what the same sequence
    returns on a list, or reports that memory ran out and changes nothing. *)
Theorem buffer_is_queue (ops : list buf_op) (v : VectorStreamBuffer) (m : MemoryBlock)
  (Hv : sb_wf v) (Hm : sb_wf m) :
  (let '(rs, v') := run_ops ops v in sb_wf v' ∧ list_ops ops (sb_contents v) rs (sb_contents v')) ∧
  (let '(rs, m') := run_ops ops m in sb_wf m' ∧ list_ops ops (sb_contents m) rs (sb_contents m')).
Proof. split; by apply run_ops_simulates. Qed.

Definition sample_ops : list buf_op :=
  [Push 1; CopyFrom [2; 3; 4]; Pop; Front; Back; SetBack 9; CopyTo 3; CopyTo 1; Pop].

Lemma buffer_is_queue_witness :
  (let '(rs, v') := run_ops sample_ops empty_buffer in
   sb_wf v' ∧ list_ops sample_ops (sb_contents empty_buffer) rs (sb_contents v')) ∧
  (let '(rs, m') := run_ops sample_ops (mb_new 4) in
   sb_wf m' ∧ list_ops sample_ops (sb_contents (mb_new 4)) rs (sb_contents m')).
Proof.
  apply (buffer_is_queue sample_ops empty_buffer (mb_new 4)).
  - apply empty_buffer_wf.
  - split; vm_compute; lia.
Defined.
