(* ===== verification/PacketProperties.v ===== *)
(** * Properties of packets and of the marshaller

    What a pair of peers can rely on: every message sent is delivered, in order
    and once, whatever the sizes of the reads; any bytes at all are handled
    safely; encrypted packets are decoded by a peer in step and only by it; and
    where the code departs from what it means to do. *)

From S2P Require Import Prelude BitList Bits StreamBuffer MemoryBlock ByteStream ByteStreamSpec.
From S2P Require Import Packet Marshaller SecurePacket SecurePacketSpec MarshallerSafety.

#[local] Ltac decide_it := refine (bool_decide_unpack _ _); vm_compute; exact I.

(** ** The application of the witnesses: it records the messages *)

Definition log_message (m : Z * list Z) (w : list (Z * list Z)) : list (Z * list Z) := w ++ [m].
Definition logging (mt : Z) : st (MemoryBlock * list (Z * list Z)) bool := λ bw,
  (Ok true, (bw.1, log_message (mt, mb_contents bw.1) bw.2)).

Lemma logging_accepts : accepts logging log_message.
Proof. intros mt b w Hb. by exists b. Qed.

Lemma logging_returns : returns logging.
Proof. intros mt b w Hb. by eexists true, b, _. Qed.

(** A message in its block, behind [size] bytes for the header. *)
Definition message_block (size : nat) (body : list Z) : MemoryBlock :=
  mkMB (replicate size 0 ++ body) 0 (size + length body).

Lemma message_block_ok size body : send_block size body (message_block size body).
Proof.
  unfold send_block, message_block, mb_wf, mb_written, mb_capacity. cbn [mb_rd mb_wr mb_buffer].
  rewrite length_app, length_replicate. split_and!; [lia|lia|done|lia|].
  rewrite take_ge by (rewrite length_app, length_replicate; lia).
  by rewrite drop_app_length' by (by rewrite length_replicate).
Qed.

Definition sample_blocks (size : nat) (msgs : list (Z * list Z)) : list (Z * MemoryBlock) :=
  (λ m, (m.1, message_block size m.2)) <$> msgs.

Lemma sample_blocks_ok size msgs :
  Forall2 (λ msg b, msg.1 = b.1 ∧ send_block size msg.2 b.2) msgs (sample_blocks size msgs).
Proof.
  induction msgs as [|m msgs IH]; [constructor|]. constructor; [|exact IH].
  split; [done|apply message_block_ok].
Qed.

(** ** Delivery *)

Section delivery.
Context {C : Type} `{HC : PacketCoderSpec C} {W : Type}.
Context (cb : Z → st (MemoryBlock * W) bool) (deliver : Z * list Z → W → W).

(** C1: Messages sent by a marshaller whose coder is in step with the receiver's
    are all accepted; of the bytes on the wire, cut into reads of any sizes, the
    receiver hands a prefix of the messages to the application, each once and in
    order; and all of them once every byte has been read. *)
Theorem messages_delivered (sender receiver : SgpMarshaller C) (msgs : list (Z * list Z))
  (blocks : list (Z * MemoryBlock)) (w : W)
  (Hcb : accepts cb deliver) (Hs : pc_sync (packetCoder_ sender) (packetCoder_ receiver))
  (Hr : marshaller_inv receiver []) (Hcap : (3 ≤ mb_capacity (recvBlock_ receiver))%nat)
  (Hm : Forall sendable msgs)
  (Hb : Forall2 (λ msg b, msg.1 = b.1 ∧ send_block pc_size msg.2 b.2) msgs blocks) :
  ∃ wire sender', marshal_all blocks sender = Some (wire, sender') ∧ ∀ ks, ∃ now later receiver' wire',
    padded <$> msgs = now ++ later ∧
    receive_all cb ks wire (receiver, w) = (Ok (true, wire'), (receiver', deliver_all deliver now w)) ∧
    (ks ≠ [] → Forall (λ k, 0 < k)%nat ks → (length wire ≤ length ks)%nat → later = [] ∧ wire' = []).
Proof.
  destruct (marshal_all_ok msgs blocks sender (packetCoder_ receiver) Hs Hm Hb)
    as (wire & sender' & E & Hd). exists wire, sender'. split; [done|]. intros ks.
  destruct (receive_all_ok cb deliver Hcb ks wire receiver w (padded <$> msgs) [] Hr Hcap Hd)
    as (now & later & r' & c' & wire' & E1 & E2 & _ & _ & Hend). by exists now, later, r', wire'.
Qed.
End delivery.

Definition cs_marshaller : SgpMarshaller CsPacketCoder := newMarshaller tt (mb_new 16) (mb_new 8).

Lemma cs_marshaller_inv : marshaller_inv cs_marshaller [].
Proof. split; cbn; try done; split; vm_compute; lia. Qed.

Definition sample_messages : list (Z * list Z) := [(21, [1; 2; 3]); (30, []); (22, [7])].

Lemma messages_delivered_witness :
  ∃ wire sender', marshal_all (sample_blocks 3 sample_messages) cs_marshaller = Some (wire, sender') ∧
  ∀ ks, ∃ now later receiver' wire', padded <$> sample_messages = now ++ later ∧
    receive_all logging ks wire (cs_marshaller, []) =
      (Ok (true, wire'), (receiver', deliver_all log_message now [])) ∧
    (ks ≠ [] → Forall (λ k, 0 < k)%nat ks → (length wire ≤ length ks)%nat → later = [] ∧ wire' = []).
Proof.
  apply (messages_delivered logging log_message cs_marshaller cs_marshaller sample_messages).
  - apply logging_accepts.
  - done.
  - apply cs_marshaller_inv.
  - vm_compute. lia.
  - repeat constructor; by vm_compute.
  - apply sample_blocks_ok.
Defined.

(** C6: Whatever bytes the network gives, in whatever pieces, the receiver never
    reads or writes outside its blocks and always returns: its loop ends within
    the number of bytes received. *)
Theorem receiver_is_safe {C : Type} {size : nat} `{HC : PacketCoderSafe C size} {W : Type}
  (cb : Z → st (MemoryBlock * W) bool) (ks : list nat) (wire : list Z) (m : SgpMarshaller C) (w : W)
  (Hcb : returns cb) (Hm : receiver_inv (size := size) m) :
  ∃ ok wire' m' w', receive_all cb ks wire (m, w) = (Ok (ok, wire'), (m', w')) ∧
    receiver_inv (size := size) m'.
Proof. by apply receive_all_safe. Qed.

Lemma receiver_is_safe_witness :
  ∃ ok wire' m' w', receive_all logging [5; 1; 9]%nat [255; 255; 3; 0; 0; 0; 9] (cs_marshaller, []) =
    (Ok (ok, wire'), (m', w')) ∧ receiver_inv (size := CsPacketHeader_size) m'.
Proof.
  apply (receiver_is_safe logging).
  - apply logging_returns.
  - split; cbn; try done; split; vm_compute; lia.
Defined.

(** The body size has 16 bits, and nothing enforces the maximum size: a
    larger body is sent under a header that counts it modulo 65536. *)
Theorem oversize_body_truncated (m : SgpMarshaller CsPacketCoder) (b : MemoryBlock) (mt : Z) (body : list Z)
  (Hmt : isValidMessage mt = true) (Hb : send_block CsPacketHeader_size body b)
  (Hbig : 2 ^ 16 ≤ Z.of_nat (length body)) : ∃ m' b',
  marshal mt (m, b) = (Ok true, (m', b')) ∧
  mb_length b' = (CsPacketHeader_size + length body)%nat ∧
  header_read false (mb_contents b') = mkHeader (Z.of_nat (length body) mod 2 ^ 16) mt.
Proof.
  destruct (send_block_length _ _ _ Hb) as [Hlen _].
  assert (Hbs : is_uint 16 (getBodySize CsPacketHeader_size b)) by by apply uint_range.
  destruct (base_encode_ok false CsPacketHeader_size _ mt body b ltac:(done) Hb Hbs Hmt)
    as (b' & E & Hb' & Hw). exists (set_coder (packetCoder_ m) m), b'. split_and!.
  - unfold marshal. rewrite (bind_ok get_st _ (m, b) (m, b) (m, b) eq_refl). cbn [fst snd pc_headerSize CsPacketCoder_coder].
    unfold isValidPacket. rewrite bool_decide_true by lia. cbn [negb].
    assert (E' : on_coder_block (pc_encode (mkHeader (getBodySize CsPacketHeader_size b) mt)) (m, b) =
      (Ok (true, mkHeader (getBodySize CsPacketHeader_size b) mt), (set_coder (packetCoder_ m) m, b'))).
    { unfold on_coder_block, zoom. cbn [fst snd pc_encode CsPacketCoder_coder].
      by rewrite (on_block_run _ (packetCoder_ m) b _ _ E). }
    by st_step E'.
  - by destruct (send_block_length _ _ _ Hb') as [-> _].
  - destruct Hb' as (Hwf & Hrd & _). rewrite mb_contents_written, Hrd, drop_0, Hw by done.
    rewrite header_write_read; [|done|by apply isValidMessage_uint]. f_equal.
    unfold getBodySize, uint. rewrite Hlen. f_equal. lia.
Qed.

Definition big_body : list Z := replicate (Z.to_nat 65537) 7.

Lemma oversize_body_truncated_witness : ∃ m' b',
  marshal 21 (cs_marshaller, message_block 3 big_body) = (Ok true, (m', b')) ∧
  mb_length b' = (CsPacketHeader_size + length big_body)%nat ∧
  header_read false (mb_contents b') = mkHeader (Z.of_nat (length big_body) mod 2 ^ 16) 21.
Proof.
  apply (oversize_body_truncated cs_marshaller (message_block 3 big_body) 21 big_body).
  - done.
  - apply message_block_ok.
  - unfold big_body. rewrite length_replicate. lia.
Defined.

(** A header written on a host of either byte order is read on a host of
    either byte order, for every body size and message type the fields can hold. *)
Theorem header_roundtrip (be be' : bool) (h : CsPacketHeader) (rest : list Z)
  (Hs : is_uint 16 (bodySize_ h)) (Ht : isValidMessage (messageType_ h) = true) :
  header_read be' (header_write be h ++ rest) = h ∧ header_isValid h = true ∧
  length (header_write be h) = CsPacketHeader_size.
Proof.
  destruct h as [bs mt]. cbn in *. split_and!.
  - apply header_write_read; [done|by apply isValidMessage_uint].
  - apply header_valid; [apply Hs|done].
  - apply length_header_write.
Qed.

Lemma header_roundtrip_witness :
  header_read true (header_write false (mkHeader 513 21) ++ [9]) = mkHeader 513 21 ∧
  header_isValid (mkHeader 513 21) = true ∧
  length (header_write false (mkHeader 513 21)) = CsPacketHeader_size.
Proof. apply (header_roundtrip false true (mkHeader 513 21) [9]); [decide_it|done]. Defined.

(** ** Encrypted packets *)

(** The library code, with what is assumed of it: a block cipher keeps the size
    of a block, and decryption with a key undoes encryption with it. *)
Record cipher_library := mkLibrary {
  lib_block : nat;
  lib_key : nat;
  lib_encrypt : list Z → list Z → list Z;
  lib_decrypt : list Z → list Z → list Z;
  lib_crc : list Z → Z;
  lib_seed : Z → Z;
  lib_next : Z → Z * Z;
}.

Record library_laws (l : cipher_library) : Prop := {
  ll_block : (0 < lib_block l)%nat;
  ll_encrypt k b : length b = lib_block l → length (lib_encrypt l k b) = lib_block l;
  ll_decrypt k b : length b = lib_block l → length (lib_decrypt l k b) = lib_block l;
  ll_inverse k b : length b = lib_block l → lib_decrypt l k (lib_encrypt l k b) = b;
}.

(** A concrete library: two-byte blocks, xored with the sum of the key. *)
Definition xor_block (k b : list Z) : list Z := (λ x, Z.lxor x (foldr Z.add 0 k)) <$> b.
Definition toy_library : cipher_library :=
  mkLibrary 2 16 xor_block xor_block (foldr Z.add 0) (λ s, s) (λ s, (s * 5 + 11, s * 5 + 11)).

Lemma toy_laws : library_laws toy_library.
Proof.
  split; cbn; [lia|intros; unfold xor_block; by rewrite length_fmap..|]. intros k b _. unfold xor_block.
  rewrite <- list_fmap_compose. rewrite <- (list_fmap_id b) at 2. apply list_fmap_ext. intros i x _.
  cbn. by rewrite Z.lxor_assoc, Z.lxor_nilpotent, Z.lxor_0_r.
Qed.

Section encrypted.
Context (l : cipher_library).

#[local] Abbreviation coder := (SecurePacketCoder (R := Z)).
#[local] Instance library_coder : PacketCoder coder :=
  SecurePacketCoder_coder (lib_block l) (lib_key l) (lib_encrypt l) (lib_decrypt l) (lib_crc l)
    (lib_seed l) (lib_next l).
#[local] Abbreviation decode :=
  (secure_decode (lib_block l) (lib_key l) (lib_decrypt l) (lib_crc l) (lib_next l)).

(** A coder just made, that was told the seeds of a peer. *)
Definition seeded (dynamic : bool) (encryptSeed decryptSeed : list Z) : coder :=
  setDecryptSeed (lib_seed l) decryptSeed (setEncryptSeed (lib_seed l) encryptSeed
    (newSecure (lib_key l) (lib_seed l) dynamic 0 [] [] 0 0)).

Definition secure_marshaller (c : coder) : SgpMarshaller coder :=
  newMarshaller c (mb_new 16) (mb_new 8).

(** The body as it arrives: zeroes up to whole cipher blocks. *)
Definition whole_blocks (m : Z * list Z) : Z * list Z :=
  (m.1, m.2 ++ replicate (align_delta (lib_block l) (length m.2)) 0).

(** C10: Two peers that exchanged seeds, with static or dynamic keys: the messages
    one sends are encrypted, checksummed and delivered by the other in order,
    each body padded with zeroes to whole cipher blocks, for any reads. *)
Theorem encrypted_messages_delivered (Hlib : library_laws l) (dynamic : bool) (s1 s2 s3 : list Z)
  (msgs : list (Z * list Z)) (blocks : list (Z * MemoryBlock))
  (Hm : Forall (λ m, isValidMessage m.1 = true ∧ Z.of_nat (length (whole_blocks m).2) < 2 ^ 16) msgs)
  (Hb : Forall2 (λ msg b, msg.1 = b.1 ∧ send_block securePacketHeaderSize_ msg.2 b.2) msgs blocks) :
  ∃ wire sender', marshal_all blocks (secure_marshaller (seeded dynamic s1 s2)) = Some (wire, sender') ∧
  ∀ ks, ks ≠ [] → Forall (λ k, 0 < k)%nat ks → (length wire ≤ length ks)%nat → ∃ receiver',
    receive_all logging ks wire (secure_marshaller (seeded dynamic s3 s1), []) =
      (Ok (true, []), (receiver', whole_blocks <$> msgs)).
Proof.
  pose (HS := SecurePacketCoder_spec (lib_block l) (lib_key l) (lib_encrypt l) (lib_decrypt l)
    (lib_crc l) (lib_seed l) (lib_next l) (ll_block _ Hlib) (ll_encrypt _ Hlib) (ll_inverse _ Hlib)).
  assert (Hsync : pc_sync (PacketCoderSpec := HS) (seeded dynamic s1 s2) (seeded dynamic s3 s1))
    by (split_and!; [done|done|by destruct dynamic]).
  destruct (marshal_all_ok (HC := HS) msgs blocks (secure_marshaller (seeded dynamic s1 s2))
    (seeded dynamic s3 s1) Hsync Hm Hb) as (wire & sender' & E & Hd).
  exists wire, sender'. split; [exact E|]. intros ks Hne Hk Hl.
  destruct (receive_all_ok (HC := HS) logging log_message logging_accepts ks wire
    (secure_marshaller (seeded dynamic s3 s1)) [] (padded (HC := HS) <$> msgs) [])
    as (now & later & r' & c' & wire' & E1 & E2 & _ & _ & Hend).
  - split; cbn; try done; split; vm_compute; lia.
  - vm_compute. lia.
  - exact Hd.
  - destruct (Hend Hne Hk Hl) as [-> ->]. rewrite app_nil_r in E1. subst now. exists r'.
    assert (Elog : ∀ ms w, deliver_all log_message ms w = w ++ ms).
    { induction ms as [|m ms IH]; intros w; cbn; [by rewrite app_nil_r|].
      unfold deliver_all in IH. rewrite IH. unfold log_message. by rewrite <- app_assoc. }
    rewrite Elog in E2. exact E2.
Qed.

(** A receiver accepts a packet only if its fingerprint is that of its next
    key and its checksum is that of the plain text it hands over; any other block
    of at least a header it refuses, without an error of memory. *)
Theorem decode_accepts_only (Hlib : library_laws l) (c : coder) (b : MemoryBlock)
  (Hb : packet_block securePacketHeaderSize_ b) : ∃ ok c' b',
  decode (c, b) = (Ok ok, (c', b')) ∧
  (ok = true →
    let key := (getDecryptCipherKey (lib_next l) (cipherKeyGenerator_ c)).1 in
    additional_read (take AdditionalPacketHeader_size (drop rawPacketHeaderSize_ (mb_buffer b))) =
      (getFingerPrint key, getCheckSum (lib_crc l) (packet_body b') (getFingerPrint key)) ∧
    decrypted (lib_block l) (lib_key l) (lib_decrypt l) key c b b').
Proof.
  destruct (secure_decode_cases (lib_block l) (lib_key l) (lib_encrypt l) (lib_decrypt l) (lib_crc l) (lib_seed l)
    (lib_next l) (ll_block _ Hlib) (ll_decrypt _ Hlib) c b Hb) as (ok & c' & b' & E & _ & Hok).
  by exists ok, c', b'.
Qed.

(** The seeds a coder makes are the decimal digits of two numbers; a peer reads
    the same numbers from them, so a sender told one and a receiver told the same
    one are in step, whatever their keys were. *)
Theorem seeds_are_read_back (clock : Z) (s r : coder)
  (Hs : keys_in_step (cipherKeyGenerator_ s) (cipherKeyGenerator_ r)) :
  let seeds := generateCipherSeed (lib_seed l) (lib_next l) clock in
  let '(a, g) := lib_next l (lib_seed l (sint 32 clock)) in
  toCipherKey seeds.1 = uint 32 a ∧ toCipherKey seeds.2 = uint 32 (lib_next l g).1 ∧
  ∀ seed, keys_in_step (cipherKeyGenerator_ (setEncryptSeed (lib_seed l) seed s))
    (cipherKeyGenerator_ (setDecryptSeed (lib_seed l) seed r)).
Proof.
  unfold generateCipherSeed. destruct (lib_next l _) as [a g]. destruct (lib_next l g) as [d g'].
  cbn [fst snd]. unfold toCipherKey. rewrite !atoi_format_d. split_and!; [done|done|].
  intros seed. by apply set_keys_in_step.
Qed.

(** The key schedule mixes the cipher key with a logical [||] where a bitwise
    [|] was meant: every nonzero key gives the same engine key, so changing keys
    changes nothing. *)
Theorem cipher_key_collapses (k k' : Z) (Hk : 0 < k < 2 ^ 32) (Hk' : 0 < k' < 2 ^ 32)
  (Hl : (lib_key l ≤ 64)%nat) : engine_key (lib_key l) k = engine_key (lib_key l) k'.
Proof.
  unfold engine_key. f_equal. apply list_fmap_ext. intros i x Hx. apply lookup_seq in Hx as [-> Hi].
  assert (lib_key l / 4 ≤ 16)%nat by (apply Nat.Div0.div_le_upper_bound; lia).
  by rewrite !key_word_nonzero by lia.
Qed.
End encrypted.

(** The bytes of an encrypted message, made by the sender. *)
Lemma encrypted_messages_delivered_witness :
  ∃ wire sender', marshal_all (H := library_coder toy_library)
    (sample_blocks 9 sample_messages)
    (secure_marshaller toy_library (seeded toy_library true [49; 50] [51])) = Some (wire, sender') ∧
  ∀ ks, ks ≠ [] → Forall (λ k, 0 < k)%nat ks → (length wire ≤ length ks)%nat → ∃ receiver',
    receive_all (H := library_coder toy_library) logging ks wire
      (secure_marshaller toy_library (seeded toy_library true [52] [49; 50]), []) =
      (Ok (true, []), (receiver', whole_blocks toy_library <$> sample_messages)).
Proof.
  apply (encrypted_messages_delivered toy_library toy_laws true [49; 50] [51] [52] sample_messages).
  - repeat constructor; by vm_compute.
  - apply sample_blocks_ok.
Defined.

Definition sample_coder : SecurePacketCoder := seeded toy_library false [49; 50] [51].

Lemma decode_accepts_only_witness : ∃ ok c' b',
  secure_decode 2 16 xor_block (foldr Z.add 0) (λ s, (s * 5 + 11, s * 5 + 11))
    (sample_coder, message_block 9 [1; 2]) = (Ok ok, (c', b')) ∧
  (ok = true →
    let key := (getDecryptCipherKey (lib_next toy_library) (cipherKeyGenerator_ sample_coder)).1 in
    additional_read (take AdditionalPacketHeader_size
      (drop rawPacketHeaderSize_ (mb_buffer (message_block 9 [1; 2])))) =
      (getFingerPrint key, getCheckSum (lib_crc toy_library) (packet_body b') (getFingerPrint key)) ∧
    decrypted (lib_block toy_library) (lib_key toy_library) (lib_decrypt toy_library) key sample_coder
      (message_block 9 [1; 2]) b').
Proof.
  apply (decode_accepts_only toy_library toy_laws sample_coder (message_block 9 [1; 2])).
  split_and!; [split; vm_compute; lia|done|vm_compute; lia].
Defined.

Lemma seeds_are_read_back_witness :
  let seeds := generateCipherSeed (lib_seed toy_library) (lib_next toy_library) 7 in
  toCipherKey seeds.1 = 46 ∧ toCipherKey seeds.2 = 241 ∧
  ∀ seed, keys_in_step (cipherKeyGenerator_ (setEncryptSeed (lib_seed toy_library) seed sample_coder))
    (cipherKeyGenerator_ (setDecryptSeed (lib_seed toy_library) seed (seeded toy_library false [] [49; 50]))).
Proof.
  apply (seeds_are_read_back toy_library 7 sample_coder (seeded toy_library false [] [49; 50])).
  by vm_compute.
Defined.

Lemma cipher_key_collapses_witness : engine_key 16 1 = engine_key 16 0x12345678.
Proof. apply (cipher_key_collapses toy_library 1 0x12345678); [lia|lia|vm_compute; lia]. Defined.
