(* ===== verification/MemoryProperties.v ===== *)
(** * Properties of the memory components

    The pool, the allocator and the smart pointers, for every order of the calls of
    their clients. *)

From S2P Require Import Prelude SortedVector MemoryBlock MemoryPool VariousAllocator SmartPtr.

(** ** The pool *)

(** C15: However the threads interleave their calls of [acquire] and [release], the
    resource a call hands out is nobody else's, and the next call hands out
    another one; every resource given by the allocator stays known to the pool. *)
Theorem pool_hands_out_once (malloc : list Z → Z) (n : nat) (growable : bool) (p : MemoryPool)
  (Hfresh : ∀ l, malloc l ∉ l) (Hn : Z.of_nat n < 2 ^ 63)
  (Hp : rtc (pool_step malloc) (initialize malloc (newPool n growable)) p) :
  mp_live p ≡ₚ activeResources_ p ++ inactiveResources_ p ∧ NoDup (mp_live p) ∧
  ∀ r p', acquire malloc p = (Ok (Some r), p') →
    r ∉ activeResources_ p ∧ activeResources_ p' ≡ₚ r :: activeResources_ p ∧
    (∀ r' p'', acquire malloc p' = (Ok (Some r'), p'') → r' ≠ r).
Proof.
  pose proof (po_inv _ _ _ (pool_reachable malloc Hfresh n growable p Hn Hp)) as Hi.
  split_and!; [apply Hi|apply Hi|]. intros r p' E.
  destruct (acquire_some malloc Hfresh p r p' Hi E) as (_ & Hr & Ha & _).
  split_and!; [done|done|]. intros r' p'' E'. by eapply acquire_exclusive.
Qed.

Definition sample_pool : MemoryPool := initialize above (newPool 4 true).
Definition sample_pool' : MemoryPool := release 2 (acquire above (acquire above sample_pool).2).2.

Lemma sample_pool_reached : rtc (pool_step above) sample_pool sample_pool'.
Proof.
  set (p1 := (acquire above sample_pool).2).
  apply (rtc_l _ _ p1); [apply (step_acquire above _ (Some 1)); by vm_compute|].
  apply (rtc_l _ _ (acquire above p1).2); [apply (step_acquire above _ (Some 2)); by vm_compute|].
  apply rtc_once, (step_release above (acquire above p1).2 2).
Qed.

Lemma pool_hands_out_once_witness :
  mp_live sample_pool' ≡ₚ activeResources_ sample_pool' ++ inactiveResources_ sample_pool' ∧
  NoDup (mp_live sample_pool') ∧
  ∀ r p', acquire above sample_pool' = (Ok (Some r), p') →
    r ∉ activeResources_ sample_pool' ∧ activeResources_ p' ≡ₚ r :: activeResources_ sample_pool' ∧
    (∀ r' p'', acquire above p' = (Ok (Some r'), p'') → r' ≠ r).
Proof.
  apply (pool_hands_out_once above 4 true); [apply above_fresh|done|apply sample_pool_reached].
Defined.

(** A pool that may grow always hands out a resource; one that may not hands
    out as many as its size and refuses, with nothing changed, exactly when that
    many are out; the spare resources are never given away. *)
Theorem pool_capacity (malloc : list Z → Z) (n : nat) (growable : bool) (p : MemoryPool)
  (Hfresh : ∀ l, malloc l ∉ l) (Hn : Z.of_nat n < 2 ^ 63)
  (Hp : rtc (pool_step malloc) (initialize malloc (newPool n growable)) p) :
  if growable then ∃ r p', acquire malloc p = (Ok (Some r), p')
  else acquire malloc p = (Ok None, p) ↔ (n ≤ length (activeResources_ p))%nat.
Proof.
  destruct (pool_reachable malloc Hfresh n growable p Hn Hp) as [Hi <- Hg Hc].
  destruct growable; [by apply acquire_growable|]. apply acquire_bounded; [done|]. by apply Hc.
Qed.

Lemma pool_capacity_witness :
  acquire above (initialize above (newPool 0 false)) = (Ok None, initialize above (newPool 0 false)) ↔
  (0 ≤ length (activeResources_ (initialize above (newPool 0 false))))%nat.
Proof.
  apply (pool_capacity above 0 false); [apply above_fresh|done|reflexivity].
Defined.

(** ** Message blocks *)

(** A block acquired from the manager is empty, belongs to no other owner and
    is given back by [release] to the same manager; releasing it again changes
    nothing. *)
Theorem block_is_handed_out_empty (malloc : list Z → Z) (m : MemoryBlockManager)
  (Hfresh : ∀ l, malloc l ∉ l) (Hp : pool_inv (memoryBlockPool_ m))
  (Hg : growable_ (memoryBlockPool_ m) = true) : ∃ a m1,
  MemoryPool.acquireBlock malloc m = (Ok (Some a), m1) ∧
  a ∉ activeResources_ (memoryBlockPool_ m) ∧
  mb_wf (block_at a m1) ∧ mb_contents (block_at a m1) = [] ∧ ∃ m2,
  releaseBlock a m1 = (Ok tt, m2) ∧ pool_inv (memoryBlockPool_ m2) ∧
  activeResources_ (memoryBlockPool_ m2) ≡ₚ activeResources_ (memoryBlockPool_ m) ∧
  releaseBlock a m2 = (Ok tt, m2).
Proof.
  destruct (acquireBlock_ok malloc Hfresh m Hp Hg) as (a & m1 & E & Hp1 & Hnew & Hact & Hwf & Hc & Hrel).
  exists a, m1. split_and!; try done. unfold releaseBlock. rewrite decide_True by done.
  eexists. split; [reflexivity|].
  destruct (release_active (memoryBlockPool_ m1) a Hp1 Hact) as (Hp2 & Hperm & _).
  unfold MemoryPool.acquireBlock in E. destruct (acquire malloc (memoryBlockPool_ m)) as [[[r|]|e] p'] eqn:Ea;
    [|done..]. injection E as <- <-. cbn in *.
  destruct (acquire_some malloc Hfresh _ _ _ Hp Ea) as (_ & _ & Ha & _).
  rewrite Ha in Hperm. apply Permutation_cons_inv in Hperm.
  split_and!; [done|done|]. rewrite decide_True by done. rewrite release_inactive; [done|].
  by rewrite Hperm.
Qed.

Definition sample_manager : MemoryBlockManager := newMemoryBlockManager above 4 16.

Lemma block_is_handed_out_empty_witness : ∃ a m1,
  MemoryPool.acquireBlock above sample_manager = (Ok (Some a), m1) ∧
  a ∉ activeResources_ (memoryBlockPool_ sample_manager) ∧
  mb_wf (block_at a m1) ∧ mb_contents (block_at a m1) = [] ∧ ∃ m2,
  releaseBlock a m1 = (Ok tt, m2) ∧ pool_inv (memoryBlockPool_ m2) ∧
  activeResources_ (memoryBlockPool_ m2) ≡ₚ activeResources_ (memoryBlockPool_ sample_manager) ∧
  releaseBlock a m2 = (Ok tt, m2).
Proof.
  apply (block_is_handed_out_empty above sample_manager).
  - apply above_fresh.
  - apply (po_inv 4 true). by apply initialize_pool_of; [apply above_fresh|].
  - done.
Defined.

(** ** The allocator of blocks of various sizes *)

(** C31: Whatever a client asks for, fills and frees, in any order: what it holds is
    distinct memory, not in the cache, each piece at least as large as asked;
    filling it within that size and freeing it never fail. *)
Theorem allocator_is_sound (new_chunk : gmap Z chunk_data → Z) (garbage : Z → list Z)
  (poolSize : nat) (chunkSize : Z) (a : VariousMemoryAllocator) (out : list (Z * Z))
  (Hnew : ∀ h, new_chunk h ∉ dom h) (Hg : ∀ n, 0 ≤ n → length (garbage n) = Z.to_nat n)
  (Hn : 0 ≤ chunkSize) (Hb : chunkSize + headerSize < 2 ^ 64)
  (Hr : rtc (client_step new_chunk garbage)
    (newVariousMemoryAllocator new_chunk garbage poolSize chunkSize, []) (a, out)) :
  NoDup (out.*1) ∧ ∀ ptr n, (ptr, n) ∈ out →
    in_use (ptr - headerSize) a ∧ (Z.to_nat n ≤ chunk_capacity (ptr - headerSize) a)%nat ∧
    (∀ value, (memset ptr value n a).1 = Ok tt) ∧ (free (Some ptr) a).1 = Ok tt.
Proof.
  destruct (client_reachable new_chunk garbage Hnew Hg poolSize chunkSize (a, out) Hn Hb Hr)
    as [Ha Hnd Hh]. split; [done|]. cbn in Ha, Hh. rewrite Forall_forall in Hh. intros ptr n Hin.
  destruct (Hh _ Hin) as [Hu Hc]. cbn in Hu, Hc. split; [done|]. split; [done|]. split.
  - intros value. by destruct (memset_ok ptr value n a Ha Hc Hu) as (a' & -> & _).
  - by destruct (free_ok ptr a Ha Hu) as (a' & -> & _).
Qed.

(** Chunks for the witnesses: an address above all those of the heap. *)
Definition chunk_above (h : gmap Z chunk_data) : Z := above (elements (dom h)).
Definition zero_bytes (n : Z) : list Z := replicate (Z.to_nat n) 0.

Lemma chunk_above_fresh h : chunk_above h ∉ dom h.
Proof. rewrite <- elem_of_elements. apply above_fresh. Qed.

Definition sample_allocator : VariousMemoryAllocator := newVariousMemoryAllocator chunk_above zero_bytes 2 32.

Lemma allocator_is_sound_witness :
  let m1 := malloc chunk_above zero_bytes 40 sample_allocator in
  let m2 := malloc chunk_above zero_bytes 8 m1.2 in
  let out := [(m2.1, 8); (m1.1, 40)] in
  NoDup (out.*1) ∧ ∀ ptr n, (ptr, n) ∈ out →
    in_use (ptr - headerSize) m2.2 ∧ (Z.to_nat n ≤ chunk_capacity (ptr - headerSize) m2.2)%nat ∧
    (∀ value, (memset ptr value n m2.2).1 = Ok tt) ∧ (free (Some ptr) m2.2).1 = Ok tt.
Proof.
  intros m1 m2 out. apply (allocator_is_sound chunk_above zero_bytes 2 32).
  - apply chunk_above_fresh.
  - intros n _. apply length_replicate.
  - lia.
  - vm_compute. reflexivity.
  - eapply rtc_l; [apply (client_malloc _ _ 40); [lia|by vm_compute]|].
    eapply rtc_l; [apply (client_malloc _ _ 8); [lia|by vm_compute]|]. reflexivity.
Defined.

(** A chunk that was freed is cached and serves a later request of at most its
    size, so the heap does not grow; of the cached chunks [malloc] takes a smallest
    that is large enough. *)
Theorem freed_memory_is_reused (new_chunk : gmap Z chunk_data → Z) (garbage : Z → list Z)
  (ptr n : Z) (a : VariousMemoryAllocator)
  (Hg : ∀ n, 0 ≤ n → length (garbage n) = Z.to_nat n)
  (Ha : alloc_inv a) (Hu : in_use (ptr - headerSize) a) (Hn : 0 ≤ n)
  (Hc : (Z.to_nat n ≤ chunk_capacity (ptr - headerSize) a)%nat) : ∃ a',
  free (Some ptr) a = (Ok tt, a') ∧
  va_heap (malloc new_chunk garbage n a').2 = va_heap a ∧
  (∃ b, cachedBlocks_ a' !! find n a' = Some b ∧ n ≤ chunkSize_ b ∧
    (malloc new_chunk garbage n a').1 = chunk_ b + headerSize ∧
    ∀ b', b' ∈ cachedBlocks_ a' → n ≤ chunkSize_ b' → chunkSize_ b ≤ chunkSize_ b').
Proof.
  destruct (free_ok ptr a Ha Hu) as (a' & E & Ha' & _ & Hheap & _). exists a'.
  pose proof (malloc_after_free new_chunk garbage ptr n a a' Ha Hu E Hc Hn) as Hm.
  split_and!; [done|congruence|]. destruct (cachedBlocks_ a' !! find n a') as [b|] eqn:Ef.
  - exists b. destruct (find_best n a' b Ha' Ef) as [H1 H2]. split_and!; try done.
    unfold malloc. by rewrite Ef.
  - exfalso. unfold free in E. destruct Hu as [Hd _]. apply elem_of_dom in Hd as [d Hd]. rewrite Hd in E.
    injection E as E. unfold chunk_capacity in Hc. rewrite Hd in Hc. destruct (ai_heap _ Ha _ _ Hd) as [H0 H1].
    pose proof (find_none n a' Ha' Ef (mkBlock (ch_header d) (ptr - headerSize))) as Hlt. cbn in Hlt.
    enough (ch_header d < n) by lia. apply Hlt. rewrite <- E. unfold insert_block. cbn.
    rewrite (insert_sorted_perm chunkSize_). apply elem_of_cons. by left.
Qed.

Lemma freed_memory_is_reused_witness :
  let '(ptr, a) := malloc chunk_above zero_bytes 40 sample_allocator in ∃ a',
  free (Some ptr) a = (Ok tt, a') ∧
  va_heap (malloc chunk_above zero_bytes 33 a').2 = va_heap a ∧
  (∃ b, cachedBlocks_ a' !! find 33 a' = Some b ∧ 33 ≤ chunkSize_ b ∧
    (malloc chunk_above zero_bytes 33 a').1 = chunk_ b + headerSize ∧
    ∀ b', b' ∈ cachedBlocks_ a' → 33 ≤ chunkSize_ b' → chunkSize_ b ≤ chunkSize_ b').
Proof.
  assert (Ha : alloc_inv sample_allocator).
  { apply newVariousMemoryAllocator_inv; [apply chunk_above_fresh|intros n _; apply length_replicate|lia|by vm_compute]. }
  pose proof (malloc_ok chunk_above zero_bytes chunk_above_fresh (λ n _, length_replicate (Z.to_nat n) 0)
    40 sample_allocator Ha ltac:(lia) ltac:(by vm_compute)) as Hm.
  destruct (malloc chunk_above zero_bytes 40 sample_allocator) as [ptr a].
  destruct Hm as (Ha' & Hu & _ & Hcap & _).
  apply (freed_memory_is_reused chunk_above zero_bytes ptr 33 a).
  - intros n _. apply length_replicate.
  - exact Ha'.
  - exact Hu.
  - lia.
  - lia.
Defined.

(** [calloc] of elements multiplies their number and size in a [size_t]: when
    the product is a multiple of 2^64 it returns a chunk of no bytes as if it were
    memory for all of them. *)
Theorem calloc_overflows (new_chunk : gmap Z chunk_data → Z) (garbage : Z → list Z) (value : Z)
  (Hg : ∀ n, 0 ≤ n → length (garbage n) = Z.to_nat n) :
  let a := mkVariousMemoryAllocator [] ∅ in
  ∃ ptr a', calloc_elements new_chunk garbage (2 ^ 33) (2 ^ 31) value a = (Ok ptr, a') ∧
    chunk_capacity (ptr - headerSize) a' = O.
Proof.
  intros a. unfold calloc_elements. change (uint 64 (2 ^ 33 * 2 ^ 31)) with 0. unfold calloc.
  unfold malloc. change (cachedBlocks_ a !! find 0 a) with (@None Block). unfold new_block.
  pose proof (Hg 0 ltac:(lia)) as E. change (Z.to_nat 0) with O in E. apply nil_length_inv in E. rewrite E.
  rewrite take_nil. cbn [chunk_].
  set (c := new_chunk _).
  set (a1 := mkVariousMemoryAllocator _ _).
  assert (Em : memset (c + headerSize) value 0 a1 = (Ok tt, mkVariousMemoryAllocator []
    (<[c := mkChunk 0 []]> (va_heap a1)))).
  { unfold memset. replace (c + headerSize - headerSize) with c by lia. unfold a1. cbn [va_heap].
    rewrite lookup_insert. case_decide; [|done]. by rewrite decide_True. }
  st_step Em. eexists _, _. split; [reflexivity|]. unfold chunk_capacity.
  replace (c + headerSize - headerSize) with c by lia. cbn [va_heap].
  rewrite lookup_insert. by case_decide.
Qed.

Lemma calloc_overflows_witness :
  ∃ ptr a', calloc_elements chunk_above zero_bytes (2 ^ 33) (2 ^ 31) 7 (mkVariousMemoryAllocator [] ∅) =
    (Ok ptr, a') ∧ chunk_capacity (ptr - headerSize) a' = O.
Proof. apply (calloc_overflows chunk_above zero_bytes 7). intros n _. apply length_replicate. Defined.

(** ** Shared objects *)

(** C16: However threads interleave their operations on smart pointers, no operation
    reaches an object that was deleted and none is deleted twice; what a smart pointer
    refers to is there; the destructors and assignments that a thread has begun end;
    and once they have, an object that was ever referred to is deleted if nothing refers
    to it any more, and otherwise counts the pointers that do. *)
Theorem shared_objects_are_deleted_once threads_ es r :
  Z.of_nat (length es) < 2 ^ 32 → pointer_run es (newStore threads_) = Some r →
  ∃ s, r = Ok s ∧ NoDup (deleted s) ∧
    (∀ pl a, places s !! pl = Some (Some a) → is_Some (objects s !! a) ∧ a ∉ deleted s) ∧
    (∀ t, is_Some (threads s !! t) → ∃ k s', (k ≤ weight s)%nat ∧
      pointer_run (replicate k (Work t)) s = Some (Ok s') ∧ threads s' !! t = Some []) ∧
    (Forall (λ l, l = []) (threads s) → ∀ a, a ∈ held s →
      if decide (holders a (places s) = ∅) then a ∈ deleted s
      else ∃ o, objects s !! a = Some o ∧ referenceCount_ o = Z.of_nat (size (holders a (places s)))).
Proof.
  intros Hn Hrun. destruct (pointer_run_inv es 0 (newStore threads_) r Hn (newStore_inv threads_) Hrun) as (s & -> & Hi).
  exists s. split_and!; [done|exact (si_deleted _ _ _ Hi)| | |].
  - intros pl a Hpl. destruct (known_live _ [] s a Hi) as [o Ho].
    { unfold known, references. pose proof (holders_pos a pl _ Hpl). lia. }
    split; [by exists o|]. intros Hd. apply (si_gone _ _ _ Hi) in Hd as [Hd _]. congruence.
  - intros t Ht. destruct (pointer_work_runs _ t s Hn Hi Ht) as (k & s' & Hk & Hrun' & Hend & _). by exists k, s'.
  - intros Hidle a Ha. by apply (idle_store (0 + length es)).
Qed.

(** A list of two objects that two threads hold: the second thread is the last to let
    it go, and deletes both. *)
Definition sample_pointers : list pointer_event :=
  [Allocate 16 1; Construct 0 (Some 16); Allocate 32 0; Construct 1 (Some 32); AssignMember 0 0 0 (Some 32); Work 0; Work 0; Work 0;
   CopyConstruct 2 0; Destroy 0 1; Destroy 1 2; Work 0; Work 1; Destroy 1 0; Work 1; Work 1; Work 1; Work 1].

Example shared_objects_are_deleted_once_witness :
  ∃ s, pointer_run sample_pointers (newStore 2) = Some (Ok s) ∧ deleted s = [16; 32] ∧ NoDup (deleted s).
Proof.
  assert (E : ∃ s, pointer_run sample_pointers (newStore 2) = Some (Ok s) ∧ deleted s = [16; 32]).
  { eexists. split; [vm_compute; reflexivity|reflexivity]. }
  destruct E as (s & E & Ed). exists s. split; [exact E|]. split; [exact Ed|].
  destruct (shared_objects_are_deleted_once 2 sample_pointers (Ok s) ltac:(vm_compute; reflexivity) E) as (s' & Es & Hd & _).
  injection Es as <-. exact Hd.
Defined.

(** The count is 32 bits wide: an object with 2^32 + 1 references counts one, and the
    first that is given back deletes it. *)
Theorem count_wraps_around o k : referenceCount_ o = 1 → Z.of_nat k = 2 ^ 32 →
  referenceCount_ (Nat.iter k addReference o) = 1 ∧ (threadSafe_removeReference (Nat.iter k addReference o)).1 = true.
Proof.
  intros Ho Hk. pose proof (addReference_wraps k o ltac:(lia)) as Hw. rewrite decide_False in Hw by (intros ->; done).
  rewrite Ho, Hk in Hw. split; [done|]. unfold threadSafe_removeReference. cbn [fst]. by rewrite Hw.
Qed.

(** An object with a pointer to itself is never deleted. *)
Theorem cycle_is_never_deleted : ∃ s,
  pointer_run [Allocate 16 1; Construct 0 (Some 16); AssignMember 0 0 0 (Some 16); Work 0; Work 0; Work 0; Destroy 0 0; Work 0]
    (newStore 1) = Some (Ok s) ∧ threads s = [[]] ∧ deleted s = [] ∧ places s = {[Member 16 0 := Some 16]}.
Proof. eexists. split; [vm_compute; reflexivity|]. split_and!; reflexivity. Qed.
