(* ===== verification/SessionProperties.v ===== *)
(** * Properties of sessions

    The bandwidth limit, the state machine and the TCP session, in every reachable
    state, with runs on a concrete session; and runs that show where a session does
    not do what it means to. *)

From S2P Require Import Prelude StreamBuffer MemoryBlock Packet Marshaller MarshallerSafety.
From S2P Require Import BandwidthLimit StateMachine TcpSession TcpSessionSpec Connecting.

#[local] Ltac decide_it := refine (bool_decide_unpack _ _); vm_compute; exact I.

(** ** The bandwidth limit *)

(** In every run of a limiter, [check] refuses a session exactly while it has
    been bad for less than the pause; once the pause is over it accepts it with
    fresh counters; and [getLeftBytes] never wraps below zero. *)
Theorem throttling_decision (c : SessionCapacity) (t0 t now : Z) (b : BandwidthLimit)
  (Hc : capacity_ok c) (Ht0 : 0 < t0) (Hs : shouldThrottle c = true)
  (Hr : rtc limiter_step (t0, newBandwidthLimit c) (t, b)) (Hnow : t ≤ now) :
  ((check now b).1 = false ↔ badTime_ b ≠ 0 ∧ now - badTime_ b < secondsForThrottling_ c) ∧
  (badTime_ b ≠ 0 → secondsForThrottling_ c ≤ now - badTime_ b → check now b = (true, reset b)) ∧
  (badTime_ b ≠ 0 ↔ maxBytesPerSecond_ c ≤ readBytes_ b) ∧
  getLeftBytes b = Z.max 0 (maxBytesPerSecond_ c - readBytes_ b).
Proof.
  destruct (limiter_reachable c t0 t b Hc Ht0 Hr) as (Ht & Hi & <-).
  pose proof (limit_inv_later t now b Hnow Hi) as Hi'.
  pose proof (li_bad _ _ Hi). pose proof (li_good _ _ Hi Hs). split_and!.
  - rewrite (check_false now b Hi'). tauto.
  - by apply check_recovers.
  - lia.
  - rewrite (getLeftBytes_ok now b Hi' Hs). case_decide; lia.
Qed.

Definition sample_capacity : SessionCapacity := mkCapacity 100 3 2.

Lemma throttling_decision_witness :
  let b := add 7 60 (add 5 70 (newBandwidthLimit sample_capacity)) in
  ((check 8 b).1 = false ↔ badTime_ b ≠ 0 ∧ 8 - badTime_ b < 3) ∧
  (badTime_ b ≠ 0 → 3 ≤ 8 - badTime_ b → check 8 b = (true, reset b)) ∧
  (badTime_ b ≠ 0 ↔ 100 ≤ readBytes_ b) ∧ getLeftBytes b = Z.max 0 (100 - readBytes_ b).
Proof.
  intros b. apply (throttling_decision sample_capacity 5 7 8 b).
  - split; decide_it.
  - lia.
  - done.
  - eapply rtc_l; [apply (limiter_add 5 5 70); [lia|lia|by vm_compute]|].
    apply rtc_once, (limiter_add 5 7 60); [lia|lia|by vm_compute].
  - lia.
Defined.

(** The one-second window is only looked at below the limit: bytes received
    long ago count against it, so a session far below the limit per second is
    throttled. *)
Theorem slow_session_is_throttled (c : SessionCapacity) (t now b1 b2 : Z) (Hc : capacity_ok c)
  (Ht : 0 < t) (Hnow : t ≤ now) (H1 : 0 ≤ b1 < maxBytesPerSecond_ c)
  (H2 : maxBytesPerSecond_ c ≤ b1 + b2) (H3 : 0 ≤ b2 < 2 ^ 63) (Hp : 0 < secondsForThrottling_ c) :
  let b := add now b2 (add t b1 (newBandwidthLimit c)) in
  badTime_ b = now ∧ (check now b).1 = false.
Proof.
  intros b. pose proof (add_old_bytes now t b1 b2 c Hc Ht Hnow H1 H2 H3) as Hb. split; [exact Hb|].
  destruct (limiter_reachable c t now b Hc Ht) as (_ & Hi & Hcap).
  { destruct Hc as [Hc _]. unfold is_uint in Hc.
    eapply rtc_l; [apply (limiter_add t t b1); [lia|lia|cbn; lia]|].
    apply rtc_once, (limiter_add t now b2); [lia|lia|]. unfold add, shouldThrottle. cbn.
    rewrite uint_id by (unfold is_uint; lia). rewrite (proj2 (Z.ltb_lt 0 _)) by lia. cbn.
    rewrite (proj2 (Z.ltb_lt b1 _)) by lia. case_match; cbn; lia. }
  rewrite (check_false now b Hi), Hcap. fold b in Hb. rewrite Hb. unfold shouldThrottle.
  split_and!; [|lia|lia]. apply Z.ltb_lt. lia.
Qed.

Lemma slow_session_is_throttled_witness :
  let b := add 1000 60 (add 5 70 (newBandwidthLimit sample_capacity)) in
  badTime_ b = 1000 ∧ (check 1000 b).1 = false.
Proof.
  apply (slow_session_is_throttled sample_capacity 5 1000 70 60); cbn; try lia. split; decide_it.
Defined.

(** ** The state machine *)

(** For any sequence of requests to change the state, the callbacks are the
    [exit] of the state that is left, then the [entry] of the new one; a request for
    the current state calls nothing; the machine ends in the last state asked for. *)
Theorem state_callbacks_alternate {S : Type} `{EqDecision S} (l : list S) : ∃ m,
  change_all (W := traced) (H := trace_state) fst set_traced l (newStateMachine, []) =
    (Ok tt, (m, run_calls None l)) ∧
  alternates None (run_calls None l) ∧ currentState_ m = last l.
Proof.
  destruct (change_all_trace l (newStateMachine, [])) as (m & E & Hm). exists m.
  split; [exact E|]. split; [apply run_calls_alternates|]. rewrite Hm. by destruct (last l).
Qed.

(** An event is given to the current state; only when that does not handle it,
    or there is none, to the global state. *)
Theorem event_routing {S W Event : Type} `{EqDecision S, State S W Event}
  (machine : W → StateMachine S) (e : Event) (w w' : W) (b : bool)
  (Hc : when_state (currentState_ (machine w)) false (λ s, state_handleEvent s e) w = (Ok b, w')) :
  handleEvent machine e w =
    if b then (Ok true, w')
    else when_state (globalState_ (machine w')) false (λ s, state_handleEvent s e) w'.
Proof.
  destruct b; [|by apply handleEvent_global].
  destruct (currentState_ (machine w)) as [c|] eqn:E; [|done]. by eapply handleEvent_current.
Qed.

(** A machine whose states handle an event when it has their number. *)
#[local] Instance number_state : State Z (StateMachine Z) Z := {
  state_entry _ := mret tt;
  state_exit _ := mret tt;
  state_update _ _ := mret tt;
  state_handleEvent s e := mret (bool_decide (s = e));
}.

Lemma event_routing_witness :
  handleEvent id 7 (mkMachine (Some 3) None (Some 7)) = (Ok true, mkMachine (Some 3) None (Some 7)).
Proof.
  exact (event_routing id 7 (mkMachine (Some 3) None (Some 7)) (mkMachine (Some 3) None (Some 7)) false
    eq_refl).
Defined.

(** ** The session *)

Section session.
Context {M A : Type} `{HM : MarshallerSpec M}.
Context (react : call → A → bool * list request * A).

(** C9: Whatever the network and the application do, every block given to
    [sendMessage] is in exactly one place: in a closure, in the queue, in a write,
    given back to its pool, or among the blocks a reset forgets; none is given back
    twice. *)
Theorem blocks_in_one_place (capacity : SessionCapacity) (m : M) (a : A) (s : state M A) (x : Z)
  (Hc : 0 ≤ BandwidthLimit.maxPendablePacketCount_ capacity)
  (Hr : reachable react capacity m a s) :
  occ x (asked (wld s)) =
    (occ x (requests_ids (posted (wld s))) + occ x (ids (outputQueue_ (ses s))) +
     occ x (held (writes_pending (wld s))) + occ x (ids (outputMemoryBlocks_ (ses s))) +
     occ x (released (wld s)) + occ x (lost (wld s)))%nat ∧
  (occ x (asked (wld s)) = 1%nat → (occ x (released (wld s)) ≤ 1)%nat).
Proof.
  destruct (reachable_invariants react capacity m a s Hc Hr) as (Hb & _).
  specialize (Hb x). split; [exact Hb|lia].
Qed.



(** C25: When the writes of a connected session succeed, it writes everything it
    accepted, within as many writes as there are packets queued and one more, and
    then has nothing pended. *)
Theorem queue_drains (capacity : SessionCapacity) (m : M) (a : A) (s : state M A)
  (Hc : 0 ≤ BandwidthLimit.maxPendablePacketCount_ capacity)
  (Hr : reachable react capacity m a s) (Hs : socket_ (ses s) = true)
  (Hw : writes_pending (wld s) ≠ []) : ∃ n s',
  exec_all react (replicate n (EvWrite None)) s = Some s' ∧
  (n ≤ S (length (outputQueue_ (ses s))))%nat ∧
  socket_ (ses s') = true ∧ isWritePended_ (ses s') = false ∧ outputQueue_ (ses s') = [] ∧
  accepted (wld s') = accepted (wld s) ∧ wire (wld s') = mjoin (accepted (wld s)).
Proof.
  destruct (reachable_invariants react capacity m a s Hc Hr) as (_ & Ho & _ & _).
  destruct (writes_pending (wld s)) as [|o os] eqn:Eo; [done|].
  pose proof (out_inv_single _ _ _ Ho Eo) as ->.
  destruct (drain_ok react s o Ho Hs Eo) as (n & s' & E & [_ Hn] & H1 & H2 & H3 & _ & H4 & H5).
  exists n, s'. split_and!; try done. by rewrite H4, H5.
Qed.

(** A session with nothing to write that is asked to disconnect gracefully is
    closed when its timer ends, and its end is reported. *)
Theorem graceful_disconnect (s : state M A) (Hp : posted (wld s) = [PDisconnectGracefully])
  (Hs : socket_ (ses s) = true) (Ht : isRunning_ (disconnectTimer_ (ses s)) = false)
  (Hw : isWritePended_ (ses s) = false) (Hq : outputQueue_ (ses s) = []) : ∃ s',
  exec_all react [EvPosted; EvTimer DisconnectTimer true; EvPosted] s = Some s' ∧
  socket_ (ses s') = false ∧ calls (wld s') = (calls (wld s) ++ [OnDisconnected]) ++ [OnRelease].
Proof. by apply (graceful_closes react s []). Qed.

(** While a graceful disconnection is pending, no read delivers a message to the
    application, though the bytes are parsed. *)
Theorem no_message_when_disconnecting (s s' : state M A) (now : Z) (r : read_op) (chunk : option (list Z))
  (Hd : isDisconnectReserved (ses s) = true) (Hr : handle_read react now r chunk s = Some s') : ∃ cs,
  calls (wld s') = calls (wld s) ++ cs ∧ Forall (λ c, ∃ n m, c = OnThrottling n m) cs.
Proof.
  apply quiet_handle_read in Hr as (_ & _ & _ & qs & cs & F & _ & _ & Ec). exists cs.
  split; [exact Ec|]. rewrite Hd in F. eapply Forall_impl; [exact F|].
  intros [] Hc; cbn in Hc; try done. by eexists _, _.
Qed.
End session.

(** ** A concrete session

    A marshaller of plain packets, an application that accepts everything. *)

Definition quiet_app (c : call) (a : unit) : bool * list request * unit := (true, [], a).

Abbreviation sample_state := (state (SgpMarshaller CsPacketCoder) unit).

Definition sample_session : sample_state :=
  newSession sample_capacity (newMarshaller tt (mb_new 64) (mb_new 16)) tt.

(** A block with a message of one byte, as [acquireSendBlock] and a stream leave it. *)
Definition sample_block (id : Z) : block := mkBlock id (mkMB [0; 0; 0; id] 0 4).

Definition after (es : list event) : sample_state :=
  default sample_session (exec_all quiet_app es sample_session).

Lemma after_reachable es : is_Some (exec_all quiet_app es sample_session) →
  reachable quiet_app sample_capacity (newMarshaller tt (mb_new 64) (mb_new 16)) tt (after es).
Proof. intros [s E]. unfold after. rewrite E. by eapply exec_all_steps. Qed.

(** Connected, with a packet being written and two in the queue. *)
Definition busy_run : list event :=
  [EvOpen; EvCall (PSend (sample_block 1) 21); EvPosted; EvCall (PSend (sample_block 2) 22); EvPosted;
   EvCall (PSend (sample_block 3) 23); EvPosted].
Definition busy : sample_state := after busy_run.

Lemma busy_reachable : reachable quiet_app sample_capacity (newMarshaller tt (mb_new 64) (mb_new 16)) tt busy.
Proof. apply after_reachable. vm_compute. by eexists. Qed.

Lemma blocks_in_one_place_witness :
  occ 2 (asked (wld busy)) =
    (occ 2 (requests_ids (posted (wld busy))) + occ 2 (ids (outputQueue_ (ses busy))) +
     occ 2 (held (writes_pending (wld busy))) + occ 2 (ids (outputMemoryBlocks_ (ses busy))) +
     occ 2 (released (wld busy)) + occ 2 (lost (wld busy)))%nat ∧
  (occ 2 (asked (wld busy)) = 1%nat → (occ 2 (released (wld busy)) ≤ 1)%nat).
Proof.
  apply (blocks_in_one_place quiet_app sample_capacity (newMarshaller tt (mb_new 64) (mb_new 16)) tt busy 2);
    [vm_compute; discriminate|apply busy_reachable].
Defined.



Lemma queue_drains_witness : ∃ n s',
  exec_all quiet_app (replicate n (EvWrite None)) busy = Some s' ∧
  (n ≤ S (length (outputQueue_ (ses busy))))%nat ∧
  socket_ (ses s') = true ∧ isWritePended_ (ses s') = false ∧ outputQueue_ (ses s') = [] ∧
  accepted (wld s') = accepted (wld busy) ∧ wire (wld s') = mjoin (accepted (wld busy)).
Proof.
  apply (queue_drains quiet_app sample_capacity (newMarshaller tt (mb_new 64) (mb_new 16)) tt busy);
    [vm_compute; discriminate|apply busy_reachable|by vm_compute|by vm_compute].
Defined.

Lemma graceful_disconnect_witness :
  let s := after [EvOpen; EvCall PDisconnectGracefully] in ∃ s',
  exec_all quiet_app [EvPosted; EvTimer DisconnectTimer true; EvPosted] s = Some s' ∧
  socket_ (ses s') = false ∧ calls (wld s') = (calls (wld s) ++ [OnDisconnected]) ++ [OnRelease].
Proof.
  intros s. apply (graceful_disconnect quiet_app s); by vm_compute.
Defined.

(** A packet of one byte arrives. *)
Definition one_packet : list Z := [1; 0; 21; 9].

Lemma no_message_when_disconnecting_witness :
  let s := after [EvOpen; EvCall PDisconnectGracefully; EvPosted] in ∃ cs,
  calls (wld (default s (handle_read quiet_app 5 (mkRead 0 64) (Some one_packet) s))) =
    calls (wld s) ++ cs ∧ Forall (λ c, ∃ n m, c = OnThrottling n m) cs.
Proof.
  intros s. apply (no_message_when_disconnecting quiet_app s _ 5 (mkRead 0 64) (Some one_packet)).
  - by vm_compute.
  - assert (H : is_Some (handle_read quiet_app 5 (mkRead 0 64) (Some one_packet) s))
      by (vm_compute; by eexists).
    destruct H as [s' E]. by rewrite E.
Defined.

(** ** Where a session does not do what it means to *)

(** When the disconnection timer ends while a write is pending, [timedOut]
    starts it again, but [handle_timeout] clears [isRunning_] after the callback:
    the second wait is ignored when it ends, so the graceful disconnection is lost
    and the session stays open with nothing to close it. *)
Theorem graceful_disconnect_is_lost :
  let s := after [EvOpen; EvCall (PSend (sample_block 1) 21); EvPosted; EvCall PDisconnectGracefully;
    EvPosted; EvTimer DisconnectTimer true; EvWrite None; EvTimer DisconnectTimer true] in
  reachable quiet_app sample_capacity (newMarshaller tt (mb_new 64) (mb_new 16)) tt s ∧
  socket_ (ses s) = true ∧ isRunning_ (disconnectTimer_ (ses s)) = false ∧
  timer_waits (disconnectTimer_ (ses s)) = O ∧ posted (wld s) = [] ∧ writes_pending (wld s) = [] ∧
  calls (wld s) = [OnConnected; OnMessageTransfered 21].
Proof.
  intros s. split; [apply after_reachable; vm_compute; by eexists|].
  by vm_compute.
Qed.

(** A session that disconnects while a gathered write is in progress forgets its
    blocks ([outputMemoryBlocks_.clear()]): they are never given back to the pool,
    not even when the write ends. *)
Theorem disconnect_loses_blocks :
  let s := after (busy_run ++ [EvWrite None; EvCall PDisconnect; EvPosted; EvWrite (Some O)]) in
  reachable quiet_app sample_capacity (newMarshaller tt (mb_new 64) (mb_new 16)) tt s ∧
  socket_ (ses s) = false ∧ writes_pending (wld s) = [] ∧
  released (wld s) = [1] ∧ lost (wld s) = [2; 3] ∧ asked (wld s) = [1; 2; 3].
Proof.
  intros s. split; [apply after_reachable; vm_compute; by eexists|]. by vm_compute.
Qed.

(** A read that had completed when the session was closed is still handled: its
    messages reach the application after it was told that the session had ended
    and been given back. *)
Theorem message_after_disconnection :
  let s := after [EvOpen; EvCall PDisconnect; EvPosted; EvRead 5 (Some one_packet)] in
  reachable quiet_app sample_capacity (newMarshaller tt (mb_new 64) (mb_new 16)) tt s ∧
  calls (wld s) = [OnConnected; OnDisconnected; OnRelease; OnMessageArrived 21 [9]].
Proof.
  intros s. split; [apply after_reachable; vm_compute; by eexists|]. by vm_compute.
Qed.

(** ** A client that waits for its validation *)

(** Twenty turns of a millisecond, a packet in the third, and keys that never come. *)
Example client_validation_ends_witness :
  let turns := (λ k, mkTurn (100 + Z.of_nat k) (if bool_decide (k = 3%nat) then [EvRead 103 (Some one_packet)] else [])) <$> seq 0 20 in
  ∃ b s, connectAndValidate quiet_app (λ _, false) 100 12 true Connects turns sample_session = Some (Ok b, s) ∧
    (b = false ∧ isConnected (ses s) = true ∧ calls (wld s) = [OnConnected; OnMessageArrived 21 [9]] ∧ posted (wld s) = [PDisconnect]).
Proof.
  cbv zeta. set (turns := _ <$> seq 0 20).
  set (s1 := after [EvOpen]).
  assert (Hs1 : exec quiet_app EvOpen (on_ses (set_socket false) sample_session) = Some s1) by (vm_compute; reflexivity).
  set (o := exec_all quiet_app (handlers turns) s1). assert (Ho : o = Some (default s1 o)) by (vm_compute; reflexivity).
  assert (Hp : paced 100 turns).
  { intros k t Hk. unfold turns in Hk. rewrite list_lookup_fmap in Hk. apply fmap_Some in Hk as (i & Hi & ->).
    apply lookup_seq in Hi as [-> _]. cbn. lia. }
  destruct (client_validation_ends quiet_app (λ _, false) 100 12 turns sample_session s1 (default s1 o)
    ltac:(lia) Hp ltac:(vm_compute; reflexivity) Hs1 Ho ltac:(vm_compute; reflexivity)) as (b & s & Hb & Hend).
  exists b, s. split; [exact Hb|].
  set (c := connectAndValidate quiet_app (λ _, false) 100 12 true Connects turns sample_session) in *.
  assert (Hc : (match c with Some (Ok b, s) => (b, isConnected (ses s), calls (wld s), posted (wld s)) | _ => (true, false, [], []) end) =
    (false, true, [OnConnected; OnMessageArrived 21 [9]], [PDisconnect])) by (vm_compute; reflexivity).
  rewrite Hb in Hc. injection Hc as -> H1 H2 H3. split_and!; [reflexivity|exact H1|exact H2|exact H3].
Defined.
