(* ===== verification/RpcProperties.v ===== *)
(** * Properties of remote calls and of the layers of a session

    What an application can rely on when it calls a remote method or sends a
    typed message: the call is made and the message is heard by the peer, with
    the same arguments, in order, whichever streams and coder the session has and
    however the network cuts the bytes; which receiver handles a call; what
    becomes of a message that cannot be written or read, and where the code
    departs from what it means to do. *)

From S2P Require Import Prelude BitList Bits Unicode StreamBuffer MemoryBlock Stream BitStream.
From S2P Require Import BitStreamSpec ByteStream ByteStreamSpec Streamable FactoryStreams RpcTypes Srpc.
From S2P Require Import Packet Marshaller MemoryPool TcpSession SessionLayer SessionArrival RpcInterface.

#[local] Ltac decide_it := refine (bool_decide_unpack _ _); vm_compute; exact I.

(** ** End to end *)

Section arrival.
Context {P Q A A' C : Type} `{HC : PacketCoderSpec C}.
Context `{HP : !MemoryBlockProvider P, HPS : !MemoryBlockProviderSpec P pc_size, HQ : !MemoryBlockProvider Q}.
Context (f : SneStreamFactory) {E : Type} `{HT : Transport f E}.
Context (act : nat → Z → Z → ∀ ts, denotes ts → A → A) (hear : Z → list value → A → A).

(** C2: Calls and typed messages that an application makes over its session, one
    after the other, are all put on the wire; of the bytes on it, cut into reads
    of any sizes, the peer's session makes the first of the calls and hears the
    first of the messages, each once, in order and with the same arguments; and
    all of them once every byte has been read. *)
Theorem calls_and_messages_arrive (sender : SessionImpl P A') (receiver : SessionImpl Q A)
  (fw : RpcForwarder) (items : list item) (ms mr : SgpMarshaller C)
  (Hfw : fw_network fw = true) (Hs : can_serialize (size := pc_size) (f := f) sender)
  (Hr : receives_all (f := f) receiver) (Hfit : Forall item_fits items)
  (Hk : Forall (item_known receiver) items) (Hsz : Forall item_sendable items)
  (Hsync : pc_sync (packetCoder_ ms) (packetCoder_ mr)) (Hmr : marshaller_inv mr [])
  (Hcap : (3 ≤ mb_capacity (recvBlock_ mr))%nat) :
  ∃ fw' sender' blocks wire ms',
    send_items items (fw, sender) = (Ok tt, (fw', sender')) ∧
    requests_ sender' = requests_ sender ++ zip_with (λ x b, PSend b (item_type x)) items blocks ∧
    marshal_all (zip (item_type <$> items) (b_mem <$> blocks)) ms = Some (wire, ms') ∧
    ∀ ks, ∃ now later mr' receiver' wire', items = now ++ later ∧
      receive_all (onMessageArrived (returning act) (hearing hear)) ks wire (mr, receiver) =
        (Ok (true, wire'), (mr', receiver')) ∧
      world_equiv (run_items act hear now (rpcNetwork_ receiver)) (rpcNetwork_ receiver') ∧
      (ks ≠ [] → Forall (λ k, 0 < k)%nat ks → (length wire ≤ length ks)%nat → later = [] ∧ wire' = []).
Proof.
  destruct (items_arrive f act hear sender receiver fw items ms mr Hfw Hs Hr Hfit Hk Hsz Hsync Hmr Hcap)
    as (fw' & s' & blocks & wire & ms' & E1 & Hreq & _ & E2 & Harr).
  exists fw', s', blocks, wire, ms'. split_and!; [done|done|done|]. intros ks.
  destruct (Harr ks) as (now & later & mr' & r' & wire' & ? & ? & ? & _ & _ & ?). by exists now, later, mr', r', wire'.
Qed.
End arrival.

(** ** Who handles a call *)

(** C14: A call is handled as if every receiver had its events from the start and
    the network asked only the first registered one that has the call's: neither
    the search through the others nor the cloning of events on the way can be
    seen, for any bytes received. *)
Theorem dispatch_equivalence {Ist A : Type} `{IStream Ist}
  (method : nat → Z → Z → ∀ ts, denotes ts → st A unit) (rpcHint : Z) (i : Ist) (w : RpcWorld A)
  (Hw : receivers_alive w) :
  out_equiv (onReceive method rpcHint (i, w)) (dispatch_spec method rpcHint (i, w)).
Proof. by apply onReceive_dispatch. Qed.

(** *** A session of the witnesses *)

#[local] Instance sample_provider : MemoryBlockProvider SendBlocks := SendBlocks_provider next_address.
#[local] Instance sample_provider_spec : MemoryBlockProviderSpec SendBlocks 3 :=
  SendBlocks_spec next_address next_address_fresh 3.

(** An application that keeps what it is told: a number from a call, the values
    of a message. *)
Inductive told := ToldCall (r : nat) (rpcId : Z) | ToldMessage (mt : Z) (xs : list value).
Definition sample_act : nat → Z → Z → ∀ ts, denotes ts → list told → list told :=
  λ r id _ _ _ l, l ++ [ToldCall r id].
Definition sample_hear (mt : Z) (xs : list value) (l : list told) : list told := l ++ [ToldMessage mt xs].

(** "IFoo_bar_2" *)
Definition sample_rpcId : Z := RRpcId [73; 70; 111; 111] [98; 97; 114] [50].
Definition sample_types : list rpc_type := [TNum PU32 PU32 32; TSeq (TString 255 8) 16].
Definition sample_command : RpcCommand := mkCommand sample_rpcId sample_types (7, ([[104; 105]; [33]], tt)).
Definition sample_items : list item :=
  [Call sample_command; Typed 30 [VNum PBool 1; VString [104; 105]; VNum PU8 200]; Call sample_command].

Definition sample_receiver_object : RpcReceiver :=
  event_register sample_rpcId (mkEvent sample_rpcId sample_types) (newReceiver ∅).
Definition sample_world : RpcWorld (list told) :=
  setRpcNetwork 5 (setRpcNetwork 4
    (mkRpcWorld (<[4%nat := newReceiver ∅]> (<[5%nat := sample_receiver_object]> ∅)) [] [] [])).

Definition sample_sender : SessionImpl SendBlocks unit :=
  newImpl (mkFactory false true) [RpcingExtension; MessagingExtension] tt sample_send_blocks 0.
Definition sample_receiver : SessionImpl SendBlocks (list told) :=
  set_rpc sample_world (registerMessageCallback 30 [VNum PBool 0; VString []; VNum PU8 0]
    (newImpl (mkFactory false true) [RpcingExtension; MessagingExtension] [] sample_send_blocks 0)).

Lemma calls_and_messages_arrive_witness :
  ∃ fw' sender' blocks wire ms',
    send_items sample_items (mkForwarder true [], sample_sender) = (Ok tt, (fw', sender')) ∧
    requests_ sender' = requests_ sample_sender ++ zip_with (λ x b, PSend b (item_type x)) sample_items blocks ∧
    marshal_all (zip (item_type <$> sample_items) (b_mem <$> blocks)) rpc_marshaller = Some (wire, ms') ∧
    ∀ ks, ∃ now later mr' receiver' wire', sample_items = now ++ later ∧
      receive_all (onMessageArrived (returning sample_act) (hearing sample_hear)) ks wire
        (rpc_marshaller, sample_receiver) = (Ok (true, wire'), (mr', receiver')) ∧
      world_equiv (run_items sample_act sample_hear now (rpcNetwork_ sample_receiver)) (rpcNetwork_ receiver') ∧
      (ks ≠ [] → Forall (λ k, 0 < k)%nat ks → (length wire ≤ length ks)%nat → later = [] ∧ wire' = []).
Proof.
  apply (calls_and_messages_arrive (mkFactory false true) (HT := bit_transport false)).
  - done.
  - split; [done|apply sample_send_blocks_ok].
  - split; [split; cbn; [done|apply elem_of_cons; by left| |]|cbn; set_solver].
    + done.
    + unfold receivers_alive. decide_it.
  - decide_it.
  - assert (Hd : dispatchable (rpcNetwork_ sample_receiver) sample_command)
      by (exists 5%nat, sample_rpcId; by vm_compute).
    constructor; [exact Hd|constructor; [|constructor; [exact Hd|constructor]]].
    eexists. split; [by vm_compute|]. by repeat constructor.
  - unfold item_sendable. decide_it.
  - done.
  - apply rpc_marshaller_inv.
  - vm_compute. lia.
Defined.

Lemma dispatch_equivalence_witness :
  receivers_alive sample_world ∧
  out_equiv
    (onReceive (returning sample_act) 0 (createIStream (mkFactory false false) (mkMB [1; 2; 3; 4] 0 4), sample_world))
    (dispatch_spec (returning sample_act) 0
      (createIStream (mkFactory false false) (mkMB [1; 2; 3; 4] 0 4), sample_world)).
Proof.
  assert (Hw : receivers_alive sample_world) by (unfold receivers_alive; decide_it).
  split; [done|]. exact (dispatch_equivalence (returning sample_act) 0 _ _ Hw).
Defined.

(** ** Interfaces *)

Section interfaces.
Context {P Q A A' C : Type} `{HC : PacketCoderSpec C}.
Context `{HP : !MemoryBlockProvider P, HPS : !MemoryBlockProviderSpec P pc_size, HQ : !MemoryBlockProvider Q}.
Context (f : SneStreamFactory) {E : Type} `{HT : Transport f E}.
Context (act : nat → Z → Z → ∀ ts, denotes ts → A → A) (hear : Z → list value → A → A).

(** C3: When the ids of the methods of an interface differ, the calls an application makes
    of its forwarder, of any methods with any parameters that fit, call the same methods of
    the class that receives the interface at the other end of the session, with the same
    parameters and in the same order, each once; and all of them once all is read. *)
Theorem interface_calls_arrive (ms : list srpc_method) (r : nat) (cs : list method_call)
  (sender : SessionImpl P A') (receiver : SessionImpl Q A) (fw : RpcForwarder) (mo mi : SgpMarshaller C)
  (Hids : NoDup (getRpcId <$> ms)) (Hcs : Forall (λ c, mc_method c ∈ ms) cs) (Hserves : serves ms r (rpcNetwork_ receiver))
  (Hs : can_serialize (size := pc_size) (f := f) sender) (Hr : receives_all (f := f) receiver)
  (Hfit : Forall (λ c, item_fits (E := E) (Call (call_command c)) ∧ item_sendable (C := C) (E := E) (Call (call_command c))) cs)
  (Hsync : pc_sync (packetCoder_ mo) (packetCoder_ mi)) (Hmi : marshaller_inv mi []) (Hcap : (3 ≤ mb_capacity (recvBlock_ mi))%nat) :
  ∃ fw' sender' blocks wire mo',
    make_calls cs (registerRpcForwarder fw, sender) = (Ok tt, (fw', sender')) ∧
    requests_ sender' = requests_ sender ++ ((λ b, PSend b csmtRpc) <$> blocks) ∧
    marshal_all ((λ b, (csmtRpc, b_mem b)) <$> blocks) mo = Some (wire, mo') ∧
    ∀ ks, ∃ now later mi' receiver' wire', cs = now ++ later ∧
      receive_all (onMessageArrived (returning act) (hearing hear)) ks wire (mi, receiver) = (Ok (true, wire'), (mi', receiver')) ∧
      rpc_app (rpcNetwork_ receiver') = called act r now (rpc_app (rpcNetwork_ receiver)) ∧
      (reads_all wire ks → later = []).
Proof. by apply (calls_arrive f act hear ms r cs sender receiver (registerRpcForwarder fw) mo mi). Qed.
End interfaces.

(** Methods whose names differ in one letter have different ids. *)
Theorem one_letter_names_another_method interface pre x y post ts ts' : is_ascii x → is_ascii y → x ≠ y →
  length ts = length ts' →
  getRpcId (mkMethod interface (pre ++ x :: post) ts) ≠ getRpcId (mkMethod interface (pre ++ y :: post) ts').
Proof.
  intros Hx Hy Hne Hts. unfold getRpcId, RRpcId, paramCount. cbn [sm_interface sm_name sm_params]. rewrite Hts.
  rewrite <- (app_assoc pre (x :: post)), <- (app_assoc pre (y :: post)), !(app_assoc interface), !(app_assoc (interface ++ _)).
  by apply hash_one_character.
Qed.

(** Two that differ in two letters may have one id: the method that is registered later is
    never called, and a call of it is a call of the other. *)
Theorem two_letters_name_one_method interface pre x y post ts ts' : is_ascii x → is_ascii y → length ts = length ts' →
  let m := mkMethod interface (pre ++ x :: y :: post) ts in
  let m' := mkMethod interface (pre ++ Z.lxor x 1 :: Z.lxor y 32 :: post) ts' in
  getRpcId m' = getRpcId m ∧ getStaticEventMap [m; m'] !! getRpcId m' = Some (method_event m).
Proof.
  intros Hx Hy Hts m m'.
  assert (E : getRpcId m' = getRpcId m).
  { unfold getRpcId, RRpcId, paramCount. cbn [m m' sm_interface sm_name sm_params]. rewrite Hts.
    rewrite <- (app_assoc pre (x :: _)), <- (app_assoc pre (Z.lxor x 1 :: _)), !(app_assoc interface), !(app_assoc (interface ++ _)).
    by apply hash_two_characters. }
  split; [done|]. rewrite static_event_map_lookup. cbn [List.find]. by rewrite E, Z.eqb_refl.
Qed.

(** An interface "IFoo" with the methods "bar" and "baz". *)
Definition sample_methods : list srpc_method :=
  [mkMethod [73; 70; 111; 111] [98; 97; 114] sample_types; mkMethod [73; 70; 111; 111] [98; 97; 122] [TNum PU8 PU8 8]].
Definition sample_calls : list method_call :=
  [mkMethodCall (mkMethod [73; 70; 111; 111] [98; 97; 122] [TNum PU8 PU8 8]) (5, tt);
   mkMethodCall (mkMethod [73; 70; 111; 111] [98; 97; 114] sample_types) (7, ([[104; 105]; [33]], tt))].
Definition sample_served : SessionImpl SendBlocks (list told) :=
  extension_registerRpcReceiver 5 (set_rpc (mkRpcWorld {[5%nat := newInterfaceReceiver sample_methods]} [] [] [])
    (newImpl (mkFactory false true) [RpcingExtension; MessagingExtension] [] sample_send_blocks 0)).

Lemma interface_calls_arrive_witness :
  ∃ fw' sender' blocks wire mo',
    make_calls sample_calls (registerRpcForwarder (mkForwarder false []), sample_sender) = (Ok tt, (fw', sender')) ∧
    marshal_all ((λ b, (csmtRpc, b_mem b)) <$> blocks) rpc_marshaller = Some (wire, mo') ∧
    ∀ ks, reads_all wire ks → ∃ mi' receiver' wire',
      receive_all (onMessageArrived (returning sample_act) (hearing sample_hear)) ks wire (rpc_marshaller, sample_served) =
        (Ok (true, wire'), (mi', receiver')) ∧
      rpc_app (rpcNetwork_ receiver') = [ToldCall 5 (getRpcId (mkMethod [73; 70; 111; 111] [98; 97; 122] [TNum PU8 PU8 8]));
                                         ToldCall 5 sample_rpcId].
Proof.
  destruct (interface_calls_arrive (mkFactory false true) (HT := bit_transport false) sample_act sample_hear sample_methods 5
    sample_calls sample_sender sample_served (mkForwarder false []) rpc_marshaller rpc_marshaller)
    as (fw' & sender' & blocks & wire & mo' & E1 & _ & E2 & Harr).
  - decide_it.
  - decide_it.
  - split; [eexists; split; [reflexivity|by vm_compute]|]. by exists [], [].
  - split; [done|apply sample_send_blocks_ok].
  - split; [split; cbn; [done|apply elem_of_cons; by left|done|]|cbn; set_solver].
    unfold receivers_alive. decide_it.
  - unfold item_sendable. decide_it.
  - done.
  - apply rpc_marshaller_inv.
  - vm_compute. lia.
  - exists fw', sender', blocks, wire, mo'. split; [exact E1|]. split; [exact E2|]. intros ks Hks.
    destruct (Harr ks) as (now & later & mi' & receiver' & wire' & Ecs & E3 & E4 & Hend).
    rewrite (Hend Hks), app_nil_r in Ecs. subst now. exists mi', receiver', wire'. split; [exact E3|exact E4].
Defined.

(** ** What cannot be handled, written or read *)

Section errors.
Context {P A C : Type} `{PacketCoder C} `{HP : !MemoryBlockProvider P}.
Context (f : SneStreamFactory) {E : Type} `{HT : Transport f E}.
Context (method : nat → Z → Z → ∀ ts, denotes ts → st A unit) (on_message : Z → list value → st A unit).
#[local] Abbreviation impl := (SessionImpl P A).

(** A call that no receiver of the session answers to makes the marshaller
    refuse the message, so that the session is disconnected; no method is called. *)
Theorem unknown_method_is_refused (m : SgpMarshaller C) (s : impl) (rpcId : Z) (body rest : list Z)
  (Hs : receives_calls (f := f) s) (Hid : is_uint 32 rpcId)
  (Hr : responder (receivers_ (rpcNetwork_ s)) (receivers (rpcNetwork_ s)) rpcId = None)
  (Hwf : mb_wf (msgBlock_ m)) (Hb : mb_contents (msgBlock_ m) = body ++ rest)
  (Hok : tr_ok (f := f) (body ++ rest)) (Hbody : tr_of (f := f) body = enc_rpcId (E := E) rpcId) :
  ∃ b' s', try_callback (onMessageArrived method on_message) csmtRpc (m, s) = (Ok false, (set_msg b' m, s')) ∧
    world_equiv (rpcNetwork_ s) (rpcNetwork_ s') ∧ requests_ s' = requests_ s.
Proof.
  pose proof (unknown_arrives f method on_message (msgBlock_ m) s rpcId body rest Hs Hid Hr Hwf Hb Hok Hbody)
    as (b' & s' & E1 & Hw & Hreq).
  exists b', s'. unfold try_callback. cbn [fst snd]. by rewrite E1.
Qed.

(** A message or call that cannot be written (an exception of a stream or of a
    container) is not sent: its block goes back to its pool, and the session
    asks to be disconnected. *)
Theorem unwritable_message_is_dropped (to : st (AnyOStream MemoryBlock) unit) (s : impl) (b : block)
  (p1 p2 : P) (o1 o2 : AnyOStream MemoryBlock) (e : exn)
  (Ha : mp_acquireSendBlock (provider_ s) = (Ok b, p1)) (Ho : os_reset false (ostream_ s) = (Ok tt, o1))
  (Hto : (to ;; os_align) (set_obuffer (b_mem b) o1) = (Throw e, o2)) (He : is_core_exception e = true)
  (Hrel : mp_release (b_id b) p1 = (Ok tt, p2)) :
  session_serialize to s = (Ok None, request_more PDisconnect (set_ostream o2 (set_provider p2 s))).
Proof. by rewrite (session_serialize_fails to s b p1 o1 e o2), Hrel. Qed.
End errors.

(** The session of the witnesses, over byte streams. *)
Definition byte_receiver : SessionImpl SendBlocks (list told) :=
  set_rpc sample_world (newImpl (mkFactory false false) [RpcingExtension; MessagingExtension] [] sample_send_blocks 0).

Lemma unknown_method_is_refused_witness :
  ∃ b' s', try_callback (onMessageArrived (returning sample_act) (hearing sample_hear)) csmtRpc
      (set_msg (mkMB [1; 0; 0; 0; 9] 0 5) rpc_marshaller, byte_receiver) =
      (Ok false, (set_msg b' (set_msg (mkMB [1; 0; 0; 0; 9] 0 5) rpc_marshaller), s')) ∧
    world_equiv (rpcNetwork_ byte_receiver) (rpcNetwork_ s') ∧ requests_ s' = requests_ byte_receiver.
Proof.
  apply (unknown_method_is_refused (mkFactory false false) (HT := byte_transport false)
    (returning sample_act) (hearing sample_hear) (set_msg (mkMB [1; 0; 0; 0; 9] 0 5) rpc_marshaller)
    byte_receiver 1 [1; 0; 0; 0] [9]).
  - split; cbn; [done|apply elem_of_cons; by left|done|unfold receivers_alive; decide_it].
  - done.
  - by vm_compute.
  - split; vm_compute; lia.
  - done.
  - done.
  - by vm_compute.
Defined.

(** A call whose second parameter, a map counted in 8 bits, has 256 entries. *)
Definition too_big_command : RpcCommand :=
  mkCommand sample_rpcId [TNum PBool PBool 1; TMap PU8 PU8 8 (TNum PU8 PU8 8) 8]
    (1, ((λ i, (i, 0)) <$> seqZ 0 256, tt)).
Definition failed_sender : SessionImpl SendBlocks unit := (rpc_send too_big_command sample_sender).2.

Lemma unwritable_message_is_dropped_witness : ∃ p2 o2,
  session_serialize (command_marshal too_big_command) sample_sender =
    (Ok None, request_more PDisconnect (set_ostream o2 (set_provider p2 sample_sender))).
Proof.
  eexists _, _. eapply (unwritable_message_is_dropped (command_marshal too_big_command) sample_sender).
  - vm_compute. reflexivity.
  - reflexivity.
  - vm_compute. reflexivity.
  - reflexivity.
  - vm_compute. reflexivity.
Defined.

(** [OBitStream::reset] leaves the count of the bits pending in the last byte: a
    message that failed while it was written spoils the next one the session
    sends, whose first bits go into the reserved header.  Here a byte [v] goes
    out as [v / 128]. *)
Theorem failed_message_spoils_the_next (v : Z) (Hv : is_byte v) :
  requests_ failed_sender = [PDisconnect] ∧ ∃ b s,
    messaging_sendMessage 30 [VNum PU8 v] failed_sender = (Ok tt, s) ∧
    requests_ s = [PDisconnect; PSend b 30] ∧ drop 3 (mb_written (b_mem b)) = [v / 128].
Proof.
  split; [by vm_compute|].
  set (sends v := match messaging_sendMessage 30 [VNum PU8 v] failed_sender with
    | (Ok tt, s) =>
        match requests_ s with
        | [PDisconnect; PSend b 30] => bool_decide (drop 3 (mb_written (b_mem b)) = [v / 128])
        | _ => false
        end
    | _ => false
    end).
  assert (Hall : forallb sends (seqZ 0 256) = true) by by vm_compute.
  rewrite forallb_forall in Hall. assert (Hs : sends v = true).
  { apply Hall. apply list_elem_of_In, elem_of_seqZ. destruct Hv. lia. }
  clear Hall. unfold sends in Hs. destruct (messaging_sendMessage _ _ _) as [[[]|] s]; [|done].
  repeat (case_match; try done). eexists _, s. split_and!; [done|by f_equal|]. by apply bool_decide_eq_true in Hs.
Qed.

Lemma failed_message_spoils_the_next_witness : is_byte 200 ∧
  requests_ failed_sender = [PDisconnect] ∧ ∃ b s,
    messaging_sendMessage 30 [VNum PU8 200] failed_sender = (Ok tt, s) ∧
    requests_ s = [PDisconnect; PSend b 30] ∧ drop 3 (mb_written (b_mem b)) = [200 / 128].
Proof.
  assert (Hv : is_byte 200) by (split; done). split; [done|]. exact (failed_message_spoils_the_next 200 Hv).
Defined.

(** A message that cannot be read makes the messaging extension release the
    block it was received in, which the marshaller still holds: the pool is free
    to hand it to a sender. *)
Theorem unreadable_message_frees_the_received_block {A : Type} (on_message : Z → list value → st A unit)
  (f : SneStreamFactory) (s : SessionImpl SendBlocks A) (b : MemoryBlock) (mt : Z) (ys : list value)
  (e : exn) (i' : AnyIStream MemoryBlock)
  (Hi : istream_ready f (istream_ s)) (Hys : messageCallbackMap_ s !! mt = Some ys)
  (Hread : read_message ys (createIStream f b) = (Throw e, i')) (He : is_core_exception e = true)
  (Hpool : pool_inv (memoryBlockPool_ (sb_manager (provider_ s))))
  (Hact : recvBlockId_ s ∈ activeResources_ (memoryBlockPool_ (sb_manager (provider_ s))))
  (Hrel : recvBlockId_ s ∈ mbm_releaser (sb_manager (provider_ s))) :
  ∃ b' s', messaging_handleMessage on_message mt (b, s) = (Ok false, (b', s')) ∧
    requests_ s' = requests_ s ++ [PDisconnect] ∧ recvBlockId_ s' = recvBlockId_ s ∧
    recvBlockId_ s ∉ activeResources_ (memoryBlockPool_ (sb_manager (provider_ s'))) ∧
    recvBlockId_ s ∈ inactiveResources_ (memoryBlockPool_ (sb_manager (provider_ s'))).
Proof.
  destruct (messaging_handleMessage_fails on_message f s b mt ys e i' Hi Hys Hread He) as (b' & E1).
  eexists b', _. rewrite E1. cbn [mp_release sample_provider SendBlocks_provider].
  unfold zoom, releaseBlock. rewrite decide_True by done.
  split; [reflexivity|]. cbn.
  pose proof (pool_inv_nodup _ Hpool) as Hnd.
  destruct (release_active _ _ Hpool Hact) as (_ & Hperm & Hin). split_and!; [done|done| |].
  - apply NoDup_app in Hnd as [Hnd _]. rewrite <- Hperm in Hnd. by apply NoDup_cons in Hnd as [? _].
  - rewrite Hin. apply elem_of_app. right. by apply list_elem_of_singleton.
Qed.

(** A session whose marshaller receives in the first block of the pool. *)
Definition receiving_blocks : SendBlocks :=
  (zoom sb_manager set_manager (acquireBlock next_address) sample_send_blocks).2.
Definition holding_receiver : SessionImpl SendBlocks (list told) :=
  registerMessageCallback 30 [VNum PU32 0]
    (newImpl (mkFactory false true) [RpcingExtension; MessagingExtension] [] receiving_blocks 16).

Lemma unreadable_message_frees_the_received_block_witness :
  ∃ b' s', messaging_handleMessage (hearing sample_hear) 30 (mkMB [7] 0 1, holding_receiver) = (Ok false, (b', s')) ∧
    requests_ s' = requests_ holding_receiver ++ [PDisconnect] ∧ recvBlockId_ s' = recvBlockId_ holding_receiver ∧
    recvBlockId_ holding_receiver ∉ activeResources_ (memoryBlockPool_ (sb_manager (provider_ s'))) ∧
    recvBlockId_ holding_receiver ∈ inactiveResources_ (memoryBlockPool_ (sb_manager (provider_ s'))).
Proof.
  eapply (unreadable_message_frees_the_received_block (hearing sample_hear) (mkFactory false true)
    holding_receiver (mkMB [7] 0 1) 30 [VNum PU32 0]).
  - done.
  - by vm_compute.
  - vm_compute. reflexivity.
  - reflexivity.
  - assert (Hp : pool_inv (memoryBlockPool_ (sb_manager sample_send_blocks))) by apply sample_send_blocks_ok.
    assert (Ea : acquire next_address (memoryBlockPool_ (sb_manager sample_send_blocks)) =
      (Ok (Some 16), memoryBlockPool_ (sb_manager receiving_blocks))) by by vm_compute.
    exact (proj1 (acquire_some next_address next_address_fresh _ _ _ Hp Ea)).
  - vm_compute. by left.
  - vm_compute. done.
Defined.
