(* ===== verification/ExchangeProperties.v ===== *)
(** * The exchange of cipher seeds: the theorems

    For any coder with the contract of [SeedExchangeSpec.v] and either kind of
    streams: the ends stay in step and the exchange comes to its end when messages
    are marshalled before [sendMessage] returns, or when keys are not changed; as
    [TcpSessionImpl] marshals them, later, the first exchange fails.  The witnesses
    use [SecurePacketCoder] with dynamic keys over a small cipher. *)

From S2P Require Import Prelude BitList StreamBuffer MemoryBlock Stream Streamable FactoryStreams.
From S2P Require Import ByteStream Packet SecurePacket SecurePacketSpec MarshallerSafety SessionLayer SeedExchange SeedExchangeSpec RsaCipher.

(** ** Concrete parts for the witnesses *)

Definition toy_encrypt (k b : list Z) : list Z := Z.lxor (foldr Z.add 0 k) <$> b.
Definition toy_rand (g : Z) : Z * Z := let g := uint 16 (g * 25173 + 13849) in (g, g).
Definition toy_seed (k : Z) : Z := k.
Definition toy_crc (l : list Z) : Z := foldr Z.add 0 l.
Definition toy_rsa_encrypt (k s : list Z) : option (list Z) := Some (k ++ s).
Definition toy_rsa_decrypt (k x : list Z) : option (list Z) := Some (drop (length k) x).

Lemma toy_rsa_pair k : k ≠ [] → Forall is_byte k → (length k ≤ 64)%nat →
  rsa_pair toy_rsa_encrypt toy_rsa_decrypt (k, k).
Proof.
  intros Hk Hb Hl. split; cbn [fst snd]; [split; [done|lia]|]. intros s (Hs & Hsl & Hsb).
  exists (k ++ s). split_and!; [done|by destruct k| |].
  - split; [by apply Forall_app|]. rewrite length_app. lia.
  - unfold toy_rsa_decrypt. by rewrite drop_app_length.
Qed.

#[local] Abbreviation coder := (SecurePacketCoder (R := Z)).
#[local] Instance toy_coder : PacketCoder coder :=
  SecurePacketCoder_coder 4 16 toy_encrypt toy_encrypt toy_crc toy_seed toy_rand.
#[local] Instance toy_seeds : SeedCoder coder := SecurePacketCoder_seeds toy_seed toy_rand.

Lemma toy_lengths k b : length b = 4%nat → length (toy_encrypt k b) = 4%nat.
Proof. unfold toy_encrypt. by rewrite length_fmap. Qed.
Lemma toy_inverse k b : length b = 4%nat → toy_encrypt k (toy_encrypt k b) = b.
Proof.
  intros _. unfold toy_encrypt. rewrite <- list_fmap_compose. rewrite <- (list_fmap_id b) at 2.
  apply list_fmap_ext. intros i x _. cbn. by rewrite <- Z.lxor_assoc, Z.lxor_nilpotent, Z.lxor_0_l.
Qed.
Lemma toy_range g : - 2 ^ 31 ≤ (toy_rand g).1 < 2 ^ 31.
Proof.
  pose proof (uint_range 16 (g * 25173 + 13849) ltac:(lia)) as H. unfold is_uint in H. cbn [toy_rand fst].
  change (2 ^ 16) with 65536 in H. change (2 ^ 31) with 2147483648. lia.
Qed.

#[local] Instance toy_spec : SeedCoderSpec coder :=
  SecurePacketCoder_seedspec 4 16 toy_encrypt toy_encrypt toy_crc toy_seed toy_rand
    ltac:(lia) ltac:(apply Nat2Z.inj_le; vm_compute; discriminate) toy_lengths toy_lengths toy_inverse toy_range.

(** A coder with dynamic keys that are changed every second, if [period] is 1000. *)
Definition toy_secure (period : Z) : coder :=
  newSecure 16 toy_seed true period [] [] 0 0.

Lemma toy_paired period : paired true (0 <? period) (toy_secure period) (toy_secure period).
Proof. by split. Qed.

#[local] Abbreviation toy_run := (exchange_run (mkFactory false true) toy_rsa_encrypt toy_rsa_decrypt).
Definition server_key : list Z := [11; 12; 13].
Definition client_key : list Z := [21; 22].
Definition toy_start (at_once : bool) (period : Z) : Exchange (C := coder) :=
  connect_ends (mkFactory false true) at_once (Some (server_key, server_key)) (Some (client_key, client_key))
    (toy_secure period) (toy_secure period).


(** ** The properties *)

Section properties.
Context {C : Type} `{HC : SeedCoderSpec C}.
Context {f : SneStreamFactory} {E : Type} `{HT : Transport f E}.
Context (rsa_encrypt rsa_decrypt : list Z → list Z → option (list Z)).

#[local] Abbreviation run := (exchange_run f rsa_encrypt rsa_decrypt).



(** [TcpSessionImpl::sendMessage] marshals a message later, in a closure: the
    server's seeds are sealed with the key they lead to.  The client, unless the
    fingerprints of the two keys happen to be the same, refuses them: the connection
    ends and the seeds are not exchanged. *)
Theorem posted_exchange_fails (serverKeys clientKeys : list Z * list Z) (cs cc : C) (clock : Z)
  (Hrsa : rsa_pair rsa_encrypt rsa_decrypt clientKeys) (Hkey : short_string serverKeys.1)
  (Hpaired : paired true true cs cc)
  (Hprint : ∀ c, sk_print (sk_seed (sk_generate clock c).1 (sk_enc cs)) ≠ sk_print (sk_dec cc)) :
  ∃ s, run false [ClientRuns; ServerReads clock; ServerRuns; ClientReads]
    (connect_ends f false (Some serverKeys) (Some clientKeys) cs cc) = Some s ∧
  peer_connected (client s) = false ∧ exchanged (client s) = 0%nat ∧ exchanged (server s) = 0%nat.
Proof. by apply posted_handshake. Qed.
End properties.

Lemma client_pair : rsa_pair toy_rsa_encrypt toy_rsa_decrypt (client_key, client_key).
Proof. apply toy_rsa_pair; [done|by repeat constructor|cbn; lia]. Qed.
Lemma server_short : short_string server_key.
Proof. split; [by repeat constructor|cbn; lia]. Qed.




Lemma toy_prints c : sk_print (sk_seed (sk_generate 77 c).1 (sk_enc (toy_secure 1000))) ≠
  sk_print (sk_dec (toy_secure 1000)).
Proof. vm_compute. discriminate. Qed.

Lemma posted_exchange_fails_witness :
  ∃ s, toy_run false [ClientRuns; ServerReads 77; ServerRuns; ClientReads] (toy_start false 1000) = Some s ∧
  peer_connected (client s) = false ∧ exchanged (client s) = 0%nat ∧ exchanged (server s) = 0%nat.
Proof.
  exact (posted_exchange_fails (HT := bit_transport false) toy_rsa_encrypt toy_rsa_decrypt (server_key, server_key) (client_key, client_key)
    (toy_secure 1000) (toy_secure 1000) 77 client_pair server_short (toy_paired 1000) toy_prints).
Defined.

(** ** The RSA cipher *)

Section rsa.
Context {Pool PublicKey PrivateKey : Type} `{HC : CryptoPPSpec Pool PublicKey PrivateKey}.

(** C34: A cipher that made its own keys, as the sessions do, opens what any other cipher
    seals with its public key: a message of 1 to 22 bytes, and so every seed, comes back
    the same, in 64 bytes on the way, and neither cipher leaves its output buffer.  So
    the keys of a session are a pair as the exchange of seeds needs it. *)
Theorem seeds_are_sealed buffer seed (c sender : RsaCipher Pool) m :
  length buffer = maxBufferLength → newRsaCipher buffer defaultPrivateKeyLength seed = Some c → cipher_wf sender →
  m ≠ [] → (length m ≤ 22)%nat → Forall is_byte m → ∃ x sender' c',
  encrypt_string m (getPublicKey c) sender = (Ok (true, x), sender') ∧ cipher_wf sender' ∧ length x = 64%nat ∧
  decrypt_string x c = (Ok (true, m), c') ∧ cipher_wf c' ∧
  rsa_pair (seal_with sender) (open_with c) (getPublicKey c, getPrivateKey c).
Proof.
  intros Hb Hn Hs Hne Hl Hm. pose proof (generated_pair buffer seed c sender Hb Hs Hn) as Hpair.
  destruct (new_cipher_opens buffer seed c sender m Hb Hn Hs Hne Hl Hm) as (x & s' & c' & H1 & H2 & H3 & H4 & H5 & _).
  by exists x, s', c'.
Qed.

(** C39: The server seals its seeds with the public key that the client sent.  When the
    modulus of that key is longer than the 128 bytes of the output buffer, which nothing
    checks in a release build, [encrypt] writes beyond it, whatever the seed. *)
Theorem large_public_key_overflows (c : RsaCipher Pool) key k seed :
  BERDecode_public key = Some k → seed_ok seed → (length seed ≤ FixedMaxPlaintextLength k)%nat →
  (maxBufferLength < FixedCiphertextLength k)%nat →
  (encrypt_string seed key c).1 = Throw (Undefined "a write beyond outputBuffer_").
Proof. intros Hk (_ & _ & Hb) Hl. by apply (encrypt_overflows c key k). Qed.
End rsa.

(** A scheme whose keys are lengths, in unary. *)
Fixpoint toy_unpad (l : list Z) : decoding :=
  match l with [] => Decoded [] | 0 :: l => toy_unpad l | 1 :: m => Decoded m | _ => InvalidCoding end.
Definition toy_length (k : nat) : nat := ((k + 7) / 8)%nat.
Definition toy_pad (k : nat) (m : list Z) : list Z :=
  if decide (toy_length k = 0)%nat then [] else replicate (toy_length k - 1 - length m) 0 ++ 1 :: m.
#[local] Instance toy_cryptopp : CryptoPP nat nat nat := {|
  newRandomPool := 0%nat;
  IncorporateEntropy s p := (length s + p)%nat;
  generate_key n p := Some (n, S p);
  public_of k := k;
  DEREncode_private k := replicate k 1;
  DEREncode_public k := replicate k 1;
  BERDecode_private l := Some (length l);
  BERDecode_public l := Some (length l);
  FixedCiphertextLength := toy_length;
  FixedMaxPlaintextLength k := ((k - 1) / 8 - 41)%nat;
  oaep_Encrypt k m p := (if decide (length m ≤ (k - 1) / 8 - 41)%nat then Some (toy_pad k m) else None, S p);
  oaep_Decrypt k x p := (if decide (length x = toy_length k) then toy_unpad x else InvalidCoding, S p);
  SignatureLength := toy_length;
  pkcs_Sign k m p := (Some (replicate (toy_length k) 0), S p);
  pkcs_Verify k m s := true;
|}.

Lemma toy_unpad_pad k m : (length m ≤ (k - 1) / 8 - 41)%nat → toy_unpad (toy_pad k m) = Decoded m.
Proof.
  intros Hm. unfold toy_pad. case_decide as Hk.
  - assert (k = 0)%nat as -> by (unfold toy_length in Hk; lia). destruct m; [done|cbn in Hm; lia].
  - by induction (toy_length k - 1 - length m)%nat.
Qed.
Lemma toy_unpad_length x m : toy_unpad x = Decoded m → (length m ≤ length x)%nat.
Proof.
  induction x as [|b x IH]; cbn; [by intros [= <-]|]. destruct b as [|[]|]; try done; [intros H; specialize (IH H); lia|intros [= <-]; lia].
Qed.
Lemma toy_pad_length k m : (length m ≤ (k - 1) / 8 - 41)%nat → length (toy_pad k m) = toy_length k.
Proof.
  intros Hm. unfold toy_pad. case_decide as Hk; [done|]. rewrite length_app, length_replicate, length_cons.
  assert ((k - 1) / 8 ≤ (k + 7) / 8)%nat by (apply Nat.Div0.div_le_mono; lia). unfold toy_length in *. lia.
Qed.

#[local] Instance toy_cryptopp_spec : CryptoPPSpec nat nat nat.
Proof.
  split.
  - intros k. cbn. by rewrite length_replicate.
  - intros k. cbn. by rewrite length_replicate.
  - by intros n p k p' [= <- <-].
  - intros n p k p' [= <- <-] Hn. cbn. rewrite length_replicate. split; [by apply Forall_replicate|done].
  - intros k m p Hm Hb. cbn in *. rewrite decide_True by done. do 2 eexists. split; [done|].
    unfold toy_pad. case_decide; [done|]. apply Forall_app. split; [by apply Forall_replicate|by constructor].
  - intros k m p x p'. cbn. case_decide; [|done]. intros [= <- <-]. by apply toy_pad_length.
  - intros k m p x p' q. cbn. case_decide as Hm; [|done]. intros [= <- <-]. rewrite decide_True by (by apply toy_pad_length).
    by apply toy_unpad_pad.
  - intros k x p m p'. cbn. case_decide as Hx; [|done]. intros [= Hu <-]. apply toy_unpad_length in Hu. lia.
Qed.

Definition fresh_buffer : list Z := replicate maxBufferLength 0.
Definition toy_cipher : RsaCipher nat := default (newRsaCipher_keys fresh_buffer [] [] []) (newRsaCipher fresh_buffer defaultPrivateKeyLength [7; 7]).

Example seeds_are_sealed_witness : ∃ x s' c',
  encrypt_string [1; 2; 3; 4] (getPublicKey toy_cipher) toy_cipher = (Ok (true, x), s') ∧
  decrypt_string x toy_cipher = (Ok (true, [1; 2; 3; 4]), c') ∧
  rsa_pair (seal_with toy_cipher) (open_with toy_cipher) (getPublicKey toy_cipher, getPrivateKey toy_cipher).
Proof.
  destruct (seeds_are_sealed fresh_buffer [7; 7] toy_cipher toy_cipher [1; 2; 3; 4] ltac:(reflexivity) ltac:(vm_compute; reflexivity)
    ltac:(vm_compute; reflexivity) ltac:(done) ltac:(cbn; lia) ltac:(refine (bool_decide_unpack _ _); vm_compute; exact I))
    as (x & s' & c' & H1 & _ & _ & H2 & _ & H3).
  exists x, s', c'. split; [exact H1|]. split; [exact H2|exact H3].
Defined.

(** A key of 2048 bits. *)
Example large_public_key_overflows_witness :
  (encrypt_string [1; 2; 3; 4] (replicate 2048 1) toy_cipher).1 = Throw (Undefined "a write beyond outputBuffer_").
Proof.
  apply (large_public_key_overflows toy_cipher (replicate 2048 1) 2048%nat [1; 2; 3; 4]);
    [reflexivity| |apply leb_complete; vm_compute; reflexivity|apply leb_complete; vm_compute; reflexivity].
  split; [done|]. split; [cbn; lia|]. refine (bool_decide_unpack _ _). vm_compute. exact I.
Defined.
