(* ===== verification/HeartbeatProperties.v ===== *)
(** * The properties of timers, heartbeats and sessions

    The theorems on the machines of [Heartbeat.v] and [ServerSession.v], each with a
    witness where it has hypotheses. *)

From S2P Require Import Prelude Timers Heartbeat ServerSession ServerSessionSpec.

(** C12: As long as heartbeats are sent every [interval], the timers and the closures
    are at most [latency] late, and messages take at most [delay], the receiver of the
    other end never asks its session to disconnect, whatever else is sent and however
    the timers, closures and messages interleave: its timeout must cover two intervals
    and what may be late. *)
Theorem heartbeats_keep_the_session latency delay interval timeout now es t s :
  0 ≤ latency → 0 ≤ delay → 0 < interval → 2 * interval + 2 * latency + delay ≤ timeout < 2 ^ 32 →
  @timed_run _ _ _ (HeartbeatLink_timed latency delay) latency es (now, newLink now interval timeout) = Some (t, s) →
  lk_asked s = [] ∧ getElapsedTime t (lastHeartbeatedTime_ (lk_receiver s)) < timeout.
Proof.
  intros Hl Hd Hi Ht Hrun.
  assert (Hinv : link_inv latency delay interval timeout (t, s)).
  { eapply (timed_run_inv (H := HeartbeatLink_timed latency delay) latency _ (λ _, True)).
    - intros e x y _ Hx. by apply (link_step latency delay interval timeout).
    - by apply Forall_true.
    - by apply newLink_inv.
    - exact Hrun. }
  split; [apply (li_asked _ _ _ _ _ Hinv)|].
  pose proof (link_elapsed _ _ _ _ Hl Hd Ht _ Hinv) as He. cbn [fst snd] in He. rewrite getElapsedTime_id; lia.
Qed.

(** Two intervals of 10 s, a closure 5 ms late and a message that takes 100 ms. *)
Example heartbeats_keep_the_session_witness :
  ∃ t s, @timed_run _ _ _ (HeartbeatLink_timed 50 200) 50
    [Passes 10000; Expires SenderTimer; Runs SenderTimer; Passes 5; Calls HeartbeatSent; Passes 100;
     Calls MessageArrives; Passes 9895; Expires SenderTimer; Runs SenderTimer; Passes 10000; Expires SenderTimer;
     Expires ReceiverTimer; Runs SenderTimer; Runs ReceiverTimer] (0, newLink 0 10000 30000) = Some (t, s) ∧
  t = 30000 ∧ lk_asked s = [].
Proof.
  eexists _, _. split; [vm_compute; reflexivity|]. split; [reflexivity|].
  eapply (heartbeats_keep_the_session 50 200 10000 30000 0
    [Passes 10000; Expires SenderTimer; Runs SenderTimer; Passes 5; Calls HeartbeatSent; Passes 100;
     Calls MessageArrives; Passes 9895; Expires SenderTimer; Runs SenderTimer; Passes 10000; Expires SenderTimer;
     Expires ReceiverTimer; Runs SenderTimer; Runs ReceiverTimer] 30000); [lia..|vm_compute; reflexivity].
Defined.

(** C13: An authenticated server-side session that asks for nothing has heard a message
    less than two timeouts ago: a silent client is disconnected, and until then the
    timers keep the machine moving. *)
Theorem silent_client_is_disconnected latency timeout now s r es t s' :
  0 ≤ latency → 0 < timeout → 2 * timeout + latency < 2 ^ 32 →
  ss_connected s = true → heartBeatReceiver_ s = Some r → validHeartbeatInterval_ r = timeout →
  idle (receiverTimer_ r) → Forall keeps_receiver es →
  timed_run latency es (now, authenticated now s) = Some (t, s') →
  (AskDisconnect ∈ ss_asked s' ∨
   ∃ r', heartBeatReceiver_ s' = Some r' ∧ t < lastHeartbeatedTime_ r' + 2 * timeout + latency) ∧
  ∃ e y, by_itself e ∧ timed_exec latency e (t, s') = Some y.
Proof.
  intros Hlat Ht Hb Hc Hr Hv Hidle Hes Hrun. split; [|by apply machine_moves].
  assert (Hinv : hears latency timeout (t, s')).
  { eapply (timed_run_inv latency (hears latency timeout) keeps_receiver); [|exact Hes| |exact Hrun].
    - intros e x y He Hx. by apply (hears_step latency timeout e x y).
    - split; [done|right]. cbn. rewrite Hr. cbn. eexists. split; [done|].
      unfold setupTimer. rewrite Hv, (proj2 (Z.leb_gt _ _)) by done. cbn.
      destruct (repeat_idle now timeout (receiverTimer_ r) Hidle) as [H1 H2].
      split_and!; try done; lia. }
  destruct Hinv as [_ [Ha|(r' & Hr' & _ & _ & H1 & _ & H3)]]; [by left|right].
  exists r'. split; [done|]. cbn in H3. lia.
Qed.

(** A client that says nothing after it was authenticated at 3 s. *)
Example silent_client_is_disconnected_witness :
  ∃ s s', timed_run 50 [Calls (Connected 0 false); Passes 3000] (0, newServerSide 5000 30000) = Some (3000, s) ∧
  timed_run 50 [Passes 1; Runs AuthenticationTimer; Passes 10000; Expires HeartbeaterTimer; Runs HeartbeaterTimer;
    Passes 10000; Expires HeartbeaterTimer; Runs HeartbeaterTimer; Passes 10000;
    Expires HeartbeaterTimer; Runs HeartbeaterTimer; Expires HeartbeatReceiverTimer; Runs HeartbeatReceiverTimer]
    (3000, authenticated 3000 s) = Some (33001, s') ∧
  AskDisconnect ∈ ss_asked s'.
Proof.
  eexists _, _. split; [vm_compute; reflexivity|]. split; [vm_compute; reflexivity|].
  match goal with |- _ ∈ ss_asked ?s' => set (z := s') end.
  destruct (silent_client_is_disconnected 50 30000 3000 (mkServerSide 5000 30000 (Some (newHeartBeatReceiver 30000))
    (Some (newHeartbeater 10000)) (mkTimer true 5000 (Some OnceWait) []) 1 true true [])
    (newHeartBeatReceiver 30000) [Passes 1; Runs AuthenticationTimer; Passes 10000; Expires HeartbeaterTimer; Runs HeartbeaterTimer;
    Passes 10000; Expires HeartbeaterTimer; Runs HeartbeaterTimer; Passes 10000;
    Expires HeartbeaterTimer; Runs HeartbeaterTimer; Expires HeartbeatReceiverTimer; Runs HeartbeatReceiverTimer]
    33001 z) as [[Ha|(r' & Hr' & Hlt)] _]; [lia..|reflexivity|reflexivity|reflexivity|done| | | |].
  - repeat constructor.
  - vm_compute. reflexivity.
  - exact Ha.
  - refine (bool_decide_unpack _ _). vm_compute. exact I.
Defined.

(** A client that connects and is not authenticated within the timeout is asked to
    leave: later than the timeout and the latency the session has asked for a graceful
    disconnection, whatever messages arrive and whatever the other timers do. *)
Theorem unauthenticated_client_is_disconnected latency A H now g hasCipher es t s' :
  0 ≤ latency → 0 < A → Forall keeps_authentication es →
  timed_run latency (Calls (Connected g hasCipher) :: es) (now, newServerSide A H) = Some (t, s') →
  (now + A + latency < t → AskDisconnectGracefully ∈ ss_asked s') ∧
  ∃ e y, by_itself e ∧ timed_exec latency e (t, s') = Some y.
Proof.
  intros Hl HA Hes Hrun. split; [|by apply machine_moves]. intros Hlt.
  cbn [timed_run timed_exec] in Hrun. cbn [ob_call ServerSideSession_timed ss_do ss_connected newServerSide mbind option_bind] in Hrun.
  assert (Hinv : awaits_authentication latency (now + A) (t, s')).
  { eapply (timed_run_inv latency (awaits_authentication latency (now + A)) keeps_authentication); [|exact Hes| |exact Hrun].
    - intros e x y. apply awaits_authentication_step.
    - right. cbn [fst snd]. unfold ss_onConnected, setupAuthenticationTimer.
      destruct (once_idle now A createTimer createTimer_idle) as [H1 H2].
      destruct hasCipher; cbn; rewrite (proj2 (Z.ltb_lt _ _)) by done; cbn; split_and!; try done; lia. }
  destruct Hinv as [Ha|(_ & _ & _ & Hle)]; [done|]. cbn in Hle. lia.
Qed.

(** A client that sends messages but no credentials, with a timeout of 5 s. *)
Example unauthenticated_client_is_disconnected_witness :
  ∃ s', timed_run 50 [Calls (Connected 0 false); Passes 2500; Calls (MessageArrived true); Passes 2501;
    Expires AuthenticationTimer; Runs AuthenticationTimer; Passes 100] (0, newServerSide 5000 30000) = Some (5101, s') ∧
  AskDisconnectGracefully ∈ ss_asked s'.
Proof.
  eexists. split; [vm_compute; reflexivity|].
  eapply (unauthenticated_client_is_disconnected 50 5000 30000 0 0 false [Passes 2500; Calls (MessageArrived true); Passes 2501;
    Expires AuthenticationTimer; Runs AuthenticationTimer; Passes 100] 5101);
    [lia|lia|repeat constructor|vm_compute; reflexivity|lia].
Defined.

(** [extendAuthenticationTimeout] called while the authentication timer waits
    disables it: the handler of the wait it aborts runs before that of the new wait,
    and marks the timer as stopped.  The session never asks to be disconnected for want
    of authentication again, however long it lives. *)
Theorem extended_authentication_never_ends latency now s w es t s' :
  ss_connected s = true → 0 < authenticationTimeout_ s →
  tm_wait (authenticationTimer_ s) = Some w → tm_queue (authenticationTimer_ s) = [] →
  Forall sets_no_authentication es →
  timed_run latency (Calls ExtendAuthentication :: es) (now, s) = Some (t, s') →
  ∃ l, ss_asked s' = ss_asked s ++ l ∧ AskDisconnectGracefully ∉ l.
Proof.
  intros Hc HA Hw Hq Hes Hrun.
  cbn [timed_run timed_exec] in Hrun. cbn [ob_call ServerSideSession_timed ss_do] in Hrun. rewrite Hc in Hrun.
  cbn [mbind option_bind] in Hrun.
  assert (Hinv : no_authentication (ss_asked s) (t, s')).
  { eapply (timed_run_inv latency (no_authentication (ss_asked s)) sets_no_authentication); [|exact Hes| |exact Hrun].
    - intros e x y. apply no_authentication_step.
    - unfold extendAuthenticationTimeout, setupAuthenticationTimer. cbn.
      rewrite (proj2 (Z.ltb_lt _ _)) by done. split; cbn.
      + by apply (once_dead now (authenticationTimeout_ s) w).
      + exists []. rewrite app_nil_r. split; [done|apply not_elem_of_nil]. }
  exact (proj2 Hinv).
Qed.

(** Extended after 1 s; an hour later nothing has happened. *)
Example extended_authentication_never_ends_witness :
  ∃ s s' l, timed_run 50 [Calls (Connected 0 false); Passes 1000] (0, newServerSide 5000 30000) = Some (1000, s) ∧
  timed_run 50 [Calls ExtendAuthentication; Runs AuthenticationTimer; Passes 5000; Expires AuthenticationTimer;
    Runs AuthenticationTimer; Passes 3600000] (1000, s) = Some (3606000, s') ∧
  ss_asked s' = ss_asked s ++ l ∧ AskDisconnectGracefully ∉ l.
Proof.
  exists (mkServerSide 5000 30000 (Some (newHeartBeatReceiver 30000)) (Some (newHeartbeater 10000))
    (mkTimer true 5000 (Some OnceWait) []) 1 true true []).
  eexists _, []. split; [vm_compute; reflexivity|]. split; [vm_compute; reflexivity|].
  destruct (extended_authentication_never_ends 50 1000 (mkServerSide 5000 30000 (Some (newHeartBeatReceiver 30000))
    (Some (newHeartbeater 10000)) (mkTimer true 5000 (Some OnceWait) []) 1 true true []) OnceWait
    [Runs AuthenticationTimer; Passes 5000; Expires AuthenticationTimer;
    Runs AuthenticationTimer; Passes 3600000] 3606000 (mkServerSide 5000 30000 (Some (newHeartBeatReceiver 30000))
    (Some (newHeartbeater 10000)) (mkTimer false 6000 None []) 1 true true [])) as (l & El & Hl);
    [reflexivity|reflexivity|reflexivity|reflexivity|repeat constructor|vm_compute; reflexivity|].
  cbn in El. subst l. split; [reflexivity|exact Hl].
Defined.

(** A [ClientSideSession] whose seeds are exchanged again, which happens at every
    change of keys, sends no more heartbeats: [start] sets the timer while it waits,
    and the handler of the aborted wait stops it. *)
Theorem rekeyed_session_stops_heartbeats latency now s timer w es t s' :
  cs_connected s = true → heartbeaterTimer_ (cs_heartbeater s) = Some timer → 0 < heartbeatInterval_ (cs_heartbeater s) →
  tm_wait timer = Some w → tm_queue timer = [] → Forall starts_no_heartbeater es →
  timed_run latency (Calls CsSeedExchanged :: es) (now, s) = Some (t, s') →
  ∃ l, cs_asked s' = cs_asked s ++ TellValidated :: l ∧ AskHeartbeat ∉ l.
Proof.
  intros Hc Ht Hi Hw Hq Hes Hrun.
  cbn [timed_run timed_exec] in Hrun. cbn [ob_call ClientSideSession_timed cs_do] in Hrun. rewrite Hc in Hrun.
  cbn [mbind option_bind] in Hrun.
  assert (Hinv : no_heartbeats (cs_asked s ++ [TellValidated]) (t, s')).
  { eapply (timed_run_inv latency (no_heartbeats (cs_asked s ++ [TellValidated])) starts_no_heartbeater);
      [|exact Hes| |exact Hrun].
    - intros e x y. apply no_heartbeats_step.
    - split; cbn.
      + unfold start. rewrite Ht. cbn. rewrite (proj2 (Z.ltb_lt _ _)) by done.
        by apply (repeat_dead now (heartbeatInterval_ (cs_heartbeater s)) w).
      + exists []. rewrite app_nil_r. split; [done|apply not_elem_of_nil]. }
  destruct Hinv as [_ (l & Hl & Hn)]. exists l. cbn in Hl. by rewrite Hl, <- app_assoc.
Qed.

(** Heartbeats every 10 s until the second exchange of seeds at 25 s. *)
Example rekeyed_session_stops_heartbeats_witness :
  ∃ s s' l, timed_run 50 [Calls (CsConnected true); Calls CsSeedExchanged; Passes 10000; Expires SenderTimer; Runs SenderTimer;
    Passes 5000] (0, newClientSide 10000) = Some (15000, s) ∧ cs_asked s = [TellValidated; AskHeartbeat] ∧
  timed_run 50 [Calls CsSeedExchanged; Runs SenderTimer; Passes 10000; Expires SenderTimer;
    Runs SenderTimer; Passes 5000] (15000, s) = Some (30000, s') ∧
  cs_asked s' = cs_asked s ++ TellValidated :: l ∧ AskHeartbeat ∉ l.
Proof.
  eexists _, _, []. split; [vm_compute; reflexivity|]. split; [reflexivity|]. split; [vm_compute; reflexivity|].
  match goal with |- cs_asked ?y = cs_asked ?x ++ _ ∧ _ =>
    destruct (rekeyed_session_stops_heartbeats 50 15000 x (mkTimer true 20000 (Some (RepeatWait 10000)) [])
      (RepeatWait 10000) [Runs SenderTimer; Passes 10000; Expires SenderTimer; Runs SenderTimer; Passes 5000]
      30000 y) as (l & El & Hl) end;
    [reflexivity|reflexivity|reflexivity|reflexivity|reflexivity|repeat constructor|vm_compute; reflexivity|].
  cbn in El. injection El as <-. split; [reflexivity|exact Hl].
Defined.

(** A [ClientSideSession] never tells its receiver that a message arrived: it asks
    to be disconnected at most three intervals and the latency after its connection,
    however many messages arrive. *)
Theorem client_side_session_dies latency interval now hasCipher es t s' :
  0 ≤ latency → 0 < interval → interval * 3 + latency < 2 ^ 32 → Forall (λ e, e ≠ Calls CsDisconnected) es →
  timed_run latency (Calls (CsConnected hasCipher) :: es) (now, newClientSide interval) = Some (t, s') →
  now + interval * 3 + latency < t → AskDisconnect ∈ cs_asked s'.
Proof.
  intros Hl Hi Hb Hes Hrun Hlt.
  cbn [timed_run timed_exec] in Hrun. cbn [ob_call ClientSideSession_timed cs_do cs_connected newClientSide mbind option_bind] in Hrun.
  assert (Hinv : deaf latency now (interval * 3) (t, s')).
  { eapply (timed_run_inv latency (deaf latency now (interval * 3)) (λ e, e ≠ Calls CsDisconnected)); [|exact Hes| |exact Hrun].
    - intros e x y He Hx. apply deaf_step; [lia|lia|done|done].
    - apply (connected_deaf latency now interval hasCipher); [lia..|done]. }
  destruct Hinv as [_ [Ha|(_ & _ & _ & He & Hle & _)]]; [done|]. cbn [fst snd] in *. lia.
Qed.

(** A message every 10 s does not help. *)
Example client_side_session_dies_witness :
  ∃ s', timed_run 50 [Calls (CsConnected true); Passes 1000; Calls (CsMessageArrived true); Passes 1000;
    Calls (CsMessageArrived true); Passes 1000; Expires ReceiverTimer; Runs ReceiverTimer; Runs ReceiverTimer; Passes 100]
    (0, newClientSide 1000) = Some (3100, s') ∧ AskDisconnect ∈ cs_asked s'.
Proof.
  eexists. split; [vm_compute; reflexivity|].
  eapply (client_side_session_dies 50 1000 0 true [Passes 1000; Calls (CsMessageArrived true); Passes 1000;
    Calls (CsMessageArrived true); Passes 1000; Expires ReceiverTimer; Runs ReceiverTimer; Runs ReceiverTimer; Passes 100] 3100);
    [lia..| |vm_compute; reflexivity|lia].
  repeat (apply Forall_cons; split; [discriminate|]). apply Forall_nil. exact I.
Defined.

(** A [ClientSession] to a server without a cipher is validated as soon as it is
    connected, but its heartbeater is stopped by the same [onConnected]; and without a
    [ClientSessionCallback] it uses a null pointer. *)
Theorem plain_client_sends_no_heartbeats now s s' ok :
  0 < heartbeatInterval_ (cl_heartbeater s) → cl_onConnected now false s = (ok, s') →
  if callback_ s then
    ok = Ok true ∧ cl_told s' = cl_told s ++ [TellValidated] ∧ packetSeedExchanged_ s' = true ∧
    ∃ t, heartbeaterTimer_ (cl_heartbeater s') = Some t ∧ tm_running t = false ∧ tm_wait t = None
  else ok = Throw (Undefined "a null callback").
Proof.
  unfold cl_onConnected, cl_seedExchanged. destruct s as [cb ex h told]. cbn. intros Hi. destruct cb; cbn; intros [= <- <-]; [|done].
  split_and!; try done. unfold stop, start, on_heartbeaterTimer. cbn.
  rewrite (proj2 (Z.ltb_lt _ _)) by done. eexists. split; [done|]. split; [done|].
  unfold timer_cancel, abort_wait; cbn; repeat case_match; cbn; try done.
Qed.

Example plain_client_sends_no_heartbeats_witness :
  ∃ s', cl_onConnected 7 false (newClientSession true 10000) = (Ok true, s') ∧
  ∃ t, heartbeaterTimer_ (cl_heartbeater s') = Some t ∧ tm_running t = false ∧ tm_wait t = None.
Proof.
  eexists. split; [reflexivity|].
  apply (plain_client_sends_no_heartbeats 7 (newClientSession true 10000) _ (Ok true) ltac:(cbn; lia) eq_refl).
Defined.
