(* ===== verification/DatabaseProperties.v ===== *)
(** * The properties of the database proxy

    The theorems on [DatabaseRequest.v], [DatabasePool.v], [ProxyScheduler.v] and
    [DatabaseProxyServer.v], each with a witness where it has hypotheses. *)

From S2P Require Import Prelude BitList Bits Unicode Stream StreamBuffer VectorStreamBuffer BitStream BitStreamSpec RpcTypes.
From S2P Require Import ReadSafety DatabaseRequest Monitors DatabasePool ServerSession ProxyScheduler DatabaseProxyServer.

(** ** Requests *)

(** C33: A request whose values fit their types, with a command of at most 255 bytes
    and at most 65535 parameters, is read back over any pair of streams as an
    equivalent one, whatever was in the reader's memory and whatever follows: the same
    priority, type and command, and parameters of the same types and values.  Any
    database does the same with both. *)
Theorem request_roundtrip {O I E} `{HSP : StreamPair O I E} (memory : Z * Z) (r : ModifyRequest) :
  request_fits (O := O) (I := I) (E := E) r → ∃ (e : encoding E) r',
  writes (ModifyRequest_write r) e ∧ reads (aligned (O := O) (I := I) (E := E)) (ModifyRequest_read memory) e r' ∧
  r' ≡ r ∧ ∀ D (execute : list Z → list AdoParameter → D → bool * D) db, sql_call execute r' db = sql_call execute r db.
Proof.
  intros Hf. exists (enc_request memory r), (received_request memory r).
  split; [by apply request_writes|]. split; [by apply request_reads|].
  pose proof (received_request_equiv memory r) as He. split; [done|]. intros. by apply sql_call_equiv.
Qed.

Definition sample_request : ModifyRequest :=
  mkRequest rpHigh rtStoredProcedure [115; 112] [Param_int32 (-5); Param_string [120; 121]; Param_uint64 (2 ^ 64 - 1)].

#[local] Ltac decide_closed := refine (bool_decide_unpack _ _); vm_compute; exact I.

Example request_roundtrip_witness : ∃ (e : encoding bool) r',
  writes (HSP := BitStream_pair (B := VectorStreamBuffer) false) (ModifyRequest_write sample_request) e ∧
  reads (HSP := BitStream_pair (B := VectorStreamBuffer) false) (λ pos, (pos mod 8 = 0)%nat) (ModifyRequest_read (7, 9)) e r' ∧
  r' ≡ sample_request.
Proof.
  destruct (request_roundtrip (HSP := BitStream_pair (B := VectorStreamBuffer) false) (7, 9) sample_request)
    as (e & r' & Hw & Hr & He & _).
  - split_and!; [decide_closed|decide_closed|decide_closed|decide_closed| |vm_compute; congruence].
    repeat (apply Forall_cons; split); [| | |by apply Forall_nil]; (split; [decide_closed|]).
    + vm_compute. split; congruence.
    + split; decide_closed.
    + vm_compute. split; congruence.
  - exists e, r'. split; [exact Hw|]. split; [exact Hr|exact He].
Defined.

(** C19: Whatever bytes a client sends, the server reads a request from them or throws a
    [StreamingException], over any stream that is safe on arbitrary bytes, and can read
    on.  The request has numbers of their types, a command of at most 255 bytes and at
    most 65535 parameters; and the database is called for it only with a command and
    parameters of their SQL types, when the request is valid and a stored procedure. *)
Theorem received_request_is_typed {Ist} `{HS : SafeIStream Ist} (memory : Z * Z) (i : Ist) : is_wf i → ∃ r i',
  ModifyRequest_read memory i = (r, i') ∧ is_wf i' ∧
  match r with
  | Throw e => ∃ what, e = StreamingException what
  | Ok q => request_typed q ∧
      ∀ D (execute : list Z → list AdoParameter → D → bool * D) db,
        sql_call execute q db = (false, db) ∨
        isValidRequest q = true ∧ request_type q = rtStoredProcedure ∧ ∃ ps, Forall ado_typed ps ∧
          length ps = length (params_ q) ∧ sql_call execute q db = execute (command_ q) ps db
  end.
Proof.
  intros Hi. destruct (ModifyRequest_safe memory i Hi) as (r & i' & E & Hi' & Hr). exists r, i'. split_and!; [done|done|].
  destruct r as [q|e]; [|done]. split; [done|]. intros D execute db. unfold sql_call.
  destruct (isValidRequest q); [|by left]. destruct (Z.eqb_spec (request_type q) rtStoredProcedure) as [Et|]; [|by left].
  destruct (mapM createAdoParameter (params_ q)) as [ps|] eqn:Em; [|by left]. right. split_and!; [done|done|].
  exists ps. apply mapM_Some in Em. split_and!; [|by rewrite (Forall2_length _ _ _ Em)|done].
  pose proof (rt_params _ Hr) as Hp. clear -Em Hp. induction Em as [|p a ps as' Ha _ IH]; [done|].
  apply Forall_cons in Hp as [[_ Hp] Hps]. constructor; [by eapply createAdoParameter_typed|by apply IH].
Qed.

(** The bytes of a request with a parameter of no known type. *)
Definition odd_bytes : IBitStream VectorStreamBuffer := newIBitStream (mkVSB 0 8 [9; 1; 2; 0; 115; 112; 1; 0] 64) false.
Definition odd_request : IBitStream VectorStreamBuffer := newIBitStream (mkVSB 0 9 [3; 1; 2; 0; 115; 112; 1; 0; 77] 64) false.

Example received_request_is_typed_witness :
  (∃ what i', ModifyRequest_read (7, 9) odd_bytes = (Throw (StreamingException what), i')) ∧
  ∃ q i', ModifyRequest_read (7, 9) odd_request = (Ok q, i') ∧ request_typed q ∧ type_ <$> params_ q = [77].
Proof.
  assert (Hw : ∀ l, (length l ≤ 64)%nat → l ≠ [] → Forall is_byte l → is_wf (newIBitStream (mkVSB 0 (length l) l 64) false)).
  { intros l Hl Hne Hb. apply bit_wf_new; [|by cbn; rewrite drop_0]. split; cbn; [done|lia|done|]. by destruct l. }
  split.
  - destruct (received_request_is_typed (7, 9) odd_bytes) as (r & i' & E & _ & Hr); [by apply (Hw [9; 1; 2; 0; 115; 112; 1; 0]); [cbn; lia|done|decide_closed]|].
    destruct r as [q|e]; [|destruct Hr as [what ->]; exists what, i'; exact E].
    exfalso. apply (f_equal fst) in E. vm_compute in E. discriminate.
  - destruct (received_request_is_typed (7, 9) odd_request) as (r & i' & E & _ & Hr); [by apply (Hw [3; 1; 2; 0; 115; 112; 1; 0; 77]); [cbn; lia|done|decide_closed]|].
    destruct r as [q|e]; [|exfalso; apply (f_equal fst) in E; vm_compute in E; discriminate].
    exists q, i'. split; [exact E|]. split; [exact (proj1 Hr)|]. apply (f_equal fst) in E. injection E as <-. reflexivity.
Defined.

(** ** The pool of databases *)

(** C17: Whatever the threads do with a pool of distinct databases, each releasing only
    what it acquired, and however they interleave, nobody gets a null pointer and no
    database is held twice; the databases that [enumerateIdleDatabases] pings are the
    ones nobody holds, and the counter says how many there are. *)
Theorem databases_are_exclusive created p n es s :
  NoDup created.*1 → Forall (λ d, d.2 = true) created → Z.of_nat (length created) < 2 ^ 64 →
  open_pool created newDatabasePool = (true, p) → runs_exec db_exec es (mkSystem p (idle_threads n)) = Some s →
  ∃ l, held s ≡ₚ Some <$> l ∧ l ++ enumerateIdleDatabases (sys_manager s) ≡ₚ enumerate (sys_manager s) ∧
  NoDup (enumerate (sys_manager s)) ∧
  idleDatabase_ (sys_manager s) = Z.of_nat (length (enumerateIdleDatabases (sys_manager s))).
Proof.
  intros Hnd Hall Hlen Ho Hrun. pose proof (open_pool_inv created p n Hnd Hall Hlen Ho) as Hinv.
  pose proof (runs_inv_all db_exec db_inv es _ _ db_step Hinv Hrun) as [Hnd' _ Hi Hh _].
  exists (busy (sys_manager s)). split_and!; [done| |done|].
  - apply busy_and_idle.
  - rewrite Hi. unfold enumerateIdleDatabases. rewrite length_fmap. f_equal. apply count_filter_idle.
Qed.

Example databases_are_exclusive_witness : ∃ p s,
  open_pool [(3, true); (4, true)]%nat newDatabasePool = (true, p) ∧
  runs_exec db_exec [Acquire 0; Acquire 1; Acquire 2; Release 0 (Some 3%nat) (Some 2%nat); Acquire 0; Resume 2; Release 1 (Some 4%nat) (Some 2%nat)]
    (mkSystem p (idle_threads 3)) = Some s ∧
  ∃ l, held s ≡ₚ Some <$> l ∧ l ++ enumerateIdleDatabases (sys_manager s) ≡ₚ enumerate (sys_manager s).
Proof.
  eexists _, _. split; [vm_compute; reflexivity|]. split; [vm_compute; reflexivity|].
  match goal with |- ∃ l, held ?s ≡ₚ _ ∧ _ =>
    destruct (databases_are_exclusive [(3, true); (4, true)]%nat
      (mkDatabasePool [mkItem 3 true; mkItem 4 true] 2) 3 [Acquire 0; Acquire 1; Acquire 2;
      Release 0 (Some 3%nat) (Some 2%nat); Acquire 0; Resume 2; Release 1 (Some 4%nat) (Some 2%nat)] s) as (l & H1 & H2 & _) end;
    [decide_closed|decide_closed|reflexivity|vm_compute; reflexivity|vm_compute; reflexivity|].
  exists l. split; [exact H1|exact H2].
Defined.

(** C29: No wakeup is lost: when a thread waits for a database although one is idle,
    another was notified and has not run yet, and gets one as soon as it does. *)
Theorem waiting_threads_are_woken created p n es s :
  NoDup created.*1 → Forall (λ d, d.2 = true) created → Z.of_nat (length created) < 2 ^ 64 →
  open_pool created newDatabasePool = (true, p) → runs_exec db_exec es (mkSystem p (idle_threads n)) = Some s →
  blocked (sys_threads s) ≠ 0%nat → enumerateIdleDatabases (sys_manager s) ≠ [] →
  ∃ t th s' db, sys_threads s !! t = Some th ∧ is_awake th = true ∧ db_exec (Resume t) s = Some s' ∧
    sys_threads s' !! t = Some (mkThread Running (Some db :: dt_held th)).
Proof.
  intros Hnd Hall Hlen Ho Hrun Hb Hidle. pose proof (open_pool_inv created p n Hnd Hall Hlen Ho) as Hinv.
  pose proof (runs_inv_all db_exec db_inv es _ _ db_step Hinv Hrun) as Hs.
  assert (Hc : (0 < count isIdle_ (databases_ (sys_manager s)))%nat).
  { rewrite count_filter_idle. unfold enumerateIdleDatabases in Hidle. destruct (filter _ _); [done|cbn; lia]. }
  pose proof (di_woken _ Hs Hb) as Hw. assert (0 < awake (sys_threads s))%nat as (t & th & Ht & Hawake)%count_pos by lia.
  destruct (take_idle_ok _ Hc) as (l1 & db & l2 & _ & E).
  exists t, th. eexists _, db. split; [done|]. split; [done|]. cbn [db_exec]. rewrite Ht. cbn [mbind option_bind].
  rewrite decide_True by (by apply bool_decide_eq_true in Hawake). split; [reflexivity|].
  unfold acquire_turn, dbm_acquire, DirectDatabaseManager, pool_acquire. rewrite (di_idle _ Hs).
  rewrite (proj2 (Z.leb_gt _ _)) by lia. rewrite E. cbn [sys_threads]. by rewrite list_lookup_insert_eq by (by eapply lookup_lt_Some).
Qed.

Example waiting_threads_are_woken_witness : ∃ p s,
  open_pool [(3, true)]%nat newDatabasePool = (true, p) ∧
  runs_exec db_exec [Acquire 0; Acquire 1; Acquire 2; Release 0 (Some 3%nat) (Some 2%nat)] (mkSystem p (idle_threads 3)) = Some s ∧
  ∃ t th s' db, sys_threads s !! t = Some th ∧ is_awake th = true ∧ db_exec (Resume t) s = Some s' ∧
    sys_threads s' !! t = Some (mkThread Running (Some db :: dt_held th)).
Proof.
  eexists _, _. split; [vm_compute; reflexivity|]. split; [vm_compute; reflexivity|].
  apply (waiting_threads_are_woken [(3, true)]%nat (mkDatabasePool [mkItem 3 true] 1) 3
    [Acquire 0; Acquire 1; Acquire 2; Release 0 (Some 3%nat) (Some 2%nat)]);
    [decide_closed|decide_closed|reflexivity|vm_compute; reflexivity|vm_compute; reflexivity|vm_compute; discriminate|vm_compute; discriminate].
Defined.

(** ** The scheduler of requests *)

Section scheduler.
Context {R : Type} (priority_of : R → Z).
#[local] Abbreviation exec := (scheduler_exec priority_of).

(** Every request scheduled is in exactly one place, under its own id and priority,
    in every state that any number of threads of the scheduler and of its clients can
    reach: queued, being called, or called.  It is never called twice, and the counts
    that the service reports are those of the requests. *)
Theorem requests_called_once n es s :
  runs_exec exec es (running_threads n) = Some s →
  requestQueue_ s ++ calling s ++ called s ≡ₚ methods_of priority_of (scheduled es) ∧
  queuedCount_ s = uint 64 (Z.of_nat (length (scheduled es))) ∧
  processedCount_ s = uint 64 (Z.of_nat (length (calling s) + length (called s))).
Proof.
  intros Hrun. pose proof (scheduler_runs_inv priority_of [] es _ _ (running_inv priority_of n) Hrun) as [Hp _ Hq Hd _ _]. by split_and!.
Qed.

(** C26: While requests are queued and [stop] was not called, some thread of the
    scheduler can step; and the threads can take only a bounded number of steps before
    the queue is empty, three for each request and two for each thread. *)
Theorem queued_requests_are_called n es s : (0 < n)%nat →
  runs_exec exec es (running_threads n) = Some s → stop_ s = false → requestQueue_ s ≠ [] →
  (∃ t choice s', svc t choice s = Some s') ∧
  ∀ es' s', Forall own_step es' → runs_exec exec es' s = Some s' → requestQueue_ s' ≠ [] →
    (length es' ≤ 3 * length (requestQueue_ s) + 2 * length (threads_ s))%nat.
Proof.
  intros Hn Hrun Hs Hq. pose proof (scheduler_runs_inv priority_of [] es _ _ (running_inv priority_of n) Hrun) as Hinv. split.
  - apply (queue_moves priority_of _ _ Hinv Hs); [|done].
    apply (threads_kept priority_of) in Hrun. rewrite running_length in Hrun. by destruct (threads_ s); [cbn in Hrun; lia|].
  - intros es' s' Hes Hrun' Hq'. pose proof (work_bound s) as Hw.
    pose proof (work_runs priority_of _ _ _ _ Hinv Hs Hes Hrun' Hq') as Hb. lia.
Qed.

(** After [stop] every thread returns: one can step until all have, and three
    steps of each are enough, so that [join_all] ends. *)
Theorem stopped_threads_return n es s :
  runs_exec exec (es ++ [Stop]) (running_threads n) = Some s →
  ∀ es' s', Forall own_step es' → runs_exec exec es' s = Some s' →
  (length es' ≤ 3 * n)%nat ∧ (join_all s' = false → ∃ t choice s'', svc t choice s' = Some s'').
Proof.
  intros Hrun es' s' Hes Hrun'. pose proof (threads_kept priority_of _ _ _ Hrun) as Hn.
  apply runs_app in Hrun as (s0 & _ & Hstop). cbn in Hstop. injection Hstop as <-.
  assert (Hb : blocked (threads_ (stop_scheduler s0)) = 0%nat) by apply notify_all_blocked.
  destruct (stopped_runs priority_of es' (stop_scheduler s0) s' eq_refl Hb Hes Hrun') as (Hs' & Hb' & Hm & _). split.
  - rewrite running_length in Hn. pose proof (total_bound stop_weight 3 (threads_ (stop_scheduler s0))) as Ht.
    specialize (Ht ltac:(intros []; cbn; lia)). rewrite Hn in Ht. lia.
  - by apply stop_moves.
Qed.

(** [stop] drops requests: the threads call at most one more each.  The rest stay
    in the queue when all threads have returned: they are not called, and their
    [RequestMethod]s are not deleted. *)
Theorem stop_drops_requests n es s es' s' :
  runs_exec exec (es ++ [Stop]) (running_threads n) = Some s → Forall own_step es' →
  runs_exec exec es' s = Some s' → join_all s' = true →
  (length (requestQueue_ s) ≤ length (requestQueue_ s') + n)%nat ∧
  ∀ es'' s'', runs_exec exec es'' s' = Some s'' → called s'' = called s' ∧ requestQueue_ s' `prefix_of` requestQueue_ s''.
Proof.
  intros Hrun Hes Hrun' Hj. pose proof (threads_kept priority_of _ _ _ Hrun) as Hn.
  apply runs_app in Hrun as (s0 & _ & Hstop). cbn in Hstop. injection Hstop as <-.
  assert (Hb : blocked (threads_ (stop_scheduler s0)) = 0%nat) by apply notify_all_blocked.
  destruct (stopped_runs priority_of es' (stop_scheduler s0) s' eq_refl Hb Hes Hrun') as (Hs' & Hb' & _ & Hf). split.
  - rewrite running_length in Hn. pose proof (total_bound about_to_fetch 1 (threads_ (stop_scheduler s0))) as Ht.
    specialize (Ht ltac:(intros []; cbn; lia)). rewrite Hn in Ht. lia.
  - intros es'' s''. by apply (joined_runs priority_of).
Qed.
End scheduler.

#[local] Abbreviation sample_run := [Schedule 1; Schedule 5; Svc 0 0; Svc 1 0; Svc 0 1; Schedule 3; Svc 1 1; Svc 0 0].

Example requests_called_once_witness : ∃ s,
  runs_exec (scheduler_exec (λ r : Z, r)) sample_run (running_threads 2) = Some s ∧ length (called s) = 1%nat ∧
  requestQueue_ s ++ calling s ++ called s ≡ₚ methods_of (λ r : Z, r) [1; 5; 3].
Proof.
  eexists. split; [vm_compute; reflexivity|]. split; [reflexivity|].
  eapply (requests_called_once (λ r : Z, r) 2 sample_run). vm_compute. reflexivity.
Defined.

Example queued_requests_are_called_witness : ∃ s,
  runs_exec (scheduler_exec (λ r : Z, r)) sample_run (running_threads 2) = Some s ∧ requestQueue_ s ≠ [] ∧
  ∃ t choice s', svc t choice s = Some s'.
Proof.
  eexists. split; [vm_compute; reflexivity|]. split; [discriminate|].
  refine (proj1 (queued_requests_are_called (λ r : Z, r) 2 sample_run _ _ _ _ _)); [lia|vm_compute; reflexivity|reflexivity|discriminate].
Defined.

Example stopped_threads_return_witness : ∃ s s',
  runs_exec (scheduler_exec (λ r : Z, r)) (sample_run ++ [Stop]) (running_threads 2) = Some s ∧
  runs_exec (scheduler_exec (λ r : Z, r)) [Svc 1 0; Svc 0 0] s = Some s' ∧ join_all s' = false ∧
  ∃ t choice s'', svc t choice s' = Some s''.
Proof.
  eexists _, _. split; [vm_compute; reflexivity|]. split; [vm_compute; reflexivity|]. split; [reflexivity|].
  match goal with |- ∃ t choice s'', svc _ _ ?s' = _ =>
    destruct (stopped_threads_return (λ r : Z, r) 2 sample_run _ ltac:(vm_compute; reflexivity) [Svc 1 0; Svc 0 0] s'
      ltac:(repeat constructor) ltac:(vm_compute; reflexivity)) as [_ H] end.
  apply H. reflexivity.
Defined.

(** Four requests are queued when the only thread is stopped in a call. *)
Example stop_drops_requests_witness : ∃ s s',
  runs_exec (scheduler_exec (λ r : Z, r)) ([Schedule 1; Svc 0 0; Svc 0 0; Schedule 2; Schedule 3; Schedule 4; Schedule 5] ++ [Stop])
    (running_threads 1) = Some s ∧
  runs_exec (scheduler_exec (λ r : Z, r)) [Svc 0 0; Svc 0 0] s = Some s' ∧ join_all s' = true ∧
  length (requestQueue_ s') = 4%nat ∧ ∀ es'' s'', runs_exec (scheduler_exec (λ r : Z, r)) es'' s' = Some s'' → called s'' = called s'.
Proof.
  eexists _, _. split; [vm_compute; reflexivity|]. split; [vm_compute; reflexivity|]. split; [reflexivity|]. split; [reflexivity|].
  intros es'' s'' H.
  match type of H with runs_exec _ _ ?s' = _ =>
    destruct (stop_drops_requests (λ r : Z, r) 1 [Schedule 1; Svc 0 0; Svc 0 0; Schedule 2; Schedule 3; Schedule 4; Schedule 5] _
      [Svc 0 0; Svc 0 0] s' ltac:(vm_compute; reflexivity) ltac:(repeat constructor) ltac:(vm_compute; reflexivity) ltac:(reflexivity)) as [_ H'] end.
  exact (proj1 (H' es'' s'' H)).
Defined.

(** ** The server of the proxy *)

(** C18: Whatever its clients and threads do, every request that a client delegated to the
    server is in exactly one place, under its own id and priority: queued, being called,
    or called; and the database went through the requests that were called, in the order
    of their calls, and through nothing else. *)
Theorem delegated_requests_are_called {D} (execute : list Z → list AdoParameter → D → bool * D) serverCertificate
    clients threads authenticationTimeout heartbeatTimeout db es s :
  runs_exec (db_server_exec execute serverCertificate) es
    (newDbServer clients threads authenticationTimeout heartbeatTimeout db) = Some s →
  requestQueue_ (dp_scheduler s) ++ calling (dp_scheduler s) ++ called (dp_scheduler s) ≡ₚ methods_of request_priority (delegated es) ∧
  dp_db s = fold_left (λ db m, (sql_call execute (request_ m) db).2) (called (dp_scheduler s)) db.
Proof.
  intros Hrun. destruct (db_server_runs execute serverCertificate db es _ _ (eq_refl : database_follows execute db (newDbServer _ _ _ _ _)) Hrun) as [Hf Hs].
  pose proof (scheduler_runs_inv request_priority [] _ _ _ (running_inv request_priority threads) Hs) as [Hp _ _ _ _ _].
  rewrite (delegated_scheduled execute serverCertificate _ _ _ Hrun) in Hp. split; [exact Hp|exact Hf].
Qed.

(** The server does not ask who delegates: a session that never authenticated has its
    request called. *)
Theorem anyone_may_delegate {D} (execute : list Z → list AdoParameter → D → bool * D) serverCertificate
    clients threads authenticationTimeout heartbeatTimeout db r : (0 < clients)%nat → (0 < threads)%nat →
  ∃ es s, runs_exec (db_server_exec execute serverCertificate) es
      (newDbServer clients threads authenticationTimeout heartbeatTimeout db) = Some s ∧
    Forall (λ e, match e with DbAuthenticate _ _ _ => False | _ => True end) es ∧
    dp_db s = (sql_call execute r db).2.
Proof.
  intros Hc Ht. destruct clients as [|clients]; [lia|]. destruct threads as [|threads]; [lia|].
  set (s0 := newDbServer _ _ _ _ _).
  assert (∃ s1, db_server_exec execute serverCertificate (DbConnected 0 0 false) s0 = Some s1 ∧ is_connected 0 s1 = true ∧
    dp_scheduler s1 = service_initialize (S threads) ∧ dp_db s1 = db) as (s1 & E1 & Hc1 & Es & Ed).
  { eexists. split; [reflexivity|]. split; [|done]. cbn. unfold ss_onConnected, setupAuthenticationTimer. cbn.
    by destruct (0 <? authenticationTimeout). }
  exists [DbConnected 0 0 false; DbDelegate 0 0 r; DbScheduler (Svc 0 0); DbScheduler (Svc 0 0); DbScheduler (Svc 0 0)].
  eexists. split; [|split; [repeat (apply Forall_cons; split; [exact I|]); by apply Forall_nil|]].
  - cbn [runs_exec]. rewrite E1. cbn [mbind option_bind db_server_exec]. rewrite Hc1. cbn [mbind option_bind].
    cbn [dp_scheduler dp_db message_arrived on_client]. rewrite Es, Ed. cbn. unfold less at 1. cbn.
    rewrite Z.ltb_irrefl. reflexivity.
  - reflexivity.
Qed.

#[local] Definition count_calls (command : list Z) (_ : list AdoParameter) (db : nat) : bool * nat := (true, S db).
#[local] Abbreviation server_run := [DbConnected 1 0 false; DbAuthenticate 1 3 [9]; DbDelegate 1 5 sample_request; DbConnected 0 6 true;
  DbAuthenticate 0 7 [8]; DbScheduler (Svc 0 0); DbScheduler (Svc 0 0); DbDelegate 1 8 sample_request; DbScheduler (Svc 0 0); DbDisconnected 0 9].

Example delegated_requests_are_called_witness : ∃ s,
  runs_exec (db_server_exec count_calls [9]) server_run (newDbServer 2 1 10 10 0%nat) = Some s ∧ length (requestQueue_ (dp_scheduler s)) = 1%nat ∧
  dp_db s = 1%nat ∧
  requestQueue_ (dp_scheduler s) ++ calling (dp_scheduler s) ++ called (dp_scheduler s) ≡ₚ methods_of request_priority [sample_request; sample_request].
Proof.
  eexists. split; [vm_compute; reflexivity|]. split; [reflexivity|]. split; [reflexivity|].
  refine (proj1 (delegated_requests_are_called count_calls [9] 2 1 10 10 0%nat server_run _ _)). vm_compute. reflexivity.
Defined.
