(* ===== verification/TaskProperties.v ===== *)
(** * The properties of tasks and futures

    The theorems on [Futures.v] and [TaskScheduler.v], each with a witness where it has
    hypotheses. *)

From S2P Require Import Prelude Timers Monitors Futures TaskScheduler.

(** C30: A task that nobody cancels runs when it should: with an interval, first when its
    delay is over and then an interval after each run, every run at most the latency of
    the timers late, so that the number of runs at any time is bounded from both sides;
    without an interval exactly once, and then its future is done. *)
Theorem scheduled_task_runs latency now delay interval es t s :
  0 ≤ latency → 0 ≤ delay → 0 ≤ interval → Forall not_cancelled es →
  timed_run latency es (now, scheduleTimedTask now delay interval) = Some (t, s) →
  let n := Z.of_nat (length (runs s)) in
  if 0 <? interval then
    (∃ next, on_schedule latency interval (now + delay) (runs s) next) ∧
    t ≤ now + delay + n * (interval + latency) + latency ∧ (0 < n → now + delay + (n - 1) * interval ≤ t)
  else
    (runs s = [] ∧ t ≤ now + delay + latency) ∨
    ∃ r, runs s = [r] ∧ now + delay ≤ r ≤ now + delay + latency ∧ isDone (stf_future s) = true.
Proof.
  intros Hl Hd Hi Hes Hrun n. destruct (0 <? interval) eqn:Ei.
  - apply Z.ltb_lt in Ei. assert (repeating_task latency (now + delay) interval (t, s)) as [_ _ _ _ Hs Ht _ Hlast].
    { eapply (timed_run_inv latency (repeating_task latency (now + delay) interval) not_cancelled); [|exact Hes| |exact Hrun].
      - intros e x y He Hx. by apply repeating_task_step.
      - apply newTask_repeats; lia. }
    cbn [fst snd] in *. pose proof (on_schedule_bounds _ _ _ _ _ Hl Hs). split_and!; [by eexists|lia|].
    intros Hn. assert (runs s ≠ []) as Hr%Hlast by (intros Er; by unfold n in Hn; rewrite Er in Hn). lia.
  - apply Z.ltb_ge in Ei. assert (interval = 0) as -> by lia.
    assert (single_task latency (now + delay) (t, s)) as [_ _ _ [(_ & Hr & _ & Ht & _)|(_ & _ & Hf & r & Hr & Hb)]].
    { eapply (timed_run_inv latency (single_task latency (now + delay)) not_cancelled); [|exact Hes| |exact Hrun].
      - intros e x y He Hx. by apply single_task_step.
      - apply newTask_single; lia. }
    + left. by split.
    + right. by exists r.
Qed.

Example scheduled_task_runs_witness :
  ∃ s, timed_run 50 [Passes 120; Expires tt; Runs tt; Passes 1030; Expires tt; Runs tt] (0, scheduleTimedTask 0 100 1000) = Some (1150, s) ∧
  runs s = [120; 1150] ∧ 1150 ≤ 0 + 100 + 2 * (1000 + 50) + 50.
Proof.
  eexists. split; [vm_compute; reflexivity|]. split; [done|].
  pose proof (scheduled_task_runs 50 0 100 1000 [Passes 120; Expires tt; Runs tt; Passes 1030; Expires tt; Runs tt]
    1150 _ ltac:(lia) ltac:(lia) ltac:(lia) ltac:(repeat constructor) ltac:(vm_compute; reflexivity)) as (_ & Hb & _).
  exact Hb.
Defined.

(** Once [cancel] has been called the task is not run again, whatever the timers do
    and however often it is cancelled: even when the wait had ended already and its
    handler was queued. *)
Theorem cancelled_task_never_runs latency now s es t s' :
  timed_run latency (Calls CancelTask :: es) (now, s) = Some (t, s') → isCancelled_ s' = true ∧ runs s' = runs s.
Proof.
  cbn [timed_run timed_exec ob_call ScheduledTask_timed mbind option_bind]. intros Hrun.
  change (cancelled_task (runs s) (t, s')).
  eapply (timed_run_inv latency (cancelled_task (runs s)) (λ _, True) es (now, task_cancel now s));
    [|by apply Forall_true|by split|exact Hrun].
  intros e x y _. apply cancelled_task_step.
Qed.

Example cancelled_task_never_runs_witness : ∃ s s',
  timed_run 50 [Passes 120; Expires tt] (0, scheduleTimedTask 0 100 1000) = Some (120, s) ∧
  timed_run 50 [Calls CancelTask; Runs tt; Passes 5000] (120, s) = Some (5120, s') ∧ runs s' = [].
Proof.
  set (o := timed_run 50 [Passes 120; Expires tt] (0, scheduleTimedTask 0 100 1000)).
  assert (o = Some (120, (default (0, newTask 0) o).2)) as Ho by (vm_compute; reflexivity).
  eexists (default (0, newTask 0) o).2, _. split; [exact Ho|]. split; [vm_compute; reflexivity|].
  exact (proj2 (cancelled_task_never_runs 50 120 (default (0, newTask 0) o).2 [Runs tt; Passes 5000] 5120 _ ltac:(vm_compute; reflexivity))).
Defined.

(** [SyncFuture::waitForDone] that returns true is right, whatever the order of the
    calls, as long as no thread wakes up by itself; one such wakeup makes it return true
    for a future that is not done.  And when [completed] notifies one of several waiting
    threads, the others wait until their time is over and then return false, although
    the future is done. *)
Theorem waiting_for_done :
  (∀ threads es s t, Forall notified_only es → runs_exec sync_exec es (newSync threads) = Some s →
    sync_threads s !! t = Some (ReturnedDone true) → isDone (sync_future s) = true) ∧
  (∀ threads, (0 < threads)%nat → ∃ s, runs_exec sync_exec [WaitForDone 0; SpuriousWake 0; ReturnsFromWait 0] (newSync threads) = Some s ∧
    sync_threads s !! 0%nat = Some (ReturnedDone true) ∧ isDone (sync_future s) = false) ∧
  (∀ s choice t s1 es s2, sync_threads s !! t = Some BlockedForDone → choice ≠ Some t →
    sync_exec (Completed choice) s = Some s1 → Forall no_more_wakeups es → runs_exec sync_exec es s1 = Some s2 →
    isDone (sync_future s2) = true ∧
    (sync_threads s2 !! t = Some BlockedForDone ∨ sync_threads s2 !! t = Some (AwakeForDone true) ∨
     sync_threads s2 !! t = Some (ReturnedDone false))).
Proof.
  split_and!.
  - intros threads es s t Hes Hrun Ht. assert (done_is_right s) as Hd; [|apply (Hd t); by left].
    eapply (runs_inv sync_exec done_is_right notified_only); [|exact Hes| |exact Hrun].
    + intros e s1 s2. apply sync_step.
    + intros t' Ht'. cbn in Ht'. destruct Ht' as [[Ht' _]%lookup_replicate|[Ht' _]%lookup_replicate]; done.
  - intros [|threads] Hn; [lia|]. eexists. split; [reflexivity|]. by split.
  - intros s choice t s1 es s2 Ht Hc Hs1 Hes Hrun.
    eapply (runs_inv sync_exec (forgotten t) no_more_wakeups); [|exact Hes| |exact Hrun].
    + intros e x y. apply forgotten_step.
    + by apply (completed_forgets choice t s).
Qed.

Example waiting_for_done_witness : ∃ s1 s2,
  runs_exec sync_exec [WaitForDone 0; WaitForDone 1] (newSync 2) = Some s1 ∧
  runs_exec sync_exec [Completed (Some 0%nat); ReturnsFromWait 0; TimesOut 1; ReturnsFromWait 1] s1 = Some s2 ∧
  isDone (sync_future s2) = true ∧ sync_threads s2 !! 1%nat = Some (ReturnedDone false).
Proof.
  do 2 eexists. split; [reflexivity|]. split; [reflexivity|]. split; [|done].
  refine (proj1 (proj2 (proj2 waiting_for_done)
    (mkSync newFuture [BlockedForDone; BlockedForDone]) (Some 0%nat) 1%nat _ [ReturnsFromWait 0; TimesOut 1; ReturnsFromWait 1] _ _ _ _ _ _));
    [reflexivity|done|reflexivity|repeat constructor|reflexivity].
Defined.

(** As long as every call of [getIoContext] returns before the next one, the calls
    get the contexts in turn.  But two threads that both increment [nextIoContext_]
    before either compares it with the number of contexts take it beyond the vector for
    ever: no thread that calls afterwards gets a context, all read out of range. *)
Theorem round_robin_leaves_the_vector n m : (0 < n)%nat →
  let s0 := mkUsers (mkContexts n 0) (replicate (n + 1 + m) ToChoose) in
  (∃ s, runs_exec context_turn (flat_map call_turns (seq 0 (n + 1 + m))) s0 = Some s ∧
    ∀ t, (t < n + 1 + m)%nat → users s !! t = Some (Chosen (t mod n))) ∧
  (∃ es s, runs_exec context_turn es s0 = Some s ∧ users s !! (n - 1)%nat = Some (Chosen (n - 1)) ∧
    users s !! n = Some (Chosen (n - 1)) ∧
    ∀ es' s' t io, (n < t)%nat → runs_exec context_turn es' s = Some s' → users s' !! t ≠ Some (Chosen io)).
Proof.
  intros Hn s0.
  assert (Hf : not_called 0 s0) by (intros t Ht; cbn in *; rewrite length_replicate in Ht; apply lookup_replicate_2; lia).
  assert (Hl : length (users s0) = (n + 1 + m)%nat) by apply length_replicate.
  assert (H0 : users_contexts s0 = mkContexts n (0 mod n)) by (by rewrite Nat.Div0.mod_0_l).
  split.
  - destruct (contexts_in_turn n 0 (n + 1 + m) s0) as (s & Hrun & _ & _ & _ & _ & Hs); [done|done|done|lia|].
    exists s. split; [done|]. intros t Ht. apply Hs. lia.
  - destruct (contexts_in_turn n 0 (n - 1) s0) as (s1 & Hrun1 & Hc1 & Hf1 & Hl1 & _ & Hs1); [done|done|done|lia|].
    destruct (context_race n (n - 1) s1) as (s2 & Hrun2 & Ha & Hb & Hnc); [by rewrite Hc1, Nat.mod_small by lia|done|done|lia|].
    exists (flat_map call_turns (seq 0 (n - 1)) ++ race_turns (n - 1)), s2. replace (S (n - 1)) with n in Hb, Hnc by lia.
    split; [apply runs_app; by exists s1|]. split; [done|]. split; [done|].
    intros es' s' t io Ht Hrun Hio.
    assert (never_chosen (S n) s') as [_ Hk].
    { eapply (runs_inv_all context_turn (never_chosen (S n))); [|exact Hnc|exact Hrun]. intros. by eapply never_chosen_step. }
    by destruct (Hk t _ Ht Hio).
Qed.

Example round_robin_leaves_the_vector_witness : ∃ es s,
  runs_exec context_turn es (mkUsers (mkContexts 2 0) (replicate 4 ToChoose)) = Some s ∧ users s !! 2%nat = Some (Chosen 1).
Proof.
  destruct (round_robin_leaves_the_vector 2 1 ltac:(lia)) as [_ (es & s & Hrun & _ & Hs & _)]. by exists es, s.
Defined.
