(* ===== verification/ManagerProperties.v ===== *)
(** * The properties of the managers of sessions

    The theorems on [SessionManager.v], each with a witness where it has hypotheses. *)

From S2P Require Import Prelude Monitors MemoryPool StreamBuffer MemoryBlock Packet Marshaller BandwidthLimit TcpSession TcpSessionSpec SessionManager SessionManagerSpec.

Section sessions.
Context {M A : Type} `{HM : MarshallerSpec M}.
Context (react : call → A → bool * list request * A).
Context (malloc : list Z → Z) (malloc_fresh : ∀ l, malloc l ∉ l).
Context (capacity : SessionCapacity) (m0 : M) (a0 : A).


(** A connection that the validator blocks is given back by the acceptor, with its
    socket open, and again by the closure that [disconnect] posts: the session tells its
    application the end of a connection it never heard of, and the manager is told two
    releases for one acquisition. *)
Theorem blocked_connection_is_released_twice n i j c w v :
  server_inv capacity m0 a0 n v → sv_acceptors v !! i = Some c → asioAcceptors_ c !! j = Some (Some w) →
  ac_shouldFinish_ c = false → wo_open w = false →
  let a := wo_session w in let s := session_at capacity m0 a0 a v in
  posted (wld s) = [] → isDisconnectReserved (ses s) = false →
  ∃ v1 v2 x y z, server_exec react malloc capacity m0 a0 (AcceptEnds i j Succeeds false) v = Some v1 ∧ connected capacity m0 a0 v1 a ∧
  server_exec react malloc capacity m0 a0 (SessionRuns a EvPosted) v1 = Some v2 ∧
  calls (wld (session_at capacity m0 a0 a v2)) = calls (wld s) ++ [OnDisconnected; OnRelease] ∧
  manager_calls (sv_manager v2) = manager_calls (sv_manager v) ++ [SessionReleased x; SessionAcquired y; SessionReleased z].
Proof.
  intros Hi Hc Hw Hf Ho a s Hp Hr.
  destruct (blocked_accept react malloc malloc_fresh capacity m0 a0 n i j w v Hi) as (v1 & x & y & Hv1 & Hs1 & Hm1).
  assert (Hcon : connected capacity m0 a0 v1 a) by (unfold connected, a; by rewrite Hs1).
  exists v1. destruct (blocked_closure react malloc malloc_fresh capacity m0 a0 a s v1 Hs1 Hp Hr) as (v2 & z & Hv2 & Hc2 & Hm2).
  exists v2, x, y, z. split.
  { cbn [server_exec]. rewrite Hc. cbn [mbind option_bind]. rewrite Hw. cbn. rewrite Ho, Hf. exact Hv1. }
  split; [done|]. split; [exact Hv2|]. split; [done|]. by rewrite Hm2, Hm1, <- app_assoc.
Qed.

(** A disconnection aborts the read in progress, whose handler asks for another
    disconnection.  When the session is opened again before that one is done, it is the
    next connection that ends: a session that is reused at once is disconnected although
    nobody asked for it and nothing failed on its socket. *)
Theorem next_connection_is_disconnected (s : state M A) r :
  asks_nothing react → socket_ (ses s) = true → isDisconnectReserved (ses s) = false → posted (wld s) = [PDisconnect] →
  reads_pending (wld s) = [r] → writes_pending (wld s) = [] →
  timer_waits (disconnectTimer_ (ses s)) = 0%nat → timer_waits (throttleTimer_ (ses s)) = 0%nat →
  ∃ s1 s2, exec_all react [EvPosted; EvRead 0 None; EvOpen] s = Some s1 ∧
  socket_ (ses s1) = true ∧ calls (wld s1) = calls (wld s) ++ [OnDisconnected; OnRelease; OnConnected] ∧
  exec react EvPosted s1 = Some s2 ∧ socket_ (ses s2) = false ∧ calls (wld s2) = calls (wld s1) ++ [OnDisconnected; OnRelease].
Proof.
  intros Hreact Hs Hr Hp Hrd Hw Ht1 Ht2. set (s0 := on_wld (take_posted []) s).
  destruct (do_disconnect_connected react s0 Hr Hs) as [Hs1 Hc1].
  destruct (do_disconnect_leaves react s0 Hreact Hr Hs) as (Hp1 & Hrd1 & Hw1 & Hr1 & Ht1' & Ht2').
  set (s1 := do_disconnect react s0) in *.
  set (s2 := disconnect (on_wld (take_read []) s1)).
  set (s3 := on_ses (set_socket true) (on_wld new_connection s2)).
  destruct (life_opened react s3) as [Hs4 Hc4]. destruct (sessionOpened_leaves react s3 Hreact) as [Hp4 Hr4].
  set (s4 := sessionOpened react s3) in *.
  assert (Hp4' : posted (wld s4) = [PDisconnect]).
  { rewrite Hp4. change (posted (wld s3)) with (posted (wld s1) ++ [PDisconnect]). by rewrite Hp1. }
  destruct (do_disconnect_connected react (on_wld (take_posted []) s4)) as [Hs5 Hc5]; [exact (eq_trans Hr4 Hr1)|exact Hs4|].
  exists s4, (do_disconnect react (on_wld (take_posted []) s4)). split.
  { cbn [exec_all exec]. rewrite Hp. cbn [do_request mbind option_bind]. fold s0 s1. rewrite Hrd1.
    change (reads_pending (wld s0)) with (reads_pending (wld s)). rewrite Hrd.
    rewrite bool_decide_true by (cbn; lia). cbn [handle_read mbind option_bind]. fold s2.
    change (socket_ (ses s2)) with (socket_ (ses s1)). change (reads_pending (wld s2)) with (@nil read_op).
    change (writes_pending (wld s2)) with (writes_pending (wld s1)).
    change (disconnectTimer_ (ses s2)) with (disconnectTimer_ (ses s1)). change (throttleTimer_ (ses s2)) with (throttleTimer_ (ses s1)).
    rewrite Hs1, Hw1, Ht1', Ht2'. change (writes_pending (wld s0)) with (writes_pending (wld s)). rewrite Hw.
    change (timer_waits (disconnectTimer_ (ses s0))) with (timer_waits (disconnectTimer_ (ses s))). rewrite Ht1.
    change (timer_waits (throttleTimer_ (ses s0))) with (timer_waits (throttleTimer_ (ses s))). by rewrite Ht2. }
  split_and!; [by rewrite Hs4| | |done|].
  - rewrite Hc4. change (calls (wld s3)) with (calls (wld s1)). rewrite Hc1. change (calls (wld s0)) with (calls (wld s)).
    by rewrite <- !app_assoc.
  - cbn [exec]. by rewrite Hp4'.
  - rewrite Hc5. by rewrite <- app_assoc.
Qed.
End sessions.

(** ** Runs of a concrete server *)

#[local] Ltac decide_it := refine (bool_decide_unpack _ _); vm_compute; exact I.

Definition obedient_app (c : call) (a : unit) : bool * list request * unit := (true, [], a).
Definition server_capacity : SessionCapacity := mkCapacity 100 3 2.
Definition server_marshaller : SgpMarshaller CsPacketCoder := newMarshaller tt (mb_new 64) (mb_new 16).

#[local] Abbreviation server := (SessionServer (M := SgpMarshaller CsPacketCoder) (A := unit)).
#[local] Abbreviation run_orderly es := (runs_exec (orderly_exec obedient_app above server_capacity server_marshaller tt) es).
#[local] Abbreviation run_any es := (runs_exec (server_exec obedient_app above server_capacity server_marshaller tt) es).



Example blocked_connection_is_released_twice_witness :
  let v := default (newServer above 1) (run_any [StartAcceptors [Some 2%nat]] (newServer above 1)) in
  ∃ v1 v2 x y z,
  server_exec obedient_app above server_capacity server_marshaller tt (AcceptEnds 0 0 Succeeds false) v = Some v1 ∧
  server_exec obedient_app above server_capacity server_marshaller tt (SessionRuns 1 EvPosted) v1 = Some v2 ∧
  calls (wld (session_at server_capacity server_marshaller tt 1 v2)) = [OnDisconnected; OnRelease] ∧
  manager_calls (sv_manager v2) = [SessionAcquired 1; SessionAcquired 2; SessionReleased x; SessionAcquired y; SessionReleased z].
Proof.
  intros v. assert (Hi : server_inv server_capacity server_marshaller tt 1 v).
  { destruct (start_acceptors_inv obedient_app above above_fresh server_capacity server_marshaller tt 1 [Some 2%nat] (newServer above 1))
      as (v' & E & Hv'); [apply (newServer_inv obedient_app above above_fresh); done|].
    unfold v. cbn [runs_exec server_exec]. rewrite bool_decide_true by done. rewrite E. exact Hv'. }
  destruct (blocked_connection_is_released_twice obedient_app above above_fresh server_capacity server_marshaller tt 1 0 0
    (mkAcceptor [Some (mkWaitOp 1 false); Some (mkWaitOp 2 false)] false) (mkWaitOp 1 false) v Hi
    ltac:(vm_compute; reflexivity) ltac:(reflexivity) ltac:(reflexivity) ltac:(reflexivity) ltac:(vm_compute; reflexivity) ltac:(vm_compute; reflexivity))
    as (v1 & v2 & x & y & z & H1 & _ & H2 & H3 & H4).
  exists v1, v2, x, y, z. split; [exact H1|]. split; [exact H2|]. split; [exact H3|exact H4].
Defined.

(** The session comes back to the acceptors while its closure is still posted, and then
    two of them wait with it. *)
Example blocked_session_is_shared : ∃ v, run_any
  [StartAcceptors [Some 2%nat]; AcceptEnds 0 0 Succeeds false; AcceptEnds 0 0 Succeeds true; SessionRuns 1 EvPosted;
   AcceptEnds 0 1 Succeeds true; AcceptEnds 0 1 Succeeds true] (newServer above 1) = Some v ∧ waiting v = [1; 1].
Proof. eexists. split; [vm_compute; reflexivity|vm_compute; reflexivity]. Qed.

Example next_connection_is_disconnected_witness :
  let s0 := newSession server_capacity server_marshaller tt in
  ∃ s s1 s2, exec_all obedient_app [EvOpen; EvCall PDisconnect] s0 = Some s ∧
  exec_all obedient_app [EvPosted; EvRead 0 None; EvOpen] s = Some s1 ∧ exec obedient_app EvPosted s1 = Some s2 ∧
  calls (wld s2) = [OnConnected; OnDisconnected; OnRelease; OnConnected; OnDisconnected; OnRelease].
Proof.
  intros s0. set (o := exec_all obedient_app [EvOpen; EvCall PDisconnect] s0). set (s := default s0 o).
  assert (Ho : o = Some s) by (vm_compute; reflexivity).
  destruct (next_connection_is_disconnected obedient_app s (mkRead 0 64) ltac:(intros c a; by exists a) ltac:(vm_compute; reflexivity)
    ltac:(vm_compute; reflexivity) ltac:(vm_compute; reflexivity) ltac:(vm_compute; reflexivity) ltac:(vm_compute; reflexivity)
    ltac:(vm_compute; reflexivity) ltac:(vm_compute; reflexivity)) as (s1 & s2 & H1 & _ & H2 & H3 & _ & H4).
  exists s, s1, s2. split; [exact Ho|]. split; [exact H1|]. split; [exact H3|].
  rewrite H4, H2. vm_compute. reflexivity.
Defined.
