(* ===== verification/ServerToServerProperties.v ===== *)
(** * The properties of the bridges and proxies between servers

    The theorems on [ServerProxies.v] and [ClientBridge.v], each with a witness where it
    has hypotheses. *)

From S2P Require Import Prelude BitList Bits Unicode StreamBuffer MemoryBlock Stream BitStream BitStreamSpec.
From S2P Require Import Streamable FactoryStreams RpcTypes Srpc Packet Marshaller MemoryPool TcpSession SessionLayer SessionArrival.
From S2P Require Import Monitors Timers Heartbeat ServerSession ClientBridge Connecting ServerProxies S2sAuthentication.

(** ** The servers that connect *)


Definition accepts_42 (p : nat) (certificate : list Z) : bool := bool_decide (certificate = [42]).


(** A client that authenticates, is refused when it authenticates again and then
    disconnects stays in the manager: the refusal forgets the server id under which the
    proxy is registered.  The entry is never removed, whatever happens afterwards, and
    keeps pointing at the proxy, which the pool of sessions may use for another client or
    delete. *)
Theorem refused_proxy_stays_registered verify s p i now certificate now' :
  proxies_inv s → getProxy i (ps_manager s) = Some p → verify p certificate = false →
  ∃ s1 s2, proxy_exec verify (AuthenticateMessage p now certificate) s = Some s1 ∧
  proxy_exec verify (ProxyDisconnected p now') s1 = Some s2 ∧
  ∀ es s3, runs_exec (orderly_proxies verify) es s2 = Some s3 → getProxy i (ps_manager s3) = Some p.
Proof.
  intros Hs Hi Hv. destruct (refused_again verify s p i now certificate now' Hs Hi Hv) as (s1 & s2 & H1 & H2 & Hst).
  exists s1, s2. split; [done|]. split; [done|]. intros es s3 Hrun. apply sl_entry.
  eapply (runs_inv_all (orderly_proxies verify) (stale i p)); [|exact Hst|exact Hrun]. intros e x y. apply stale_step.
Qed.

Example refused_proxy_stays_registered_witness :
  let s0 := newProxyServer 1 5000 30000 in
  ∃ s s1 s2, runs_exec (proxy_exec accepts_42) [ProxyConnected 0 10 true; AuthenticateMessage 0 20 [42]] s0 = Some s ∧
  proxy_exec accepts_42 (AuthenticateMessage 0 30 [7]) s = Some s1 ∧ proxy_exec accepts_42 (ProxyDisconnected 0 40) s1 = Some s2 ∧
  ∀ es s3, runs_exec (orderly_proxies accepts_42) es s2 = Some s3 → getProxy 1 (ps_manager s3) = Some 0%nat.
Proof.
  intros s0. set (o := runs_exec (orderly_proxies accepts_42) [ProxyConnected 0 10 true; AuthenticateMessage 0 20 [42]] s0).
  set (s := default s0 o). assert (Ho : o = Some s) by (vm_compute; reflexivity).
  assert (Hs : proxies_inv s).
  { eapply (runs_inv_all (orderly_proxies accepts_42) proxies_inv); [|apply (newProxyServer_inv 1 5000 30000)|exact Ho].
    intros e x y. apply proxies_step. }
  destruct (refused_proxy_stays_registered accepts_42 s 0%nat 1 30 [7] 40 Hs ltac:(vm_compute; reflexivity) ltac:(reflexivity))
    as (s1 & s2 & H1 & H2 & H3).
  exists s, s1, s2. split; [vm_compute; reflexivity|]. split; [exact H1|]. split; [exact H2|exact H3].
Defined.

(** ** The server that is connected to *)

(** C28: A server that refuses connections, or does not answer, is tried again for ever:
    after the last attempt the next one begins within the time an attempt takes, the
    delay and the latencies, and the delay doubles from half a second with every failure
    up to seven seconds. *)
Theorem refused_server_is_tried_again latency attempt_time now es t b :
  0 ≤ latency → 0 ≤ attempt_time → Forall only_failures es →
  timed_run (H := ClientSideBridge_timed attempt_time) latency (Calls BridgeTo :: es) (now, newClientBridge) = Some (t, b) →
  ∃ last, list.last (attempts b) = Some last ∧ last ≤ t ∧
  let failures := (length (attempts b) - length (connecting b))%nat in
  retryDelay_ b = Z.min (initialRetryDelay * 2 ^ Z.of_nat failures) maxRetryDelay ∧
  t ≤ last + attempt_time + retryDelay_ b + latency.
Proof.
  intros Hl Ha Hes Hrun. assert (retrying latency attempt_time (t, b)) as [_ Hd (before & last & Hat & Hle & Hst)].
  { cbn [timed_run timed_exec] in Hrun.
    eapply (timed_run_inv (H := ClientSideBridge_timed attempt_time) latency (retrying latency attempt_time) only_failures);
      [|exact Hes| |exact Hrun].
    - intros e x y He. by apply retrying_step.
    - split; cbn; [done|done|]. exists [], now. split; [done|]. split; [lia|]. left. split_and!; [done|done|lia]. }
  cbn [fst snd] in *. exists last. rewrite Hat, last_snoc. rewrite Hat in Hd. split; [done|]. split; [done|]. cbv zeta.
  pose proof (delay_after_bounds (length (before ++ [last]) - length (connecting b))) as Hb. rewrite <- Hd in Hb.
  unfold initialRetryDelay, maxRetryDelay in Hb. split; [rewrite Hd; apply delay_after_eq|].
  destruct Hst as [(_ & _ & Ht)|(_ & _ & Hx & Ht)]; lia.
Qed.

Example refused_server_is_tried_again_witness :
  let es := [Passes 20; Calls (ConnectHandled false); Passes 1010; Expires tt; Runs tt; Passes 30; Calls (ConnectHandled false)] in
  ∃ b, timed_run (H := ClientSideBridge_timed 100) 50 (Calls BridgeTo :: es) (0, newClientBridge) = Some (1060, b) ∧
  attempts b = [0; 1030] ∧ retryDelay_ b = 2000 ∧ 1060 ≤ 1030 + 100 + retryDelay_ b + 50.
Proof.
  intros es. set (o := timed_run (H := ClientSideBridge_timed 100) 50 (Calls BridgeTo :: es) (0, newClientBridge)).
  set (b := (default (0, newClientBridge) o).2). assert (Ho : o = Some (1060, b)) by (vm_compute; reflexivity).
  exists b. split; [exact Ho|]. split; [vm_compute; reflexivity|]. split; [vm_compute; reflexivity|].
  destruct (refused_server_is_tried_again 50 100 0 es 1060 b ltac:(lia) ltac:(lia) ltac:(repeat constructor) Ho) as (last & Hlast & _ & _ & Hb).
  assert (Hl : list.last (attempts b) = Some 1030) by (vm_compute; reflexivity). rewrite Hl in Hlast. injection Hlast as <-. exact Hb.
Defined.

(** [cancelConnection] does not end the attempts: the handler of the one in progress
    runs with [operation_aborted] and starts the timer that [cancel] has just stopped,
    and the next attempt follows; and a connection that is made throws out of its handler,
    since the connector connects a socket of its own and the session's is closed.  So
    [ClientSideProxy::isActivated] never holds. *)
Theorem bridge_never_connects attempt_time latency :
  (∀ now b since, threw b = false → connecting b = [since] → idle (reconnectTimer_ b) → 0 ≤ latency → 0 ≤ retryDelay_ b →
    let delay := Z.min (retryDelay_ b * 2) maxRetryDelay in
    ∃ b', timed_run (H := ClientSideBridge_timed attempt_time) latency
      [Calls CancelConnection; Calls (ConnectHandled false); Passes delay; Expires tt; Runs tt] (now, b) = Some (now + delay, b') ∧
    attempts b' = attempts b ++ [now + delay]) ∧
  (∀ now es t b, timed_run (H := ClientSideBridge_timed attempt_time) latency es (now, newClientBridge) = Some (t, b) →
    proxy_isConnected_ b = false ∧ certificates_sent b = 0%nat ∧ session_open b = false).
Proof.
  split.
  - intros now b since Hth Hc Hi Hl Hd delay. assert (Hdelay : 0 ≤ delay) by (unfold delay, maxRetryDelay; lia).
    by apply cancelled_is_retried with since.
  - intros now es t b Hrun. change (never_open (t, b)).
    eapply (timed_run_inv (H := ClientSideBridge_timed attempt_time) latency never_open (λ _, True) es (now, newClientBridge));
      [|by apply Forall_true|done|exact Hrun]. intros e x y _. apply never_open_step.
Qed.

Example bridge_never_connects_witness :
  ∃ b b', timed_run (H := ClientSideBridge_timed 100) 50 [Calls BridgeTo; Passes 20] (0, newClientBridge) = Some (20, b) ∧
  timed_run (H := ClientSideBridge_timed 100) 50
    [Calls CancelConnection; Calls (ConnectHandled false); Passes 1000; Expires tt; Runs tt] (20, b) = Some (1020, b') ∧
  attempts b' = [0; 1020].
Proof.
  set (o := timed_run (H := ClientSideBridge_timed 100) 50 [Calls BridgeTo; Passes 20] (0, newClientBridge)).
  set (b := (default (0, newClientBridge) o).2). assert (Ho : o = Some (20, b)) by (vm_compute; reflexivity).
  destruct (proj1 (bridge_never_connects 100 50) 20 b 0 ltac:(reflexivity) ltac:(reflexivity) ltac:(repeat split) ltac:(lia)
    ltac:(vm_compute; discriminate)) as (b' & Hrun & Hat).
  exists b, b'. split; [exact Ho|]. split; [exact Hrun|exact Hat].
Defined.

(** ** The authentication, over the wire *)

Section wire.
Context {P : Type} {C : Type} `{HC : PacketCoderSpec C} `{HP : !MemoryBlockProvider P, HPS : !MemoryBlockProviderSpec P pc_size}.
Context (f : SneStreamFactory) {E : Type} `{HT : Transport f E}.
Context (act1 : nat → Z → Z → ∀ ts, denotes ts → ProxyServer → ProxyServer).
Context (act2 : nat → Z → Z → ∀ ts, denotes ts → ClientSideBridge → ClientSideBridge).
Context (verify : nat → list Z → bool) (p : nat) (now : Z).

#[local] Abbreviation sends := (can_serialize (size := pc_size) (f := f)).
#[local] Abbreviation hears := (receives_all (f := f)).
#[local] Abbreviation knows s m := (registered s (s2s_messageType m) (s2s_fields m)).
#[local] Abbreviation travels m := (item_sendable (C := C) (E := E) (Typed (s2s_messageType m) (s2s_fields m))).
#[local] Abbreviation server_receives := (receive_all (onMessageArrived (returning act1) (hearing (authenticateMessageReceived verify p now)))).
#[local] Abbreviation client_receives := (receive_all (onMessageArrived (returning act2) (hearing authenticateResultMessageReceived))).

End wire.

#[local] Instance s2s_provider : MemoryBlockProvider SendBlocks := SendBlocks_provider next_address.
#[local] Instance s2s_provider_spec : MemoryBlockProviderSpec SendBlocks 3 := SendBlocks_spec next_address next_address_fresh 3.



(** [ClientSideBridge::seedExchanged] replaces that of [ClientSideSession], which starts
    the heartbeater: a bridge never sends a heartbeat, so that a server that expects them
    takes a silent bridge for dead. *)
Theorem bridge_sends_no_heartbeats latency interval now es t s :
  timed_run (H := BridgeSession_timed) latency es (now, newClientSide interval) = Some (t, s) → AskHeartbeat ∉ cs_asked s.
Proof.
  intros Hrun. change (AskHeartbeat ∉ cs_asked (t, s).2).
  assert (Hinv : no_heartbeater (t, s)); [|apply Hinv].
  eapply (timed_run_inv (H := BridgeSession_timed) latency no_heartbeater (λ _, True) es (now, newClientSide interval));
    [|by apply Forall_true|split; [done|apply not_elem_of_nil]|exact Hrun]. intros e x y _. apply no_heartbeater_step.
Qed.

Example bridge_sends_no_heartbeats_witness : ∃ s,
  timed_run (H := BridgeSession_timed) 50 [Calls (CsConnected true); Calls CsSeedExchanged; Passes 20000] (0, newClientSide 10000) = Some (20000, s) ∧
  AskHeartbeat ∉ cs_asked s.
Proof.
  eexists. split; [vm_compute; reflexivity|].
  exact (bridge_sends_no_heartbeats 50 10000 0 [Calls (CsConnected true); Calls CsSeedExchanged; Passes 20000] 20000 _ eq_refl).
Defined.
