(* ===== verification/AppProperties.v ===== *)
(** * The properties of the server applications

    The theorems on [ServerApp.v], [SessionApp.v], [Rcon.v] and [ServerSpec.v], each with
    a witness where it has hypotheses. *)

From stdpp Require Import pretty.
From S2P Require Import Prelude BitList Bits Unicode Stream RpcTypes.
From S2P Require Import Monitors MemoryPool StreamBuffer MemoryBlock Packet Marshaller BandwidthLimit TcpSession TcpSessionSpec.
From S2P Require Import DatabaseRequest ProxyScheduler.
From S2P Require Import SessionManager SessionManagerSpec ServerSpec ServerConfig Rcon ServerApp SessionApp SessionAppSpec DatabaseProxyApp Finalization.

(** ** The life of a server *)

Section server.
Context {M A Command : Type} `{HM : MarshallerSpec M}.
Context (react : call → A → bool * list request * A).
Context (malloc : list Z → Z) (malloc_fresh : ∀ l, malloc l ∉ l).
Context (capacity : SessionCapacity) (m0 : M) (a0 : A).
Context (spec : ServerSpec) (use debug : bool).

#[local] Abbreviation app := (SessionServerApp (M := M) (A := A) (Command := Command)).
#[local] Abbreviation hooks := (SessionServerApp_hooks (Command := Command) react malloc capacity m0 a0 spec use debug).
#[local] Abbreviation run es := (runs_exec (app_exec (H := hooks)) es).
Context (pool_fits : sessionPoolSize_ spec < 2 ^ 63).
#[local] Abbreviation app_ok := (app_inv (HS := SessionServerApp_spec react malloc malloc_fresh capacity m0 a0 spec use debug pool_fits)).

Lemma app_runs_inv es l (a : ServerApp app) : run es (newApp l newSessionApp) = Some a → app_ok a.
Proof.
  intros Hrun. eapply (runs_inv_all (app_exec (H := hooks)) app_ok); [|by apply newApp_inv|exact Hrun].
  intros e a1 a2. by apply app_step.
Qed.


(** The monitor answers the query "session.count" with the number of sessions that
    are connected and of those that acceptors wait with, together. *)
Theorem rcon_reports_sessions {V} `{RpcValue V} (execute : Command → string → V → V → V → string) es l (a : ServerApp app) v params detail :
  run es (newApp l newSessionApp) = Some a → phase a = Running → 0 < monitorPort_ spec → sessionManager_ (derived a) = Some v →
  rv_IsArray params = true → rv_Size params = 2%nat →
  rv_GetString (rv_at 0 params) = Some "session.count"%string → rv_GetString (rv_at 1 params) = Some detail →
  ∃ r sessions, rconService_ (derived a) = Some r ∧ NoDup (waiting v ++ sessions) ∧
    (∀ b, b ∈ sessions ↔ connected capacity m0 a0 v b) ∧
    service_work (query_of (derived a)) execute (CallQuery params) r =
      Some (Ok (ResultText (pretty (N.of_nat (length (waiting v) + length sessions))))).
Proof.
  intros Hrun Hp Hport Hv Ha Hs Hn Hd. pose proof (app_runs_inv _ _ _ Hrun) as Hi. unfold app_inv in Hi. rewrite Hp in Hi.
  destruct Hi as ((Hm & _) & env & (_ & _ & Hr & _) & _). unfold rcon_started in Hr. rewrite (proj2 (Z.ltb_lt _ _) Hport) in Hr.
  destruct Hr as (r & Er & Hrr & Hq & _). destruct (Hm v Hv) as (Hi & _). destruct (Hi) as [_ (ss & Hl & Hc)].
  exists r, ss. split_and!; [done|by eapply server_inv_nodup|intros b; by rewrite Hc|].
  rewrite (query_answered _ _ r params _ _ ThisServer Hrr Ha Hs Hn Hd Hq). do 3 f_equal. cbn. unfold session_query. rewrite Hv.
  rewrite bool_decide_true by done. unfold getActiveSessionCount, getActiveResourceCount. by rewrite Hl, length_app.
Qed.

(** C27: A server that is idle can be finished: after [finalize] has closed the acceptors
    and asked every session to disconnect, as many handlers as sessions are active end
    them all, [onFinish] returns and the server is at rest. *)
Theorem idle_server_finishes es l (a : ServerApp app) v :
  run es (newApp l newSessionApp) = Some a → phase a = Running → sessionManager_ (derived a) = Some v → idle capacity m0 a0 v →
  ∃ es' a', run ([Finalize; FinishPart] ++ (OwnEvent <$> es') ++ [FinishPart; FinishPart]) a = Some a' ∧
    length es' = getActiveSessionCount (sv_manager v) ∧ phase a' = Finished false ∧ app_pid a' = None ∧ at_rest (derived a').
Proof.
  intros Hrun Hp Hv Hidle. pose proof (app_runs_inv _ _ _ Hrun) as Hi. unfold app_inv in Hi. rewrite Hp in Hi.
  destruct Hi as ((Hm & _) & env & (Hctx & _) & _). destruct (Hm v Hv) as (Hi & Hco & _).
  set (v1 := cancel_sessions capacity m0 a0 (set_acceptors (close_acceptor <$> sv_acceptors v) v)).
  set (x1 := set_session_manager (Some v1) (derived a)). set (a1 := set_phase (Finishing false 1) (set_derived x1 a)).
  assert (Hrunning : is_running x1 = true).
  { unfold is_running. cbn. destruct Hctx as [Hw ->]. rewrite lookup_singleton_eq. unfold task_runs. cbn.
    destruct (Z.to_nat (workerThreadCount_ spec)) eqn:E; [lia|done]. }
  destruct (finishing_ends react malloc malloc_fresh capacity m0 a0 _ x1 v1 Hrunning eq_refl
    (finalized_finishing react malloc malloc_fresh capacity m0 a0 _ v Hi Hco Hidle)) as (es' & v2 & Hes & Hact & Hlen).
  set (x2 := set_session_manager (Some v2) x1) in *. set (x3 := set_tasks (task_stop <$> ioContextTaskMap_ x2) x2).
  set (a' := set_pid None (set_derived x3 a)). exists es', (set_phase (Finished false) a').
  assert (Hrun' : run ([Finalize; FinishPart] ++ (OwnEvent <$> es') ++ [FinishPart; FinishPart]) a = Some (set_phase (Finished false) a')).
  { apply runs_app. exists a1. split.
    { cbn [runs_exec app_exec]. rewrite Hp. cbn. unfold finalize_manager. by rewrite Hv. }
    apply runs_app. exists (set_derived x2 a1). split.
    { change a1 with (set_derived x1 a1) at 1. by apply (own_runs (H := hooks)). }
    cbn [runs_exec app_exec]. cbn. unfold wait_and_stop. cbn. unfold isSafeToDelete, getActiveSessionCount, getActiveResourceCount.
    rewrite Hact. cbn. done. }
  split_and!; [exact Hrun'| |done|done|].
  - rewrite Hlen. unfold v1. by rewrite cancel_manager.
  - pose proof (app_runs_inv (es ++ _) l _ (proj2 (runs_app _ _ _ _ _) (ex_intro _ a (conj Hrun Hrun')))) as Hf.
    destruct Hf as ((_ & _ & Hr) & _). apply Hr. cbn. lia.
Qed.

(** [finalize] waits for session [b], which nothing ends. *)
Definition waiting_for (b : Z) (a : ServerApp app) : Prop :=
  app_ok a ∧ phase a = Finishing false 1 ∧ ∃ v, sessionManager_ (derived a) = Some v ∧ stuck (session_at capacity m0 a0 b v).

Lemma waiting_step b e a a' : match e with OwnEvent e => undisturbed b e = true | _ => True end →
  waiting_for b a → app_exec (H := hooks) e a = Some a' → waiting_for b a'.
Proof.
  intros He (Hi & Hp & v & Hv & Hs) Hex. pose proof (app_step _ _ _ Hi Hex) as Hi'. split; [done|].
  unfold app_exec in Hex. unfold app_inv in Hi. rewrite Hp in Hi, Hex. destruct Hi as (_ & (Hm & Hcl & _) & _).
  destruct e as [env|e| |]; try done.
  - cbn [own_event SessionServerApp_hooks] in Hex. destruct (session_own_event react malloc capacity m0 a0 e (derived a)) as [x|] eqn:Ex; [|done].
    injection Hex as <-. destruct (stuck_event react malloc capacity m0 a0 b e _ _ v (Hcl ltac:(lia) v Hv) Hv Hs He Ex) as (v' & Ev' & Hs').
    split; [done|]. by exists v'.
  - exfalso. unfold finish_part in Hex. cbn in Hex. unfold wait_and_stop in Hex. rewrite Hv in Hex.
    unfold isSafeToDelete, getActiveSessionCount, getActiveResourceCount in Hex. destruct (Hm v Hv) as ((_ & ss & Hl & Hc) & _).
    assert (Hb : b ∈ ss) by (apply Hc; apply Hs). rewrite bool_decide_false in Hex; [done|].
    rewrite Hl, length_app. intros E0. destruct ss; [by apply elem_of_nil in Hb|cbn in E0; lia].
Qed.

(** C38: The closure that [disconnect] posts leaves a session alone that is disconnecting
    gracefully.  When a server is finished while such a session waits for a write, it is
    never disconnected, whatever the other sessions do, unless its other end acts: no
    handler is left that would end it, and [finalize] waits for ever. *)
Theorem finalize_waits_for_ever es l (a : ServerApp app) v b :
  run es (newApp l newSessionApp) = Some a → phase a = Running → sessionManager_ (derived a) = Some v →
  let s := session_at capacity m0 a0 b v in
  connected capacity m0 a0 v b → isDisconnectReserved (ses s) = true → isWritePended_ (ses s) = true →
  posted (wld s) = [] → timer_waits (throttleTimer_ (ses s)) = 0%nat →
  ∃ a1, run [Finalize; FinishPart; OwnEvent (AppSession b EvPosted)] a = Some a1 ∧
  ∀ es' a', Forall (λ e, match e with OwnEvent e => undisturbed b e = true | _ => True end) es' → run es' a1 = Some a' →
    phase a' = Finishing false 1 ∧ ∃ v', sessionManager_ (derived a') = Some v' ∧ connected capacity m0 a0 v' b.
Proof.
  intros Hrun Hp Hv s Hcon Hres Hpend Hpost Hthr. pose proof (app_runs_inv _ _ _ Hrun) as Hi. unfold app_inv in Hi. rewrite Hp in Hi.
  destruct Hi as ((Hm & _) & env & (Hctx & _) & _). destruct (Hm v Hv) as (Hi & Hco & _).
  set (v1 := cancel_sessions capacity m0 a0 (set_acceptors (close_acceptor <$> sv_acceptors v) v)).
  set (x1 := set_session_manager (Some v1) (derived a)).
  assert (Hrunning : is_running x1 = true).
  { unfold is_running. cbn. destruct Hctx as [Hw ->]. rewrite lookup_singleton_eq. unfold task_runs. cbn.
    destruct (Z.to_nat (workerThreadCount_ spec)) eqn:E; [lia|done]. }
  destruct (reserved_closure react s Hcon Hres Hpend Hpost Hthr) as (s' & Es & Hstuck).
  assert (Hb : session_at capacity m0 a0 b v1 = disconnect s).
  { destruct Hi as [Hpool (ss & Hl & Hc)]. pose proof (pool_inv_nodup _ (po_inv _ _ _ Hpool)) as Hnd. apply NoDup_app in Hnd as [Hnd _].
    unfold v1, cancel_sessions. etransitivity; [by apply (cancelled_session malloc)|]. rewrite decide_True; [done|].
    cbn. rewrite Hl. apply elem_of_app. right. by apply Hc. }
  assert (∃ v2, session_own_event react malloc capacity m0 a0 (AppSession b EvPosted) x1 = Some (set_session_manager (Some v2) x1) ∧
    session_at capacity m0 a0 b v2 = s') as (v2 & Ev2 & Hs2).
  { unfold session_own_event. rewrite Hrunning. cbn [x1 sessionManager_ set_session_manager mbind option_bind app_server_event orderly server_exec run_session].
    rewrite Hb, Es. cbn [mbind option_bind]. eexists. split; [done|]. unfold session_at.
    destruct (released_by _ _); cbn; by rewrite lookup_insert_eq. }
  set (a1 := set_phase (Finishing false 1) (set_derived (set_session_manager (Some v2) x1) a)).
  assert (Hrun1 : run [Finalize; FinishPart; OwnEvent (AppSession b EvPosted)] a = Some a1).
  { enough (run ([Finalize; FinishPart] ++ (OwnEvent <$> [AppSession b EvPosted])) a = Some a1) as Hcut by exact Hcut. apply runs_app. exists (set_phase (Finishing false 1) (set_derived x1 a)). split.
    { cbn [runs_exec app_exec]. rewrite Hp. cbn. unfold finalize_manager. by rewrite Hv. }
    change (set_phase (Finishing false 1) (set_derived x1 a)) with (set_derived x1 (set_phase (Finishing false 1) a)).
    apply (own_runs (H := hooks) [AppSession b EvPosted] x1 (set_session_manager (Some v2) x1)); [done|]. cbn [runs_exec]. cbn [own_event SessionServerApp_hooks]. by rewrite Ev2. }
  exists a1. split; [done|]. pose proof (app_runs_inv (es ++ _) l _ (proj2 (runs_app _ _ _ _ _) (ex_intro _ a (conj Hrun Hrun1)))) as Hi1.
  intros es' a' Hes Hrun'. assert (HJ : waiting_for b a').
  { eapply (runs_inv (app_exec (H := hooks)) (waiting_for b)); [intros e s1 s2; apply waiting_step|exact Hes| |exact Hrun'].
    split; [done|]. split; [done|]. exists v2. split; [done|]. by rewrite Hs2. }
  destruct HJ as (_ & Hp' & v' & Ev' & (Hs' & _)). split; [done|]. by exists v'.
Qed.
End server.

(** ** The server of the database proxy *)


(** The manager of databases is made before the scheduler of tasks, without which it
    schedules no task that pings them, whatever the interval of the configuration. *)
Theorem database_is_never_pinged {X E Ev} `{HS : ServerAppSpec X E Ev} (delegates : Ev → X → list ModifyRequest) threadCount
    (task_scheduler : X → bool) es l b (a : ServerApp (BaseDatabaseProxyServerApp X)) m :
  (∀ b, app_initial b → task_scheduler b = false) → app_initial b →
  runs_exec (app_exec (H := db_hooks delegates threadCount task_scheduler)) es (newApp l (newDbApp b)) = Some a →
  proxyDatabaseManager_ (derived a) = Some m → pingTask_ m = None.
Proof.
  intros Hts Hb Hrun Hm.
  assert (Hi : app_inv (HS := db_spec delegates threadCount task_scheduler Hts) a).
  { eapply (runs_inv_all (app_exec (H := db_hooks delegates threadCount task_scheduler)) (app_inv (HS := db_spec delegates threadCount task_scheduler Hts)));
      [|by apply newApp_inv; exists b|exact Hrun]. intros e a1 a2. by apply app_step. }
  assert (Hd : ∀ n, db_done threadCount n (derived a) → pingTask_ m = None) by (intros n (_ & Hp & _); by apply Hp).
  unfold app_inv in Hi. destruct (phase a).
  - destruct Hi as ((b' & _ & E0) & _). by rewrite E0 in Hm.
  - destruct Hi as (H0 & _). exact (Hd _ H0).
  - destruct Hi as (_ & H0 & _). exact (Hd _ H0).
  - destruct Hi as (H0 & _). exact (Hd _ H0).
Qed.

(** ** Addresses and specifications *)

(** [serialize] of a [ServerSpec] is read back by the same [serialize] into another
    specification, over any pair of streams, except for the address of the monitor and
    the limit of pending packets, which it leaves out: the receiver keeps its own. *)
Theorem spec_is_received {O I E : Type} `{HSP : StreamPair O I E} (s t : ServerSpec) : spec_fits s → ∃ e,
  writes (ServerSpec_write s) e ∧ reads (aligned (O := O) (I := I) (E := E)) (ServerSpec_read t) e (received_spec s t) ∧
  (received_spec s t = s ↔ monitorAddress_ t = monitorAddress_ s ∧
     BandwidthLimit.maxPendablePacketCount_ (spec_sessionCapacity t) = BandwidthLimit.maxPendablePacketCount_ (spec_sessionCapacity s)).
Proof.
  intros Hs. exists (enc_spec s). split_and!; [by apply spec_writes|by apply spec_reads|].
  destruct s as [? ? ? ? ? ? ? ? ? ? ? ? [] ?]. unfold received_spec. cbn. naive_solver congruence.
Qed.

(** ** A concrete server *)

Definition obedient_server_app (c : call) (a : unit) : bool * list request * unit := (true, [], a).
Definition heap_next (l : list Z) : Z := 1 + fold_right Z.max 0 l.
Lemma heap_next_fresh l : heap_next l ∉ l.
Proof.
  assert (∀ x, x ∈ l → x ≤ fold_right Z.max 0 l) as Hle.
  { induction l as [|y l IH]; intros x Hx; [by apply elem_of_nil in Hx|]. cbn.
    apply elem_of_cons in Hx as [->|Hx]; [lia|]. specialize (IH x Hx). lia. }
  unfold heap_next. intros Hx. specialize (Hle _ Hx). lia.
Qed.

Definition game_marshaller : SgpMarshaller CsPacketCoder := newMarshaller tt (mb_new 64) (mb_new 16).
Definition game_capacity : SessionCapacity := mkCapacity 100 3 2.
Definition game_spec : ServerSpec :=
  mkServerSpec [103] 2 [[49; 50; 55]] 7000 [49; 50; 55] 7001 1 100 [110] 0 30 30 game_capacity [99].

#[local] Abbreviation game_app := (SessionServerApp (M := SgpMarshaller CsPacketCoder) (A := unit) (Command := unit)).
#[local] Abbreviation game_hooks :=
  (SessionServerApp_hooks (Command := unit) obedient_server_app heap_next game_capacity game_marshaller tt game_spec true false).
#[local] Abbreviation run_game es := (runs_exec (app_exec (H := game_hooks)) es).

Definition game_files : gmap string string :=
  <["service.name" := "game"]> (<["log.file-pattern" := "_%N.log"]> (<["log.rotation-size" := "10"]> {["log.severity-level" := "info"]}))%string.
Definition game_environment : start_environment session_environment :=
  mkStart [] (mkEnvironment "/home" (λ _, Some (mkOptions false None (Some "game.ini"%string) None)) Some
    (λ a b, a +:+ "/" +:+ b)%string (λ _, Some game_files))
    (λ s, if bool_decide (s = "10"%string) then Some 10 else None) true true (mkSessionEnv (λ _, true) true [Some 1%nat]).
Definition new_game : ServerApp game_app := newApp (mkLogging true debug []) newSessionApp.

#[local] Abbreviation start_game es := (default new_game (run_game (Initialize game_environment :: es) new_game)).
(** A client is connected. *)
Definition game_events : list (app_event session_environment session_app_event) :=
  [OwnEvent (AppAccept 0 0 Succeeds)].
Definition game : ServerApp game_app := start_game game_events.
#[local] Abbreviation game_manager a := (default (newServer heap_next 1) (sessionManager_ (derived a))).

Lemma game_pool_fits : sessionPoolSize_ game_spec < 2 ^ 63.
Proof. done. Qed.

Lemma game_runs : run_game (Initialize game_environment :: game_events) new_game = Some game.
Proof. vm_compute. reflexivity. Qed.



(** The values of a monitor. *)
Inductive text_value := TextValue (s : string) | ArrayValue (l : list string).
#[local] Instance text_value_rpc : RpcValue text_value := {|
  rv_IsArray v := match v with ArrayValue _ => true | _ => false end;
  rv_Size v := match v with ArrayValue l => length l | _ => 0%nat end;
  rv_at i v := match v with ArrayValue l => TextValue (default "" (l !! i))%string | v => v end;
  rv_GetString v := match v with TextValue s => Some s | _ => None end;
|}.

Example rcon_reports_sessions_witness : ∃ r l, rconService_ (derived game) = Some r ∧
  (∀ b, b ∈ l ↔ connected game_capacity game_marshaller tt (game_manager game) b) ∧
  service_work (query_of (derived game)) (λ _ _ _ _ _, "ok"%string) (CallQuery (ArrayValue ["session.count"; "total"]%string)) r =
    Some (Ok (ResultText (pretty (N.of_nat (1 + length l))))).
Proof.
  destruct (rcon_reports_sessions (Command := unit) obedient_server_app heap_next heap_next_fresh game_capacity game_marshaller tt game_spec true false
    game_pool_fits (λ _ _ (_ _ _ : text_value), "ok"%string) (Initialize game_environment :: game_events) (mkLogging true debug []) game (game_manager game)
    (ArrayValue ["session.count"; "total"]%string) "total"%string game_runs ltac:(vm_compute; reflexivity) ltac:(done)
    ltac:(vm_compute; reflexivity) eq_refl eq_refl eq_refl eq_refl) as (r & l & Hr & _ & Hl & H).
  exists r, l. split; [exact Hr|]. split; [exact Hl|].
  assert (Hw : length (waiting (game_manager game)) = 1%nat) by (vm_compute; reflexivity). rewrite Hw in H. exact H.
Defined.

Definition is_idle (s : state (SgpMarshaller CsPacketCoder) unit) : bool :=
  negb (isDisconnectReserved (ses s)) && match posted (wld s) with [] => true | _ => false end.
Lemma game_idle : idle game_capacity game_marshaller tt (game_manager game).
Proof.
  assert (Hall : map_Forall (λ _ s, is_idle s = true) (sv_sessions (game_manager game))) by (refine (bool_decide_unpack _ _); vm_compute; exact I).
  intros a Ha. unfold connected, session_at in *. destruct (sv_sessions (game_manager game) !! a) as [s|] eqn:Es; [|done].
  specialize (Hall a s Es). cbn [default from_option id]. apply andb_true_iff in Hall as [H1%negb_true_iff H2]. split; [exact H1|].
  by destruct (posted (wld s)).
Qed.

Example idle_server_finishes_witness : ∃ es a',
  run_game ([Finalize; FinishPart] ++ (OwnEvent <$> es) ++ [FinishPart; FinishPart]) game = Some a' ∧
  length es = 2%nat ∧ phase a' = Finished false ∧ at_rest (derived a').
Proof.
  destruct (idle_server_finishes (Command := unit) obedient_server_app heap_next heap_next_fresh game_capacity game_marshaller tt game_spec true false
    game_pool_fits (Initialize game_environment :: game_events) (mkLogging true debug []) game (game_manager game) game_runs
    ltac:(vm_compute; reflexivity) ltac:(vm_compute; reflexivity) game_idle) as (es & a' & Hr & Hl & Hp & _ & Hd).
  assert (Hn : getActiveSessionCount (sv_manager (game_manager game)) = 2%nat) by (vm_compute; reflexivity). rewrite Hn in Hl.
  exists es, a'. split; [exact Hr|]. split; [exact Hl|]. split; [exact Hp|exact Hd].
Defined.

(** The client is sent a message and is to be disconnected gracefully. *)
Definition farewell : block := mkBlock 1 (mkMB [0; 0; 0; 7] 0 4).
Definition farewell_events : list (app_event session_environment session_app_event) :=
  Initialize game_environment :: game_events ++ (OwnEvent <$> [AppSession 1 (EvCall (PSend farewell 21)); AppSession 1 EvPosted;
    AppSession 1 (EvCall PDisconnectGracefully); AppSession 1 EvPosted]).
Definition farewell_game : ServerApp game_app := default new_game (run_game farewell_events new_game).
Lemma farewell_runs : run_game farewell_events new_game = Some farewell_game.
Proof. vm_compute. reflexivity. Qed.

Example finalize_waits_for_ever_witness : ∃ a1,
  run_game [Finalize; FinishPart; OwnEvent (AppSession 1 EvPosted)] farewell_game = Some a1 ∧
  ∀ es a', Forall (λ e, match e with OwnEvent e => undisturbed 1 e = true | _ => True end) es → run_game es a1 = Some a' →
    phase a' = Finishing false 1.
Proof.
  destruct (finalize_waits_for_ever (Command := unit) obedient_server_app heap_next heap_next_fresh game_capacity game_marshaller tt game_spec true false
    game_pool_fits farewell_events (mkLogging true debug []) farewell_game (game_manager farewell_game) 1 farewell_runs
    ltac:(vm_compute; reflexivity) ltac:(vm_compute; reflexivity) ltac:(vm_compute; reflexivity) ltac:(vm_compute; reflexivity)
    ltac:(vm_compute; reflexivity) ltac:(vm_compute; reflexivity) ltac:(vm_compute; reflexivity)) as (a1 & H1 & H2).
  exists a1. split; [exact H1|]. intros es a' He Hr. by destruct (H2 es a' He Hr) as [Hp _].
Defined.

(** The game is the server of a database proxy with one thread. *)
Definition database_files : gmap string string :=
  <["database.connection-type" := "direct"]>%string (<["database.ping-interval" := "1000"]>%string game_files).
Definition database_environment : start_environment (db_environment session_environment) :=
  mkStart [] (mkEnvironment "/home" (λ _, Some (mkOptions false None (Some "game.ini"%string) None)) Some
    (λ a b, a +:+ "/" +:+ b)%string (λ _, Some database_files))
    (se_lexical_cast game_environment) true true
    (mkDbEnv (mkSessionEnv (λ _, true) true [Some 1%nat]) (λ _, Some 1000) (λ _, Some true)).
Definition insertion : ModifyRequest := mkRequest 5 2 [65] [Param_int32 7].
Definition delegated_on_read {X} (e : session_app_event) (_ : X) : list ModifyRequest :=
  match e with AppSession _ (EvRead _ _) => [insertion] | _ => [] end.

#[local] Abbreviation database_hooks :=
  (db_hooks (H := game_hooks) (delegated_on_read (X := game_app)) 1 taskScheduler_).
#[local] Abbreviation run_database es := (runs_exec (app_exec (H := database_hooks)) es).
Definition new_database : ServerApp (BaseDatabaseProxyServerApp game_app) := newApp (mkLogging true debug []) (newDbApp newSessionApp).
(** A client delegates a request, whose call begins. *)
Definition database_events : list (app_event (db_environment session_environment) (db_app_event session_app_event)) :=
  Initialize database_environment :: (OwnEvent <$> [DbBase (AppAccept 0 0 Succeeds); DbBase (AppSession 1 (EvRead 5 (Some [0])));
    DbThread (Svc 0 0); DbThread (Svc 0 0)]).
Definition database : ServerApp (BaseDatabaseProxyServerApp game_app) := default new_database (run_database database_events new_database).
Lemma database_runs : run_database database_events new_database = Some database.
Proof. vm_compute. reflexivity. Qed.

#[local] Abbreviation game_laws :=
  (SessionServerApp_spec (Command := unit) obedient_server_app heap_next heap_next_fresh game_capacity game_marshaller tt game_spec true false game_pool_fits).


Lemma game_without_scheduler (x : game_app) : x = newSessionApp → taskScheduler_ x = false.
Proof. by intros ->. Qed.

Example database_is_never_pinged_witness : pingTask_ <$> proxyDatabaseManager_ (derived database) = Some None.
Proof.
  assert (E : ∃ m, proxyDatabaseManager_ (derived database) = Some m) by (eexists; vm_compute; reflexivity). destruct E as [m Em].
  pose proof (database_is_never_pinged (HS := game_laws) (delegated_on_read (X := game_app)) 1 taskScheduler_ database_events (mkLogging true debug [])
    newSessionApp database m game_without_scheduler eq_refl database_runs Em) as Hm.
  rewrite Em. cbn [fmap option_fmap option_map]. by rewrite Hm.
Defined.

