(* ===== verification/AdoProperties.v ===== *)
(** * The properties of the wrapper of ADO

    The theorems on [AdoVariant.v], [AdoDatabase.v] and [SqlServer.v], each with a witness
    where it has hypotheses. *)

From Stdlib Require Import SpecFloat.
From S2P Require Import Prelude Bits RpcTypes DatabaseRequest AdoVariant AdoDatabase SqlServer.

(** ** The values of a database *)


(** Numbers that are read as others without an error: an unsigned one of 32 bits as
    a negative one, a negative one as a large one, a negative DECIMAL without its
    sign, a DECIMAL with a scale without its point, and one whose digits do not
    fit in 32 bits without its upper digits, even if its value fits. *)
Theorem integers_are_misread {V} `{HV : VariantLaws V} `{TimeLibrary} (v : V) :
  (vt v = VT_UI4 → 2 ^ 31 ≤ ulVal v → getInteger_int64 v = Ok (ulVal v - 2 ^ 32)) ∧
  (vt v = VT_I4 → lVal v < 0 → getInteger_uint64 v = Ok (2 ^ 32 + lVal v)) ∧
  (vt v = VT_DECIMAL → decVal_Lo64 v < 2 ^ 63 → getInteger_int64 v = Ok (decVal_Lo64 v)) ∧
  (vt v = VT_DECIMAL → decVal_sign v = false → 0 < decVal_scale v → (∃ m e, pow10 (decVal_scale v) = S754_finite false m e) →
     (2 ^ 32 | decVal_Lo64 v) → getInteger (Number PS32) v = Ok 0).
Proof.
  pose proof (ulVal_type v) as Hu. pose proof (lVal_type v) as Hl. pose proof (Lo64_type v) as HL. unfold is_uint, is_sint in *.
  split_and!; intros Ev.
  - intros Hge. unfold getInteger_int64, getInteger. rewrite Ev. f_equal.
    change (sint 32 (ulVal v) = ulVal v - 2 ^ 32). unfold sint.
    replace (ulVal v + 2 ^ (32 - 1)) with ((ulVal v - 2 ^ 31) + 1 * 2 ^ 32) by lia. rewrite Z.mod_add, Z.mod_small by lia. lia.
  - intros Hlt. unfold getInteger_uint64, getInteger. rewrite Ev. f_equal.
    change (uint 32 (lVal v) = 2 ^ 32 + lVal v). unfold uint.
    replace (lVal v) with ((2 ^ 32 + lVal v) + (-1) * 2 ^ 32) at 1 by lia. rewrite Z.mod_add, Z.mod_small by lia. lia.
  - intros Hlt. unfold getInteger_int64. rewrite Ev. f_equal. destruct (Lo64_overlaps v) as [-> _].
    apply sint_id; [done|]. unfold is_sint. lia.
  - intros Hs Hsc (m & e & Hp) [k Hk]. unfold getInteger. rewrite Ev, Hs, (proj2 (Z.ltb_lt _ _) Hsc), Hp.
    assert (variant_cast (Number PS32) (decVal_Lo64 v) = 0) as ->; [|done].
    change (sint 32 (decVal_Lo64 v) = 0). rewrite Hk. unfold sint. rewrite Z.add_comm, Z.mod_add by done. done.
Qed.

(** ** The connection *)

Section database.
Context {V W : Type} `{HL : ConnectionLaws V W}.

(** [open] of an open database closes it, throws through the pointer that [close] left
    null, catches that, and answers [false]. *)
Theorem reopening_fails (d : AdoDatabase) (w : W) connectionString timeout : opened d w = true →
  ∃ w', ado_open (V := V) connectionString timeout (d, w) =
    (Ok false, (set_lastError (error_text pointer_error) (set_lastResult E_POINTER
       (set_connectionString connectionString (set_connection None d))), w')).
Proof.
  intros Ho. destruct (close_open d w Ho) as [w1 Ec]. exists w1. unfold ado_open. st_step (isOpened_run (V := V) d w). rewrite Ho.
  assert (Er : (close (V := V) ;; mret true) (d, w) = (Ok true, (set_connection None d, w1))) by by st_step Ec.
  st_step Er. cbv iota. set (d1 := set_connectionString connectionString (set_connection None d)).
  assert (E : open_block (V := V) connectionString timeout (set_connection None d, w1) = (Throw (ComError pointer_error), (d1, w1))).
  { unfold open_block. st_step (on_database_run (set_connectionString connectionString) (set_connection None d) w1).
    by rewrite (bind_throw _ _ _ _ _ (connection_null d1 w1 eq_refl)). }
  change (ado_default (open_block (V := V) connectionString timeout) false (set_connection None d, w1) =
    (Ok false, (set_lastError (error_text pointer_error) (set_lastResult E_POINTER d1), w1))).
  unfold ado_default. rewrite (catch_error _ _ _ _ _ E). by st_step (setLastError_fits pointer_error d1 w1 pointer_error_fits).
Qed.

(** [ping] counts the records of its query; when the query fails it closes the connection and
    opens a new one as the last time, and the database is open if and only if
    that one could be made and opened. *)
Theorem ping_reconnects (d : AdoDatabase) (w w1 : W) c r : connection_ d = Some c →
  Connection_Execute (V := V) c "SELECT @@VERSION" w = (r, w1) → open_fits (V := V) (W := W) (lastConnectionString_ d) →
  match r with
  | Ok records => ping (V := V) (d, w) = (Ok tt, (set_affected (sint 16 records) d, w1))
  | Throw (ComError e) => fits_buffer e → ∃ d' w', ping (V := V) (d, w) = (Ok tt, (d', w')) ∧
      lastConnectionString_ d' = lastConnectionString_ d ∧
      (connection_ d' = None ∧ opened d' w' = false ∨
       ∃ c' w2 r', connection_ d' = Some c' ∧ Connection_Open (V := V) c' (lastConnectionString_ d) w2 = (r', w') ∧
         opened d' w' = match r' with Ok hr => SUCCEEDED hr | Throw _ => false end)
  | _ => True
  end.
Proof.
  intros Hc Ee Hfit. unfold ping. pose proof (in_ado_run (Connection_Execute (V := V) c "SELECT @@VERSION") d w _ _ Ee) as E1.
  destruct r as [n|e].
  - apply catch_ok. unfold count_affected. st_step (connection_run d w c Hc). st_step E1. apply on_database_run.
  - destruct e as [e| | | | | | | |]; try done. intros Hf.
    assert (E : count_affected (V := V) "SELECT @@VERSION" (d, w) = (Throw (ComError e), (d, w1))).
    { unfold count_affected. st_step (connection_run d w c Hc). by rewrite (bind_throw _ _ _ _ _ E1). }
    rewrite (catch_error _ _ _ _ _ E). st_step (setLastError_fits e d w1 Hf).
    set (d1 := set_lastError (error_text e) (set_lastResult (ce_Error e) d)).
    assert (∃ d2 w2, close (V := V) (d1, w1) = (Ok tt, (d2, w2)) ∧ opened d2 w2 = false ∧ lastConnectionString_ d2 = lastConnectionString_ d)
      as (d2 & w2 & Ecl & Ho & Es).
    { destruct (opened d1 w1) eqn:Ho1; [|by exists d1, w1; rewrite (close_closed d1 w1 Ho1)].
      destruct (close_open d1 w1 Ho1) as [w2 Ecl]. by exists (set_connection None d1), w2. }
    st_step Ecl. assert (El : in_database (gets lastConnectionString_) (d2, w2) = (Ok (lastConnectionString_ d), (d2, w2))) by (by rewrite <- Es).
    st_step El. destruct (open_closed d2 w2 (lastConnectionString_ d) 2 Ho Hfit) as (b & d' & w' & Eo & Hop & Hcase).
    exists d', w'. split; [by st_step Eo|]. destruct Hcase as [(Hn & -> & Hs)|(Hs & c' & w3 & r' & Hc' & Eopen & ->)].
    + split; [congruence|]. by left.
    + split; [done|]. right. by exists c', w3, r'.
Qed.
End database.

Section objects.
Context {V W : Type} `{AdoLibrary V W}.

(** [execute] keeps the low 16 bits of the number of records. *)
Theorem affected_records_are_cut (d : AdoDatabase) (w w1 : W) c sql records : connection_ d = Some c → sql ≠ ""%string →
  Connection_Execute (V := V) c sql w = (Ok records, w1) →
  ado_execute (V := V) sql (d, w) = (Ok tt, (set_affected (sint 16 records) d, w1)) ∧
  (sint 16 records = records ↔ is_sint 16 records).
Proof.
  intros Hc Hs Ee. split.
  - unfold ado_execute. st_step (on_database_run (set_affected 0) d w). rewrite bool_decide_false by done. apply catch_ok.
    unfold count_affected. st_step (connection_run (set_affected 0 d) w c Hc).
    by st_step (in_ado_run (Connection_Execute (V := V) c sql) (set_affected 0 d) w _ _ Ee).
  - split; [intros <-; by apply sint_range|by apply sint_id].
Qed.

(** [getRecordCount] gives the number of rows, except after the last row when ADO cannot
    tell it. *)
Theorem rows_are_counted `{HL : !RecordsetLaws V W} fuel r (d : AdoDatabase) (w : W) : (rs_rows r w < fuel)%nat →
  ∃ n w', getRecordCount (V := V) fuel (mkRecordSet (Some r), (d, w)) = (Ok n, (mkRecordSet (Some r), (d, w'))) ∧
    rs_rows r w' = rs_rows r w ∧
    ((n = uint 64 (Z.of_nat (rs_rows r w)) ∧ (w' = w ∨ rs_position r w' = 0%nat)) ∨
     (n = 0 ∧ w' = w ∧ (rs_rows r w ≤ rs_position r w)%nat ∧ GetRecordCount (V := V) r w = (Ok (-1), w))).
Proof. apply getRecordCount_run. Qed.

(** The string given to a parameter is freed twice: by the destructor of the
    [_variant_t], and by that of the [_bstr_t] it was taken from. *)
Theorem string_is_freed_twice (value : list Z) p (s : AdoDatabase * W) : ∃ bstr w r d w',
  SysAllocString (V := V) (c_string value) (snd s) = (bstr, w) ∧
  setValueWithString (V := V) value p s = (r, (d, SysFreeString (V := V) bstr (SysFreeString (V := V) bstr w'))).
Proof.
  unfold setValueWithString. destruct (SysAllocString (c_string value) (snd s)) as [bstr w] eqn:Ea.
  destruct (ado_try _ lastError (fst s, w)) as [r [d w']] eqn:E. by exists bstr, w, r, d, w'.
Qed.

(** A parameter that the command refuses is made as if it had not been refused. *)
Theorem refused_parameter_is_ignored (c : AdoCommand) type direction size (d : AdoDatabase) (w w1 w2 w3 w4 w5 : W) hr p q e :
  CreateInstance (V := V) Parameter_ w = (Ok (hr, Some p), w1) → put_Direction (V := V) p direction w1 = (Ok tt, w2) →
  put_Type (V := V) p type w2 = (Ok tt, w3) → put_Size (V := V) p (sint 32 size) w3 = (Ok tt, w4) →
  command_ptr c = Some q → Parameters_Append (V := V) q (Some p) w4 = (Throw (ComError e), w5) → fits_buffer e →
  newAdoParameter (V := V) c type direction size (d, w) =
    (Ok (Some p), (set_lastError (error_text e) (set_lastResult (ce_Error e) d), w5)).
Proof.
  intros E1 E2 E3 E4 Hq E5 Hf. unfold newAdoParameter.
  st_step (in_ado_run (CreateInstance (V := V) Parameter_) d w _ _ E1). cbn [snd arrow]. st_step (mret_run p (d, w1)).
  st_step (in_ado_run (put_Direction (V := V) p direction) d w1 _ _ E2). st_step (in_ado_run (put_Type (V := V) p type) d w2 _ _ E3).
  st_step (in_ado_run (put_Size (V := V) p (sint 32 size)) d w3 _ _ E4).
  assert (E : addParameter (V := V) (Some p) c (d, w4) = (Ok false, (set_lastError (error_text e) (set_lastResult (ce_Error e) d), w5))).
  { unfold addParameter, ado_default. rewrite Hq. cbn [arrow].
    assert (Ea : (p0 ← mret q; in_ado (Parameters_Append (V := V) p0 (Some p)) ;; mret true) (d, w4) = (Throw (ComError e), (d, w5))).
    { st_step (mret_run q (d, w4)). by rewrite (bind_throw _ _ _ _ _ (in_ado_run (Parameters_Append (V := V) q (Some p)) d w4 _ _ E5)). }
    rewrite (catch_error _ _ _ _ _ Ea). by st_step (setLastError_fits e d w5 Hf). }
  by st_step E.
Qed.
End objects.

(** ** The calls *)

Section calls.
Context {V W : Type} `{Variant V} `{!AdoLibrary V W} `{TimeLibrary}.


(** When ADO makes no command an exception leaves [call], whose caller, the thread of the
    scheduler, does not catch it. *)
Theorem exception_leaves_call (r : ModifyRequest) (d : AdoDatabase) (w w1 : W) hr :
  isValidRequest r = true → request_type r = rtStoredProcedure → CreateInstance (V := V) Command w = (Ok (hr, None), w1) →
  sql_server_call (V := V) r (d, w) = (Throw (AdoException (text (command_ r))),
    (set_lastError (error_text pointer_error) (set_lastResult E_POINTER d), w1)).
Proof.
  intros Hv Ht Ec. unfold sql_server_call. rewrite Hv, Ht. cbn [negb]. rewrite Z.eqb_refl. cbn [negb].
  assert (Hne : command_ r ≠ []).
  { intros E. unfold isValidRequest in Hv. rewrite E in Hv. rewrite bool_decide_true in Hv by done. cbn [negb] in Hv.
    by rewrite andb_false_r in Hv. }
  assert (E : newAdoCommand (V := V) (command_ r) (d, w) = (Throw (AdoException (text (command_ r))),
    (set_lastError (error_text pointer_error) (set_lastResult E_POINTER d), w1))).
  { unfold newAdoCommand, ado_try.
    match goal with |- catch_com ?m _ _ = _ => assert (Em : m (d, w) = (Throw (ComError pointer_error), (d, w1))) end.
    { st_step (in_ado_run (CreateInstance (V := V) Command) d w _ _ Ec). cbn [snd]. by rewrite bool_decide_false by done. }
    rewrite (catch_error _ _ _ _ _ Em). by st_step (setLastError_fits pointer_error d w1 pointer_error_fits). }
  by rewrite (bind_throw _ _ _ _ _ E).
Qed.
End calls.

(** ** A concrete ADO *)

(** A VARIANT with its tag and the 64 bits of its union; [Some] scale and sign. *)
Record toy_variant := mkVariant { toy_vt : vartype; toy_bits : Z; toy_sign : bool; toy_scale : Z }.
#[local] Instance toy_Variant : Variant toy_variant := {|
  vt := toy_vt;
  cVal v := sint 8 (toy_bits v); bVal v := uint 8 (toy_bits v); iVal v := sint 16 (toy_bits v); uiVal v := uint 16 (toy_bits v);
  lVal v := sint 32 (toy_bits v); ulVal v := uint 32 (toy_bits v); intVal v := sint 32 (toy_bits v); uintVal v := uint 32 (toy_bits v);
  llVal v := sint 64 (toy_bits v); ullVal v := uint 64 (toy_bits v);
  fltVal v := to_double (sint 64 (toy_bits v)); dblVal v := to_double (sint 64 (toy_bits v));
  boolVal v := sint 16 (toy_bits v); date v := to_double (sint 64 (toy_bits v));
  decVal_Lo64 v := uint 64 (toy_bits v); decVal_sign := toy_sign; decVal_scale v := uint 8 (toy_scale v);
  bstrVal v := None;
|}.
#[local] Instance toy_VariantLaws : VariantLaws toy_variant.
Proof.
  split; intros v; cbn; try (by apply sint_range); try (by apply uint_range). split; [|done]. by rewrite sint_uint.
Qed.
#[local] Instance toy_time : TimeLibrary := {|
  VariantTimeToSystemTime _ := mkSystemTime 2000 1 1 0 0 0;
  SystemTimeToVariantTime _ := to_double 36526;
  localtime _ := None; AdoVariant.time := 0; mktime _ := 946684800;
  pow10 n := to_double (10 ^ n);
|}.


Example integers_are_misread_example :
  getInteger_int64 (mkVariant VT_UI4 3000000000 false 0) = Ok (-1294967296) ∧
  getInteger_uint64 (mkVariant VT_I4 (-1) false 0) = Ok 4294967295 ∧
  getInteger_int64 (mkVariant VT_DECIMAL 1234 true 2) = Ok 1234 ∧
  getInteger (Number PS32) (mkVariant VT_DECIMAL (2 ^ 32) false 2) = Ok 0 ∧
  getInteger (Number PS32) (mkVariant VT_DECIMAL 1299 true 2) = Ok (-12).
Proof. by vm_compute. Qed.

(** One connection, at address 1, and one record set. *)
Record toy_ado := mkToyAdo { toy_state : Z; toy_rows : nat; toy_position : nat; toy_alive : bool }.
Definition toy_error : com_error := mkComError 0x80004005 (Some "Unspecified error"%string) (Some "ADO"%string) (Some "closed"%string).
Definition toy_ok {A} (a : A) : st toy_ado A := mret a.
Definition set_toy_state (s : Z) (w : toy_ado) : toy_ado := mkToyAdo s (toy_rows w) (toy_position w) (toy_alive w).
Definition set_toy_position (n : nat) (w : toy_ado) : toy_ado := mkToyAdo (toy_state w) (toy_rows w) n (toy_alive w).
Definition toy_create : st toy_ado (Z * option Z) := modify (set_toy_state adStateClosed) ;; mret (S_OK, Some 1).
#[local] Instance toy_library : AdoLibrary toy_variant toy_ado := {|
  CreateInstance _ := toy_create;
  Release _ w := w;
  GetState _ := gets toy_state;
  put_CursorLocation _ _ := toy_ok tt;
  put_ConnectionTimeout _ _ := toy_ok tt;
  Connection_Open _ _ := modify (set_toy_state adStateOpen) ;; mret S_OK;
  Connection_Close _ := modify (set_toy_state adStateClosed);
  Connection_Execute _ _ w := if toy_alive w then (Ok 40000, w) else (Throw (ComError toy_error), w);
  Recordset_Open _ _ _ := toy_ok tt;
  Recordset_Close _ := toy_ok tt;
  EndOfFile _ := gets (λ w, bool_decide (toy_rows w ≤ toy_position w)%nat);
  MoveFirst _ := modify (set_toy_position 0);
  MoveNext _ := modify (λ w, set_toy_position (S (toy_position w)) w);
  NextRecordset _ := toy_ok None;
  GetRecordCount _ := toy_ok (-1);
  GetItem _ _ := toy_ok (mkVariant VT_NULL 0 false 0);
  GetCollect _ _ := toy_ok (mkVariant VT_NULL 0 false 0);
  put_CommandText _ _ := toy_ok tt;
  put_CommandType _ _ := toy_ok tt;
  put_ActiveConnection _ _ := toy_ok tt;
  Command_Execute _ _ := toy_ok None;
  Parameters_Append _ _ w := if toy_alive w then (Ok tt, w) else (Throw (ComError toy_error), w);
  put_Direction _ _ := toy_ok tt;
  put_Type _ _ := toy_ok tt;
  put_Size _ _ := toy_ok tt;
  get_Size _ := toy_ok 0;
  put_Value _ _ := toy_ok tt;
  get_Value _ := toy_ok (mkVariant VT_NULL 0 false 0);
  SysAllocString _ w := (7, w);
  SysFreeString _ w := w;
|}.
#[local] Instance toy_connections : ConnectionLaws toy_variant toy_ado.
Proof.
  refine (Build_ConnectionLaws toy_variant toy_ado _ (λ _ w, toy_state w) _ _ _ _ _ _).
  - done.
  - intros c w _. by eexists.
  - intros w. exists S_OK, (Some 1), (set_toy_state adStateClosed w). split_and!; [done|intros _; by exists 1|done].
  - intros c n w. by exists w.
  - intros c n w. by exists w.
  - intros c cs w _. by exists (Ok S_OK), (set_toy_state adStateOpen w).
Defined.
#[local] Instance toy_recordsets : RecordsetLaws toy_variant toy_ado.
Proof.
  refine (Build_RecordsetLaws toy_variant toy_ado _ (λ _, toy_rows) (λ _, toy_position) _ _ _ _).
  - done.
  - intros r w _. by eexists.
  - intros r w _. by eexists.
  - intros r w. exists (-1). split; [done|by left].
Defined.

Definition toy_database : AdoDatabase := set_connection (Some 1) (set_connectionString "dsn" (newAdoDatabase 0)).
Definition toy_open : toy_ado := mkToyAdo adStateOpen 3 0 true.
Definition toy_broken : toy_ado := mkToyAdo adStateOpen 3 0 false.

Lemma toy_open_fits cs : open_fits (V := toy_variant) (W := toy_ado) cs.
Proof. intros c w1 e w2. done. Qed.

Example reopening_fails_witness : ∃ d w, ado_open (V := toy_variant) "other" 4 (toy_database, toy_open) = (Ok false, (d, w)) ∧ connection_ d = None.
Proof.
  destruct (reopening_fails (HL := toy_connections) toy_database toy_open "other" 4) as [w Hw]; [reflexivity|]. eexists _, w. split; [exact Hw|reflexivity].
Defined.

Example ping_reconnects_witness : ∃ d w, ping (V := toy_variant) (toy_database, toy_broken) = (Ok tt, (d, w)) ∧ lastConnectionString_ d = "dsn"%string.
Proof.
  destruct (ping_reconnects (HL := toy_connections) toy_database toy_broken toy_broken 1 (Throw (ComError toy_error)) eq_refl eq_refl (toy_open_fits _))
    as (d & w & Hp & Hs & _); [unfold fits_buffer; apply Nat.ltb_lt; vm_compute; reflexivity|].
  exists d, w. split; [exact Hp|exact Hs].
Defined.

Example affected_records_are_cut_witness : ∃ d w, ado_execute (V := toy_variant) "UPDATE t" (toy_database, toy_open) = (Ok tt, (d, w)) ∧
  affectedRecordsCount_ d = -25536.
Proof.
  destruct (affected_records_are_cut (V := toy_variant) toy_database toy_open toy_open 1 "UPDATE t" 40000) as [H _]; [reflexivity|discriminate|reflexivity|].
  eexists _, _. split; [exact H|reflexivity].
Defined.

Example rows_are_counted_witness : ∃ n w', getRecordCount (V := toy_variant) 10 (mkRecordSet (Some 1), (toy_database, toy_open)) =
  (Ok n, (mkRecordSet (Some 1), (toy_database, w'))) ∧ n = 3.
Proof.
  destruct (rows_are_counted (HL := toy_recordsets) 10 1 toy_database toy_open) as (n & w' & Hr & _ & H); [unfold toy_open; cbn; lia|].
  exists n, w'. split; [exact Hr|]. destruct H as [[-> _]|(_ & _ & Hle & _)]; [reflexivity|cbn in Hle; lia].
Defined.

Example refused_parameter_is_ignored_witness : ∃ s, newAdoParameter (V := toy_variant) (mkAdoCommand (Some 1) []) adInteger adParamInput 4
  (toy_database, toy_broken) = (Ok (Some 1), s).
Proof.
  eexists. eapply (refused_parameter_is_ignored (V := toy_variant) (mkAdoCommand (Some 1) []) adInteger adParamInput 4 toy_database toy_broken);
    try reflexivity. unfold fits_buffer. apply Nat.ltb_lt. vm_compute. reflexivity.
Defined.

